(* ===== verification/_CoqProject ===== *)
-Q . S2P
Prelude.v
Words.v
Checksum.v
Ip.v
IpProps.v
Nat.v
NatProps.v
Snat.v
Xdp.v
SnatProps.v
TcpParse.v
Reseq.v
ReseqProps.v
ReseqRuns.v
Gso.v
GsoProps.v
Session.v
SessionProps.v
Conn.v
ConnProps.v
RxLoop.v
RxLoopProps.v
Multi.v
MultiProps.v
Egress.v
EgressProps.v
GsoEgress.v
Vring.v
VringProps.v
Uring.v
UringProps.v
Device.v
DeviceProps.v
Router.v
RouterProps.v
Repo.v
Mgmt.v
RepoProps.v
Migrate.v
MigrateProps.v
MgmtProps.v
Setup.v
SetupProps.v
Path.v
PathProps.v
Config.v
ConfigProps.v
Watch.v
WatchProps.v
Topology.v
Startup.v
StartupProps.v
Shutdown.v
ShutdownProps.v
Boot.v
BootProps.v
Life.v
LifeProps.v
Tunnel.v
TunnelProps.v
StreamProps.v
Stats.v
StatsProps.v
