(* ===== verification/Prelude.v ===== *)
(** * tmasqued: a verification development of the MASQUE VPN server

    tmasqued ends QUIC tunnels (CONNECT-IP) on a Linux gateway and forwards the
    clients' packets.  Its parts, all under src/src/, and the files that model
    them:

    - the way out: main.go's forward router ([forwardOne]) sends a client's
      packet to the server itself, to another client's tunnel, to a local network
      or to the WAN.  It uses the source translation and port allocator
      (xdp/nat.go, xdp/snat.go), the resequencer (utility/reseq.go) and the
      batches of the egress (utility/forward_batch.go and its alternatives);
    - the way back: the XDP program (xdp/xdp.c) translates replies in the kernel
      and hands them to the AF_XDP connection (xdp/conn.go, multiconn.go), whose
      session table (xdp/tunnel.go) or the TUN reader of main.go finds the tunnel;
    - the control plane: SQLite tables (migration, repository), services and the
      HTTP API (management.go);
    - the process: the configuration and its watcher, the start with its sizes,
      NICs, sockets and routes, and the ways it ends.

    ** Files

    Prelude, Words, Checksum: lists, bytes, results and reachability; 8, 16, 32
    and 64-bit words as [Z] with their wrap-around written out; ones' complement
    sums with the incremental update of RFC 1624.

    Ip, IpProps: utility/ip.go, query.go.  Prefixes on address bytes.

    Nat, NatProps: xdp/nat.go.  [NatTable] with the kernel's map as a gmap, whose
    put may fail or evict ([mapPut], a parameter with the law [plain_put] meets).
    The port a flow holds leads replies back to it; ports are not shared.

    Snat, Xdp, SnatProps: xdp/snat.go, xdp/xdp.c.  Both rewrites on packet bytes
    keep checksums valid and change nothing else; composed, a reply reaches the
    client that sent the packet.

    TcpParse, Reseq, ReseqProps, ReseqRuns: [parseTCP], [ForwardReseq] and the
    observers.  A stream reordered within the window leaves in order; nothing is
    invented.  ReseqRuns is about whole runs: one stream among other traffic, with
    sweeps at any time ([timely]: none finds the stream idle with a gap).

    Gso, GsoProps: utility/tun_gso.go.  The kernel's segmentation of the frames
    written gives back each flow's segments.

    Session, SessionProps: xdp/tunnel.go, utility/flowhash.go.  The session table
    refines a map from addresses and slots to sessions.

    Conn, ConnProps, Multi, MultiProps: xdp/conn.go, multiconn.go.  Classifying and
    handing over frames, the shards under any interleaving of producers and
    consumer (no frame lost or reordered, no lost wake-up), transmission.

    RxLoop, RxLoopProps: the rest of conn.go: the receive loop around
    [receiveFrame], the health snapshot, the socket buffers, Close.

    Egress, EgressProps: utility/xdp_batch.go, packet_tx.go, socket.go,
    forward_batch.go, xdp/txpump.go.  The class [fwdEgress] is the Go interface;
    [EgressLog] is what the forward batch and the writer rely on, a log of the
    packets accepted; [EgressLaws] is what an egress that drains promises on top.
    The batches that implement them discharge them.  GsoEgress does so for the
    default egress, the TUN GSO batch, with the history of its calls as the log.

    Vring, VringProps, Uring, UringProps: utility/vhost.go, uring.go and their
    batches, each beside a model of the kernel's reading side.  For io_uring that
    is an input of every flush: how many entries the call takes, and the
    completions, in any order and at any time ([enterAns], [uringEvent]).

    Device, DeviceProps: the constructors and Close of the egress devices as
    system-call programs over the process's descriptors and mappings, with a
    small Hoare logic; which call fails is a parameter.

    Router, RouterProps: main.go's [pickTunnel], the channel registry, the router
    and one round of the forward writer.

    Tunnel, TunnelProps: main.go's goroutines of one connection: the upload
    reader and the writer's loop, the download goroutine, and the end of the
    connection as interleaved steps.

    Setup, SetupProps: main.go's /vpn handler and [handleConn] as stages of
    connections that interleave with each other, with the management API and with
    both download producers.

    Repo, RepoProps, Mgmt, MgmtProps, Migrate, MigrateProps: domain, repository,
    service, request, response, management.go, migration.  A repository function
    is a transaction over tables with the schema's constraints; a request acts as
    repository calls ([endpoint_op]); the mux's path cleaning and its redirects
    are those of net/http ([mux_path], [find_handler]).

    Config, ConfigProps: config/, utility/config.go, logger/, stats/.  The readers
    of the boot ([load_line]) and of the hot reload ([reload_line]) are separate
    definitions, as in the code.

    Watch, WatchProps: config/watch.go's goroutine: the scan of inotify's bytes
    and its steps between those of the processes that change the file, from the
    boot's first reading of it on.

    Topology, Startup, StartupProps: main.go's main() and run(); xdp/nics.go,
    channels.go, queues.go, loader.go, arp.go and [NewConn] of conn.go.  The
    kernel's reports are inputs ([linkInfo], [nicEnv]).

    Shutdown, ShutdownProps: main.go's RunPreDown, GracefullyShutDown and the
    restoration of MTUs and offload flags from their files; loader.go's Close.
    The machine is a record [host]; which MTUs and flags its kernel accepts, for a
    link with or without the program, are parameters ([accepts], [toggles]) without
    any assumption.

    Boot, BootProps: main() from the configuration to the listener, with the TUN
    device, the bootstrap and the TLS and QUIC settings; it composes Startup,
    Migrate and Config.

    Path, PathProps, StreamProps: the data path end to end.  A frame at a NIC
    goes through Xdp, Conn and Session to a server of Setup over the table Nat
    and Router fill; a TCP upload goes through Tunnel, Reseq, Snat, Egress and
    the GSO batch.

    Stats, StatsProps: the statistics line: the counters of the package, added to
    and loaded one atomic operation at a time.

    Life, LifeProps: main()'s goroutines, signals and both shutdowns over a
    [host], interleaved stage by stage.

    ** What the groups of theorems show

    Data path: [AllocPort_return_path], [snat_reply_roundtrip], [ApplySNAT_valid],
    [xdp_dnat_valid], [forwardOne_routes], [ForwardBatch_partition],
    [reseq_restores_order], [gso_stream_fidelity], [FlushExpired_spec].
    Resources: [batch_balanced] (whichever call fails, nothing stays open),
    [vhost_setup_order].
    Concurrency, as invariants of step relations or refinement of a queue:
    [shard_handoff_fifo], [no_lost_wakeup], [multiconn_merge], [txPump_fifo],
    [vring_fifo], [uring_batch_fifo], [exit_completes], [rx_loop_conserves],
    [reload_converges] (once the watch is set no change of the configuration is
    lost; one made before that is, [boot_window_lost]), [shutdown_completes].
    Termination: [watcher_settles], [stop_terminates] (bounded own steps, and no
    goroutine waits for ever), [exit_completes]; [scan_events_spec] for the scan.
    Composition: [return_reaches_client] (router, NAT, XDP program, receive path,
    session table, database: a reply reaches the client whose packet it answers),
    [upload_in_order] (reader, writer, resequencer, NAT shared with others, batch:
    a reordered stream leaves in sequence from one port), [upload_on_the_wire] (the
    same through the GSO batch: the data the kernel cuts out of its super-frames),
    [tunnels_isolated] (database, session table, registry and both producers: no
    packet of one client reaches another's tunnel, as long as no client with a
    tunnel is deleted and the pool is not reset), [upload_accounts],
    [download_in_order], [lan_route_owner] (start-up and router), [connect_disconnect].
    Control plane: [control_plane_consistent] (the addresses as long as the pool is
    not reset), [mgmt_refines_repo], [mgmt_atomic],
    [CreateClient_spec], [create_delete_roundtrip], [InvokeOn_spec],
    [client_routes_spec].  Start-up, configuration, shutdown: [run_binds],
    [mtu_bounds], [boot_consistent], [shutdown_restores], [reload_matches_boot], [conf_roundtrip], [settings_in_range].
    What the code gets wrong is proved as well: [writer_round_overflow],
    [exit_clobbers_successor], [assign_ip_duplicate], [deleted_client_keeps_tunnel],
    [send_on_closed_channel], [failed_setup_leaks_channel], [kernel_udp_other_wan],
    [gso_fin_lost], [gso_ack_merged], [SocketBatch_v6_alias],
    [uring_failed_enter_lag], [uring_error_leaks], [vhost_oversize_counted], [multiconn_truncates],
    [lru_eviction_shares_port], [reload_gc_changes_port], [ApplySNAT_udp_zero],
    [watch_lost], [boot_window_lost], [listen_port_truncated], [predown_failure_skips],
    [return_overtakes_shutdown], [signal_loses_saved_mtu], [refused_mtu_lost],
    [uring_short_submit_hangs], [uring_batch_reorders], [changed_network_keeps_pool], [udp_443_reply_lost],
    [other_port_not_served], [percent_over_100], [enabled_late_silent].
    The statistics line: [counts_consistent], [lines_grow], [quiet_line].

    ** Conventions

    A Go slice or array of bytes is a [list Z], a panic [None], a Go error [Err].
    Fuel is always the size of what is consumed and never runs out: [drain] and
    [flush_loop] use the buffer's size plus one, [allocLoop] the number of ports,
    [find_combined] the length of the text, [digits] the 19 digits of an int64,
    [scan] the length of the buffer plus one.
    Times are [Z] in nanoseconds, given by the caller.  Goroutines are steps of a
    relation with one step per critical section or channel operation; where a
    handler works on state of its own it is a function.

    ** Not modelled, and why

    QUIC, TLS, CONNECT-IP, the JSON scanner, the HTTP server, SQLite's engine and
    netlink are libraries: they appear as parameters, classes with laws, or through
    their documented effect.  A signal before run() attaches the
    programs is left out (see Life).  The BPF loading, the creation of devices and the
    scripts succeed or fail as an input says; the scripts' contents, CPU pinning,
    expvar counters, log lines and rand.go (never called) decide nothing.  A
    process that has exited has no further steps: what the kernel releases then is
    left out.  Data races on unlocked fields are
    outside the step relations. *)
From stdpp Require Export base tactics decidable list option gmap sets strings.
From Stdlib Require Export ZArith Lia.

(** ** Scope and small notations *)

Declare Scope masqued_scope.
Delimit Scope masqued_scope with mq.

(** Bytes are [Z]; a Go [[]byte] is a [list Z].  [byte_at b i] is [b[i]];
    every use in the models sits behind the source's own length guard, so the
    default is never what a modelled branch observes. *)
Abbreviation bytes := (list Z).
Definition byte_at (b : bytes) (i : nat) : Z := nth i b 0%Z.
Notation "b .[ i ]" := (byte_at b i) (at level 1, i at level 200, left associativity, format "b .[ i ]") : masqued_scope.

(** A byte list whose elements are bytes. *)
Definition bytes_ok (b : bytes) : Prop := Forall (fun x => (0 <= x < 256)%Z) b.

(** ** Tactics of the development *)

(** Split a boolean conjunction / disjunction hypothesis into its parts. *)
Ltac bool_hyps :=
  repeat match goal with
  | H : (_ && _)%bool = true |- _ => apply andb_true_iff in H; destruct H
  | H : (_ || _)%bool = false |- _ => apply orb_false_iff in H; destruct H
  | H : negb _ = true |- _ => apply negb_true_iff in H
  | H : negb _ = false |- _ => apply negb_false_iff in H
  | H : (_ <=? _)%Z = true |- _ => apply Z.leb_le in H
  | H : (_ <=? _)%Z = false |- _ => apply Z.leb_gt in H
  | H : (_ <? _)%Z = true |- _ => apply Z.ltb_lt in H
  | H : (_ <? _)%Z = false |- _ => apply Z.ltb_ge in H
  | H : (_ =? _)%Z = true |- _ => apply Z.eqb_eq in H
  | H : (_ =? _)%Z = false |- _ => apply Z.eqb_neq in H
  | H : (_ <=? _)%nat = true |- _ => apply Nat.leb_le in H
  | H : (_ <=? _)%nat = false |- _ => apply Nat.leb_gt in H
  | H : (_ <? _)%nat = true |- _ => apply Nat.ltb_lt in H
  | H : (_ <? _)%nat = false |- _ => apply Nat.ltb_ge in H
  | H : (_ =? _)%nat = true |- _ => apply Nat.eqb_eq in H
  | H : (_ =? _)%nat = false |- _ => apply Nat.eqb_neq in H
  end.

(** Case analysis on the first [if]/[match] scrutinee of the goal or of a
    hypothesis, keeping the equation. *)
Ltac case_if E :=
  match goal with
  | |- context [if ?c then _ else _] => destruct c eqn:E
  end.
Ltac case_if_in H E :=
  match type of H with
  | context [if ?c then _ else _] => destruct c eqn:E
  end.

(** Enter an early-return guard of a hypothesis: case on its condition, drop
    the branch that contradicts the hypothesis and read off the other. *)
Ltac guard_in H :=
  let E := fresh "Eg" in
  cbv zeta in H;
  match type of H with
  | (if ?c then _ else _) = _ => destruct c eqn:E; [discriminate H|]; bool_hyps
  end.

(** ** Generic lemmas on lists *)

Create HintDb mq.
Create Rewrite HintDb mqr.

Lemma length_pos_S {A} (l : list A) n : length l = S n -> exists x l', l = x :: l' /\ length l' = n.
Proof. destruct l as [|x l']; simpl; intros; [discriminate|]. exists x, l'. split; [done|lia]. Qed.

Lemma byte_at_lookup b i x : b !! i = Some x -> byte_at b i = x.
Proof. intros H. unfold byte_at. by apply nth_lookup_Some. Qed.

Lemma lookup_byte_at b i : (i < length b)%nat -> b !! i = Some (byte_at b i).
Proof.
  intros H. destruct (lookup_lt_is_Some_2 b i H) as [x Hx].
  by rewrite Hx, (byte_at_lookup _ _ _ Hx).
Qed.

Lemma byte_at_insert_eq b i x : (i < length b)%nat -> byte_at (<[i:=x]> b) i = x.
Proof. intros H. apply byte_at_lookup. by apply list_lookup_insert_eq. Qed.

Lemma byte_at_insert_ne b i j x : i <> j -> byte_at (<[i:=x]> b) j = byte_at b j.
Proof.
  intros H. unfold byte_at. rewrite !nth_lookup. by rewrite list_lookup_insert_ne.
Qed.

Lemma byte_at_insert b i j x : (i < length b)%nat ->
  byte_at (<[i:=x]> b) j = if decide (i = j) then x else byte_at b j.
Proof.
  intros H. case_decide; [subst; by apply byte_at_insert_eq|by apply byte_at_insert_ne].
Qed.

Lemma byte_at_app_l b c i : (i < length b)%nat -> byte_at (b ++ c) i = byte_at b i.
Proof. intros H. unfold byte_at. by apply app_nth1. Qed.

Lemma byte_at_app_r b c i : (length b <= i)%nat -> byte_at (b ++ c) i = byte_at c (i - length b).
Proof. intros H. unfold byte_at. by apply app_nth2. Qed.

Lemma byte_at_take b n i : (i < n)%nat -> byte_at (take n b) i = byte_at b i.
Proof. intros H. unfold byte_at. rewrite !nth_lookup. by rewrite lookup_take_lt. Qed.

Lemma byte_at_drop b n i : byte_at (drop n b) i = byte_at b (n + i).
Proof. unfold byte_at. rewrite !nth_lookup. by rewrite lookup_drop. Qed.

Lemma bytes_ok_at b i : bytes_ok b -> (0 <= byte_at b i < 256)%Z.
Proof.
  intros H. unfold byte_at. destruct (decide (i < length b)%nat) as [Hi|Hi].
  - apply (proj1 (List.Forall_nth _ b) H); done.
  - rewrite nth_overflow; lia.
Qed.

Lemma bytes_ok_insert b i x : bytes_ok b -> (0 <= x < 256)%Z -> bytes_ok (<[i:=x]> b).
Proof. intros. by apply Forall_insert. Qed.

Lemma bytes_ok_take b n : bytes_ok b -> bytes_ok (take n b).
Proof. apply Forall_take. Qed.
Lemma bytes_ok_drop b n : bytes_ok b -> bytes_ok (drop n b).
Proof. apply Forall_drop. Qed.
Lemma bytes_ok_app b c : bytes_ok b -> bytes_ok c -> bytes_ok (b ++ c).
Proof. intros. by apply Forall_app_2. Qed.

#[export] Hint Resolve bytes_ok_at bytes_ok_insert bytes_ok_take bytes_ok_drop bytes_ok_app : mq.

(** [bytes_ok] is decidable, so a witness closes it by evaluation. *)
Definition bytes_okb (b : bytes) : bool := forallb (fun x => (0 <=? x)%Z && (x <? 256)%Z) b.
Lemma bytes_okb_ok b : bytes_okb b = true -> bytes_ok b.
Proof.
  unfold bytes_okb, bytes_ok. intros H. apply List.Forall_forall. intros x Hx.
  rewrite forallb_forall in H. specialize (H x Hx). bool_hyps. lia.
Qed.

(** [copy(dst[off:], src)]: Go's [copy] writes the common prefix only and never
    changes the destination's length. *)
Definition splice (dst : bytes) (off : nat) (src : bytes) : bytes :=
  take off dst ++ take (length dst - off) src ++ drop (off + length src) dst.

Lemma splice_length dst off src : (off <= length dst)%nat -> length (splice dst off src) = length dst.
Proof.
  intros H. unfold splice. rewrite !length_app, !length_take, length_drop. lia.
Qed.

Lemma splice_full dst off src : (off + length src <= length dst)%nat ->
  splice dst off src = take off dst ++ src ++ drop (off + length src) dst.
Proof. intros H. unfold splice. by rewrite (take_ge src) by lia. Qed.

Lemma lookup_splice dst off src i : (off + length src <= length dst)%nat ->
  splice dst off src !! i = if decide (off <= i < off + length src)%nat then src !! (i - off)%nat else dst !! i.
Proof.
  intros H. rewrite splice_full by done. case_decide as Hd.
  - rewrite lookup_app_r by (rewrite length_take; lia). rewrite length_take, Nat.min_l by lia. rewrite lookup_app_l by lia. done.
  - destruct (decide (i < off)%nat).
    + rewrite lookup_app_l by (rewrite length_take; lia). by rewrite lookup_take_lt by lia.
    + rewrite lookup_app_r by (rewrite length_take; lia). rewrite length_take, Nat.min_l by lia.
      rewrite lookup_app_r by lia. rewrite lookup_drop. f_equal. lia.
Qed.

(** Reading [l] bytes at [o] around a write elsewhere, and the bytes written. *)
Lemma read_splice_ne dst off src o l : (off + length src <= length dst)%nat -> (o + l <= off \/ off + length src <= o)%nat ->
  take l (drop o (splice dst off src)) = take l (drop o dst).
Proof.
  intros H Hd. apply list_eq. intros i. destruct (decide (i < l)%nat).
  - rewrite !lookup_take_lt, !lookup_drop, lookup_splice by done. case_decide; [lia|done].
  - by rewrite !lookup_take_ge by lia.
Qed.
Lemma read_splice_eq dst off src : (off + length src <= length dst)%nat -> take (length src) (drop off (splice dst off src)) = src.
Proof.
  intros H. rewrite splice_full by done. rewrite drop_app_length' by (rewrite length_take; lia). by rewrite take_app_length.
Qed.

Lemma bytes_ok_splice dst off src : bytes_ok dst -> bytes_ok src -> bytes_ok (splice dst off src).
Proof. intros. unfold splice. auto with mq. Qed.
#[export] Hint Resolve bytes_ok_splice : mq.

(** ** Results of fallible Go functions: a value, or the error returned. *)
Inductive result (E A : Type) : Type :=
  | Ok (a : A)
  | Err (e : E).
Arguments Ok {E A} a.
Arguments Err {E A} e.

Global Instance result_eq_dec {E A} `{EqDecision E, EqDecision A} : EqDecision (result E A).
Proof. solve_decision. Defined.

(** ** Reachability in a labelled or unlabelled step relation *)
Section Reach.
Context {St : Type} (step : St -> St -> Prop).

Inductive reach (s0 : St) : St -> Prop :=
  | reach_refl : reach s0 s0
  | reach_step s s' : reach s0 s -> step s s' -> reach s0 s'.

(** An invariant established initially and kept by each step holds in every
    reachable state. *)
Lemma reach_invariant (Inv : St -> Prop) s0 :
  Inv s0 -> (forall s s', Inv s -> step s s' -> Inv s') -> forall s, reach s0 s -> Inv s.
Proof. intros H0 Hs s Hr. induction Hr; eauto. Qed.

Lemma reach_trans s0 s1 s2 : reach s0 s1 -> reach s1 s2 -> reach s0 s2.
Proof. intros H1 H2. induction H2; eauto using reach. Qed.
Lemma reach_front s s1 s2 : step s s1 -> reach s1 s2 -> reach s s2.
Proof. intros H1 H2. eapply reach_trans; [eapply reach_step; [apply reach_refl|exact H1]|exact H2]. Qed.
End Reach.

(** A decidable goal about closed terms, by evaluation. *)
Ltac by_decide := apply (bool_decide_unpack _); vm_compute; exact I.
