(* ===== verification/Words.v ===== *)
(** * Machine words: wrap-around, big-endian fields and serial arithmetic

    The fixed-width integers of the Go code are [Z] values; [u8], [u16], [u32]
    and [u64] are the conversions that truncate, [i32] is [int32(x)], and
    [be16]/[be32]/[put16]/[put32] are [binary.BigEndian]'s accessors. *)
From S2P Require Import Prelude.
Local Open Scope Z_scope.
Local Open Scope masqued_scope.

Definition u8 (x : Z) : Z := x mod 256.
Definition u16 (x : Z) : Z := x mod 65536.
Definition u32 (x : Z) : Z := x mod 4294967296.
Definition u64 (x : Z) : Z := x mod 18446744073709551616.

(** [int32(x)] for a 32-bit [x]: the two's complement reading. *)
Definition i32 (x : Z) : Z := (x + 2147483648) mod 4294967296 - 2147483648.

(** [^x] on a [uint16]. *)
Definition not16 (x : Z) : Z := 65535 - u16 x.

(** [binary.BigEndian.Uint16(b[i:i+2])] and [Uint32(b[i:i+4])]. *)
Definition be16 (b : bytes) (i : nat) : Z := 256 * b.[i] + b.[S i].
Definition be32 (b : bytes) (i : nat) : Z := 65536 * be16 b i + be16 b (i + 2).

(** [binary.BigEndian.PutUint16(b[i:i+2], v)] and [PutUint32]. *)
Definition put16 (b : bytes) (i : nat) (v : Z) : bytes :=
  <[S i := u8 v]> (<[i := u8 (v / 256)]> b).
Definition put32 (b : bytes) (i : nat) (v : Z) : bytes :=
  put16 (put16 b i (u16 (v / 65536))) (i + 2) (u16 v).

(** [binary.LittleEndian.PutUint16]. *)
Definition putle16 (b : bytes) (i : nat) (v : Z) : bytes :=
  <[S i := u8 (v / 256)]> (<[i := u8 v]> b).
Definition le16 (b : bytes) (i : nat) : Z := b.[i] + 256 * b.[S i].

Lemma u8_range x : 0 <= u8 x < 256.
Proof. apply Z.mod_pos_bound; lia. Qed.
Lemma u16_range x : 0 <= u16 x < 65536.
Proof. apply Z.mod_pos_bound; lia. Qed.
Lemma u32_range x : 0 <= u32 x < 4294967296.
Proof. apply Z.mod_pos_bound; lia. Qed.
Lemma u8_small x : 0 <= x < 256 -> u8 x = x.
Proof. apply Z.mod_small. Qed.
Lemma u16_small x : 0 <= x < 65536 -> u16 x = x.
Proof. apply Z.mod_small. Qed.
Lemma u32_small x : 0 <= x < 4294967296 -> u32 x = x.
Proof. apply Z.mod_small. Qed.
Lemma i32_small x : -2147483648 <= x < 2147483648 -> i32 x = x.
Proof. unfold i32. intros. rewrite Z.mod_small; lia. Qed.
Lemma i32_u32 x : i32 (u32 x) = i32 x.
Proof. unfold i32, u32. by rewrite Zplus_mod_idemp_l. Qed.
Lemma u32_idem_add a b : u32 (u32 a + b) = u32 (a + b).
Proof. unfold u32. by rewrite Zplus_mod_idemp_l. Qed.
Lemma u32_idem_sub a b : u32 (u32 a - b) = u32 (a - b).
Proof. unfold u32. by rewrite Zminus_mod_idemp_l. Qed.
#[export] Hint Resolve u8_range u16_range u32_range : mq.

Lemma not16_range x : 0 <= not16 x < 65536.
Proof. unfold not16. pose proof (u16_range x). lia. Qed.
#[export] Hint Resolve not16_range : mq.

Lemma be16_range b i : bytes_ok b -> 0 <= be16 b i < 65536.
Proof.
  intros H. unfold be16. pose proof (bytes_ok_at b i H). pose proof (bytes_ok_at b (S i) H). lia.
Qed.
Lemma be32_range b i : bytes_ok b -> 0 <= be32 b i < 4294967296.
Proof.
  intros H. unfold be32. pose proof (be16_range b i H). pose proof (be16_range b (i + 2) H). lia.
Qed.
#[export] Hint Resolve be16_range be32_range : mq.

(** ** Fields after a write *)

Lemma put16_length b i v : length (put16 b i v) = length b.
Proof. unfold put16. by rewrite !length_insert. Qed.
Lemma put32_length b i v : length (put32 b i v) = length b.
Proof. unfold put32. by rewrite !put16_length. Qed.
Lemma bytes_ok_put16 b i v : bytes_ok b -> bytes_ok (put16 b i v).
Proof. intros. unfold put16. auto with mq. Qed.
Lemma bytes_ok_put32 b i v : bytes_ok b -> bytes_ok (put32 b i v).
Proof. intros. unfold put32. auto using bytes_ok_put16. Qed.
#[export] Hint Resolve bytes_ok_put16 bytes_ok_put32 : mq.
#[export] Hint Rewrite put16_length put32_length : mqr.

Lemma byte_at_put16_ne b i j v : j <> i -> j <> S i -> byte_at (put16 b i v) j = byte_at b j.
Proof. intros. unfold put16. by rewrite !byte_at_insert_ne by done. Qed.
Lemma byte_at_put32_ne b i j v : (j < i \/ i + 4 <= j)%nat -> byte_at (put32 b i v) j = byte_at b j.
Proof. intros. unfold put32. rewrite !byte_at_put16_ne by lia. done. Qed.

Lemma be16_put16_eq b i v : (i + 1 < length b)%nat -> 0 <= v < 65536 -> be16 (put16 b i v) i = v.
Proof.
  intros Hi Hv. unfold be16, put16.
  rewrite byte_at_insert_ne by lia. rewrite byte_at_insert_eq by lia.
  rewrite byte_at_insert_eq by (rewrite length_insert; lia).
  unfold u8. rewrite (Z.mod_small (v / 256)) by (split; [apply Z.div_pos; lia|apply Z.div_lt_upper_bound; lia]).
  pose proof (Z.div_mod v 256). lia.
Qed.
Lemma be16_put16_ne b i j v : (j + 2 <= i \/ i + 2 <= j)%nat -> be16 (put16 b i v) j = be16 b j.
Proof. intros. unfold be16. by rewrite !byte_at_put16_ne by lia. Qed.

Lemma be32_put16_ne b i j v : (j + 4 <= i \/ i + 2 <= j)%nat -> be32 (put16 b i v) j = be32 b j.
Proof. intros. unfold be32. by rewrite !be16_put16_ne by lia. Qed.
Lemma be16_put32_ne b i j v : (j + 2 <= i \/ i + 4 <= j)%nat -> be16 (put32 b i v) j = be16 b j.
Proof. intros. unfold put32. by rewrite !be16_put16_ne by lia. Qed.

Lemma split32 v : 0 <= v < 4294967296 ->
  v = 65536 * u16 (v / 65536) + u16 v.
Proof.
  intros. unfold u16. rewrite (Z.mod_small (v / 65536)) by (split; [apply Z.div_pos; lia|apply Z.div_lt_upper_bound; lia]).
  apply Z.div_mod. lia.
Qed.

Lemma be16_put32_hi b i v : (i + 3 < length b)%nat -> be16 (put32 b i v) i = u16 (v / 65536).
Proof.
  intros. unfold put32. rewrite be16_put16_ne by lia. apply be16_put16_eq; [lia|apply u16_range].
Qed.
Lemma be16_put32_lo b i v : (i + 3 < length b)%nat -> be16 (put32 b i v) (i + 2) = u16 v.
Proof.
  intros. unfold put32. apply be16_put16_eq; [rewrite put16_length; lia|apply u16_range].
Qed.
Lemma be32_put32_eq b i v : (i + 3 < length b)%nat -> 0 <= v < 4294967296 -> be32 (put32 b i v) i = v.
Proof.
  intros Hi Hv. unfold be32. rewrite be16_put32_hi, be16_put32_lo by lia. symmetry. by apply split32.
Qed.
Lemma be32_put32_ne b i j v : (j + 4 <= i \/ i + 4 <= j)%nat -> be32 (put32 b i v) j = be32 b j.
Proof. intros. unfold be32. by rewrite !be16_put32_ne by lia. Qed.

Lemma be16_take b n i : (i + 1 < n)%nat -> be16 (take n b) i = be16 b i.
Proof. intros. unfold be16. by rewrite !byte_at_take by lia. Qed.
Lemma be16_drop b n i : be16 (drop n b) i = be16 b (n + i).
Proof. unfold be16. rewrite !byte_at_drop. by rewrite Nat.add_succ_r. Qed.
Lemma be32_drop b n i : be32 (drop n b) i = be32 b (n + i).
Proof. unfold be32. rewrite !be16_drop. by rewrite Nat.add_assoc. Qed.

(** ** Writes seen through a prefix or a suffix *)

Lemma take_put16_lt b n i v : (i + 1 < n)%nat -> take n (put16 b i v) = put16 (take n b) i v.
Proof. intros. unfold put16. by rewrite !take_insert_lt by lia. Qed.
Lemma take_put16_ge b n i v : (n <= i)%nat -> take n (put16 b i v) = take n b.
Proof. intros. unfold put16. by rewrite !take_insert_ge by lia. Qed.
Lemma drop_put16_lt b n i v : (i + 1 < n)%nat -> drop n (put16 b i v) = drop n b.
Proof. intros. unfold put16. by rewrite !drop_insert_lt by lia. Qed.
Lemma drop_put16_ge b n i v : (n <= i)%nat -> drop n (put16 b i v) = put16 (drop n b) (i - n) v.
Proof. intros. unfold put16. rewrite !drop_insert_ge by lia. by replace (S i - n)%nat with (S (i - n)) by lia. Qed.
Lemma take_put32_lt b n i v : (i + 3 < n)%nat -> take n (put32 b i v) = put32 (take n b) i v.
Proof. intros. unfold put32. by rewrite !take_put16_lt by lia. Qed.
Lemma take_put32_ge b n i v : (n <= i)%nat -> take n (put32 b i v) = take n b.
Proof. intros. unfold put32. by rewrite !take_put16_ge by lia. Qed.
Lemma drop_put32_lt b n i v : (i + 3 < n)%nat -> drop n (put32 b i v) = drop n b.
Proof. intros. unfold put32. by rewrite !drop_put16_lt by lia. Qed.

(** The IPv4 header length in bytes, [int(pkt[0]&0x0f) * 4]. *)
Definition ihl_of (pkt : bytes) : nat := (Z.to_nat (Z.land pkt.[0] 15) * 4)%nat.

Lemma ihl_of_bound pkt : (ihl_of pkt <= 60)%nat.
Proof.
  unfold ihl_of. change 15 with (Z.ones 4). rewrite Z.land_ones by lia.
  pose proof (Z.mod_pos_bound (pkt.[0]) (2 ^ 4)). lia.
Qed.
