(* ===== verification/Checksum.v ===== *)
(** * Internet checksums (ones' complement arithmetic)

    Models the checksum helpers the data path shares: [sum16], [fold16] and
    [tcpPseudoSeedV4] (utility/tun_gso.go), the RFC 1624 incremental updates
    [CsumUpdate16]/[CsumUpdate32] (xdp/snat.go) and [ipv4Checksum]
    (xdp/conn.go).  [wsum] is the unbounded sum of 16-bit words they are
    measured against, and [csum_ok] the receiver's acceptance test. *)
From S2P Require Import Prelude Words.
Local Open Scope Z_scope.
Local Open Scope masqued_scope.

(** ** The code *)

(** utility/tun_gso.go [sum16]: a [uint32] accumulator over big-endian words,
    an odd trailing byte counted as the high byte of a last word. *)
Fixpoint sum16 (b : bytes) (initial : Z) : Z :=
  match b with
  | x :: y :: r => sum16 r (u32 (initial + Z.lor (Z.shiftl x 8) y))
  | [x] => u32 (initial + Z.shiftl x 8)
  | [] => initial
  end.

(** The [for ac>>16 != 0] loop; three iterations of fuel always reach the exit
    test on a [uint32] ([fold_loop_exits]). *)
Fixpoint fold_loop (fuel : nat) (ac : Z) : Z :=
  match fuel with
  | O => ac
  | S n => if Z.shiftr ac 16 =? 0 then ac
           else fold_loop n (u32 (Z.land ac 65535 + Z.shiftr ac 16))
  end.

Definition fold16 (ac : Z) : Z := u16 (fold_loop 3 ac).

(** utility/tun_gso.go [tcpPseudoSeedV4]. *)
Definition tcpPseudoSeedV4 (srcIP dstIP : bytes) (tcpLen : Z) : Z :=
  fold16 (u32 (u32 (sum16 dstIP (sum16 srcIP 0) + 6) + tcpLen)).

(** xdp/snat.go [CsumUpdate16]: HC' = ~(~HC + ~m + m'). *)
Definition CsumUpdate16 (csum old new_ : Z) : Z :=
  not16 (fold_loop 3 (u32 (u32 (not16 csum + not16 old) + new_))).

(** xdp/snat.go [CsumUpdate32]: the field as two consecutive words. *)
Definition CsumUpdate32 (csum old new_ : Z) : Z :=
  let csum := CsumUpdate16 csum (u16 (Z.shiftr old 16)) (u16 (Z.shiftr new_ 16)) in
  CsumUpdate16 csum (u16 old) (u16 new_).

(** xdp/conn.go [ipv4Checksum]: only whole words are summed. *)
Fixpoint ipv4_sum (hdr : bytes) (sum : Z) : Z :=
  match hdr with
  | x :: y :: r => ipv4_sum r (u32 (sum + (256 * x + y)))
  | _ => sum
  end.
Definition ipv4Checksum (hdr : bytes) : Z := not16 (fold_loop 3 (ipv4_sum hdr 0)).

(** ** Specification *)

(** The sum of the big-endian 16-bit words of [b], without wrap-around. *)
Fixpoint wsum (b : bytes) : Z :=
  match b with
  | x :: y :: r => (256 * x + y) + wsum r
  | [x] => 256 * x
  | [] => 0
  end.

(** The representative of a sum in ones' complement: 0 only for 0. *)
Definition ones_norm (s : Z) : Z := if s =? 0 then 0 else 1 + (s - 1) mod 65535.

(** A receiver accepts when the sum of all words, checksum included, folds to
    0xffff: the sum is a positive multiple of 65535. *)
Definition csum_ok (s : Z) : Prop := s mod 65535 = 0 /\ 0 < s.
Definition csum_okb (s : Z) : bool := (s mod 65535 =? 0) && (0 <? s).

Lemma csum_okb_ok s : csum_okb s = true -> csum_ok s.
Proof. unfold csum_okb, csum_ok. intros. bool_hyps. lia. Qed.

(** ** Folding *)

Lemma ones_norm_small s : 0 <= s < 65536 -> ones_norm s = s.
Proof.
  intros. unfold ones_norm. destruct (s =? 0) eqn:E; bool_hyps; [lia|].
  rewrite Z.mod_small; lia.
Qed.

Lemma ones_norm_range s : 0 <= s -> 0 <= ones_norm s < 65536.
Proof.
  intros. unfold ones_norm. destruct (s =? 0); [lia|].
  pose proof (Z.mod_pos_bound (s - 1) 65535). lia.
Qed.

Lemma ones_norm_cong s : exists k, ones_norm s = s + 65535 * k.
Proof.
  unfold ones_norm. destruct (s =? 0) eqn:E; bool_hyps.
  - exists 0. lia.
  - exists (- ((s - 1) / 65535)). pose proof (Z.div_mod (s - 1) 65535). lia.
Qed.

Lemma ones_norm_step s : 0 <= s -> ones_norm (s mod 65536 + s / 65536) = ones_norm s.
Proof.
  intros. pose proof (Z.div_mod s 65536). pose proof (Z.mod_pos_bound s 65536).
  pose proof (Z.div_pos s 65536).
  set (q := s / 65536) in *. set (r := s mod 65536) in *.
  unfold ones_norm. destruct (r + q =? 0) eqn:E, (s =? 0) eqn:E'; bool_hyps; try lia.
  f_equal. replace (s - 1) with ((r + q - 1) + q * 65535) by lia.
  by rewrite Z.mod_add by lia.
Qed.

Lemma fold_loop_step ac : 0 <= ac < 4294967296 ->
  u32 (Z.land ac 65535 + Z.shiftr ac 16) = ac mod 65536 + ac / 65536.
Proof.
  intros. change 65535 with (Z.ones 16). rewrite Z.land_ones by lia.
  rewrite Z.shiftr_div_pow2 by lia. change (2 ^ 16) with 65536.
  apply u32_small. pose proof (Z.mod_pos_bound ac 65536).
  pose proof (Z.div_pos ac 65536). assert (ac / 65536 < 65536) by (apply Z.div_lt_upper_bound; lia). lia.
Qed.

Lemma shiftr16_zero ac : 0 <= ac -> (Z.shiftr ac 16 =? 0) = (ac <? 65536).
Proof.
  intros. rewrite Z.shiftr_div_pow2 by lia. change (2 ^ 16) with 65536.
  destruct (ac <? 65536) eqn:E; bool_hyps.
  - rewrite Z.div_small by lia. done.
  - apply Z.eqb_neq. assert (1 <= ac / 65536) by (apply Z.div_le_lower_bound; lia). lia.
Qed.

(** The loop has left through its exit test once three tests have run. *)
Lemma fold_loop_exits fuel ac : (3 <= fuel)%nat -> 0 <= ac < 4294967296 ->
  fold_loop fuel ac = ones_norm ac.
Proof.
  intros Hf Hac.
  destruct fuel as [|[|[|f]]]; try lia. clear Hf. cbn [fold_loop].
  rewrite shiftr16_zero by lia. destruct (ac <? 65536) eqn:E1; bool_hyps.
  { by rewrite ones_norm_small by lia. }
  rewrite fold_loop_step by lia. rewrite <- (ones_norm_step ac) by lia.
  assert (H1 : 1 <= ac mod 65536 + ac / 65536 <= 131070).
  { pose proof (Z.mod_pos_bound ac 65536). assert (1 <= ac / 65536) by (apply Z.div_le_lower_bound; lia).
    assert (ac / 65536 < 65536) by (apply Z.div_lt_upper_bound; lia). lia. }
  set (a1 := ac mod 65536 + ac / 65536) in *.
  rewrite shiftr16_zero by lia. destruct (a1 <? 65536) eqn:E2; bool_hyps.
  { by rewrite ones_norm_small by lia. }
  rewrite fold_loop_step by lia. rewrite <- (ones_norm_step a1) by lia.
  assert (a1 / 65536 = 1) by (symmetry; apply (Z.div_unique_pos a1 65536 1 (a1 - 65536)); lia).
  pose proof (Z.div_mod a1 65536).
  assert (H2 : 0 <= a1 mod 65536 + a1 / 65536 < 65536) by lia.
  rewrite shiftr16_zero by lia.
  replace (a1 mod 65536 + a1 / 65536 <? 65536) with true by (symmetry; apply Z.ltb_lt; lia).
  by rewrite ones_norm_small by lia.
Qed.

Lemma fold16_norm ac : 0 <= ac < 4294967296 -> fold16 ac = ones_norm ac.
Proof.
  intros. unfold fold16. rewrite fold_loop_exits by lia.
  apply u16_small. apply ones_norm_range; lia.
Qed.

(** The receiver's test is [csum_ok]. *)
Lemma fold16_ok s : 0 <= s < 4294967296 -> fold16 s = 65535 <-> csum_ok s.
Proof.
  intros. rewrite fold16_norm by lia. unfold ones_norm, csum_ok.
  destruct (s =? 0) eqn:E; bool_hyps; [lia|].
  pose proof (Z.mod_pos_bound (s - 1) 65535).
  pose proof (Z.div_mod (s - 1) 65535).
  split.
  - intros. split; [|lia]. assert (s = 65535 * ((s - 1) / 65535 + 1)) as -> by lia.
    rewrite Z.mul_comm. apply Z.mod_mul. lia.
  - intros [H3 _]. apply Z.mod_divide in H3; [|lia]. destruct H3 as [k ->].
    assert ((k * 65535 - 1) mod 65535 = 65534); [|lia].
    symmetry. apply (Z.mod_unique_pos _ _ (k - 1)); lia.
Qed.

(** ** Sums *)

Lemma wsum_nonneg b : bytes_ok b -> 0 <= wsum b.
Proof.
  revert b. fix IH 1. intros [|x [|y r]] H; simpl.
  - lia.
  - inversion H; lia.
  - inversion H as [|? ? Hx H']; inversion H' as [|? ? Hy Hr]; subst. specialize (IH r Hr). lia.
Qed.

Lemma wsum_bound b : bytes_ok b -> 2 * wsum b <= 65535 * (Z.of_nat (length b) + 1).
Proof.
  revert b. fix IH 1. intros [|x [|y r]] H.
  - simpl; lia.
  - inversion H; simpl; lia.
  - inversion H as [|? ? Hx H']; inversion H' as [|? ? Hy Hr]; subst. specialize (IH r Hr).
    cbn [wsum length]. lia.
Qed.

Lemma wsum_app_even a b : Nat.Even (length a) -> wsum (a ++ b) = wsum a + wsum b.
Proof.
  revert a. fix IH 1. intros [|x [|y r]] [k Hk].
  - simpl; lia.
  - simpl in Hk; lia.
  - simpl in Hk. cbn [app wsum]. rewrite IH; [lia|]. exists (k - 1)%nat. lia.
Qed.

Lemma lor_shiftl8 x y : 0 <= x -> 0 <= y < 256 -> Z.lor (Z.shiftl x 8) y = 256 * x + y.
Proof.
  intros. rewrite Z.shiftl_mul_pow2 by lia. change (2 ^ 8) with 256.
  rewrite <- Z.lxor_lor.
  - rewrite <- Z.add_nocarry_lxor; [lia|].
    rewrite <- (Z.mod_small y (2 ^ 8)) by lia.
    rewrite <- (Z.land_ones y 8), Z.land_assoc, (Z.land_comm (x * 256)), <- Z.land_assoc by lia.
    rewrite Z.land_ones by lia. change (2 ^ 8) with 256. rewrite Z.mod_mul by lia. apply Z.land_0_r.
  - rewrite <- (Z.mod_small y (2 ^ 8)) by lia.
    rewrite <- (Z.land_ones y 8), Z.land_assoc, (Z.land_comm (x * 256)), <- Z.land_assoc by lia.
    rewrite Z.land_ones by lia. change (2 ^ 8) with 256. rewrite Z.mod_mul by lia. apply Z.land_0_r.
Qed.

Lemma sum16_wsum b ac : bytes_ok b -> 0 <= ac -> ac + wsum b < 4294967296 -> sum16 b ac = ac + wsum b.
Proof.
  revert b ac. fix IH 1. intros [|x [|y r]] ac H Hac Hb.
  - simpl; lia.
  - inversion H; subst. simpl in *. rewrite Z.shiftl_mul_pow2 by lia. change (2 ^ 8) with 256.
    rewrite u32_small; lia.
  - inversion H as [|? ? Hx H']; inversion H' as [|? ? Hy Hr]; subst.
    cbn [sum16 wsum] in *. pose proof (wsum_nonneg r Hr).
    rewrite lor_shiftl8 by lia. rewrite u32_small by lia. rewrite IH by (done || lia). lia.
Qed.

Lemma ipv4_sum_wsum b ac : bytes_ok b -> Nat.Even (length b) -> 0 <= ac -> ac + wsum b < 4294967296 ->
  ipv4_sum b ac = ac + wsum b.
Proof.
  revert b ac. fix IH 1. intros [|x [|y r]] ac H [k Hk] Hac Hb.
  - simpl; lia.
  - simpl in Hk; lia.
  - inversion H as [|? ? Hx H']; inversion H' as [|? ? Hy Hr]; subst.
    cbn [ipv4_sum wsum length] in *. pose proof (wsum_nonneg r Hr).
    rewrite u32_small by lia. rewrite IH; [lia|done| |lia|lia]. exists (k - 1)%nat. lia.
Qed.

Lemma put16_split b i v : (i + 1 < length b)%nat ->
  put16 b i v = take i b ++ [u8 (v / 256); u8 v] ++ drop (i + 2) b.
Proof.
  intros H. unfold put16. rewrite !insert_take_drop by (rewrite ?length_insert; lia).
  rewrite take_app_ge by (rewrite length_take; lia). rewrite length_take, Nat.min_l by lia.
  replace (S i - i)%nat with 1%nat by lia. cbn [take].
  rewrite drop_app_ge by (rewrite length_take; lia). rewrite length_take, Nat.min_l by lia.
  replace (S (S i) - i)%nat with 2%nat by lia. cbn [drop]. rewrite <- app_assoc. cbn [app].
  rewrite drop_drop. rewrite take_0. simpl. repeat f_equal; lia.
Qed.

Lemma be16_split b i : (i + 1 < length b)%nat ->
  b = take i b ++ [b.[i]; b.[S i]] ++ drop (i + 2) b.
Proof.
  intros H. rewrite <- (take_drop i b) at 1. f_equal.
  rewrite (drop_S b (b.[i]) i) by (apply lookup_byte_at; lia).
  rewrite (drop_S b (b.[S i]) (S i)) by (apply lookup_byte_at; lia).
  simpl. repeat f_equal; lia.
Qed.

(** Replacing one aligned word moves the sum by the difference of the words. *)
Lemma wsum_put16 b i v : Nat.Even i -> (i + 1 < length b)%nat -> 0 <= v < 65536 ->
  wsum (put16 b i v) = wsum b - be16 b i + v.
Proof.
  intros He Hi Hv. rewrite put16_split by lia.
  rewrite (f_equal wsum (be16_split b i Hi)).
  assert (Nat.Even (length (take i b))) by (rewrite length_take, Nat.min_l by lia; done).
  rewrite !(wsum_app_even (take i b)) by done. cbn [app wsum]. unfold be16, u8.
  rewrite (Z.mod_small (v / 256)) by (split; [apply Z.div_pos; lia|apply Z.div_lt_upper_bound; lia]).
  pose proof (Z.div_mod v 256). lia.
Qed.

(** The same for a 32-bit field. *)
Lemma wsum_put32 b i v : Nat.Even i -> (i + 3 < length b)%nat -> 0 <= v < 4294967296 ->
  wsum (put32 b i v) = wsum b - (be16 b i + be16 b (i + 2)) + (u16 (v / 65536) + u16 v).
Proof.
  intros [k Hk] Hi Hv. unfold put32.
  pose proof (u16_range (v / 65536)). pose proof (u16_range v).
  rewrite wsum_put16; [|exists (S k); lia|rewrite put16_length; lia|done].
  rewrite wsum_put16; [|exists k; lia|lia|done]. rewrite be16_put16_ne by lia. lia.
Qed.

(** ** Incremental update *)

Lemma CsumUpdate16_range c o n : 0 <= CsumUpdate16 c o n < 65536.
Proof. unfold CsumUpdate16. apply not16_range. Qed.
Lemma CsumUpdate32_range c o n : 0 <= CsumUpdate32 c o n < 65536.
Proof. unfold CsumUpdate32. apply not16_range. Qed.
#[export] Hint Resolve CsumUpdate16_range CsumUpdate32_range : mq.

(** Replacing [old] by [new_] in the data and the checksum by its update leaves
    the total of the words unchanged modulo 65535. *)
Lemma CsumUpdate16_cong csum old new_ :
  0 <= csum < 65536 -> 0 <= old < 65536 -> 0 <= new_ < 65536 ->
  exists k, CsumUpdate16 csum old new_ + new_ = csum + old + 65535 * k.
Proof.
  intros. unfold CsumUpdate16, not16. rewrite (u16_small csum), (u16_small old) by lia.
  rewrite (u32_small (65535 - csum + (65535 - old))) by lia. rewrite u32_small by lia.
  rewrite fold_loop_exits by lia.
  set (s := 65535 - csum + (65535 - old) + new_).
  rewrite (u16_small (ones_norm s)) by (apply ones_norm_range; lia).
  destruct (ones_norm_cong s) as [k Hk]. exists (- k - 1). lia.
Qed.

Lemma shiftr16_u16 v : 0 <= v < 4294967296 -> u16 (Z.shiftr v 16) = u16 (v / 65536).
Proof. intros. by rewrite Z.shiftr_div_pow2 by lia. Qed.

Lemma CsumUpdate32_cong csum old new_ :
  0 <= csum < 65536 -> 0 <= old < 4294967296 -> 0 <= new_ < 4294967296 ->
  exists k, CsumUpdate32 csum old new_ + (u16 (new_ / 65536) + u16 new_)
          = csum + (u16 (old / 65536) + u16 old) + 65535 * k.
Proof.
  intros. unfold CsumUpdate32. rewrite !shiftr16_u16 by lia.
  destruct (CsumUpdate16_cong csum (u16 (old / 65536)) (u16 (new_ / 65536))) as [k1 Hk1]; [lia|apply u16_range..|].
  set (c1 := CsumUpdate16 csum _ _) in *.
  destruct (CsumUpdate16_cong c1 (u16 old) (u16 new_)) as [k2 Hk2]; [apply CsumUpdate16_range|apply u16_range..|].
  exists (k1 + k2). lia.
Qed.

Lemma csum_ok_shift s s' k : csum_ok s -> s' = s + 65535 * k -> 0 < s' -> csum_ok s'.
Proof.
  intros [H1 H2] -> H3. split; [|done]. rewrite Z.mul_comm, Z.mod_add by lia. done.
Qed.

Lemma wsum_pos_first b i : bytes_ok b -> (i < length b)%nat -> 0 < b.[i] -> 0 < wsum b.
Proof.
  revert b i. fix IH 1. intros [|x [|y r]] i H Hi Hp.
  - simpl in Hi; lia.
  - inversion H; subst. destruct i; simpl in *; [unfold byte_at in Hp; simpl in Hp; lia|lia].
  - inversion H as [|? ? Hx H']; inversion H' as [|? ? Hy Hr]; subst. cbn [wsum].
    pose proof (wsum_nonneg r Hr).
    destruct i as [|[|i]]; unfold byte_at in Hp; simpl in Hp; [lia|lia|].
    assert (0 < wsum r); [|lia]. apply (IH r i); [done|simpl in Hi; lia|done].
Qed.

(** Writing [~fold16] of the header with a zeroed checksum field makes the
    header acceptable. *)
Lemma wsum_seal hdr i : bytes_ok hdr -> Nat.Even i -> (i + 1 < length hdr)%nat ->
  be16 hdr i = 0 -> 0 < wsum hdr -> wsum hdr < 4294967296 ->
  csum_ok (wsum (put16 hdr i (not16 (ones_norm (wsum hdr))))).
Proof.
  intros Hok He Hi Hz Hp Hb. pose proof (ones_norm_range (wsum hdr)) as Hn.
  rewrite wsum_put16 by (auto with mq). unfold not16. rewrite u16_small by lia.
  destruct (ones_norm_cong (wsum hdr)) as [k Hk]. split; [|lia].
  replace (wsum hdr - be16 hdr i + (65535 - ones_norm (wsum hdr))) with ((1 - k) * 65535) by lia.
  apply Z.mod_mul. lia.
Qed.
