(* ===== verification/Ip.v ===== *)
(** * Addresses and prefixes (utility/ip.go, utility/query.go)

    An address is its bytes, four or sixteen of them, big-endian; the zero
    [netip.Addr] is the empty list.  The package ipconv and the text forms of
    the standard library's IPv6 addresses and prefixes are the class [IpLib];
    [IpLaws] states their documented behaviour on IPv4, and [dotted] is an
    instance that satisfies it. *)
From Stdlib Require Import Ascii.
From S2P Require Import Prelude Words.
Local Open Scope Z_scope.
Local Open Scope masqued_scope.

(** ** Addresses as numbers *)

Definition be_num (b : bytes) : Z := fold_left (fun n x => 256 * n + x) b 0.
Fixpoint be_bytes (len : nat) (n : Z) : bytes :=
  match len with O => [] | S k => be_bytes k (n / 256) ++ [u8 n] end.

(** [netip.Addr.Next] and [Prev]: the zero address where there is none. *)
Definition Next (a : bytes) : bytes :=
  if be_num a + 1 =? 256 ^ Z.of_nat (length a) then [] else be_bytes (length a) (be_num a + 1).
Definition Prev (a : bytes) : bytes :=
  if be_num a =? 0 then [] else be_bytes (length a) (be_num a - 1).

(** [net.IP.To4]. *)
Definition To4 (ip : bytes) : option bytes :=
  if (length ip =? 4)%nat then Some ip
  else if (length ip =? 16)%nat && forallb (Z.eqb 0) (take 10 ip) && (ip.[10] =? 255) && (ip.[11] =? 255)
  then Some (drop 12 ip) else None.

(** Decimal text of a byte, and the dotted quad. *)
Definition digit (d : Z) : ascii := ascii_of_nat (Z.to_nat (48 + d)).
Definition dec (b : Z) : string :=
  if b <? 10 then String (digit b) EmptyString
  else if b <? 100 then String (digit (b / 10)) (String (digit (b mod 10)) EmptyString)
  else String (digit (b / 100)) (String (digit (b / 10 mod 10)) (String (digit (b mod 10)) EmptyString)).
Definition show4 (b : bytes) : string :=
  (dec b.[0] ++ "." ++ dec b.[1] ++ "." ++ dec b.[2] ++ "." ++ dec b.[3])%string.

(** ** Prefixes ([netip.Prefix]) *)

Record Prefix := { pfx_addr : bytes; pfx_bits : Z }.
Definition valid_addr (a : bytes) : Prop := (length a = 4 \/ length a = 16)%nat /\ bytes_ok a.
Definition hostBits (p : Prefix) : Z := Z.of_nat (length (pfx_addr p)) * 8 - pfx_bits p.
Definition valid_prefix (p : Prefix) : Prop :=
  valid_addr (pfx_addr p) /\ 0 <= pfx_bits p <= Z.of_nat (length (pfx_addr p)) * 8.

Definition Masked (p : Prefix) : Prefix :=
  {| pfx_addr := be_bytes (length (pfx_addr p)) (Z.shiftl (Z.shiftr (be_num (pfx_addr p)) (hostBits p)) (hostBits p));
     pfx_bits := pfx_bits p |}.
Definition Prefix_Contains (p : Prefix) (ip : bytes) : bool :=
  (length ip =? length (pfx_addr p))%nat &&
  (Z.shiftr (be_num ip) (hostBits p) =? Z.shiftr (be_num (pfx_addr p)) (hostBits p)).

(** ** The library calls *)

Class IpLib := {
  ipconv_IPv4ToInt : bytes -> option Z;
  ipconv_IntToIPv4 : Z -> bytes;
  ipconv_ParseIP : string -> option (bytes * Z);
  show6 : bytes -> string;
  ParsePrefix : string -> option Prefix
}.

Class IpLaws `{IpLib} : Prop := {
  law_IPv4ToInt b : length b = 4%nat -> bytes_ok b -> ipconv_IPv4ToInt b = Some (be_num b);
  law_IntToIPv4 n : 0 <= n < 2 ^ 32 -> ipconv_IntToIPv4 n = be_bytes 4 n;
  law_ParseIP b : length b = 4%nat -> bytes_ok b ->
    exists ip, ipconv_ParseIP (show4 b) = Some (ip, 4) /\ To4 ip = Some b;
  law_ParsePrefix s p : ParsePrefix s = Some p -> valid_prefix p
}.

Inductive ipError := ParseError | NotIPv4 | CannotHandle32.
Global Instance ipError_eq_dec : EqDecision ipError.
Proof. solve_decision. Defined.

(** ** utility/ip.go *)

Section Ip.
Context `{IpLib}.

(** [netip.Addr.String] and [net.IP.String]. *)
Definition Addr_String (a : bytes) : string :=
  match length a with O => "invalid IP"%string | 4%nat => show4 a | _ => show6 a end.
Definition IP_String (ip : bytes) : string :=
  match ip with [] => "<nil>"%string | _ => match To4 ip with Some b => show4 b | None => show6 ip end end.

Definition IPv4ToInt (ip : bytes) : Z := default 0 (ipconv_IPv4ToInt ip).
Definition IntToIPv4 (num : Z) : bytes := ipconv_IntToIPv4 num.

Definition ParseIP (s : string) : result ipError (bytes * Z) :=
  match ipconv_ParseIP s with
  | None => Err ParseError
  | Some (ip, version) =>
      if version =? 4 then
        match To4 ip with None => Err NotIPv4 | Some ip4 => Ok (ip4, IPv4ToInt ip4) end
      else Ok (ip, version)
  end.

Definition FirstIP (cidr : string) : result ipError string :=
  match ParsePrefix cidr with None => Err ParseError | Some p => Ok (Addr_String (Next (pfx_addr p))) end.

Definition FirstUsableIP (cidr : string) : result ipError string :=
  match ParsePrefix cidr with
  | None => Err ParseError
  | Some p =>
      let p := Masked p in
      let netAddr := pfx_addr p in
      if pfx_bits p =? 32 then Err CannotHandle32
      else if pfx_bits p =? 31 then Ok (Addr_String netAddr)
      else Ok (Addr_String (Next netAddr))
  end.

(** The loop of [LastIPAddr], from the last byte down. *)
Fixpoint set_host_bits (i : nat) (hostBits : Z) (b : bytes) : bytes :=
  match i with
  | O => b
  | S i =>
      let setBits := if hostBits <? 8 then hostBits else 8 in
      if setBits <=? 0 then b
      else set_host_bits i (hostBits - 8) (<[i := Z.lor b.[i] (u8 (Z.shiftr 255 (8 - setBits)))]> b)
  end.

(** The conversion to an array panics on any other length. *)
Definition LastIPAddr (p : Prefix) : option bytes :=
  let b := set_host_bits (length (pfx_addr p)) (hostBits p) (pfx_addr p) in
  if (length b =? 4)%nat || (length b =? 16)%nat then Some b else None.

Definition LastIP (cidr : string) : option (result ipError string) :=
  match ParsePrefix cidr with
  | None => Some (Err ParseError)
  | Some p => a ← LastIPAddr p; Some (Ok (Addr_String a))
  end.

Definition LastUsableIP (cidr : string) : option (result ipError string) :=
  match ParsePrefix cidr with
  | None => Some (Err ParseError)
  | Some p =>
      broadcastAddr ← LastIPAddr p;
      Some (if pfx_bits p =? 32 then Err CannotHandle32
            else if pfx_bits p =? 31 then Ok (Addr_String broadcastAddr)
            else Ok (Addr_String (Prev broadcastAddr)))
  end.

(** The forms the repositories use: the text stored for a number, and the number
    read back. *)
Definition ip_text (n : Z) : string := IP_String (IntToIPv4 (u32 n)).
Definition ip_num (s : string) : option Z := match ParseIP s with Ok (_, n) => Some n | Err _ => None end.
End Ip.

Definition htons (host : Z) : Z :=
  Z.lor (Z.land (u16 (Z.shiftl host 8)) 65280) (Z.land (Z.shiftr host 8) 255).

(** ** utility/query.go *)

(** [%d] of an int64: up to nineteen digits. *)
Fixpoint digits (fuel : nat) (n : Z) (acc : string) : string :=
  match fuel with
  | O => acc
  | S k => let acc := String (digit (n mod 10)) acc in if n <? 10 then acc else digits k (n / 10) acc
  end.
Definition itoa (n : Z) : string := if n <? 0 then String "-" (digits 19 (- n) "") else digits 19 n "".
Fixpoint csv (sep : bool) (l : list Z) : string :=
  match l with [] => "" | v :: l => ((if sep then "," else "") ++ itoa v ++ csv true l)%string end.
Definition Int64ArrayInCSVFormat (values : list Z) : string := csv false values.

(** ** An instance on dotted quads *)

Fixpoint split_on (c : ascii) (s : string) : list string :=
  match s with
  | EmptyString => [EmptyString]
  | String d s =>
      if Ascii.eqb c d then EmptyString :: split_on c s
      else match split_on c s with w :: ws => String d w :: ws | [] => [String d EmptyString] end
  end.
Definition parse_dec (s : string) : option Z :=
  List.find (fun b => String.eqb (dec b) s) (map Z.of_nat (seq 0 256)).
Definition parse4 (s : string) : option bytes :=
  match split_on "." s with
  | [a; b; c; d] => a ← parse_dec a; b ← parse_dec b; c ← parse_dec c; d ← parse_dec d; Some [a; b; c; d]
  | _ => None
  end.
Definition parse_prefix4 (s : string) : option Prefix :=
  match split_on "/" s with
  | [a; n] => a ← parse4 a; n ← parse_dec n; if n <=? 32 then Some {| pfx_addr := a; pfx_bits := n |} else None
  | _ => None
  end.
Definition dotted : IpLib := {|
  ipconv_IPv4ToInt b := if (length b =? 4)%nat then Some (be_num b) else None;
  ipconv_IntToIPv4 := be_bytes 4;
  ipconv_ParseIP s := b ← parse4 s; Some (b, 4);
  show6 _ := "::"%string;
  ParsePrefix := parse_prefix4
|}.
