(* ===== verification/IpProps.v ===== *)
(** * Properties of addresses and prefixes *)
From Stdlib Require Import Ascii.
From S2P Require Import Prelude Words Ip.
Local Open Scope Z_scope.
Local Open Scope masqued_scope.

(** ** Numbers and bytes *)

Lemma be_num_snoc b x : be_num (b ++ [x]) = 256 * be_num b + x.
Proof. unfold be_num. by rewrite fold_left_app. Qed.

Lemma be_num_range b : bytes_ok b -> 0 <= be_num b < 256 ^ Z.of_nat (length b).
Proof.
  induction b as [|x b IH] using rev_ind; intros Hb; [done|].
  apply Forall_app in Hb as [Hb Hx]. apply Forall_cons in Hx as [Hx _]. specialize (IH Hb).
  rewrite be_num_snoc, length_app, Nat2Z.inj_add, Z.pow_add_r by lia. cbn [length Z.of_nat]. lia.
Qed.

Lemma be_bytes_length len n : length (be_bytes len n) = len.
Proof. revert n. induction len as [|len IH]; intros n; [done|]. cbn. rewrite length_app, IH. cbn. lia. Qed.
Lemma be_bytes_ok len n : bytes_ok (be_bytes len n).
Proof.
  revert n. induction len as [|len IH]; intros n; [constructor|]. apply bytes_ok_app; [apply IH|].
  constructor; [apply u8_range|constructor].
Qed.
Lemma be_num_bytes len n : 0 <= n < 256 ^ Z.of_nat len -> be_num (be_bytes len n) = n.
Proof.
  revert n. induction len as [|len IH]; intros n Hn; [cbn in *; unfold be_num; cbn; lia|].
  rewrite Nat2Z.inj_succ, Z.pow_succ_r in Hn by lia. cbn [be_bytes]. rewrite be_num_snoc, IH.
  - unfold u8. pose proof (Z.div_mod n 256). lia.
  - split; [apply Z.div_pos; lia|apply Z.div_lt_upper_bound; lia].
Qed.
Lemma be_bytes_num b : bytes_ok b -> be_bytes (length b) (be_num b) = b.
Proof.
  induction b as [|x b IH] using rev_ind; intros Hb; [done|].
  apply Forall_app in Hb as [Hb Hx]. apply Forall_cons in Hx as [Hx _].
  rewrite length_app, Nat.add_comm, be_num_snoc. cbn [be_bytes length Nat.add]. unfold u8.
  replace ((256 * be_num b + x) / 256) with (be_num b).
  - rewrite (IH Hb). do 2 f_equal. rewrite Z.add_comm, Z.mul_comm, Z_mod_plus_full. apply Z.mod_small. lia.
  - apply (Z.div_unique_pos _ _ _ x); lia.
Qed.
Lemma be_num_inj a b : bytes_ok a -> bytes_ok b -> length a = length b -> be_num a = be_num b -> a = b.
Proof. intros Ha Hb Hl E. by rewrite <- (be_bytes_num a Ha), <- (be_bytes_num b Hb), Hl, E. Qed.
#[export] Hint Resolve be_bytes_ok : mq.

Lemma Next_spec a : bytes_ok a -> be_num a + 1 < 256 ^ Z.of_nat (length a) ->
  length (Next a) = length a /\ bytes_ok (Next a) /\ be_num (Next a) = be_num a + 1.
Proof.
  intros Ha Hn. unfold Next. rewrite (proj2 (Z.eqb_neq _ _)) by lia. pose proof (be_num_range a Ha).
  rewrite be_bytes_length, be_num_bytes by lia. auto with mq.
Qed.
Lemma Prev_spec a : bytes_ok a -> 0 < be_num a ->
  length (Prev a) = length a /\ bytes_ok (Prev a) /\ be_num (Prev a) = be_num a - 1.
Proof.
  intros Ha Hn. unfold Prev. rewrite (proj2 (Z.eqb_neq _ _)) by lia. pose proof (be_num_range a Ha).
  rewrite be_bytes_length, be_num_bytes by lia. auto with mq.
Qed.

(** ** Setting the host bits *)

(** One byte: [b |= 0xff >> (8 - k)] sets its low [k] bits. *)
Lemma set_low_bits x k : 0 <= x < 256 -> 1 <= k <= 8 ->
  Z.lor x (u8 (Z.shiftr 255 (8 - k))) = x / 2 ^ k * 2 ^ k + 2 ^ k - 1.
Proof.
  intros Hx Hk.
  assert (Hall : forallb (fun x => forallb (fun k => Z.lor x (u8 (Z.shiftr 255 (8 - k))) =? x / 2 ^ k * 2 ^ k + 2 ^ k - 1)
    (map Z.of_nat (seq 1 8))) (map Z.of_nat (seq 0 256)) = true) by (vm_compute; reflexivity).
  rewrite forallb_forall in Hall. specialize (Hall x). rewrite forallb_forall in Hall. apply Z.eqb_eq, Hall.
  - apply in_map_iff. exists (Z.to_nat x). split; [lia|]. apply in_seq. lia.
  - apply in_map_iff. exists (Z.to_nat k). split; [lia|]. apply in_seq. lia.
Qed.

(** The network part of a number, with all its [h] low bits set. *)
Lemma split_byte A x h : 0 <= x < 256 -> 8 <= h -> (256 * A + x) / 2 ^ h = A / 2 ^ (h - 8).
Proof.
  intros Hx Hh. replace (2 ^ h) with (256 * 2 ^ (h - 8)).
  - rewrite <- Z.div_div by lia. f_equal. symmetry. apply (Z.div_unique_pos _ _ _ x); lia.
  - replace h with (8 + (h - 8)) at 2 by lia. rewrite Z.pow_add_r by lia. done.
Qed.

Lemma set_host_bits_spec i h pre post : length pre = i -> bytes_ok pre -> 0 <= h <= 8 * Z.of_nat i ->
  exists q, set_host_bits i h (pre ++ post) = q ++ post /\ length q = i /\ bytes_ok q /\
    be_num q = be_num pre / 2 ^ h * 2 ^ h + 2 ^ h - 1.
Proof.
  revert h pre post. induction i as [|i IH]; intros h pre post Hl Hb Hh.
  - exists pre. replace h with 0 by lia. destruct pre; [|done]. by repeat split.
  - destruct pre as [|x pre _] using rev_ind; [done|]. rewrite length_app in Hl. cbn in Hl.
    apply Forall_app in Hb as [Hb Hx]. apply Forall_cons in Hx as [Hx _].
    cbn [set_host_bits]. rewrite <- app_assoc. cbn [app].
    assert (Hi : length pre = i) by lia.
    assert (Hat : (pre ++ x :: post).[i] = x) by (rewrite byte_at_app_r by lia; by rewrite Hi, Nat.sub_diag).
    destruct (h =? 0) eqn:E0; bool_hyps.
    + subst h. cbn [Z.ltb Z.leb Z.compare]. exists (pre ++ [x]). rewrite <- app_assoc. split; [done|].
      rewrite length_app. cbn. split; [lia|]. split; [by apply bytes_ok_app; [|constructor]|]. rewrite Z.div_1_r. lia.
    + set (k := if h <? 8 then h else 8). assert (Hk : 1 <= k <= 8) by (unfold k; destruct (h <? 8) eqn:E; bool_hyps; lia).
      rewrite (proj2 (Z.leb_gt _ _)), Hat by lia. rewrite insert_app_r_alt, Hi, Nat.sub_diag by lia. cbn [insert list_insert].
      set (y := Z.lor x _). assert (Hy : y = x / 2 ^ k * 2 ^ k + 2 ^ k - 1) by (by apply set_low_bits).
      assert (Hyr : 0 <= y < 256).
      { rewrite Hy. pose proof (Z.div_mod x (2 ^ k)). pose proof (Z.mod_pos_bound x (2 ^ k)).
        assert (0 < 2 ^ k) by (by apply Z.pow_pos_nonneg; lia).
        assert (x / 2 ^ k <= 255 / 2 ^ k) by (apply Z.div_le_mono; lia).
        assert (255 / 2 ^ k * 2 ^ k + 2 ^ k - 1 = 255).
        { clear -Hk. assert (Hc : k = 1 \/ k = 2 \/ k = 3 \/ k = 4 \/ k = 5 \/ k = 6 \/ k = 7 \/ k = 8) by lia.
          by destruct Hc as [->|[->|[->|[->|[->|[->|[->| ->]]]]]]]. }
        split; [pose proof (Z.div_pos x (2 ^ k)); nia|nia]. }
      destruct (h <? 8) eqn:E8; bool_hyps; subst k.
      * assert (Hstop : set_host_bits i (h - 8) (pre ++ y :: post) = pre ++ y :: post).
        { destruct i; [done|]. cbn [set_host_bits]. rewrite (proj2 (Z.ltb_lt _ _)), (proj2 (Z.leb_le _ _)) by lia. done. }
        exists (pre ++ [y]). rewrite <- app_assoc. split; [done|]. rewrite length_app. cbn. split; [lia|].
        split; [by apply bytes_ok_app; [|constructor]|]. rewrite !be_num_snoc, Hy.
        assert (E : 256 = 2 ^ (8 - h) * 2 ^ h) by (rewrite <- Z.pow_add_r by lia; by replace (8 - h + h) with 8 by lia).
        replace ((256 * be_num pre + x) / 2 ^ h) with (2 ^ (8 - h) * be_num pre + x / 2 ^ h); [rewrite E; ring|].
        rewrite E, (Z.add_comm _ x), <- Z.mul_assoc, (Z.mul_comm (2 ^ h)), Z.mul_assoc.
        rewrite Z_div_plus_full by (pose proof (Z.pow_pos_nonneg 2 h); lia). apply Z.add_comm.
      * destruct (IH (h - 8) pre (y :: post) Hi Hb ltac:(lia)) as (q & Hq & Hql & Hqb & Hqn).
        exists (q ++ [y]). rewrite <- app_assoc. split; [done|]. rewrite length_app. cbn. split; [lia|].
        split; [by apply bytes_ok_app; [|constructor]|]. rewrite !be_num_snoc, Hqn, split_byte by lia. rewrite Hy.
        assert (E : 2 ^ h = 256 * 2 ^ (h - 8)).
        { replace h with (8 + (h - 8)) at 1 by lia. rewrite Z.pow_add_r by lia. done. }
        rewrite E. change (2 ^ 8) with 256. rewrite (Z.div_small x 256) by lia. nia.
Qed.

(** ** The last address of a prefix *)

Lemma hostBits_range p : valid_prefix p -> 0 <= hostBits p <= 8 * Z.of_nat (length (pfx_addr p)).
Proof. unfold hostBits. intros [_ ?]. lia. Qed.

Lemma Masked_num p : valid_prefix p ->
  length (pfx_addr (Masked p)) = length (pfx_addr p) /\ bytes_ok (pfx_addr (Masked p)) /\
  be_num (pfx_addr (Masked p)) = be_num (pfx_addr p) / 2 ^ hostBits p * 2 ^ hostBits p.
Proof.
  intros Hv. pose proof (hostBits_range p Hv) as Hh. destruct Hv as [[_ Hb] _]. unfold Masked. cbn [pfx_addr].
  rewrite be_bytes_length. split; [done|]. split; [auto with mq|].
  rewrite Z.shiftl_mul_pow2, Z.shiftr_div_pow2 by lia. apply be_num_bytes. pose proof (be_num_range _ Hb) as Hr.
  assert (Hp : 0 < 2 ^ hostBits p) by (apply Z.pow_pos_nonneg; lia).
  pose proof (Z.div_pos (be_num (pfx_addr p)) (2 ^ hostBits p)).
  pose proof (Z.mul_div_le (be_num (pfx_addr p)) (2 ^ hostBits p)). nia.
Qed.

Lemma LastIPAddr_num p : valid_prefix p -> exists l, LastIPAddr p = Some l /\ length l = length (pfx_addr p) /\ bytes_ok l /\
  be_num l = be_num (pfx_addr (Masked p)) + 2 ^ hostBits p - 1.
Proof.
  intros Hv. pose proof (hostBits_range p Hv) as Hh. pose proof (Masked_num p Hv) as (_ & _ & ->). destruct Hv as [[Hl Hb] _].
  destruct (set_host_bits_spec (length (pfx_addr p)) (hostBits p) (pfx_addr p) [] eq_refl Hb ltac:(lia)) as (q & Hq & Hql & Hqb & Hqn).
  rewrite !app_nil_r in Hq. unfold LastIPAddr. rewrite Hq, Hql. exists q. split; [by destruct Hl as [-> | ->]|]. done.
Qed.

Lemma Contains_range p x : valid_prefix p -> length x = length (pfx_addr p) ->
  Prefix_Contains p x = true <->
  be_num (pfx_addr (Masked p)) <= be_num x <= be_num (pfx_addr (Masked p)) + 2 ^ hostBits p - 1.
Proof.
  intros Hv Hlx. destruct (Masked_num p Hv) as (_ & _ & ->). pose proof (hostBits_range p Hv).
  unfold Prefix_Contains. rewrite Hlx, Nat.eqb_refl, !Z.shiftr_div_pow2 by lia. cbn [andb]. rewrite Z.eqb_eq.
  set (h := 2 ^ hostBits p). assert (Hp : 0 < h) by (apply Z.pow_pos_nonneg; lia).
  set (a := be_num (pfx_addr p) / h). split.
  - intros <-. pose proof (Z.div_mod (be_num x) h). pose proof (Z.mod_pos_bound (be_num x) h Hp). lia.
  - intros Hr. symmetry. apply (Z.div_unique_pos _ _ _ (be_num x - a * h)); lia.
Qed.
Lemma Masked_le p : valid_prefix p -> be_num (pfx_addr (Masked p)) <= be_num (pfx_addr p).
Proof.
  intros Hv. destruct (Masked_num p Hv) as (_ & _ & ->). pose proof (hostBits_range p Hv).
  rewrite Z.mul_comm. apply Z.mul_div_le, Z.pow_pos_nonneg; lia.
Qed.

(** The end of a route: for every prefix [LastIPAddr] answers the greatest
    address the prefix contains, and the prefix contains exactly the addresses
    from its masked address to that one.  It never panics on a parsed prefix. *)
Theorem LastIPAddr_spec p : valid_prefix p -> exists l,
  LastIPAddr p = Some l /\ length l = length (pfx_addr p) /\ bytes_ok l /\
  forall x, bytes_ok x -> length x = length (pfx_addr p) ->
    (Prefix_Contains p x = true <-> be_num (pfx_addr (Masked p)) <= be_num x <= be_num l).
Proof.
  intros Hv. destruct (LastIPAddr_num p Hv) as (l & El & Hl & Hb & Hn). exists l. split; [done|]. split; [done|]. split; [done|].
  intros x _ Hlx. rewrite Hn. by apply Contains_range.
Qed.

Lemma LastIPAddr_spec_witness :
  exists l, LastIPAddr {| pfx_addr := [10; 8; 3; 77]; pfx_bits := 20 |} = Some l /\ l = [10; 8; 15; 255].
Proof.
  destruct (LastIPAddr_spec {| pfx_addr := [10; 8; 3; 77]; pfx_bits := 20 |}) as (l & El & _).
  - split; [split; [left; reflexivity|apply bytes_okb_ok; reflexivity]|cbn; lia].
  - exists l. split; [exact El|]. vm_compute in El. injection El as <-. reflexivity.
Defined.

(** ** Dotted quads *)

Lemma dec_all (P : Z -> bool) b : forallb P (map Z.of_nat (seq 0 256)) = true -> 0 <= b < 256 -> P b = true.
Proof.
  rewrite forallb_forall. intros H Hb. apply H, in_map_iff. exists (Z.to_nat b). split; [lia|]. apply in_seq. lia.
Qed.
Lemma parse_dec_dec b : 0 <= b < 256 -> parse_dec (dec b) = Some b.
Proof.
  intros Hb. pose proof (dec_all (fun b => match parse_dec (dec b) with Some v => v =? b | None => false end) b
    ltac:(vm_compute; reflexivity) Hb) as H. cbn beta in H. destruct (parse_dec (dec b)); [|done]. by apply Z.eqb_eq in H as ->.
Qed.
Lemma split_dec b : 0 <= b < 256 -> split_on "." (dec b) = [dec b].
Proof.
  intros Hb. pose proof (dec_all (fun b => match split_on "." (dec b) with [w] => String.eqb w (dec b) | _ => false end) b
    ltac:(vm_compute; reflexivity) Hb) as H. cbn beta in H. destruct (split_on "." (dec b)) as [|w [|? ?]]; try done.
  by apply String.eqb_eq in H as ->.
Qed.
Lemma dec_nonempty b : 0 <= b < 256 -> dec b <> ""%string.
Proof.
  intros Hb. pose proof (dec_all (fun b => negb (String.eqb (dec b) "")) b ltac:(vm_compute; reflexivity) Hb) as H.
  apply negb_true_iff, String.eqb_neq in H. done.
Qed.
Lemma split_on_nonempty c s : split_on c s <> [].
Proof. destruct s as [|d s]; [done|]. cbn [split_on]. destruct (Ascii.eqb c d); [done|]. by destruct (split_on c s). Qed.
Lemma split_on_app c s w r : split_on c s = [w] -> split_on c (s ++ String c EmptyString ++ r)%string = w :: split_on c r.
Proof.
  revert w. induction s as [|d s IH]; intros w.
  - intros [= <-]. change ("" ++ String c "" ++ r)%string with (String c r). cbn [split_on]. by rewrite Ascii.eqb_refl.
  - change (String d s ++ String c "" ++ r)%string with (String d (s ++ String c "" ++ r)). cbn [split_on].
    destruct (Ascii.eqb c d); [intros [= _ E]; by apply split_on_nonempty in E|].
    destruct (split_on c s) as [|v [|? ?]] eqn:Es; [by apply split_on_nonempty in Es| |done].
    intros [= <-]. by rewrite (IH v eq_refl).
Qed.
Lemma parse4_show4 b : length b = 4%nat -> bytes_ok b -> parse4 (show4 b) = Some b.
Proof.
  intros Hl Hb. destruct b as [|x [|y [|z [|w [|? ?]]]]]; try discriminate.
  unfold bytes_ok in Hb. repeat match goal with H : Forall _ (_ :: _) |- _ => apply Forall_cons in H as [? H] end.
  unfold parse4, show4, byte_at. cbn [nth].
  rewrite (split_on_app _ _ _ _ (split_dec x ltac:(done))).
  rewrite (split_on_app _ _ _ _ (split_dec y ltac:(done))).
  rewrite (split_on_app _ _ _ _ (split_dec z ltac:(done))).
  rewrite split_dec by done. cbn [mbind option_bind]. by rewrite !parse_dec_dec.
Qed.

Lemma dotted_laws : @IpLaws dotted.
Proof.
  constructor; cbn [ipconv_IPv4ToInt ipconv_IntToIPv4 ipconv_ParseIP ParsePrefix dotted].
  - intros b -> _. done.
  - done.
  - intros b Hl Hb. exists b. rewrite parse4_show4 by done. split; [reflexivity|]. unfold To4. by rewrite Hl.
  - intros s p Hp. unfold parse_prefix4 in Hp. destruct (split_on "/" s) as [|a [|n [|? ?]]]; try done.
    destruct (parse4 a) as [b|] eqn:Ea; [|done]. cbn [mbind option_bind] in Hp. destruct (parse_dec n) as [k|] eqn:En; [|done]. cbn [mbind option_bind] in Hp.
    destruct (k <=? 32) eqn:Ek; [|done]. injection Hp as <-. bool_hyps.
    assert (Hdec : forall t v, parse_dec t = Some v -> 0 <= v < 256).
    { intros t v Hv. apply List.find_some in Hv as [Hin _]. apply in_map_iff in Hin as (m & <- & Hm%in_seq). lia. }
    unfold parse4 in Ea. destruct (split_on "." a) as [|a1 [|a2 [|a3 [|a4 [|? ?]]]]]; try done.
    destruct (parse_dec a1) as [v1|] eqn:E1; [|done]. destruct (parse_dec a2) as [v2|] eqn:E2; [|done].
    destruct (parse_dec a3) as [v3|] eqn:E3; [|done]. destruct (parse_dec a4) as [v4|] eqn:E4; [|done].
    cbn [mbind option_bind] in Ea. injection Ea as <-. apply Hdec in E1, E2, E3, E4, En.
    split; [split; [by left|by repeat apply Forall_cons_2]|cbn; lia].
Qed.

(** ** Text and numbers *)

Section Laws.
Context `{IpLaws}.

Lemma IP_String_4 b : length b = 4%nat -> IP_String b = show4 b.
Proof. intros Hl. unfold IP_String, To4. rewrite Hl. by destruct b. Qed.
Lemma Addr_String_4 b : length b = 4%nat -> Addr_String b = show4 b.
Proof. intros Hl. unfold Addr_String. by rewrite Hl. Qed.

Lemma ParseIP_show4 b : length b = 4%nat -> bytes_ok b -> ParseIP (show4 b) = Ok (b, be_num b).
Proof.
  intros Hl Hb. unfold ParseIP. destruct (law_ParseIP b Hl Hb) as (ip & -> & ->). cbn [Z.eqb Pos.eqb].
  unfold IPv4ToInt. by rewrite law_IPv4ToInt.
Qed.

(** Address texts round-trip: the text the repositories store for a number
    of the IPv4 range parses back to that number and to its four bytes. *)
Theorem ip_text_roundtrip n : 0 <= n < 2 ^ 32 ->
  ParseIP (IP_String (IntToIPv4 n)) = Ok (be_bytes 4 n, n) /\ ip_num (ip_text n) = Some n.
Proof.
  intros Hn. assert (Ht : ParseIP (IP_String (IntToIPv4 n)) = Ok (be_bytes 4 n, n)).
  { unfold IntToIPv4. rewrite law_IntToIPv4 by done. rewrite IP_String_4 by apply be_bytes_length.
    rewrite ParseIP_show4 by (apply be_bytes_length || auto with mq). by rewrite be_num_bytes. }
  split; [done|]. unfold ip_num, ip_text. rewrite u32_small by lia. by rewrite Ht.
Qed.

(** The same facts in the form the repositories use. *)
Lemma ip_text_show n : 0 <= n < 2 ^ 32 -> ip_text n = show4 (be_bytes 4 n).
Proof.
  intros Hn. unfold ip_text, IntToIPv4. rewrite u32_small by lia. rewrite law_IntToIPv4 by done.
  apply IP_String_4, be_bytes_length.
Qed.
Lemma ip_num_text n : 0 <= n < 2 ^ 32 -> ip_num (ip_text n) = Some n.
Proof.
  intros Hn. unfold ip_num. rewrite ip_text_show by done.
  rewrite ParseIP_show4 by (apply be_bytes_length || auto with mq). by rewrite be_num_bytes.
Qed.
Lemma ip_text_nonempty n : ip_text n <> ""%string.
Proof.
  unfold ip_text, IntToIPv4. pose proof (u32_range n). rewrite law_IntToIPv4 by lia.
  rewrite IP_String_4 by apply be_bytes_length. unfold show4.
  pose proof (dec_nonempty (byte_at (be_bytes 4 (u32 n)) 0) (bytes_ok_at _ _ (be_bytes_ok _ _))) as Hd.
  by destruct (dec _).
Qed.

(** The first and last usable addresses of an IPv4 prefix. *)
Lemma usable_v4 cidr p : ParsePrefix cidr = Some p -> length (pfx_addr p) = 4%nat -> pfx_bits p <= 31 ->
  let net := be_num (pfx_addr (Masked p)) in
  let k := if pfx_bits p =? 31 then 0 else 1 in
  exists f l, FirstUsableIP cidr = Ok (show4 f) /\ LastUsableIP cidr = Some (Ok (show4 l)) /\
    length f = 4%nat /\ length l = 4%nat /\ bytes_ok f /\ bytes_ok l /\
    be_num f = net + k /\ be_num l = net + 2 ^ (32 - pfx_bits p) - 1 - k.
Proof.
  intros Ep H4 H31 net k. pose proof (law_ParsePrefix _ _ Ep) as Hv.
  destruct (Masked_num p Hv) as (Hml & Hmb & Hmn). destruct (LastIPAddr_num p Hv) as (l & El & Hll & Hlb & Hln).
  assert (Hh : hostBits p = 32 - pfx_bits p) by (unfold hostBits; rewrite H4; lia). rewrite Hh in Hln.
  pose proof (be_num_range l Hlb) as Hlr. rewrite Hll, H4 in Hlr. pose proof (be_num_range _ Hmb) as Hnr.
  assert (Hp2 : 2 <= 2 ^ (32 - pfx_bits p)).
  { replace (32 - pfx_bits p) with (1 + (31 - pfx_bits p)) by lia. rewrite Z.pow_add_r by lia.
    pose proof (Z.pow_pos_nonneg 2 (31 - pfx_bits p)). lia. }
  unfold FirstUsableIP, LastUsableIP. rewrite Ep, El. cbn [pfx_bits Masked mbind option_bind].
  rewrite (proj2 (Z.eqb_neq (pfx_bits p) 32)) by lia. fold net in Hln. subst k.
  destruct (pfx_bits p =? 31) eqn:E31.
  - exists (pfx_addr (Masked p)), l. rewrite !Addr_String_4 by congruence.
    split; [done|]. split; [done|]. split; [congruence|]. split; [congruence|]. split; [done|]. split; [done|]. fold net. lia.
  - destruct (Next_spec (pfx_addr (Masked p)) Hmb) as (N1 & N2 & N3).
    { rewrite Hml, H4. fold net. lia. }
    destruct (Prev_spec l Hlb) as (P1 & P2 & P3); [fold net in Hnr; lia|].
    exists (Next (pfx_addr (Masked p))), (Prev l). rewrite !Addr_String_4 by congruence.
    split; [done|]. split; [done|]. split; [congruence|]. split; [congruence|]. split; [done|]. split; [done|]. fold net in N3. lia.
Qed.
End Laws.

Lemma ip_text_roundtrip_witness : @ParseIP dotted (@IP_String dotted (@IntToIPv4 dotted 168427786)) = Ok ([10; 10; 1; 10], 168427786).
Proof. exact (proj1 (@ip_text_roundtrip dotted dotted_laws 168427786 ltac:(lia))). Defined.
