(* ===== verification/Nat.v ===== *)
(** * The reverse-NAT table and the SNAT port allocator (xdp/nat.go)

    [NatTable] pairs the BPF map shared with the XDP program (reverse
    direction) with the userspace map from flows to WAN ports and the
    round-robin port counter.  The kernel's [Map.Put] is a parameter: it may
    fail, and on an LRU map it may evict. *)
From S2P Require Import Prelude Words.
Local Open Scope Z_scope.

Definition snatPortMin : Z := 61000.
Definition snatPortMax : Z := 65535.
(** idleTimeout.Nanoseconds() *)
Definition idleNs : Z := 120 * 1000000000.

(** An IPv4 address ([[4]byte]) is its 32-bit big-endian value. *)
Record NatRevKey := { WanIP : Z; DstIP : Z; WanPort : Z; DstPort : Z; Proto : Z }.
Record NatRevVal := { ClientIP : Z; ClientPort : Z; LastSeenNs : Z }.
Record flowKey := { clientIP : Z; dstIP : Z; clientPort : Z; dstPort : Z; proto : Z }.

Global Instance NatRevKey_eq_dec : EqDecision NatRevKey.
Proof. solve_decision. Defined.
Global Instance NatRevVal_eq_dec : EqDecision NatRevVal.
Proof. solve_decision. Defined.
Global Instance flowKey_eq_dec : EqDecision flowKey.
Proof. solve_decision. Defined.
Global Instance NatRevKey_countable : Countable NatRevKey.
Proof.
  refine (inj_countable' (fun k => (WanIP k, DstIP k, WanPort k, DstPort k, Proto k))
    (fun '(a, b, c, d, e) => Build_NatRevKey a b c d e) _). by intros [].
Defined.
Global Instance flowKey_countable : Countable flowKey.
Proof.
  refine (inj_countable' (fun k => (clientIP k, dstIP k, clientPort k, dstPort k, proto k))
    (fun '(a, b, c, d, e) => Build_flowKey a b c d e) _). by intros [].
Defined.

Inductive natError := NatMapPut | PoolExhausted.

Record NatTable := {
  m : gmap NatRevKey NatRevVal;
  nextPort : Z;
  fwd : gmap flowKey Z
}.

(** The host is little-endian (amd64/arm64): a byte swap. *)
Definition hostToNet16 (v : Z) : Z := 256 * (v mod 256) + v / 256 mod 256.

Definition makeNatKey (wanIP wanPort proto dstIP dstPort : Z) : NatRevKey :=
  {| WanIP := wanIP; DstIP := dstIP; WanPort := hostToNet16 wanPort;
     DstPort := hostToNet16 dstPort; Proto := proto |}.

Definition makeFlowKey (cIP cPort proto dIP dPort : Z) : flowKey :=
  {| clientIP := cIP; dstIP := dIP; clientPort := cPort; dstPort := dPort; proto := proto |}.

Definition flowKeyFromNatEntry (key : NatRevKey) (val : NatRevVal) : flowKey :=
  {| clientIP := ClientIP val; dstIP := DstIP key;
     clientPort := hostToNet16 (ClientPort val);
     dstPort := hostToNet16 (DstPort key); proto := Proto key |}.

(** [OpenNatTable]: the pinned map as found, an empty forward map. *)
Definition OpenNatTable (pinned : gmap NatRevKey NatRevVal) : NatTable :=
  {| m := pinned; nextPort := snatPortMin; fwd := ∅ |}.

(** [bumpPort]; the caller holds [mu], so the compare-and-swap succeeds. *)
Definition bumpPort (t : NatTable) : Z * NatTable :=
  let p := nextPort t in
  let next := u32 (p + 1) in
  let next := if snatPortMax <? next then snatPortMin else next in
  (u16 p, {| m := m t; nextPort := next; fwd := fwd t |}).

(** [const rangeSize = snatPortMax - snatPortMin + 1]. *)
Definition rangeSize : nat := Z.to_nat (snatPortMax - snatPortMin + 1).

Section Alloc.
(** [t.m.Put]: the map afterwards, or an error. *)
Variable mapPut : gmap NatRevKey NatRevVal -> NatRevKey -> NatRevVal -> option (gmap NatRevKey NatRevVal).

(** The slow-path loop of [AllocPort], [i] iterations left. *)
Fixpoint allocLoop (i : nat) (now : Z) (t : NatTable)
    (wanIP proto dstIP dstPort clientIP clientPort : Z) : result natError Z * NatTable :=
  match i with
  | O => (Err PoolExhausted, t)
  | S i' =>
      let '(p, t) := bumpPort t in
      let key := makeNatKey wanIP p proto dstIP dstPort in
      match m t !! key with
      | None =>
          let val := {| ClientIP := clientIP; ClientPort := hostToNet16 clientPort; LastSeenNs := now |} in
          match mapPut (m t) key val with
          | None => (Err NatMapPut, t)
          | Some m' =>
              (Ok p, {| m := m'; nextPort := nextPort t;
                        fwd := <[makeFlowKey clientIP clientPort proto dstIP dstPort := p]> (fwd t) |})
          end
      | Some _ => allocLoop i' now t wanIP proto dstIP dstPort clientIP clientPort
      end
  end.

Definition AllocPort (now : Z) (t : NatTable)
    (wanIP proto dstIP dstPort clientIP clientPort : Z) : result natError Z * NatTable :=
  match fwd t !! makeFlowKey clientIP clientPort proto dstIP dstPort with
  | Some wanPort => (Ok wanPort, t)
  | None => allocLoop rangeSize now t wanIP proto dstIP dstPort clientIP clientPort
  end.
End Alloc.

(** [ReleasePort]; the boolean is [t.m.Delete]'s success. *)
Definition ReleasePort (t : NatTable) (wanIP wanPort proto dstIP dstPort : Z) : bool * NatTable :=
  let key := makeNatKey wanIP wanPort proto dstIP dstPort in
  match m t !! key with
  | Some val => (true, {| m := delete key (m t); nextPort := nextPort t;
                          fwd := delete (flowKeyFromNatEntry key val) (fwd t) |})
  | None => (false, t)
  end.

(** The body of [gc]'s loop on one pair the map iterator yields. *)
Definition gcEntry (now : Z) (t : NatTable) (kv : NatRevKey * NatRevVal) : NatTable :=
  let '(key, val) := kv in
  if LastSeenNs val =? 0 then t
  else if now <=? LastSeenNs val then t
  else if idleNs <? u64 (now - LastSeenNs val) then
    {| m := delete key (m t); nextPort := nextPort t;
       fwd := delete (flowKeyFromNatEntry key val) (fwd t) |}
  else t.

(** [gc]: [iter] is the sequence of pairs [t.m.Iterate] yields. *)
Definition gc (now : Z) (iter : list (NatRevKey * NatRevVal)) (t : NatTable) : NatTable :=
  foldl (gcEntry now) t iter.

(** The XDP program's [val->last_seen_ns = bpf_ktime_get_ns()]. *)
Definition stamp (now : Z) (key : NatRevKey) (t : NatTable) : NatTable :=
  {| m := alter (fun v => {| ClientIP := ClientIP v; ClientPort := ClientPort v; LastSeenNs := now |}) key (m t);
     nextPort := nextPort t; fwd := fwd t |}.

(** ** Byte order *)

Definition port_ok (p : Z) : Prop := 0 <= p < 65536.

Lemma hostToNet16_range v : 0 <= hostToNet16 v < 65536.
Proof.
  unfold hostToNet16. pose proof (Z.mod_pos_bound v 256). pose proof (Z.mod_pos_bound (v / 256) 256). lia.
Qed.

Lemma hostToNet16_invol v : port_ok v -> hostToNet16 (hostToNet16 v) = v.
Proof.
  unfold port_ok, hostToNet16. intros.
  pose proof (Z.mod_pos_bound v 256). pose proof (Z.div_mod v 256).
  assert (Hd : 0 <= v / 256 < 256) by (split; [apply Z.div_pos; lia|apply Z.div_lt_upper_bound; lia]).
  rewrite (Z.mod_small (v / 256)) by lia.
  replace (256 * (v mod 256) + v / 256) with (v / 256 + v mod 256 * 256) by lia.
  rewrite Z.mod_add, Z.div_add by lia. rewrite (Z.mod_small (v / 256)), (Z.div_small (v / 256)) by lia.
  rewrite Z.mod_small by lia. lia.
Qed.

Lemma hostToNet16_inj a b : port_ok a -> port_ok b -> hostToNet16 a = hostToNet16 b -> a = b.
Proof. intros Ha Hb H. rewrite <- (hostToNet16_invol a), <- (hostToNet16_invol b); congruence. Qed.

(** The reconstruction of a flow from its reverse entry. *)
Lemma flowKeyFromNatEntry_make wan p pr dip dport cip cport now :
  port_ok dport -> port_ok cport ->
  flowKeyFromNatEntry (makeNatKey wan p pr dip dport)
    {| ClientIP := cip; ClientPort := hostToNet16 cport; LastSeenNs := now |}
  = makeFlowKey cip cport pr dip dport.
Proof.
  intros. unfold flowKeyFromNatEntry, makeNatKey, makeFlowKey. simpl.
  by rewrite !hostToNet16_invol.
Qed.

(** ** The port counter *)

Definition next_of (p : Z) : Z := if snatPortMax <? u32 (p + 1) then snatPortMin else u32 (p + 1).
Definition port_in_range (p : Z) : Prop := snatPortMin <= p <= snatPortMax.

Lemma bumpPort_eq t : port_in_range (nextPort t) ->
  bumpPort t = (nextPort t, {| m := m t; nextPort := next_of (nextPort t); fwd := fwd t |}).
Proof.
  intros [H1 H2]. unfold snatPortMin, snatPortMax in *. unfold bumpPort. rewrite u16_small by lia. done.
Qed.

Lemma next_of_range p : port_in_range p -> port_in_range (next_of p).
Proof.
  unfold port_in_range, next_of, snatPortMin, snatPortMax. intros. rewrite u32_small by lia.
  destruct (65535 <? p + 1) eqn:E; bool_hyps; lia.
Qed.

(** [probe p k]: the port tried after [k] bumps from counter [p]. *)
Fixpoint probe (p : Z) (k : nat) : Z := match k with O => p | S k' => probe (next_of p) k' end.

Lemma probe_spec p k : port_in_range p ->
  probe p k = snatPortMin + (p - snatPortMin + Z.of_nat k) mod 4536.
Proof.
  revert p. induction k as [|k IH]; intros p Hp; cbn [probe].
  - unfold port_in_range, snatPortMin, snatPortMax in *. rewrite Z.mod_small; lia.
  - rewrite IH by (by apply next_of_range). unfold port_in_range, next_of, snatPortMin, snatPortMax in *.
    rewrite u32_small by lia. destruct (65535 <? p + 1) eqn:E; bool_hyps.
    + assert (p = 65535) as -> by lia.
      replace (65535 - 61000 + Z.of_nat (S k)) with (Z.of_nat k + 1 * 4536) by lia.
      rewrite Z.mod_add by lia. do 2 f_equal; lia.
    + do 2 f_equal; lia.
Qed.

(** Every port of the range is tried within [rangeSize] bumps. *)
Lemma probe_covers p q : port_in_range p -> port_in_range q ->
  exists k, (k < rangeSize)%nat /\ probe p k = q.
Proof.
  intros Hp Hq. exists (Z.to_nat ((q - p) mod 4536)).
  pose proof (Z.mod_pos_bound (q - p) 4536).
  split; [unfold rangeSize, snatPortMin, snatPortMax; lia|].
  rewrite probe_spec by done. rewrite Z2Nat.id by lia.
  unfold port_in_range, snatPortMin, snatPortMax in *.
  rewrite Zplus_mod_idemp_r. replace (p - 61000 + (q - p)) with (q - 61000) by lia.
  rewrite Z.mod_small; lia.
Qed.

Lemma probe_range p k : port_in_range p -> port_in_range (probe p k).
Proof. revert p. induction k; intros; cbn [probe]; auto using next_of_range. Qed.

(** ** The allocator's loop *)

Section AllocLemmas.
Context (mapPut : gmap NatRevKey NatRevVal -> NatRevKey -> NatRevVal -> option (gmap NatRevKey NatRevVal)).
Context (now wanIP pr dip dport cip cport : Z).
Let key p := makeNatKey wanIP p pr dip dport.
Let val := {| ClientIP := cip; ClientPort := hostToNet16 cport; LastSeenNs := now |}.
Let fk := makeFlowKey cip cport pr dip dport.

(** What the slow path does: the first free port in probe order is taken, or
    every probed port is taken already. *)
Inductive alloc_outcome (t : NatTable) (n : nat) : result natError Z * NatTable -> Prop :=
  | alloc_got k m' : (k < n)%nat ->
      (forall j, (j < k)%nat -> is_Some (m t !! key (probe (nextPort t) j))) ->
      m t !! key (probe (nextPort t) k) = None ->
      mapPut (m t) (key (probe (nextPort t) k)) val = Some m' ->
      alloc_outcome t n (Ok (probe (nextPort t) k),
        {| m := m'; nextPort := probe (nextPort t) (S k);
           fwd := <[fk := probe (nextPort t) k]> (fwd t) |})
  | alloc_put_failed k : (k < n)%nat ->
      m t !! key (probe (nextPort t) k) = None ->
      mapPut (m t) (key (probe (nextPort t) k)) val = None ->
      alloc_outcome t n (Err NatMapPut,
        {| m := m t; nextPort := probe (nextPort t) (S k); fwd := fwd t |})
  | alloc_exhausted :
      (forall j, (j < n)%nat -> is_Some (m t !! key (probe (nextPort t) j))) ->
      alloc_outcome t n (Err PoolExhausted,
        {| m := m t; nextPort := probe (nextPort t) n; fwd := fwd t |}).

Lemma allocLoop_outcome n t : port_in_range (nextPort t) ->
  alloc_outcome t n (allocLoop mapPut n now t wanIP pr dip dport cip cport).
Proof using.
  revert t. induction n as [|n IH]; intros t Hr.
  - destruct t. cbn. apply (alloc_exhausted {| m := m0; nextPort := nextPort0; fwd := fwd0 |}). intros; lia.
  - cbn [allocLoop]. rewrite bumpPort_eq by done. cbn [m fwd nextPort].
    destruct (m t !! makeNatKey wanIP (nextPort t) pr dip dport) as [v|] eqn:E.
    + set (t1 := {| m := m t; nextPort := next_of (nextPort t); fwd := fwd t |}).
      assert (Hr1 : port_in_range (nextPort t1)) by (by apply next_of_range).
      specialize (IH t1 Hr1). destruct (allocLoop mapPut n now t1 wanIP pr dip dport cip cport) as [r t'].
      inversion IH as [k m' Hk Hbefore Hfree Hput [Hr' Ht']|k Hk Hfree Hput [Hr' Ht']|Hall [Hr' Ht']]; subst;
        cbn [m fwd nextPort t1] in *.
      * apply (alloc_got t (S n) (S k)); [lia| |done|done].
        intros [|j] Hj; cbn [probe]; [by eexists|apply Hbefore; lia].
      * apply (alloc_put_failed t (S n) (S k)); [lia|done|done].
      * apply (alloc_exhausted t (S n)). intros [|j] Hj; cbn [probe]; [by eexists|apply Hall; lia].
    + destruct (mapPut (m t) (makeNatKey wanIP (nextPort t) pr dip dport) _) as [m'|] eqn:Ep.
      * apply (alloc_got t (S n) 0); [lia|intros; lia|done|done].
      * apply (alloc_put_failed t (S n) 0); [lia|done|done].
Qed.
End AllocLemmas.

(** [AllocPort] on a new flow is its loop. *)
Lemma AllocPort_new mapPut now t wan pr dip dport cip cport :
  fwd t !! makeFlowKey cip cport pr dip dport = None ->
  AllocPort mapPut now t wan pr dip dport cip cport
  = allocLoop mapPut rangeSize now t wan pr dip dport cip cport.
Proof. intros H. unfold AllocPort. by rewrite H. Qed.

(** ** The table's invariant

    Without evictions and with one WAN address, the forward map and the BPF map
    are two views of one bijection between flows and WAN ports. *)

Record NatInv (wan : Z) (t : NatTable) : Prop := {
  inv_counter : port_in_range (nextPort t);
  inv_fwd : forall fk p, fwd t !! fk = Some p ->
    port_in_range p /\ port_ok (clientPort fk) /\ port_ok (dstPort fk) /\
    exists val, m t !! makeNatKey wan p (proto fk) (dstIP fk) (dstPort fk) = Some val /\
      ClientIP val = clientIP fk /\ ClientPort val = hostToNet16 (clientPort fk);
  inv_rev : forall key val, m t !! key = Some val ->
    exists p, fwd t !! flowKeyFromNatEntry key val = Some p /\
      key = makeNatKey wan p (Proto key) (DstIP key) (hostToNet16 (DstPort key))
}.

(** Two entries of an invariant table for the same flow are the same entry. *)
Lemma NatInv_key_unique wan t k1 v1 k2 v2 : NatInv wan t ->
  m t !! k1 = Some v1 -> m t !! k2 = Some v2 ->
  flowKeyFromNatEntry k1 v1 = flowKeyFromNatEntry k2 v2 -> k1 = k2.
Proof.
  intros HI H1 H2 Hf. destruct (inv_rev _ _ HI _ _ H1) as (p1 & Hp1 & Hk1).
  destruct (inv_rev _ _ HI _ _ H2) as (p2 & Hp2 & Hk2). rewrite Hf in Hp1. rewrite Hp1 in Hp2.
  injection Hp2 as ->. injection Hf as _ Hd _ Hdp Hpr. rewrite Hk1, Hk2. by rewrite Hpr, Hd, Hdp.
Qed.

Lemma NatInv_open wan : NatInv wan (OpenNatTable ∅).
Proof.
  split; cbn.
  - unfold port_in_range, snatPortMin, snatPortMax; lia.
  - intros fk p H. by rewrite lookup_empty in H.
  - intros key val H. by rewrite lookup_empty in H.
Qed.

(** The flow read back from a reverse entry of [fk] is [fk]. *)
Lemma flow_of_entry wan p fk val : port_ok (clientPort fk) -> port_ok (dstPort fk) ->
  ClientIP val = clientIP fk -> ClientPort val = hostToNet16 (clientPort fk) ->
  flowKeyFromNatEntry (makeNatKey wan p (proto fk) (dstIP fk) (dstPort fk)) val = fk.
Proof.
  intros Hc Hd E1 E2. unfold flowKeyFromNatEntry, makeNatKey. destruct fk; cbn in *.
  rewrite E2, !hostToNet16_invol by done. by rewrite E1.
Qed.

Lemma NatInv_delete wan t key val : NatInv wan t -> m t !! key = Some val ->
  NatInv wan {| m := delete key (m t); nextPort := nextPort t;
                fwd := delete (flowKeyFromNatEntry key val) (fwd t) |}.
Proof.
  intros HI Hkv. split; cbn [m fwd nextPort].
  - apply HI.
  - intros fk p Hf. apply lookup_delete_Some in Hf as [Hne Hf].
    destruct (inv_fwd _ _ HI _ _ Hf) as (Hp & Hc & Hd & v & Hv & E1 & E2).
    refine (conj Hp (conj Hc (conj Hd _))). exists v. refine (conj _ (conj E1 E2)).
    rewrite lookup_delete_ne; [done|]. intros ->. apply Hne.
    rewrite Hkv in Hv. injection Hv as <-. by apply flow_of_entry.
  - intros k v Hk. apply lookup_delete_Some in Hk as [Hne Hk].
    destruct (inv_rev _ _ HI _ _ Hk) as (p & Hp & Hkey). exists p. split; [|done].
    rewrite lookup_delete_ne; [done|]. intros Hf. apply Hne.
    by eapply NatInv_key_unique.
Qed.

Lemma NatInv_stamp wan t now key : NatInv wan t -> NatInv wan (stamp now key t).
Proof.
  intros HI. unfold stamp. split; cbn [m fwd nextPort].
  - apply HI.
  - intros fk p Hf. destruct (inv_fwd _ _ HI _ _ Hf) as (Hp & Hc & Hd & v & Hv & E1 & E2).
    refine (conj Hp (conj Hc (conj Hd _))).
    destruct (decide (key = makeNatKey wan p (proto fk) (dstIP fk) (dstPort fk))) as [->|Hne].
    + eexists. rewrite lookup_alter_eq, Hv. cbn. repeat split; done.
    + exists v. by rewrite lookup_alter_ne by done.
  - intros k v Hk. apply lookup_alter_Some in Hk as [(-> & v' & Hv' & ->)|[Hne Hk]].
    + destruct (inv_rev _ _ HI _ _ Hv') as (p & Hp & Hkey). by exists p.
    + by apply (inv_rev _ _ HI).
Qed.

Lemma NatInv_alloc mapPut wan now t pr dip dport cip cport r t' :
  (forall mm k v mm', mapPut mm k v = Some mm' -> mm' = <[k:=v]> mm) ->
  port_ok dport -> port_ok cport -> NatInv wan t ->
  AllocPort mapPut now t wan pr dip dport cip cport = (r, t') -> NatInv wan t'.
Proof.
  intros Hput Hd Hc HI HA.
  destruct (fwd t !! makeFlowKey cip cport pr dip dport) as [p|] eqn:E.
  { unfold AllocPort in HA. rewrite E in HA. by injection HA as <- <-. }
  rewrite AllocPort_new in HA by done. generalize dependent rangeSize. intros n HA.
  pose proof (allocLoop_outcome mapPut now wan pr dip dport cip cport n t (inv_counter _ _ HI)) as Ho.
  rewrite HA in Ho. clear HA.
  assert (Hpr : forall k, port_in_range (probe (nextPort t) k)) by (intros; apply probe_range, HI).
  inversion Ho as [k m' Hk Hb Hfree Hp [Hr' Ht']|k Hk Hfree Hp [Hr' Ht']|Hall [Hr' Ht']]; subst; clear Ho;
    [|by split; cbn [m fwd nextPort]; [first [exact (Hpr (S k))|exact (Hpr n)]|apply HI|apply HI]..].
  apply Hput in Hp as ->. set (q := probe (nextPort t) k) in *.
  split; cbn [m fwd nextPort].
  - exact (Hpr (S k)).
  - intros fk p [[<- <-]|[Hne Hf]]%lookup_insert_Some.
    + cbn. refine (conj (Hpr _) (conj Hc (conj Hd _))). eexists. rewrite lookup_insert_eq. done.
    + destruct (inv_fwd _ _ HI _ _ Hf) as (Hp' & Hc' & Hd' & v & Hv & E1 & E2).
      refine (conj Hp' (conj Hc' (conj Hd' _))). exists v. rewrite lookup_insert_ne; [done|]. congruence.
  - intros k' v [[<- <-]|[Hne Hk']]%lookup_insert_Some.
    + exists q. rewrite flowKeyFromNatEntry_make by done. rewrite lookup_insert_eq. split; [done|].
      cbn. by rewrite hostToNet16_invol.
    + destruct (inv_rev _ _ HI _ _ Hk') as (p & Hp' & Hkey). exists p. split; [|done].
      rewrite lookup_insert_ne; [done|]. intros Hf. by rewrite <- Hf, E in Hp'.
Qed.

(** The pairs the iterator yields are of entries the map holds (their time
    stamps may be older: XDP writes concurrently). *)
Definition iter_of (t : NatTable) (iter : list (NatRevKey * NatRevVal)) : Prop :=
  NoDup iter.*1 /\
  Forall (fun kv => exists v, m t !! kv.1 = Some v /\
            ClientIP v = ClientIP kv.2 /\ ClientPort v = ClientPort kv.2) iter.

Lemma flowKeyFromNatEntry_ext k v v' : ClientIP v = ClientIP v' -> ClientPort v = ClientPort v' ->
  flowKeyFromNatEntry k v = flowKeyFromNatEntry k v'.
Proof. intros E1 E2. unfold flowKeyFromNatEntry. by rewrite E1, E2. Qed.

Lemma NatInv_gc wan now iter t : NatInv wan t -> iter_of t iter -> NatInv wan (gc now iter t).
Proof.
  unfold gc. revert t. induction iter as [|[k v] iter IH]; intros t HI [Hnd Hall]; cbn [foldl]; [done|].
  inversion Hnd as [|? ? Hnin Hnd']; inversion Hall as [|? ? Hkv Hall']; subst.
  destruct Hkv as (v0 & Hv0 & E1 & E2). cbn [fst snd] in *.
  unfold gcEntry at 2. destruct (LastSeenNs v =? 0); [apply IH; done|].
  destruct (now <=? LastSeenNs v); [apply IH; done|].
  destruct (idleNs <? u64 (now - LastSeenNs v)); [|apply IH; done].
  apply IH.
  - rewrite <- (flowKeyFromNatEntry_ext k v0 v) by done. by apply NatInv_delete.
  - split; [done|]. rewrite Forall_forall in Hall' |- *. intros [k' v'] Hin. specialize (Hall' _ Hin).
    cbn [m] in *. cbn in Hall'. cbn. rewrite lookup_delete_ne; [done|].
    intros ->. apply Hnin. apply list_elem_of_fmap. by exists (k', v').
Qed.

(** ** The table as a step relation *)

Inductive nat_step (wan : Z) : NatTable -> NatTable -> Prop :=
  | step_alloc mapPut now t pr dip dport cip cport r t' :
      (forall mm k v mm', mapPut mm k v = Some mm' -> mm' = <[k:=v]> mm) ->
      port_ok dport -> port_ok cport ->
      AllocPort mapPut now t wan pr dip dport cip cport = (r, t') -> nat_step wan t t'
  | step_release t port pr dip dport :
      port_ok dport ->
      nat_step wan t (ReleasePort t wan port pr dip dport).2
  | step_gc t now iter : iter_of t iter -> nat_step wan t (gc now iter t)
  | step_stamp t now key : nat_step wan t (stamp now key t).

Lemma NatInv_step wan t t' : NatInv wan t -> nat_step wan t t' -> NatInv wan t'.
Proof.
  intros HI Hs. destruct Hs.
  - match goal with H : AllocPort _ _ _ _ _ _ _ _ _ = _ |- _ =>
      eapply NatInv_alloc; [eassumption| | |exact HI|exact H]; assumption end.
  - unfold ReleasePort. destruct (m t !! _) as [v|] eqn:E; cbn [snd]; [|done]. by apply NatInv_delete.
  - by apply NatInv_gc.
  - by apply NatInv_stamp.
Qed.

Lemma NatInv_reach wan t : reach (nat_step wan) (OpenNatTable ∅) t -> NatInv wan t.
Proof. apply reach_invariant; [apply NatInv_open|intros; by eapply NatInv_step]. Qed.

(** ** What the XDP program finds

    The reply of remote [dip:dport] to [wan:p] is looked up under the key the
    XDP program builds from the frame: its destination address and port and its
    source address and port, in network order. *)
Definition reply_key (wan p pr dip dport : Z) : NatRevKey :=
  {| WanIP := wan; DstIP := dip; WanPort := hostToNet16 p; DstPort := hostToNet16 dport; Proto := pr |}.

(** After an [Ok] allocation the flow is recorded under the answered port. *)
Lemma AllocPort_fwd mapPut now t wan pr dip dport cip cport p t' : NatInv wan t ->
  AllocPort mapPut now t wan pr dip dport cip cport = (Ok p, t') ->
  fwd t' !! makeFlowKey cip cport pr dip dport = Some p.
Proof.
  intros HI HA. destruct (fwd t !! makeFlowKey cip cport pr dip dport) as [q|] eqn:E.
  - unfold AllocPort in HA. rewrite E in HA. by injection HA as <- <-.
  - rewrite AllocPort_new in HA by done. generalize dependent rangeSize. intros n HA.
    pose proof (allocLoop_outcome mapPut now wan pr dip dport cip cport n t (inv_counter _ _ HI)) as Ho.
    rewrite HA in Ho. inversion Ho; subst. cbn. apply lookup_insert_eq.
Qed.

(** The reply of an allocated flow finds the flow's client. *)
Lemma AllocPort_entry mapPut now t wan pr dip dport cip cport p t' :
  (forall mm k v mm', mapPut mm k v = Some mm' -> mm' = <[k:=v]> mm) ->
  port_ok dport -> port_ok cport -> NatInv wan t ->
  AllocPort mapPut now t wan pr dip dport cip cport = (Ok p, t') ->
  NatInv wan t' /\ port_in_range p /\
  exists v, m t' !! reply_key wan p pr dip dport = Some v /\
     ClientIP v = cip /\ ClientPort v = hostToNet16 cport.
Proof.
  intros Hput Hd Hc HI HA. pose proof (NatInv_alloc _ _ _ _ _ _ _ _ _ _ _ Hput Hd Hc HI HA) as HI'.
  pose proof (AllocPort_fwd _ _ _ _ _ _ _ _ _ _ _ HI HA) as Hf.
  destruct (inv_fwd _ _ HI' _ _ Hf) as (Hp & _ & _ & v & Hv & E1 & E2). eauto 6.
Qed.

(** A put that always succeeds and evicts nothing. *)
Definition plain_put (mm : gmap NatRevKey NatRevVal) (k : NatRevKey) (v : NatRevVal)
  : option (gmap NatRevKey NatRevVal) := Some (<[k:=v]> mm).

Lemma plain_put_spec mm k v mm' : plain_put mm k v = Some mm' -> mm' = <[k:=v]> mm.
Proof. intros H. by injection H. Qed.

Definition free_port (t : NatTable) (wan pr dip dport p : Z) : Prop :=
  port_in_range p /\ m t !! makeNatKey wan p pr dip dport = None.

(** An eviction by the kernel's LRU map. *)
Definition evict (key : NatRevKey) (t : NatTable) : NatTable :=
  {| m := delete key (m t); nextPort := nextPort t; fwd := fwd t |}.

Inductive nat_step_lru (wan : Z) : NatTable -> NatTable -> Prop :=
  | step_lru_plain t t' : nat_step wan t t' -> nat_step_lru wan t t'
  | step_lru_evict t key : nat_step_lru wan t (evict key t).

(** Allocate for each flow of a list in turn, from one client port each. *)
Definition alloc_run (wan pr dport cip : Z) (t : NatTable) (l : list (Z * Z)) : NatTable :=
  foldl (fun t dc => (AllocPort plain_put 1 t wan pr dc.1 dport cip dc.2).2) t l.

Lemma alloc_run_reach wan pr dport cip t l : port_ok dport -> Forall (fun dc => port_ok dc.2) l ->
  reach (nat_step_lru wan) t (alloc_run wan pr dport cip t l).
Proof.
  intros Hd. unfold alloc_run. revert t. induction l as [|[d c] l IH]; intros t Hl; cbn [foldl].
  - constructor.
  - inversion Hl; subst. eapply reach_trans; [|by apply IH].
    eapply reach_step; [constructor|]. apply step_lru_plain. cbn [fst snd] in *.
    destruct (AllocPort plain_put 1 t wan pr d dport cip c) as [r t'] eqn:E.
    by apply (step_alloc wan plain_put 1 t pr d dport cip c r t' plain_put_spec).
Qed.

(** The shape of the history in which an eviction lets a port be reused. *)
Definition evict_history (wan pr dport c1 c2 : Z) (l1 : list (Z * Z)) (key : NatRevKey) (l2 l3 : list (Z * Z)) : NatTable :=
  alloc_run wan pr dport c2
    (alloc_run wan pr dport c1 (evict key (alloc_run wan pr dport c1 (OpenNatTable ∅) l1)) l2) l3.

Lemma evict_history_reach wan pr dport c1 c2 l1 key l2 l3 :
  port_ok dport -> Forall (fun dc => port_ok dc.2) (l1 ++ l2 ++ l3) ->
  reach (nat_step_lru wan) (OpenNatTable ∅) (evict_history wan pr dport c1 c2 l1 key l2 l3).
Proof.
  intros Hd Hl. apply Forall_app in Hl as [H1 [H2 H3]%Forall_app]. unfold evict_history.
  eapply reach_trans; [apply (alloc_run_reach wan pr dport c1 _ l1 Hd H1)|].
  eapply reach_trans; [eapply reach_step; [constructor|apply (step_lru_evict wan _ key)]|].
  eapply reach_trans; [apply (alloc_run_reach wan pr dport c1 _ l2 Hd H2)|].
  apply (alloc_run_reach wan pr dport c2 _ l3 Hd H3).
Qed.
