(* ===== verification/NatProps.v ===== *)
(** * Properties of the NAT table (xdp/nat.go)

    Injectivity and the return path over every reachable table, the allocator's
    behaviour on every branch, the garbage collector, and two histories (an LRU
    eviction, a reload over the pinned map) in which the two maps disagree. *)
From S2P Require Import Prelude Words Nat.
Local Open Scope Z_scope.

(** C2.  Return path: in every table reachable without evictions, when
    [AllocPort] answers [Ok p] for a flow, the entry the XDP program finds for
    the reply to [wan:p] is the flow's own client address and port, the port is
    in the SNAT range, and the table stays reachable. *)
Theorem AllocPort_return_path wan now t pr dip dport cip cport p t' mapPut :
  reach (nat_step wan) (OpenNatTable ∅) t ->
  (forall mm k v mm', mapPut mm k v = Some mm' -> mm' = <[k:=v]> mm) ->
  port_ok dport -> port_ok cport ->
  AllocPort mapPut now t wan pr dip dport cip cport = (Ok p, t') ->
  port_in_range p /\
  (exists v, m t' !! reply_key wan p pr dip dport = Some v /\
     ClientIP v = cip /\ hostToNet16 (ClientPort v) = cport) /\
  reach (nat_step wan) (OpenNatTable ∅) t'.
Proof.
  intros Hr Hput Hd Hc HA.
  assert (Hr' : reach (nat_step wan) (OpenNatTable ∅) t').
  { eapply reach_step; [done|]. eapply step_alloc; [exact Hput|exact Hd|exact Hc|exact HA]. }
  destruct (AllocPort_entry _ _ _ _ _ _ _ _ _ _ _ Hput Hd Hc (NatInv_reach _ _ Hr) HA) as (_ & Hp & v & Hv & E1 & E2).
  split; [done|]. split; [|done]. exists v. split; [done|]. split; [done|].
  rewrite E2. by apply hostToNet16_invol.
Qed.

Lemma AllocPort_return_path_witness :
  let t := OpenNatTable ∅ in
  let r := AllocPort plain_put 5 t 16909060 6 134744072 443 167772162 40000 in
  r.1 = Ok 61000 /\ port_in_range 61000 /\
  (exists v, m r.2 !! reply_key 16909060 61000 6 134744072 443 = Some v /\
     ClientIP v = 167772162 /\ hostToNet16 (ClientPort v) = 40000).
Proof.
  intros t r. split; [reflexivity|].
  destruct (AllocPort_return_path 16909060 5 t 6 134744072 443 167772162 40000 61000 r.2 plain_put)
    as (H1 & H2 & _).
  - constructor.
  - exact plain_put_spec.
  - unfold port_ok; lia.
  - unfold port_ok; lia.
  - vm_compute. reflexivity.
  - split; [exact H1|exact H2].
Defined.

(** Injectivity: in every table reachable without evictions, two flows to
    the same remote endpoint never hold the same WAN port. *)
Theorem nat_ports_injective wan t fk1 fk2 p :
  reach (nat_step wan) (OpenNatTable ∅) t ->
  fwd t !! fk1 = Some p -> fwd t !! fk2 = Some p ->
  dstIP fk1 = dstIP fk2 -> dstPort fk1 = dstPort fk2 -> proto fk1 = proto fk2 ->
  fk1 = fk2.
Proof.
  intros Hr H1 H2 Ed Ep Epr. apply NatInv_reach in Hr.
  destruct (inv_fwd _ _ Hr _ _ H1) as (_ & Hc1 & Hd1 & v1 & Hv1 & A1 & B1).
  destruct (inv_fwd _ _ Hr _ _ H2) as (_ & Hc2 & Hd2 & v2 & Hv2 & A2 & B2).
  rewrite <- Ed, <- Ep, <- Epr in Hv2. rewrite Hv1 in Hv2. injection Hv2 as <-.
  destruct fk1, fk2; cbn in *. subst. f_equal. apply hostToNet16_inj; congruence.
Qed.

Lemma nat_ports_injective_witness :
  let t := alloc_run 16909060 6 443 167772162 (OpenNatTable ∅) [(134744072, 40000)] in
  let fk := makeFlowKey 167772162 40000 6 134744072 443 in
  fwd t !! fk = Some 61000 /\ fk = fk.
Proof.
  intros t fk. split; [vm_compute; reflexivity|].
  apply (nat_ports_injective 16909060 t fk fk 61000); try reflexivity.
  eapply reach_step; [constructor|].
  apply (step_alloc 16909060 plain_put 1 (OpenNatTable ∅) 6 134744072 443 167772162 40000 (Ok 61000));
    [exact plain_put_spec|unfold port_ok; lia..|vm_compute; reflexivity].
Defined.

(** Allocation of a new flow, on every branch: with a put that succeeds it
    fails exactly when every one of the 4536 ports already has an entry for this
    remote endpoint; otherwise it takes a free port of the range, records it in
    both maps and changes no other entry. *)
Theorem AllocPort_new_flow wan now t pr dip dport cip cport :
  port_in_range (nextPort t) ->
  fwd t !! makeFlowKey cip cport pr dip dport = None ->
  match AllocPort plain_put now t wan pr dip dport cip cport with
  | (Ok p, t') =>
      free_port t wan pr dip dport p /\
      m t' = <[makeNatKey wan p pr dip dport :=
        {| ClientIP := cip; ClientPort := hostToNet16 cport; LastSeenNs := now |}]> (m t) /\
      fwd t' = <[makeFlowKey cip cport pr dip dport := p]> (fwd t) /\
      port_in_range (nextPort t')
  | (Err PoolExhausted, t') =>
      (forall p, ~ free_port t wan pr dip dport p) /\ m t' = m t /\ fwd t' = fwd t
  | (Err NatMapPut, _) => False
  end.
Proof.
  intros Hr Hf. rewrite AllocPort_new by done.
  pose proof (probe_covers (nextPort t)) as Hcov. generalize dependent rangeSize. intros n Hcov.
  destruct (allocLoop_outcome plain_put now wan pr dip dport cip cport n t Hr)
    as [k m' Hk Hb Hfree Hput|k Hk Hfree Hput|Hall].
  - apply plain_put_spec in Hput as ->. repeat split; try done; try apply probe_range; try done;
      try (by apply (probe_range _ (S k))).
  - discriminate.
  - repeat split; try done. intros p [Hp Hn]. destruct (Hcov p Hr Hp) as (k & Hk & Hpk).
    destruct (Hall k Hk) as [v Hv]. rewrite Hpk in Hv. congruence.
Qed.

Lemma AllocPort_new_flow_witness :
  let t := OpenNatTable ∅ in
  match AllocPort plain_put 7 t 1 17 2 53 3 5000 with
  | (Ok p, t') =>
      free_port t 1 17 2 53 p /\
      m t' = <[makeNatKey 1 p 17 2 53 :=
        {| ClientIP := 3; ClientPort := hostToNet16 5000; LastSeenNs := 7 |}]> (m t) /\
      fwd t' = <[makeFlowKey 3 5000 17 2 53 := p]> (fwd t) /\
      port_in_range (nextPort t')
  | (Err PoolExhausted, t') =>
      (forall p, ~ free_port t 1 17 2 53 p) /\ m t' = m t /\ fwd t' = fwd t
  | (Err NatMapPut, _) => False
  end.
Proof.
  intros t. apply (AllocPort_new_flow 1 7 t 17 2 53 3 5000).
  - vm_compute. split; discriminate.
  - reflexivity.
Defined.

(** The collector keeps active entries: an entry stamped within
    [idleTimeout] of the scan, stamped after the scan began, or never stamped
    survives [gc], as does its forward mapping. *)
Theorem gc_keeps_active wan now iter t key val :
  NatInv wan t -> iter_of t iter -> m t !! key = Some val ->
  (forall v, (key, v) ∈ iter -> LastSeenNs v = 0 \/ now <= LastSeenNs v \/
      (0 <= LastSeenNs v /\ now - LastSeenNs v <= idleNs)) ->
  m (gc now iter t) !! key = Some val /\
  fwd (gc now iter t) !! flowKeyFromNatEntry key val = fwd t !! flowKeyFromNatEntry key val.
Proof.
  intros HI Hit Hk Hact. unfold gc. revert t HI Hit Hk Hact.
  induction iter as [|[k v] iter IH]; intros t HI Hit Hk Hact; cbn [foldl]; [done|].
  assert (Hit' : iter_of t iter).
  { destruct Hit as [Hnd Hall]. inversion Hnd; inversion Hall; subst. done. }
  assert (Hact' : forall v0, (key, v0) ∈ iter -> LastSeenNs v0 = 0 \/ now <= LastSeenNs v0 \/
      (0 <= LastSeenNs v0 /\ now - LastSeenNs v0 <= idleNs)) by (intros; apply Hact; by right).
  unfold gcEntry at 2 4. destruct (LastSeenNs v =? 0) eqn:E0; [by apply IH|].
  destruct (now <=? LastSeenNs v) eqn:E1; [by apply IH|].
  destruct (idleNs <? u64 (now - LastSeenNs v)) eqn:E2; [|by apply IH].
  bool_hyps. destruct Hit as [Hnd Hall]. inversion Hnd as [|? ? Hnin Hnd']; inversion Hall as [|? ? Hkv Hall']; subst.
  cbn [fst snd] in *. destruct Hkv as (v0 & Hv0 & A & B).
  assert (Hne : key <> k).
  { intros ->. assert (Hv : (k, v) ∈ (k, v) :: iter) by left.
    destruct (Hact v Hv) as [?|[?|[? ?]]]; [lia|lia|].
    unfold u64, idleNs in *. rewrite Z.mod_small in E2; lia. }
  rewrite <- (flowKeyFromNatEntry_ext k v0 v) by done.
  assert (Hfne : flowKeyFromNatEntry k v0 <> flowKeyFromNatEntry key val).
  { intros Hf. apply Hne. symmetry. by eapply NatInv_key_unique. }
  edestruct (IH _ (NatInv_delete _ _ _ _ HI Hv0)) as [H1 H2]; cbn [m fwd nextPort].
  - split; [done|]. rewrite Forall_forall in Hall' |- *. intros [k' v'] Hin. specialize (Hall' _ Hin).
    cbn in *. rewrite lookup_delete_ne; [done|]. intros ->. apply Hnin. apply list_elem_of_fmap. by exists (k', v').
  - by rewrite lookup_delete_ne by done.
  - done.
  - split; [done|]. rewrite H2. cbn [fwd]. by rewrite lookup_delete_ne by done.
Qed.

Lemma gc_keeps_active_witness :
  let t := alloc_run 1 6 443 9 (OpenNatTable ∅) [(2, 40000)] in
  let key := makeNatKey 1 61000 6 2 443 in
  let val := {| ClientIP := 9; ClientPort := hostToNet16 40000; LastSeenNs := 1 |} in
  let t' := gc 100 [(key, val)] t in
  m t' !! key = Some val /\ fwd t' !! flowKeyFromNatEntry key val = fwd t !! flowKeyFromNatEntry key val.
Proof.
  intros t key val t'. apply (gc_keeps_active 1).
  - apply (NatInv_alloc plain_put 1 1 (OpenNatTable ∅) 6 2 443 9 40000 (Ok 61000));
      [exact plain_put_spec|unfold port_ok; lia..|apply NatInv_open|vm_compute; reflexivity].
  - split; [apply NoDup_singleton|]. apply Forall_singleton. exists val. split; [vm_compute; reflexivity|done].
  - vm_compute; reflexivity.
  - intros v Hv. apply list_elem_of_singleton in Hv. injection Hv as ->. right; right.
    unfold idleNs; simpl; lia.
Defined.

(** A known flow keeps its port, and the call leaves the whole table
    unchanged: the entry's idle timer is not touched. *)
Theorem AllocPort_known_flow mapPut now t wan pr dip dport cip cport p :
  fwd t !! makeFlowKey cip cport pr dip dport = Some p ->
  AllocPort mapPut now t wan pr dip dport cip cport = (Ok p, t).
Proof. intros H. unfold AllocPort. by rewrite H. Qed.

Lemma AllocPort_known_flow_witness :
  let t := alloc_run 1 6 443 9 (OpenNatTable ∅) [(2, 40000)] in
  AllocPort plain_put 999999999999 t 1 6 2 443 9 40000 = (Ok 61000, t).
Proof. intros t. apply AllocPort_known_flow. vm_compute. reflexivity. Defined.

(** The observation of C6 on a table. *)
Definition shared_port (t : NatTable) : Prop :=
  fwd t !! makeFlowKey 9 40000 6 2 443 = Some 61000 /\
  fwd t !! makeFlowKey 10 40000 6 2 443 = Some 61000 /\
  m t !! reply_key 1 61000 6 2 443
    = Some {| ClientIP := 10; ClientPort := hostToNet16 40000; LastSeenNs := 1 |}.
Global Instance shared_port_dec t : Decision (shared_port t).
Proof. unfold shared_port. apply _. Defined.

(** Under LRU eviction the return path breaks: a table is reachable in
    which two clients' flows to one remote endpoint hold the same WAN port, and
    the reverse entry belongs to only one of them. *)
Theorem lru_eviction_shares_port :
  exists t fk1 fk2,
    reach (nat_step_lru 1) (OpenNatTable ∅) t /\ fk1 <> fk2 /\
    fwd t !! fk1 = Some 61000 /\ fwd t !! fk2 = Some 61000 /\
    dstIP fk1 = dstIP fk2 /\ dstPort fk1 = dstPort fk2 /\ proto fk1 = proto fk2 /\
    (exists v, m t !! reply_key 1 61000 6 2 443 = Some v /\ ClientIP v = clientIP fk2 /\ ClientIP v <> clientIP fk1).
Proof.
  set (l2 := map (fun i => (100 + Z.of_nat i, 40000)) (seq 0 4535)).
  set (key := makeNatKey 1 61000 6 2 443).
  assert (Hr : reach (nat_step_lru 1) (OpenNatTable ∅)
    (evict_history 1 6 443 9 10 [(2, 40000)] key l2 [(2, 40000)])).
  { apply evict_history_reach; [unfold port_ok; lia|].
    apply List.Forall_forall. intros x Hx. assert (x.2 = 40000) as ->; [|unfold port_ok; lia].
    apply in_app_iff in Hx as [[<-|[]]|[(i & <- & _)%in_map_iff|[<-|[]]]%in_app_iff]; done. }
  assert (Hall : bool_decide (shared_port
    (evict_history 1 6 443 9 10 [(2, 40000)] key l2 [(2, 40000)])) = true) by (vm_compute; reflexivity).
  apply bool_decide_eq_true in Hall. revert Hr Hall.
  generalize (evict_history 1 6 443 9 10 [(2, 40000)] key l2 [(2, 40000)]).
  intros t Hr (H1 & H2 & H3).
  exists t, (makeFlowKey 9 40000 6 2 443), (makeFlowKey 10 40000 6 2 443).
  split; [exact Hr|]. split; [by intros [=]|].
  refine (conj H1 (conj H2 (conj eq_refl (conj eq_refl (conj eq_refl _))))).
  eexists. split; [exact H3|]. split; [done|]. cbn. lia.
Qed.

(** Reload over the pinned map: starting from a pinned table that still
    holds a stale entry of a flow, the collector's removal of that stale entry
    drops the live flow's forward mapping, so its next packet gets another WAN
    port although its current reverse entry is still in place. *)
Theorem reload_gc_changes_port :
  exists pinned now stale_key stale_val,
    let t0 := OpenNatTable pinned in
    let fk := makeFlowKey 9 40000 6 2 443 in
    let t1 := (AllocPort plain_put now t0 1 6 2 443 9 40000).2 in
    let t2 := gc now [(stale_key, stale_val)] t1 in
    pinned !! stale_key = Some stale_val /\
    fwd t1 !! fk = Some 61001 /\
    m t2 !! reply_key 1 61001 6 2 443 = Some {| ClientIP := 9; ClientPort := hostToNet16 40000; LastSeenNs := now |} /\
    (AllocPort plain_put now t2 1 6 2 443 9 40000).1 = Ok 61002.
Proof.
  exists {[makeNatKey 1 61000 6 2 443 := {| ClientIP := 9; ClientPort := hostToNet16 40000; LastSeenNs := 1 |}]},
    300000000000, (makeNatKey 1 61000 6 2 443), {| ClientIP := 9; ClientPort := hostToNet16 40000; LastSeenNs := 1 |}.
  repeat split; vm_compute; reflexivity.
Qed.
