(* ===== verification/Snat.v ===== *)
(** * Source NAT of an outgoing packet (xdp/snat.go)

    [ApplySNAT] on a raw IPv4 packet: the guards, the port allocation, and the
    in-place rewrite of addresses, ports and checksums. *)
From S2P Require Import Prelude Words Checksum Nat.
Local Open Scope Z_scope.
Local Open Scope masqued_scope.

Definition IPPROTO_TCP : Z := 6.
Definition IPPROTO_UDP : Z := 17.

(** The IP-header part of the rewrite: checksum update, new source address. *)
Definition snat_ip (pkt : bytes) (oldSrcIP newSrcIP : Z) : bytes :=
  let ipCsum := CsumUpdate32 (be16 pkt 10) oldSrcIP newSrcIP in
  put16 (put32 pkt 12 newSrcIP) 10 ipCsum.

(** A transport checksum at [off]: pseudo-header address, then source port. *)
Definition snat_l4_csum (pkt : bytes) (off : nat) (oldSrcIP newSrcIP srcPort wanPort : Z) : bytes :=
  let c := CsumUpdate32 (be16 pkt off) oldSrcIP newSrcIP in
  put16 pkt off (CsumUpdate16 c srcPort wanPort).

Definition snat_l4 (pkt : bytes) (ihl : nat) (proto oldSrcIP newSrcIP srcPort wanPort : Z) : bytes :=
  if proto =? IPPROTO_TCP then snat_l4_csum pkt (ihl + 16) oldSrcIP newSrcIP srcPort wanPort
  else if be16 pkt (ihl + 6) =? 0 then pkt
  else snat_l4_csum pkt (ihl + 6) oldSrcIP newSrcIP srcPort wanPort.

(** Everything after a successful [AllocPort]. *)
Definition snat_rewrite (pkt : bytes) (newSrcIP wanPort : Z) : bytes :=
  let ihl := ihl_of pkt in
  let oldSrcIP := be32 pkt 12 in
  let srcPort := be16 pkt ihl in
  let proto := pkt.[9] in
  let pkt := snat_ip pkt oldSrcIP newSrcIP in
  let pkt := snat_l4 pkt ihl proto oldSrcIP newSrcIP srcPort wanPort in
  put16 pkt ihl wanPort.

(** The guards that let a packet through unchanged; [true] = it is rewritten. *)
Definition snat_eligible (pkt : bytes) (newSrcIP : Z) : bool :=
  if (length pkt <? 20)%nat then false
  else if negb (Z.shiftr pkt.[0] 4 =? 4) then false
  else if (length pkt <? ihl_of pkt + 4)%nat then false
  else if negb (pkt.[9] =? IPPROTO_TCP) && negb (pkt.[9] =? IPPROTO_UDP) then false
  else if (length pkt <? (if (pkt.[9] =? IPPROTO_TCP)%Z then ihl_of pkt + 20 else ihl_of pkt + 8))%nat then false
  else negb (be32 pkt 12 =? newSrcIP).

Definition ApplySNAT mapPut (now : Z) (pkt : bytes) (wanAddr : Z) (natTable : NatTable)
  : result natError bytes * NatTable :=
  if snat_eligible pkt wanAddr then
    let ihl := ihl_of pkt in
    match AllocPort mapPut now natTable wanAddr pkt.[9] (be32 pkt 16) (be16 pkt (ihl + 2))
            (be32 pkt 12) (be16 pkt ihl) with
    | (Err e, t) => (Err e, t)
    | (Ok wanPort, t) => (Ok (snat_rewrite pkt wanAddr wanPort), t)
    end
  else (Ok pkt, natTable).

(** ** Well-formed packets and their checksum totals *)

(** All words of the IPv4 header. *)
Definition ip_total (pkt : bytes) : Z := wsum (take (ihl_of pkt) pkt).

(** Pseudo header (addresses, protocol, length) plus the transport segment. *)
Definition l4_total (pkt : bytes) : Z :=
  (be16 pkt 12 + be16 pkt 14) + (be16 pkt 16 + be16 pkt 18) + pkt.[9]
  + Z.of_nat (length pkt - ihl_of pkt) + wsum (drop (ihl_of pkt) pkt).

Definition addr_ok (a : Z) : Prop := 0 <= a < 4294967296.

Lemma be32_words b i : bytes_ok b ->
  u16 (be32 b i / 65536) + u16 (be32 b i) = be16 b i + be16 b (i + 2).
Proof.
  intros H. unfold be32. pose proof (be16_range b i H). pose proof (be16_range b (i + 2) H).
  set (hi := be16 b i) in *. set (lo := be16 b (i + 2)) in *.
  replace (65536 * hi + lo) with (lo + hi * 65536) by lia.
  rewrite Z.div_add, (Z.div_small lo) by lia. unfold u16. rewrite Z.mod_add by lia.
  rewrite !Z.mod_small by lia. lia.
Qed.

(** ** Frame conditions: what the rewrite leaves alone *)

Lemma snat_ip_length pkt o n : length (snat_ip pkt o n) = length pkt.
Proof. unfold snat_ip. by autorewrite with mqr. Qed.
Lemma snat_l4_csum_length pkt off o n s w : length (snat_l4_csum pkt off o n s w) = length pkt.
Proof. unfold snat_l4_csum. by autorewrite with mqr. Qed.
Lemma snat_l4_length pkt ihl p o n s w : length (snat_l4 pkt ihl p o n s w) = length pkt.
Proof. unfold snat_l4. repeat case_match; auto using snat_l4_csum_length. Qed.
Lemma snat_rewrite_length pkt n w : length (snat_rewrite pkt n w) = length pkt.
Proof. unfold snat_rewrite. by rewrite put16_length, snat_l4_length, snat_ip_length. Qed.

Lemma bytes_ok_snat_rewrite pkt n w : bytes_ok pkt -> bytes_ok (snat_rewrite pkt n w).
Proof.
  intros. unfold snat_rewrite, snat_l4, snat_l4_csum, snat_ip.
  repeat case_match; auto 6 with mq.
Qed.

Lemma snat_l4_byte pkt ihl p o n s w j : (j < ihl)%nat ->
  byte_at (snat_l4 pkt ihl p o n s w) j = byte_at pkt j.
Proof.
  intros. unfold snat_l4, snat_l4_csum. repeat case_match; try done; by rewrite byte_at_put16_ne by lia.
Qed.

Lemma snat_ip_byte pkt o n j : (j < 10 \/ 16 <= j)%nat -> byte_at (snat_ip pkt o n) j = byte_at pkt j.
Proof. intros. unfold snat_ip. rewrite byte_at_put16_ne, byte_at_put32_ne by lia. done. Qed.

(** Header bytes outside the checksum and the source address are kept. *)
Lemma snat_rewrite_byte pkt n w j : (20 <= ihl_of pkt)%nat -> (j < ihl_of pkt)%nat ->
  (j < 10 \/ 16 <= j)%nat -> byte_at (snat_rewrite pkt n w) j = byte_at pkt j.
Proof.
  intros. unfold snat_rewrite. rewrite byte_at_put16_ne by lia. rewrite snat_l4_byte by lia.
  by apply snat_ip_byte.
Qed.

Lemma ihl_of_ext b b' : byte_at b 0 = byte_at b' 0 -> ihl_of b = ihl_of b'.
Proof. intros H. unfold ihl_of. by rewrite H. Qed.

Lemma ihl_of_snat_rewrite pkt n w : (20 <= ihl_of pkt)%nat -> ihl_of (snat_rewrite pkt n w) = ihl_of pkt.
Proof. intros. apply ihl_of_ext. apply snat_rewrite_byte; lia. Qed.

Lemma be16_ext b b' i : byte_at b i = byte_at b' i -> byte_at b (S i) = byte_at b' (S i) -> be16 b i = be16 b' i.
Proof. intros H1 H2. unfold be16. by rewrite H1, H2. Qed.

(** ** The totals after the rewrite *)

(** What the guards establish. *)
Lemma snat_eligible_inv pkt n : snat_eligible pkt n = true ->
  (20 <= length pkt)%nat /\ (ihl_of pkt + 8 <= length pkt)%nat /\ be32 pkt 12 <> n /\
  ((pkt.[9] = IPPROTO_TCP /\ (ihl_of pkt + 20 <= length pkt)%nat) \/ pkt.[9] = IPPROTO_UDP).
Proof.
  unfold snat_eligible. intros H.
  destruct (length pkt <? 20)%nat eqn:E1; [done|]. destruct (negb (Z.shiftr pkt.[0] 4 =? 4)) eqn:E2; [done|].
  destruct (length pkt <? ihl_of pkt + 4)%nat eqn:E3; [done|].
  destruct (negb (pkt.[9] =? IPPROTO_TCP) && negb (pkt.[9] =? IPPROTO_UDP)) eqn:E4; [done|].
  destruct (pkt.[9] =? IPPROTO_TCP) eqn:E5.
  - destruct (length pkt <? ihl_of pkt + 20)%nat eqn:E6; [done|]. bool_hyps. split_and!; [lia..|]. left. lia.
  - destruct (length pkt <? ihl_of pkt + 8)%nat eqn:E6; [done|]. cbn in E4. bool_hyps. split_and!; [lia..|]. by right.
Qed.

Lemma ihl_of_even pkt : Nat.Even (ihl_of pkt).
Proof. exists (2 * Z.to_nat (Z.land pkt.[0] 15))%nat. unfold ihl_of. lia. Qed.

(** Header bytes survive the transport rewrite, so the header's total is the
    total after [snat_ip]. *)
Lemma ip_total_snat pkt n w : bytes_ok pkt -> addr_ok n -> (20 <= ihl_of pkt <= length pkt)%nat ->
  ip_total (snat_rewrite pkt n w)
  = ip_total pkt - (be16 pkt 12 + be16 pkt 14) + (u16 (n / 65536) + u16 n)
    - be16 pkt 10 + CsumUpdate32 (be16 pkt 10) (be32 pkt 12) n.
Proof.
  intros Hok Hn Hihl. unfold ip_total. rewrite ihl_of_snat_rewrite by lia.
  set (ihl := ihl_of pkt) in *.
  assert (Htake : take ihl (snat_rewrite pkt n w) = take ihl (snat_ip pkt (be32 pkt 12) n)).
  { unfold snat_rewrite. fold ihl. rewrite take_put16_ge by lia. unfold snat_l4, snat_l4_csum.
    repeat case_match; try done; by rewrite take_put16_ge by lia. }
  rewrite Htake. unfold snat_ip.
  rewrite take_put16_lt, take_put32_lt by lia.
  assert (Hlen : length (take ihl pkt) = ihl) by (rewrite length_take; lia).
  rewrite wsum_put16; [|by exists 5%nat|rewrite put32_length; lia|apply CsumUpdate32_range].
  rewrite wsum_put32; [|by exists 6%nat|lia|done].
  rewrite be16_put32_ne by lia. rewrite !be16_take by lia. simpl Nat.add. lia.
Qed.

(** The transport checksum's offset in the segment. *)
Definition l4_csum_off (proto : Z) : nat := if proto =? IPPROTO_TCP then 16 else 6.

Lemma l4_total_snat pkt n w : bytes_ok pkt -> addr_ok n -> 0 <= w < 65536 ->
  (20 <= ihl_of pkt)%nat -> (ihl_of pkt + l4_csum_off pkt.[9] + 2 <= length pkt)%nat ->
  (pkt.[9] = IPPROTO_TCP \/ be16 pkt (ihl_of pkt + l4_csum_off pkt.[9]) <> 0) ->
  l4_total (snat_rewrite pkt n w)
  = l4_total pkt - (be16 pkt 12 + be16 pkt 14) + (u16 (n / 65536) + u16 n)
    - be16 pkt (ihl_of pkt) + w
    - be16 pkt (ihl_of pkt + l4_csum_off pkt.[9])
    + CsumUpdate16 (CsumUpdate32 (be16 pkt (ihl_of pkt + l4_csum_off pkt.[9])) (be32 pkt 12) n)
        (be16 pkt (ihl_of pkt)) w.
Proof.
  intros Hok Hn Hw Hihl Hlen Hcs. unfold l4_total.
  rewrite ihl_of_snat_rewrite, snat_rewrite_length by lia.
  rewrite (snat_rewrite_byte pkt n w 9) by lia.
  set (ihl := ihl_of pkt) in *. set (off := l4_csum_off pkt.[9]) in *.
  assert (Hoff : (off = 16 \/ off = 6)%nat) by (unfold off, l4_csum_off; case_match; lia).
  assert (Hbe : forall j, (16 <= j)%nat -> (j + 2 <= ihl)%nat -> be16 (snat_rewrite pkt n w) j = be16 pkt j).
  { intros j ? ?. apply be16_ext; apply snat_rewrite_byte; lia. }
  rewrite (Hbe 16%nat), (Hbe 18%nat) by lia.
  set (c' := CsumUpdate16 _ _ _).
  assert (Hshape : snat_rewrite pkt n w = put16 (put16 (snat_ip pkt (be32 pkt 12) n) (ihl + off) c') ihl w).
  { unfold snat_rewrite. fold ihl. f_equal. unfold snat_l4.
    assert (Hc : be16 (snat_ip pkt (be32 pkt 12) n) (ihl + off) = be16 pkt (ihl + off))
      by (apply be16_ext; apply snat_ip_byte; lia).
    unfold off, l4_csum_off in *. destruct (pkt.[9] =? IPPROTO_TCP) eqn:E.
    - unfold snat_l4_csum. by rewrite Hc.
    - destruct Hcs as [Hcs|Hcs]; [bool_hyps; done|]. rewrite Hc.
      destruct (be16 pkt (ihl + 6) =? 0) eqn:E'; [bool_hyps; done|]. unfold snat_l4_csum. by rewrite Hc. }
  assert (Hsrc : be16 (snat_rewrite pkt n w) 12 + be16 (snat_rewrite pkt n w) 14 = u16 (n / 65536) + u16 n).
  { rewrite Hshape. unfold snat_ip. rewrite !be16_put16_ne by lia.
    change 14%nat with (12 + 2)%nat. rewrite be16_put32_hi, be16_put32_lo by lia. done. }
  rewrite Hsrc. rewrite Hshape.
  rewrite drop_put16_ge, drop_put16_ge by lia. unfold snat_ip.
  rewrite drop_put16_lt, drop_put32_lt by lia.
  replace (ihl - ihl)%nat with 0%nat by lia. replace (ihl + off - ihl)%nat with off by lia.
  assert (Hc' : 0 <= c' < 65536) by apply CsumUpdate16_range.
  assert (length (drop ihl pkt) = length pkt - ihl)%nat by apply length_drop.
  rewrite wsum_put16; [|by exists 0%nat|rewrite put16_length; lia|done].
  rewrite wsum_put16; [|destruct Hoff as [->| ->]; [by exists 8%nat|by exists 3%nat]|lia|done].
  rewrite be16_put16_ne by lia. rewrite !be16_drop. rewrite Nat.add_0_r. lia.
Qed.
