(* ===== verification/Xdp.v ===== *)
(** * The XDP program (xdp/xdp.c): redirect and in-kernel DNAT of return frames

    The program runs on a little-endian host and works on raw memory: 16-bit
    loads are [le16], and the checksum helpers add little-endian words. *)
From S2P Require Import Prelude Words Checksum Nat Snat.
Local Open Scope Z_scope.
Local Open Scope masqued_scope.

Inductive xdp_verdict := XDP_PASS | XDP_REDIRECT_QUIC (queue : Z) | XDP_REDIRECT_FWD (queue : Z).

(** xdp.c [csum_replace4]: a [__u32] accumulator, folded twice. *)
Definition csum_replace4 (csum old new_ : Z) : Z :=
  let tmp := not16 csum in
  let tmp := tmp + not16 old in
  let tmp := tmp + not16 (Z.shiftr old 16) in
  let tmp := tmp + u16 new_ in
  let tmp := tmp + u16 (Z.shiftr new_ 16) in
  let tmp := Z.land tmp 65535 + Z.shiftr tmp 16 in
  let tmp := Z.land tmp 65535 + Z.shiftr tmp 16 in
  not16 tmp.

(** xdp.c [csum_replace2]: 16-bit additions with explicit carries. *)
Definition csum_replace2 (sum old new_ : Z) : Z :=
  let csum := not16 sum in
  let csum := u16 (csum + not16 old) in
  let csum := u16 (csum + (if csum <? not16 old then 1 else 0)) in
  let csum := u16 (csum + new_) in
  let csum := u16 (csum + (if csum <? new_ then 1 else 0)) in
  not16 csum.

(** The 32-bit load of a [client_ip[4]] array (address [c]) on the LE host. *)
Definition mem32 (c : Z) : Z := hostToNet16 (u16 (c / 65536)) + 65536 * hostToNet16 (u16 c).
(** The 32-bit load of a frame's field. *)
Definition le32 (b : bytes) (i : nat) : Z := le16 b i + 65536 * le16 b (i + 2).

(** The lookup key built from the frame; [l4] is the transport offset. *)
Definition frame_nat_key (frame : bytes) (l4 : nat) (proto : Z) : NatRevKey :=
  {| WanIP := be32 frame 30; DstIP := be32 frame 26; WanPort := le16 frame (l4 + 2);
     DstPort := le16 frame l4; Proto := proto |}.

(** The DNAT rewrite: IP checksum, transport checksum at [coff] (when [upd]),
    destination address, destination port. *)
Definition dnat_rewrite (frame : bytes) (l4 coff : nat) (upd : bool) (val : NatRevVal) : bytes :=
  let new_daddr := mem32 (ClientIP val) in
  let new_dport := ClientPort val in
  let old_daddr := le32 frame 30 in
  let old_dport := le16 frame (l4 + 2) in
  let frame := putle16 frame 24 (csum_replace4 (le16 frame 24) old_daddr new_daddr) in
  let frame := if upd
    then let f := putle16 frame coff (csum_replace4 (le16 frame coff) old_daddr new_daddr) in
         putle16 f coff (csum_replace2 (le16 f coff) old_dport new_dport)
    else frame in
  let frame := put32 frame 30 (ClientIP val) in
  putle16 frame (l4 + 2) new_dport.

Definition dnat_stamp (now : Z) (val : NatRevVal) : NatRevVal :=
  {| ClientIP := ClientIP val; ClientPort := ClientPort val; LastSeenNs := now |}.

(** [masque_xdp_prog]: [quic q] / [fwdq q] say whether queue [q] is registered
    in the XSK maps; [now] is [bpf_ktime_get_ns()]. *)
Definition masque_xdp_prog (quic fwdq : Z -> bool) (now queue : Z) (frame : bytes)
    (tbl : gmap NatRevKey NatRevVal) : xdp_verdict * bytes * gmap NatRevKey NatRevVal :=
  let pass := (XDP_PASS, frame, tbl) in
  if (length frame <? 14)%nat then pass
  else if negb (be16 frame 12 =? 2048) then pass
  else if (length frame <? 34)%nat then pass
  else
    let ihl := ihl_of (drop 14 frame) in
    if (ihl <? 20)%nat then pass
    else
      let l4 := (14 + ihl)%nat in
      let dnat proto coff upd :=
        let key := frame_nat_key frame l4 proto in
        match tbl !! key with
        | Some val =>
            ((if fwdq queue then XDP_REDIRECT_FWD queue else XDP_PASS),
             dnat_rewrite frame l4 coff upd val, <[key := dnat_stamp now val]> tbl)
        | None => pass
        end in
      if frame.[23] =? IPPROTO_UDP then
        if (length frame <? l4 + 8)%nat then pass
        else if (be16 frame (l4 + 2) =? 443) && quic queue then (XDP_REDIRECT_QUIC queue, frame, tbl)
        else dnat IPPROTO_UDP (l4 + 6)%nat (negb (be16 frame (l4 + 6) =? 0))
      else if frame.[23] =? IPPROTO_TCP then
        if (length frame <? l4 + 20)%nat then pass
        else dnat IPPROTO_TCP (l4 + 16)%nat true
      else pass.

(** ** Byte order *)

Lemma le16_swap b i : bytes_ok b -> le16 b i = hostToNet16 (be16 b i).
Proof.
  intros H. unfold le16, be16, hostToNet16. pose proof (bytes_ok_at b i H). pose proof (bytes_ok_at b (S i) H).
  replace (256 * b.[i] + b.[S i]) with (b.[S i] + b.[i] * 256) by lia.
  rewrite Z.mod_add, Z.div_add by lia. rewrite (Z.mod_small (b.[S i])), (Z.div_small (b.[S i])) by lia.
  rewrite Z.mod_small by lia. lia.
Qed.

Lemma putle16_swap b i v : port_ok v -> putle16 b i v = put16 b i (hostToNet16 v).
Proof.
  unfold port_ok. intros. unfold putle16, put16, hostToNet16, u8.
  pose proof (Z.mod_pos_bound v 256). pose proof (Z.mod_pos_bound (v / 256) 256).
  replace (256 * (v mod 256) + v / 256 mod 256) with ((v / 256) mod 256 + (v mod 256) * 256) by lia.
  rewrite Z.div_add, Z.mod_add by lia. rewrite (Z.div_small (v / 256 mod 256)) by lia.
  rewrite Z.add_0_l, !Z.mod_mod by lia. done.
Qed.

(** Swapping the bytes of a word multiplies it by 256 modulo 65535. *)
Lemma hostToNet16_cong v : port_ok v -> exists k, hostToNet16 v = 256 * v + 65535 * k.
Proof.
  unfold port_ok, hostToNet16. intros. pose proof (Z.div_mod v 256).
  rewrite (Z.mod_small (v / 256)) by (split; [apply Z.div_pos; lia|apply Z.div_lt_upper_bound; lia]).
  exists (- (v / 256)). lia.
Qed.

(** ** The incremental updates *)

Lemma csum_replace4_range c o n : 0 <= csum_replace4 c o n < 65536.
Proof. unfold csum_replace4. apply not16_range. Qed.
Lemma csum_replace2_range c o n : 0 <= csum_replace2 c o n < 65536.
Proof. unfold csum_replace2. apply not16_range. Qed.

Lemma fold_step_eq t : Z.land t 65535 + Z.shiftr t 16 = t mod 65536 + t / 65536.
Proof. change 65535 with (Z.ones 16). by rewrite Z.land_ones, Z.shiftr_div_pow2 by lia. Qed.

Lemma fold_step_cong t : 0 <= t -> exists k, Z.land t 65535 + Z.shiftr t 16 = t + 65535 * k.
Proof.
  intros. rewrite fold_step_eq. exists (- (t / 65536)). pose proof (Z.div_mod t 65536). lia.
Qed.

Lemma fold_step_bound t : 0 <= t -> 0 <= Z.land t 65535 + Z.shiftr t 16 <= 65535 + t / 65536.
Proof.
  intros. rewrite fold_step_eq. pose proof (Z.mod_pos_bound t 65536). pose proof (Z.div_pos t 65536). lia.
Qed.

(** Two words [ol], [oh] of the old field against [nl], [nh] of the new one. *)
Lemma csum_replace4_cong c ol oh nl nh :
  port_ok c -> port_ok ol -> port_ok oh -> port_ok nl -> port_ok nh ->
  exists k, csum_replace4 c (ol + 65536 * oh) (nl + 65536 * nh) + nl + nh = c + ol + oh + 65535 * k.
Proof.
  unfold port_ok. intros. unfold csum_replace4.
  assert (Hs : forall a b, 0 <= a < 65536 -> 0 <= b < 65536 -> u16 (a + 65536 * b) = a /\ Z.shiftr (a + 65536 * b) 16 = b).
  { intros a b Ha Hb. rewrite Z.shiftr_div_pow2 by lia. change (2 ^ 16) with 65536. unfold u16.
    rewrite (Z.mul_comm 65536), Z.mod_add, Z.div_add, Z.mod_small, Z.div_small by lia. lia. }
  destruct (Hs ol oh) as [E1 E2]; [lia..|]. destruct (Hs nl nh) as [E3 E4]; [lia..|].
  rewrite E2, E3, E4. rewrite (u16_small nh) by lia.
  assert (Ho : not16 (ol + 65536 * oh) = 65535 - ol) by (unfold not16; rewrite E1; done). rewrite Ho.
  assert (Hc : not16 c = 65535 - c) by (unfold not16; by rewrite u16_small by lia).
  assert (Hoh : not16 oh = 65535 - oh) by (unfold not16; by rewrite u16_small by lia). rewrite Hc, Hoh.
  set (t0 := 65535 - c + (65535 - ol) + (65535 - oh) + nl + nh).
  assert (Hb0 : 0 <= t0 <= 5 * 65535) by lia.
  destruct (fold_step_cong t0) as [k1 Hk1]; [lia|]. pose proof (fold_step_bound t0 ltac:(lia)) as Hb1.
  set (t1 := Z.land t0 65535 + Z.shiftr t0 16) in *.
  assert (Hd0 : t0 / 65536 <= 4) by (apply Z.lt_succ_r, Z.div_lt_upper_bound; lia).
  assert (Ht1 : 0 <= t1 <= 65539) by lia.
  destruct (fold_step_cong t1) as [k2 Hk2]; [lia|].
  assert (Hb2 : 0 <= Z.land t1 65535 + Z.shiftr t1 16 < 65536).
  { rewrite fold_step_eq.
    pose proof (Z.mod_pos_bound t1 65536). pose proof (Z.div_mod t1 65536). pose proof (Z.div_pos t1 65536). lia. }
  set (t2 := Z.land t1 65535 + Z.shiftr t1 16) in *. unfold not16. rewrite u16_small by lia.
  exists (- k1 - k2 - 2). lia.
Qed.

Lemma carry_add a b : port_ok a -> port_ok b ->
  exists k, u16 (u16 (a + b) + (if u16 (a + b) <? b then 1 else 0)) = a + b + 65535 * k.
Proof.
  unfold port_ok. intros. destruct (decide (a + b < 65536)) as [Hlt|Hge].
  - rewrite (u16_small (a + b)) by lia. destruct (a + b <? b) eqn:E; bool_hyps; [lia|].
    rewrite u16_small by lia. exists 0. lia.
  - assert (E0 : u16 (a + b) = a + b - 65536).
    { unfold u16. symmetry. apply (Z.mod_unique_pos _ _ 1); lia. }
    rewrite E0. destruct (a + b - 65536 <? b) eqn:E; bool_hyps; [|lia].
    rewrite u16_small by lia. exists (-1). lia.
Qed.

Lemma csum_replace2_cong c o n : port_ok c -> port_ok o -> port_ok n ->
  exists k, csum_replace2 c o n + n = c + o + 65535 * k.
Proof.
  intros Hc Ho Hn. unfold csum_replace2.
  destruct (carry_add (not16 c) (not16 o)) as [k1 Hk1]; [apply not16_range..|].
  rewrite Hk1. pose proof (u16_range (u16 (not16 c + not16 o) + (if u16 (not16 c + not16 o) <? not16 o then 1 else 0))) as Hr.
  rewrite Hk1 in Hr. set (s := not16 c + not16 o + 65535 * k1) in *.
  destruct (carry_add s n) as [k2 Hk2]; [done|done|]. rewrite Hk2.
  pose proof (u16_range (u16 (s + n) + (if u16 (s + n) <? n then 1 else 0))) as Hr2. rewrite Hk2 in Hr2.
  unfold not16 at 1. rewrite u16_small by lia. unfold port_ok in *.
  assert (Ec : not16 c = 65535 - c) by (unfold not16; by rewrite u16_small by lia).
  assert (Eo : not16 o = 65535 - o) by (unfold not16; by rewrite u16_small by lia).
  exists (- k1 - k2 - 1). unfold s. lia.
Qed.

(** ** The updates in network order *)

Lemma dnat_ip_cong c oh ol nh nl :
  port_ok c -> port_ok oh -> port_ok ol -> port_ok nh -> port_ok nl ->
  let r := csum_replace4 (hostToNet16 c) (hostToNet16 oh + 65536 * hostToNet16 ol)
             (hostToNet16 nh + 65536 * hostToNet16 nl) in
  exists k, hostToNet16 r + nh + nl = c + oh + ol + 65535 * k.
Proof.
  intros Hc Hoh Hol Hnh Hnl r.
  destruct (csum_replace4_cong (hostToNet16 c) (hostToNet16 oh) (hostToNet16 ol) (hostToNet16 nh) (hostToNet16 nl))
    as [k Hk]; try apply hostToNet16_range. fold r in Hk.
  destruct (hostToNet16_cong r) as [k0 H0]; [apply csum_replace4_range|].
  destruct (hostToNet16_cong c Hc) as [k1 H1]. destruct (hostToNet16_cong oh Hoh) as [k2 H2].
  destruct (hostToNet16_cong ol Hol) as [k3 H3]. destruct (hostToNet16_cong nh Hnh) as [k4 H4].
  destruct (hostToNet16_cong nl Hnl) as [k5 H5].
  exists (k0 + 256 * (k + k1 + k2 + k3 - k4 - k5) + (c + oh + ol - nh - nl)). lia.
Qed.

Lemma dnat_port_cong c o n : port_ok c -> port_ok o -> port_ok n ->
  let r := csum_replace2 c (hostToNet16 o) (hostToNet16 n) in
  exists k, hostToNet16 r + n = hostToNet16 c + o + 65535 * k.
Proof.
  intros Hc Ho Hn r.
  destruct (csum_replace2_cong c (hostToNet16 o) (hostToNet16 n)) as [k Hk]; try apply hostToNet16_range; try done.
  fold r in Hk. destruct (hostToNet16_cong r) as [k0 H0]; [apply csum_replace2_range|].
  destruct (hostToNet16_cong c Hc) as [k1 H1]. destruct (hostToNet16_cong o Ho) as [k2 H2].
  destruct (hostToNet16_cong n Hn) as [k3 H3].
  exists (k0 - k1 + 256 * (k + k2 - k3) + (o - n)). lia.
Qed.

Lemma put16_put16_eq b i v w : put16 (put16 b i v) i w = put16 b i w.
Proof.
  unfold put16. rewrite (list_insert_insert_ne _ i (S i)) by lia.
  by rewrite !list_insert_insert_eq.
Qed.

Lemma be16_port_ok b i : bytes_ok b -> port_ok (be16 b i).
Proof. intros. by apply be16_range. Qed.
#[export] Hint Resolve be16_port_ok hostToNet16_range csum_replace4_range csum_replace2_range : mq.

(** The new value of the IP checksum, and of the transport checksum at [coff]. *)
Definition dnat_ip_csum (frame : bytes) (val : NatRevVal) : Z :=
  hostToNet16 (csum_replace4 (le16 frame 24) (le32 frame 30) (mem32 (ClientIP val))).
Definition dnat_l4_csum (frame : bytes) (l4 coff : nat) (val : NatRevVal) : Z :=
  hostToNet16 (csum_replace2 (csum_replace4 (le16 frame coff) (le32 frame 30) (mem32 (ClientIP val)))
                 (le16 frame (l4 + 2)) (ClientPort val)).

(** The rewrite as big-endian field writes. *)
Lemma dnat_rewrite_shape frame l4 coff upd val :
  bytes_ok frame -> (34 <= l4)%nat -> (l4 + 4 <= coff)%nat -> (coff + 2 <= length frame)%nat ->
  port_ok (ClientPort val) ->
  dnat_rewrite frame l4 coff upd val =
  put16 (put32 ((if upd then fun f => put16 f coff (dnat_l4_csum frame l4 coff val) else fun f => f)
                  (put16 frame 24 (dnat_ip_csum frame val)))
               30 (ClientIP val)) (l4 + 2) (hostToNet16 (ClientPort val)).
Proof.
  intros Hok Hl4 Hcoff Hlen Hp. unfold dnat_rewrite.
  rewrite !(putle16_swap _ (l4 + 2)) by done.
  rewrite !(putle16_swap _ 24) by apply csum_replace4_range. fold (dnat_ip_csum frame val).
  destruct upd; [|done]. do 2 f_equal.
  assert (Hok1 : bytes_ok (put16 frame 24 (dnat_ip_csum frame val))) by auto with mq.
  rewrite !(putle16_swap _ coff) by (apply csum_replace4_range || apply csum_replace2_range).
  rewrite put16_put16_eq. f_equal. unfold dnat_l4_csum. f_equal.
  assert (Hle : le16 (put16 frame 24 (dnat_ip_csum frame val)) coff = le16 frame coff).
  { rewrite !le16_swap by done. by rewrite be16_put16_ne by lia. }
  rewrite Hle. f_equal.
  rewrite le16_swap by auto with mq. rewrite be16_put16_eq by (rewrite ?put16_length; auto with mq; lia).
  apply hostToNet16_invol. apply csum_replace4_range.
Qed.

Lemma mem32_words c : mem32 c = hostToNet16 (u16 (c / 65536)) + 65536 * hostToNet16 (u16 c).
Proof. done. Qed.
Lemma le32_words b i : bytes_ok b -> le32 b i = hostToNet16 (be16 b i) + 65536 * hostToNet16 (be16 b (i + 2)).
Proof. intros. unfold le32. by rewrite !le16_swap by done. Qed.

(** Inside the IP packet [drop 14 frame]. *)
Lemma drop14_put32 b v i : (14 <= i)%nat -> drop 14 (put32 b i v) = put32 (drop 14 b) (i - 14) v.
Proof.
  intros. unfold put32. rewrite !drop_put16_ge by lia. by replace (i + 2 - 14)%nat with (i - 14 + 2)%nat by lia.
Qed.

(** The IP packet of the rewritten frame. *)
Lemma dnat_packet frame l4 coff upd val :
  bytes_ok frame -> (34 <= l4)%nat -> (l4 + 4 <= coff)%nat -> (coff + 2 <= length frame)%nat ->
  port_ok (ClientPort val) ->
  drop 14 (dnat_rewrite frame l4 coff upd val) =
  put16 (put32 ((if upd then fun f => put16 f (coff - 14) (dnat_l4_csum frame l4 coff val) else fun f => f)
                  (put16 (drop 14 frame) 10 (dnat_ip_csum frame val)))
               16 (ClientIP val)) (l4 - 14 + 2) (hostToNet16 (ClientPort val)).
Proof.
  intros. rewrite dnat_rewrite_shape by done.
  rewrite drop_put16_ge, drop14_put32 by lia.
  replace (l4 + 2 - 14)%nat with (l4 - 14 + 2)%nat by lia. do 2 f_equal.
  destruct upd; by rewrite !drop_put16_ge by lia.
Qed.

Section DnatTotals.
Context (frame : bytes) (ihl coff : nat) (upd : bool) (val : NatRevVal).
Let pkt := drop 14 frame.
Let l4 := (14 + ihl)%nat.
Let pkt' := drop 14 (dnat_rewrite frame l4 (14 + ihl + coff) upd val).
Context (Hok : bytes_ok frame) (Hihl : ihl = ihl_of pkt) (H20 : (20 <= ihl)%nat)
  (Hcoff : (coff = 16 \/ coff = 6)%nat) (Hlen : (14 + ihl + coff + 2 <= length frame)%nat)
  (Hport : port_ok (ClientPort val)) (Haddr : addr_ok (ClientIP val)).

Local Lemma Hpkt' : pkt' =
  put16 (put32 ((if upd then fun f => put16 f (ihl + coff) (dnat_l4_csum frame l4 (14 + ihl + coff) val) else fun f => f)
                  (put16 pkt 10 (dnat_ip_csum frame val)))
               16 (ClientIP val)) (ihl + 2) (hostToNet16 (ClientPort val)).
Proof using Hok Hihl H20 Hcoff Hlen Hport.
  unfold pkt', l4. rewrite dnat_packet by (done || lia).
  replace (14 + ihl - 14 + 2)%nat with (ihl + 2)%nat by lia.
  by replace (14 + ihl + coff - 14)%nat with (ihl + coff)%nat by lia.
Qed.

Lemma dnat_pkt_length : length pkt' = length pkt.
Proof using Hok Hihl H20 Hcoff Hlen Hport. rewrite Hpkt'. destruct upd; by autorewrite with mqr. Qed.

(** Bytes outside the two checksums, the destination address and port. *)
Lemma dnat_pkt_byte j : (j < 10 \/ 12 <= j < 16 \/ 20 <= j)%nat -> (j < ihl + 2 \/ ihl + 4 <= j)%nat ->
  (upd = false \/ j < ihl + coff \/ ihl + coff + 2 <= j)%nat -> byte_at pkt' j = byte_at pkt j.
Proof using Hok Hihl H20 Hcoff Hlen Hport.
  intros Hj1 Hj2 Hj3. rewrite Hpkt', byte_at_put16_ne, byte_at_put32_ne by lia.
  destruct upd; [|by rewrite byte_at_put16_ne by lia].
  destruct Hj3; [done|]. by rewrite !byte_at_put16_ne by lia.
Qed.

Lemma dnat_ihl : ihl_of pkt' = ihl.
Proof using Hok Hihl H20 Hcoff Hlen Hport.
  rewrite Hihl. apply ihl_of_ext. apply dnat_pkt_byte; [lia|lia|right; left; lia].
Qed.

Lemma dnat_fields : be32 pkt' 16 = ClientIP val /\ be16 pkt' (ihl + 2) = hostToNet16 (ClientPort val).
Proof using All.
  assert (length pkt = length frame - 14)%nat by apply length_drop. rewrite Hpkt'. split.
  - rewrite be32_put16_ne by lia. apply be32_put32_eq; [|done].
    destruct upd; rewrite ?put16_length; lia.
  - apply be16_put16_eq; [|apply hostToNet16_range]. rewrite put32_length. destruct upd; rewrite ?put16_length; lia.
Qed.

(** The header's total changes by a multiple of 65535. *)
Lemma dnat_ip_total : exists k, ip_total pkt' = ip_total pkt + 65535 * k.
Proof using All.
  assert (Hlp : length pkt = (length frame - 14)%nat) by apply length_drop.
  unfold ip_total. rewrite dnat_ihl, <- Hihl.
  assert (Ht : take ihl pkt' = take ihl (put32 (put16 pkt 10 (dnat_ip_csum frame val)) 16 (ClientIP val))).
  { rewrite Hpkt', take_put16_ge by lia. destruct upd; [|done].
    by rewrite !take_put32_lt, take_put16_ge by lia. }
  rewrite Ht, take_put32_lt, take_put16_lt by lia.
  assert (length (take ihl pkt) = ihl) by (rewrite length_take; lia).
  assert (Hokp : bytes_ok pkt) by (unfold pkt; auto with mq).
  pose proof (hostToNet16_range (csum_replace4 (le16 frame 24) (le32 frame 30) (mem32 (ClientIP val)))).
  rewrite wsum_put32; [|by exists 8%nat|rewrite put16_length; lia|done].
  rewrite wsum_put16; [|by exists 5%nat|lia|done].
  rewrite !be16_put16_ne by lia. rewrite !be16_take by lia.
  unfold dnat_ip_csum. rewrite le32_words, le16_swap, mem32_words by done.
  unfold pkt. rewrite !be16_drop. simpl Nat.add.
  destruct (dnat_ip_cong (be16 frame 24) (be16 frame 30) (be16 frame 32)
    (u16 (ClientIP val / 65536)) (u16 (ClientIP val))) as [k Hk]; auto with mq; try apply u16_range.
  exists k. lia.
Qed.

Lemma dnat_l4_total : upd = true -> exists k, l4_total pkt' = l4_total pkt + 65535 * k.
Proof using All.
  intros Hupd. assert (Hlp : length pkt = (length frame - 14)%nat) by apply length_drop.
  assert (Hokp : bytes_ok pkt) by (unfold pkt; auto with mq).
  destruct dnat_fields as [Hf1 Hf2]. unfold l4_total. rewrite dnat_ihl, dnat_pkt_length, <- Hihl.
  assert (Hsrc : be16 pkt' 12 = be16 pkt 12 /\ be16 pkt' 14 = be16 pkt 14).
  { split; apply be16_ext; apply dnat_pkt_byte; lia. }
  destruct Hsrc as [-> ->]. rewrite (dnat_pkt_byte 9) by lia.
  assert (Hdst : be16 pkt' 16 + be16 pkt' 18 = u16 (ClientIP val / 65536) + u16 (ClientIP val)).
  { rewrite Hpkt', !(be16_put16_ne _ (ihl + 2)) by lia. change 18%nat with (16 + 2)%nat.
    rewrite be16_put32_hi, be16_put32_lo; [done|destruct upd; rewrite ?put16_length; lia..]. }
  rewrite Hdst. rewrite Hpkt'. rewrite Hupd.
  pose proof (hostToNet16_range (ClientPort val)).
  pose proof (hostToNet16_range (csum_replace2 (csum_replace4 (le16 frame (14 + ihl + coff)) (le32 frame 30) (mem32 (ClientIP val)))
               (le16 frame (l4 + 2)) (ClientPort val))).
  rewrite drop_put16_ge, drop_put32_lt, drop_put16_ge, drop_put16_lt by lia.
  replace (ihl + 2 - ihl)%nat with 2%nat by lia. replace (ihl + coff - ihl)%nat with coff by lia.
  assert (length (drop ihl pkt) = length pkt - ihl)%nat by apply length_drop.
  rewrite wsum_put16; [|by exists 1%nat|rewrite put16_length; lia|done].
  rewrite wsum_put16; [|destruct Hcoff as [->| ->]; [by exists 8%nat|by exists 3%nat]|lia|done].
  rewrite be16_put16_ne by lia. unfold dnat_l4_csum. rewrite le32_words, !le16_swap, mem32_words by done.
  unfold pkt. rewrite !be16_drop. unfold l4.
  set (c4 := csum_replace4 _ _ _). set (np := hostToNet16 (ClientPort val)).
  assert (Hnp : ClientPort val = hostToNet16 np) by (unfold np; by rewrite hostToNet16_invol).
  rewrite Hnp.
  destruct (dnat_ip_cong (be16 frame (14 + ihl + coff)) (be16 frame 30) (be16 frame 32)
    (u16 (ClientIP val / 65536)) (u16 (ClientIP val))) as [k Hk]; auto with mq; try apply u16_range.
  change (30 + 2)%nat with 32%nat in c4. fold c4 in Hk.
  destruct (dnat_port_cong c4 (be16 frame (14 + ihl + 2)) np) as [k2 Hk2]; auto with mq;
    try apply csum_replace4_range; try apply hostToNet16_range.
  exists (k + k2). simpl (14 + _)%nat in *. rewrite <- !Nat.add_assoc in *. simpl in *. lia.
Qed.
End DnatTotals.

(** ** The program's branches *)

(** The parameters of a DNAT branch: protocol, checksum offset in the segment,
    whether the checksum is updated. *)
Inductive dnat_branch (frame : bytes) (l4 : nat) : Z -> nat -> bool -> Prop :=
  | branch_tcp : frame.[23] = IPPROTO_TCP -> (l4 + 20 <= length frame)%nat ->
      dnat_branch frame l4 IPPROTO_TCP 16 true
  | branch_udp : frame.[23] = IPPROTO_UDP -> (l4 + 8 <= length frame)%nat ->
      dnat_branch frame l4 IPPROTO_UDP 6 (negb (be16 frame (l4 + 6) =? 0)).

(** Every run either leaves frame and table alone, or translates one entry. *)
Inductive xdp_outcome (fwdq : Z -> bool) (now queue : Z) (frame : bytes) (tbl : gmap NatRevKey NatRevVal)
  : xdp_verdict * bytes * gmap NatRevKey NatRevVal -> Prop :=
  | xdp_untouched v : (forall q, v <> XDP_REDIRECT_FWD q) -> xdp_outcome fwdq now queue frame tbl (v, frame, tbl)
  | xdp_dnat ihl proto coff upd val :
      ihl = ihl_of (drop 14 frame) -> (20 <= ihl)%nat -> (34 <= length frame)%nat ->
      dnat_branch frame (14 + ihl) proto coff upd ->
      tbl !! frame_nat_key frame (14 + ihl) proto = Some val ->
      xdp_outcome fwdq now queue frame tbl
        ((if fwdq queue then XDP_REDIRECT_FWD queue else XDP_PASS),
         dnat_rewrite frame (14 + ihl) (14 + ihl + coff) upd val,
         <[frame_nat_key frame (14 + ihl) proto := dnat_stamp now val]> tbl).

Lemma xdp_prog_outcome quic fwdq now queue frame tbl :
  xdp_outcome fwdq now queue frame tbl (masque_xdp_prog quic fwdq now queue frame tbl).
Proof.
  unfold masque_xdp_prog. set (ihl := ihl_of (drop 14 frame)).
  assert (Hu : xdp_outcome fwdq now queue frame tbl (XDP_PASS, frame, tbl)) by (constructor; discriminate).
  destruct (length frame <? 14)%nat eqn:E1; [done|].
  destruct (negb (be16 frame 12 =? 2048)) eqn:E2; [done|].
  destruct (length frame <? 34)%nat eqn:E3; [done|].
  destruct (ihl <? 20)%nat eqn:E4; [done|]. bool_hyps.
  destruct (frame.[23] =? IPPROTO_UDP) eqn:E5.
  - destruct (length frame <? 14 + ihl + 8)%nat eqn:E6; [done|].
    destruct ((be16 frame (14 + ihl + 2) =? 443) && quic queue) eqn:E7; [constructor; discriminate|].
    destruct (tbl !! frame_nat_key frame (14 + ihl) IPPROTO_UDP) as [val|] eqn:E8; [|done].
    bool_hyps. by apply (xdp_dnat _ _ _ _ _ ihl IPPROTO_UDP 6); [| | |apply branch_udp; lia|].
  - destruct (frame.[23] =? IPPROTO_TCP) eqn:E6; [|done].
    destruct (length frame <? 14 + ihl + 20)%nat eqn:E7; [done|].
    destruct (tbl !! frame_nat_key frame (14 + ihl) IPPROTO_TCP) as [val|] eqn:E8; [|done].
    bool_hyps. by apply (xdp_dnat _ _ _ _ _ ihl IPPROTO_TCP 16); [| | |apply branch_tcp; lia|].
Qed.
