(* ===== verification/SnatProps.v ===== *)
(** * Properties of the SNAT and DNAT rewrites (xdp/snat.go, xdp/xdp.c)

    The rewritten packets keep valid IP and transport checksums, only the
    intended fields change, and a reply to a translated packet is handed back
    to the client it came from. *)
From S2P Require Import Prelude Words Checksum Nat Snat Xdp.
Local Open Scope Z_scope.
Local Open Scope masqued_scope.

(** A packet whose header and transport checksums a receiver accepts; a zero
    UDP checksum field means none is carried. *)
Definition valid_packet (pkt : bytes) : Prop :=
  csum_ok (ip_total pkt) /\
  (pkt.[9] = IPPROTO_UDP /\ be16 pkt (ihl_of pkt + 6) = 0 \/ csum_ok (l4_total pkt)).

Lemma version4_pos pkt : Z.shiftr pkt.[0] 4 = 4 -> 0 < pkt.[0].
Proof.
  rewrite Z.shiftr_div_pow2 by lia. change (2 ^ 4) with 16. intros H.
  pose proof (Z.div_mod (pkt.[0]) 16). pose proof (Z.mod_pos_bound (pkt.[0]) 16). lia.
Qed.

Lemma snat_eligible_version pkt n : snat_eligible pkt n = true -> 0 < pkt.[0].
Proof.
  unfold snat_eligible. intros H. destruct (length pkt <? 20)%nat; [done|].
  destruct (negb (Z.shiftr pkt.[0] 4 =? 4)) eqn:E; [done|]. bool_hyps. by apply version4_pos.
Qed.

Lemma ip_total_pos pkt : bytes_ok pkt -> 0 < pkt.[0] -> (20 <= ihl_of pkt <= length pkt)%nat -> 0 < ip_total pkt.
Proof.
  intros Hok Hp Hl. unfold ip_total. apply (wsum_pos_first _ 0); [auto with mq|rewrite length_take; lia|].
  by rewrite byte_at_take by lia.
Qed.

Lemma l4_total_pos pkt : bytes_ok pkt -> 0 < pkt.[9] -> 0 < l4_total pkt.
Proof.
  intros Hok Hp. unfold l4_total. pose proof (wsum_nonneg (drop (ihl_of pkt) pkt) ltac:(auto with mq)).
  pose proof (be16_range pkt 12 Hok). pose proof (be16_range pkt 14 Hok).
  pose proof (be16_range pkt 16 Hok). pose proof (be16_range pkt 18 Hok). lia.
Qed.

(** The rewrite of an eligible packet keeps both totals' validity. *)
Lemma snat_rewrite_valid pkt n w : bytes_ok pkt -> addr_ok n -> port_ok w ->
  snat_eligible pkt n = true -> (20 <= ihl_of pkt)%nat ->
  (pkt.[9] = IPPROTO_TCP \/ be16 pkt (ihl_of pkt + 6) <> 0) ->
  csum_ok (ip_total pkt) -> csum_ok (l4_total pkt) ->
  csum_ok (ip_total (snat_rewrite pkt n w)) /\ csum_ok (l4_total (snat_rewrite pkt n w)).
Proof.
  intros Hok Hn Hw He Hihl Hcs Hip Hl4.
  destruct (snat_eligible_inv _ _ He) as (Hlen & Hlen8 & _ & Hproto).
  pose proof (bytes_ok_snat_rewrite pkt n w Hok) as Hok'.
  assert (H9 : 0 < pkt.[9]) by (unfold IPPROTO_TCP, IPPROTO_UDP in Hproto; lia).
  split.
  - destruct (CsumUpdate32_cong (be16 pkt 10) (be32 pkt 12) n) as [k Hk]; auto with mq.
    rewrite be32_words in Hk by done. eapply (csum_ok_shift _ _ k); [exact Hip| |].
    + rewrite ip_total_snat by (done || lia). change (12 + 2)%nat with 14%nat in Hk. lia.
    + apply ip_total_pos; [done| |rewrite ihl_of_snat_rewrite, snat_rewrite_length; lia].
      rewrite snat_rewrite_byte by lia. by eapply snat_eligible_version.
  - assert (Hoff : (ihl_of pkt + l4_csum_off pkt.[9] + 2 <= length pkt)%nat).
    { unfold l4_csum_off. destruct (pkt.[9] =? IPPROTO_TCP) eqn:E; [|lia]. bool_hyps.
      destruct Hproto as [[_ ?]|Hu]; [lia|]. rewrite E in Hu. discriminate. }
    assert (Hz : pkt.[9] = IPPROTO_TCP \/ be16 pkt (ihl_of pkt + l4_csum_off pkt.[9]) <> 0).
    { destruct Hcs as [?|Hcs]; [by left|]. unfold l4_csum_off. destruct (pkt.[9] =? IPPROTO_TCP) eqn:E; bool_hyps; auto. }
    set (c := be16 pkt (ihl_of pkt + l4_csum_off pkt.[9])) in *.
    assert (Hc : 0 <= c < 65536) by (unfold c; auto with mq).
    destruct (CsumUpdate32_cong c (be32 pkt 12) n) as [k1 Hk1]; auto with mq. rewrite be32_words in Hk1 by done.
    destruct (CsumUpdate16_cong (CsumUpdate32 c (be32 pkt 12) n) (be16 pkt (ihl_of pkt)) w) as [k2 Hk2]; auto with mq.
    eapply (csum_ok_shift _ _ (k1 + k2)); [exact Hl4| |].
    + rewrite l4_total_snat by done. fold c. change (12 + 2)%nat with 14%nat in Hk1. lia.
    + apply l4_total_pos; [done|]. by rewrite snat_rewrite_byte by lia.
Qed.

(** Which bytes the rewrite may touch. *)
Definition snat_touched (ihl coff j : nat) : Prop :=
  (10 <= j < 16)%nat \/ (ihl <= j < ihl + 2)%nat \/ (ihl + coff <= j < ihl + coff + 2)%nat.

Lemma snat_rewrite_fields pkt n w : addr_ok n -> port_ok w -> (20 <= ihl_of pkt)%nat ->
  (ihl_of pkt + 8 <= length pkt)%nat ->
  be32 (snat_rewrite pkt n w) 12 = n /\ be16 (snat_rewrite pkt n w) (ihl_of pkt) = w.
Proof.
  intros Hn Hw Hihl Hlen. split.
  - unfold snat_rewrite. rewrite be32_put16_ne by lia.
    assert (Hl : forall f, be32 (snat_l4 f (ihl_of pkt) pkt.[9] (be32 pkt 12) n (be16 pkt (ihl_of pkt)) w) 12 = be32 f 12).
    { intros f. unfold snat_l4, snat_l4_csum. repeat case_match; try done; by rewrite be32_put16_ne by lia. }
    rewrite Hl. unfold snat_ip. rewrite be32_put16_ne by lia. apply be32_put32_eq; [lia|done].
  - unfold snat_rewrite. apply be16_put16_eq; [|done]. rewrite snat_l4_length, snat_ip_length. lia.
Qed.

Lemma snat_rewrite_frame pkt n w j : ~ snat_touched (ihl_of pkt) (l4_csum_off pkt.[9]) j ->
  byte_at (snat_rewrite pkt n w) j = byte_at pkt j.
Proof.
  unfold snat_touched. intros H. unfold snat_rewrite. rewrite byte_at_put16_ne by lia.
  assert (Hl : forall f, byte_at (snat_l4 f (ihl_of pkt) pkt.[9] (be32 pkt 12) n (be16 pkt (ihl_of pkt)) w) j = byte_at f j).
  { intros f. unfold snat_l4, snat_l4_csum, l4_csum_off in *.
    destruct (pkt.[9] =? IPPROTO_TCP); [by rewrite byte_at_put16_ne by lia|].
    case_match; [done|]. by rewrite byte_at_put16_ne by lia. }
  rewrite Hl. apply snat_ip_byte. lia.
Qed.

(** C25.  SNAT is checksum-transparent: for an IPv4 packet the code decides to
    translate, whose header and transport checksums are valid, the packet
    [ApplySNAT] returns has valid header and transport checksums, the WAN
    address as source, the allocated WAN port as source port, and every byte
    outside those fields as it was. *)
Theorem ApplySNAT_valid mapPut now pkt wan t pkt' t' :
  (forall mm k v mm', mapPut mm k v = Some mm' -> mm' = <[k:=v]> mm) ->
  NatInv wan t -> bytes_ok pkt -> addr_ok wan -> (20 <= ihl_of pkt)%nat ->
  snat_eligible pkt wan = true ->
  (pkt.[9] = IPPROTO_TCP \/ be16 pkt (ihl_of pkt + 6) <> 0) ->
  csum_ok (ip_total pkt) -> csum_ok (l4_total pkt) ->
  ApplySNAT mapPut now pkt wan t = (Ok pkt', t') ->
  csum_ok (ip_total pkt') /\ csum_ok (l4_total pkt') /\
  be32 pkt' 12 = wan /\
  fwd t' !! makeFlowKey (be32 pkt 12) (be16 pkt (ihl_of pkt)) pkt.[9] (be32 pkt 16) (be16 pkt (ihl_of pkt + 2))
    = Some (be16 pkt' (ihl_of pkt)) /\
  length pkt' = length pkt /\
  (forall j, ~ snat_touched (ihl_of pkt) (l4_csum_off pkt.[9]) j -> pkt'.[j] = pkt.[j]).
Proof.
  intros Hput HI Hok Hwan Hihl He Hcs Hip Hl4 HA. unfold ApplySNAT in HA. rewrite He in HA.
  destruct (AllocPort _ _ _ _ _ _ _ _ _) as [[p|e] t1] eqn:EA; [|discriminate]. injection HA as <- <-.
  destruct (snat_eligible_inv _ _ He) as (_ & Hlen8 & _).
  pose proof (AllocPort_fwd _ _ _ _ _ _ _ _ _ _ _ HI EA) as Hf.
  destruct (AllocPort_entry _ _ _ _ _ _ _ _ _ _ _ Hput (be16_port_ok _ _ Hok) (be16_port_ok _ _ Hok) HI EA)
    as (_ & Hp & _).
  assert (Hp' : port_ok p) by (unfold port_in_range, snatPortMin, snatPortMax, port_ok in *; lia).
  destruct (snat_rewrite_valid pkt wan p) as [H1 H2]; try done.
  destruct (snat_rewrite_fields pkt wan p) as [H3 H4]; try done.
  split_and!; [done|done|done|by rewrite H4|apply snat_rewrite_length|]. intros. by apply snat_rewrite_frame.
Qed.

(** A 40-byte TCP packet 10.0.0.2:40000 -> 8.8.8.8:443. *)
Definition tcp_example : bytes :=
  [69;0;0;40;0;1;64;0;64;6;32;190;10;0;0;2;8;8;8;8;156;64;1;187;0;0;0;1;0;0;0;0;80;2;32;0;215;212;0;0].

Lemma ApplySNAT_valid_witness :
  let pkt := tcp_example in
  let r := ApplySNAT plain_put 5 pkt 16909060 (OpenNatTable ∅) in
  exists pkt', r.1 = Ok pkt' /\ csum_ok (ip_total pkt') /\ csum_ok (l4_total pkt') /\ be32 pkt' 12 = 16909060 /\
    be16 pkt' 20 = 61000.
Proof.
  intros pkt r. eexists. split; [vm_compute; reflexivity|].
  match goal with |- context [csum_ok (ip_total ?p)] =>
    destruct (ApplySNAT_valid plain_put 5 pkt 16909060 (OpenNatTable ∅) p r.2) as (H1 & H2 & H3 & _) end.
  - exact plain_put_spec.
  - apply NatInv_open.
  - apply bytes_okb_ok. reflexivity.
  - unfold addr_ok. lia.
  - vm_compute. lia.
  - reflexivity.
  - left. reflexivity.
  - apply csum_okb_ok. reflexivity.
  - apply csum_okb_ok. reflexivity.
  - vm_compute. reflexivity.
  - split; [exact H1|]. split; [exact H2|]. split; [exact H3|]. reflexivity.
Defined.

(** A 30-byte UDP packet 10.0.0.2:40000 -> 8.8.8.8:53 whose checksum is
    present and valid. *)
Definition udp_example : bytes :=
  [69;0;0;30;0;1;64;0;64;17;32;189;10;0;0;2;8;8;8;8;156;64;0;53;0;10;76;12;253;70].

(** The incremental update can turn a valid, present UDP checksum into the
    value zero, which receivers read as "no checksum": the translated datagram
    silently loses its checksum protection (RFC 768 sends 0xffff instead). *)
Theorem ApplySNAT_udp_zero :
  exists pkt pkt' t',
    bytes_okb pkt = true /\ csum_ok (ip_total pkt) /\ csum_ok (l4_total pkt) /\
    pkt.[9] = IPPROTO_UDP /\ be16 pkt (ihl_of pkt + 6) <> 0 /\
    ApplySNAT plain_put 5 pkt 16909060 (OpenNatTable ∅) = (Ok pkt', t') /\
    be16 pkt' (ihl_of pkt' + 6) = 0.
Proof.
  exists udp_example. do 2 eexists.
  split; [reflexivity|]. split; [apply csum_okb_ok; reflexivity|]. split; [apply csum_okb_ok; reflexivity|].
  split; [reflexivity|]. split; [vm_compute; discriminate|]. split; [vm_compute; reflexivity|]. vm_compute. reflexivity.
Qed.

(** Entries as userspace writes them. *)
Definition tbl_ok (tbl : gmap NatRevKey NatRevVal) : Prop :=
  forall k v, tbl !! k = Some v -> addr_ok (ClientIP v) /\ port_ok (ClientPort v).

Lemma branch_shape frame ihl proto coff upd : dnat_branch frame (14 + ihl) proto coff upd ->
  (coff = 16 \/ coff = 6)%nat /\ (14 + ihl + coff + 2 <= length frame)%nat /\ frame.[23] = proto.
Proof. intros []; split_and!; (lia || done || auto). Qed.

Lemma ihl20_first_pos frame : bytes_ok frame -> (20 <= ihl_of (drop 14 frame))%nat -> 0 < (drop 14 frame).[0].
Proof.
  intros Hok H. pose proof (bytes_ok_at (drop 14 frame) 0 ltac:(auto with mq)).
  destruct (decide ((drop 14 frame).[0] = 0)) as [E|]; [|lia].
  unfold ihl_of in H. rewrite E in H. simpl in H. lia.
Qed.

(** What a rewrite makes of a frame. *)
Definition dnat_touched (ihl coff j : nat) : Prop := (10 <= j < 12 \/ 16 <= j < 20 \/ ihl + 2 <= j < ihl + 4 \/ ihl + coff <= j < ihl + coff + 2)%nat.
Lemma dnat_result frame ihl proto coff upd val : bytes_ok frame -> ihl = ihl_of (drop 14 frame) -> (20 <= ihl)%nat -> (34 <= length frame)%nat ->
  dnat_branch frame (14 + ihl) proto coff upd -> addr_ok (ClientIP val) -> port_ok (ClientPort val) ->
  let frame' := dnat_rewrite frame (14 + ihl) (14 + ihl + coff) upd val in
  be32 frame' 30 = ClientIP val /\ be16 frame' (14 + ihl + 2) = hostToNet16 (ClientPort val) /\
  length frame' = length frame /\ take 14 frame' = take 14 frame /\
  (valid_packet (drop 14 frame) -> valid_packet (drop 14 frame')) /\
  (forall j, ~ dnat_touched ihl coff j -> (drop 14 frame').[j] = (drop 14 frame).[j]).
Proof.
  intros Hok Hihl H20 H34 Hbr Ha Hp. destruct (branch_shape _ _ _ _ _ Hbr) as (Hcoff & Hlen & Hproto). cbv zeta.
  destruct (dnat_fields frame ihl coff upd val) as [F1 F2]; try done.
  assert (Hlp : length (dnat_rewrite frame (14 + ihl) (14 + ihl + coff) upd val) = length frame).
  { rewrite dnat_rewrite_shape by (done || lia). destruct upd; by autorewrite with mqr. }
  split_and!; try done.
  - by rewrite be32_drop in F1.
  - rewrite be16_drop in F2. by rewrite <- Nat.add_assoc.
  - rewrite dnat_rewrite_shape by (done || lia).
    rewrite take_put16_ge, take_put32_ge by lia. destruct upd; by rewrite !take_put16_ge by lia.
  - intros [Hip Hl4].
    set (f' := dnat_rewrite frame (14 + ihl) (14 + ihl + coff) upd val) in *.
    change (valid_packet (drop 14 f')).
    assert (Hf' : bytes_ok (drop 14 f')).
    { unfold f'. rewrite dnat_packet by (done || lia). destruct upd; auto 6 with mq. }
    assert (E9 : (drop 14 f').[9] = (drop 14 frame).[9]) by (apply dnat_pkt_byte; try done; lia).
    assert (E0 : (drop 14 f').[0] = (drop 14 frame).[0]) by (apply dnat_pkt_byte; try done; lia).
    assert (Eih : ihl_of (drop 14 f') = ihl) by (by apply dnat_ihl).
    assert (P9 : (drop 14 frame).[9] = proto) by (by rewrite byte_at_drop).
    assert (P0 : 0 < (drop 14 f').[0]) by (rewrite E0; apply ihl20_first_pos; [done|by rewrite <- Hihl]).
    split.
    + destruct (dnat_ip_total frame ihl coff upd val) as [k Hk]; try done.
      eapply csum_ok_shift; [exact Hip|exact Hk|]. apply ip_total_pos; [exact Hf'|exact P0|].
      assert (length (drop 14 f') = length frame - 14)%nat by (rewrite length_drop; lia).
      change (20 <= ihl_of (drop 14 f') <= length (drop 14 f'))%nat. lia.
    + assert (Hupd : upd = true -> csum_ok (l4_total (drop 14 frame)) -> csum_ok (l4_total (drop 14 f'))).
      { intros Hu Hc. destruct (dnat_l4_total frame ihl coff upd val) as [k Hk]; try done.
        eapply csum_ok_shift; [exact Hc|exact Hk|]. apply l4_total_pos; [exact Hf'|].
        change (0 < (drop 14 f').[9]). rewrite E9, P9. destruct Hbr; unfold IPPROTO_TCP, IPPROTO_UDP; lia. }
      assert (Hz : upd = false -> be16 (drop 14 f') (ihl + coff) = be16 (drop 14 frame) (ihl + coff)).
      { intros Hu. apply be16_ext; apply dnat_pkt_byte; try done; first [lia|by left]. }
      clearbody f'. destruct Hbr as [Hb Hl|Hb Hl].
      * right. apply Hupd; [done|]. destruct Hl4 as [[Hu _]|?]; [|done]. rewrite P9 in Hu. discriminate.
      * destruct (be16 frame (14 + ihl + 6) =? 0) eqn:Ez; bool_hyps; cbn [negb] in *.
        -- left. rewrite E9, P9, Eih. split; [done|]. rewrite <- Ez.
           rewrite Hz by done. by rewrite be16_drop, Nat.add_assoc.
        -- right. apply Hupd; [done|]. destruct Hl4 as [[_ Hz0]|?]; [|done].
           rewrite be16_drop, Nat.add_assoc in Hz0. by rewrite <- Hihl in Hz0.
  - intros j Hj. unfold dnat_touched in Hj. apply dnat_pkt_byte; (done || lia).
Qed.

(** C26.  In-kernel DNAT: whatever the frame, the XDP program either leaves the
    frame and the table as they were (and does not redirect to the forwarding
    queue), or it translates the entry of the frame's own key: the destination
    becomes that entry's client address and port, the entry's time stamp is
    renewed, the frame's length and Ethernet header are kept, and a packet with
    valid checksums still has valid checksums. *)
Theorem xdp_dnat_valid quic fwdq now queue frame tbl v frame' tbl' :
  bytes_ok frame -> tbl_ok tbl ->
  masque_xdp_prog quic fwdq now queue frame tbl = (v, frame', tbl') ->
  (frame' = frame /\ tbl' = tbl /\ forall q, v <> XDP_REDIRECT_FWD q) \/
  (let l4 := (14 + ihl_of (drop 14 frame))%nat in
   exists val, tbl !! frame_nat_key frame l4 frame.[23] = Some val /\
     tbl' = <[frame_nat_key frame l4 frame.[23] := dnat_stamp now val]> tbl /\
     v = (if fwdq queue then XDP_REDIRECT_FWD queue else XDP_PASS) /\
     be32 frame' 30 = ClientIP val /\ be16 frame' (l4 + 2) = hostToNet16 (ClientPort val) /\
     length frame' = length frame /\ take 14 frame' = take 14 frame /\
     (valid_packet (drop 14 frame) -> valid_packet (drop 14 frame'))).
Proof.
  intros Hok Htbl HX. pose proof (xdp_prog_outcome quic fwdq now queue frame tbl) as Ho. rewrite HX in Ho.
  inversion Ho as [v0 Hv [Hr1 Hr2 Hr3]|ihl proto coff upd val Hihl H20 H34 Hbr Hlk [Hr1 Hr2 Hr3]]; subst; [by left|right].
  destruct (branch_shape _ _ _ _ _ Hbr) as (Hcoff & Hlen & Hproto). rewrite Hproto.
  set (ihl := ihl_of (drop 14 frame)) in *. destruct (Htbl _ _ Hlk) as [Ha Hp]. cbv zeta.
  destruct (dnat_result frame ihl proto coff upd val Hok eq_refl H20 H34 Hbr Ha Hp) as (F1 & F2 & F3 & F4 & F5 & _). by exists val.
Qed.

(** The reply to [tcp_example] after translation to 1.2.3.4:61000:
    8.8.8.8:443 -> 1.2.3.4:61000 in an Ethernet frame. *)
Definition reply_example : bytes :=
  [2;0;0;0;0;1;2;0;0;0;0;2;8;0] ++
  [69;0;0;40;0;1;64;0;64;6;100;184;8;8;8;8;1;2;3;4;1;187;238;72;0;0;0;1;0;0;0;2;80;18;32;0;0;0;0;0].

Definition reply_table : gmap NatRevKey NatRevVal :=
  {[ makeNatKey 16909060 61000 6 134744072 443
     := {| ClientIP := 167772162; ClientPort := hostToNet16 40000; LastSeenNs := 1 |} ]}.

Lemma tbl_ok_singleton k v : addr_ok (ClientIP v) -> port_ok (ClientPort v) -> tbl_ok {[k := v]}.
Proof. intros ? ? k' v' [-> <-]%lookup_singleton_Some. done. Qed.

Lemma xdp_dnat_valid_witness :
  let r := masque_xdp_prog (fun _ => true) (fun _ => true) 9 0 reply_example reply_table in
  r.1.1 = XDP_REDIRECT_FWD 0 /\ be32 r.1.2 30 = 167772162 /\ be16 r.1.2 36 = 40000.
Proof.
  intros r. assert (Hr : r.1.1 = XDP_REDIRECT_FWD 0) by (vm_compute; reflexivity).
  split; [exact Hr|].
  destruct (xdp_dnat_valid (fun _ => true) (fun _ => true) 9 0 reply_example reply_table r.1.1 r.1.2 r.2)
    as [(_ & _ & Hn)|(val & Hlk & _ & _ & H30 & H36 & _)].
  - apply bytes_okb_ok. reflexivity.
  - apply tbl_ok_singleton; [unfold addr_ok; simpl; lia|apply hostToNet16_range].
  - change (r = (r.1.1, r.1.2, r.2)). clear Hr. clearbody r. destruct r as [[? ?] ?]. reflexivity.
  - exfalso. exact (Hn 0 Hr).
  - assert (E : reply_table !! frame_nat_key reply_example (14 + ihl_of (drop 14 reply_example)) (byte_at reply_example 23)
      = Some {| ClientIP := 167772162; ClientPort := hostToNet16 40000; LastSeenNs := 1 |}) by (vm_compute; reflexivity).
    rewrite E in Hlk. injection Hlk as <-. split; [exact H30|]. exact H36.
Defined.

(** [frame] is an IPv4 reply to the packet [pkt']: the two endpoints swapped. *)
Record reply_to (pkt' frame : bytes) : Prop := {
  rp_bytes : bytes_ok frame;
  rp_type : be16 frame 12 = 2048;
  rp_ihl : (20 <= ihl_of (drop 14 frame))%nat;
  rp_len : (14 + ihl_of (drop 14 frame) + (if (pkt'.[9] =? IPPROTO_TCP)%Z then 20 else 8) <= length frame)%nat;
  rp_proto : frame.[23] = pkt'.[9];
  rp_src : be32 frame 26 = be32 pkt' 16;
  rp_dst : be32 frame 30 = be32 pkt' 12;
  rp_sport : be16 frame (14 + ihl_of (drop 14 frame)) = be16 pkt' (ihl_of pkt' + 2);
  rp_dport : be16 frame (14 + ihl_of (drop 14 frame) + 2) = be16 pkt' (ihl_of pkt')
}.

(** A reply whose key is in the table is translated by that entry. *)
Lemma reply_matched quic fwdq now queue frame tbl wan p pr dip dport v : bytes_ok frame -> be16 frame 12 = 2048 ->
  let ihl := ihl_of (drop 14 frame) in
  (20 <= ihl)%nat -> (14 + ihl + (if (pr =? IPPROTO_TCP)%Z then 20 else 8) <= length frame)%nat ->
  frame.[23] = pr -> pr = IPPROTO_TCP \/ pr = IPPROTO_UDP ->
  be32 frame 26 = dip -> be32 frame 30 = wan -> be16 frame (14 + ihl) = dport -> be16 frame (14 + ihl + 2) = p -> port_in_range p ->
  tbl !! reply_key wan p pr dip dport = Some v ->
  exists coff upd, dnat_branch frame (14 + ihl) pr coff upd /\
    masque_xdp_prog quic fwdq now queue frame tbl =
      ((if fwdq queue then XDP_REDIRECT_FWD queue else XDP_PASS), dnat_rewrite frame (14 + ihl) (14 + ihl + coff) upd v,
       <[reply_key wan p pr dip dport := dnat_stamp now v]> tbl).
Proof.
  intros Hfok Hty ihl Hfi Hfl Hfp Hproto Hfs Hfd Hsp Hdp Hp Hv. unfold port_in_range, snatPortMin, snatPortMax in Hp.
  assert (Hkey : frame_nat_key frame (14 + ihl) pr = reply_key wan p pr dip dport).
  { unfold frame_nat_key, reply_key. by rewrite Hfs, Hfd, !le16_swap, Hsp, Hdp by done. }
  unfold masque_xdp_prog. fold ihl. rewrite Hty, Hfp, Hdp. cbv zeta.
  assert (L34 : (34 <= length frame)%nat) by (destruct (pr =? IPPROTO_TCP); lia).
  destruct (length frame <? 14)%nat eqn:X1; bool_hyps; [lia|]. cbn [negb Z.eqb Pos.eqb].
  destruct (length frame <? 34)%nat eqn:X2; bool_hyps; [lia|].
  destruct (ihl <? 20)%nat eqn:X3; bool_hyps; [lia|].
  destruct (p =? 443) eqn:X4; bool_hyps; [lia|]. cbn [andb].
  destruct Hproto as [-> | ->]; cbn [Z.eqb Pos.eqb IPPROTO_UDP IPPROTO_TCP] in *.
  - destruct (length frame <? 14 + ihl + 20)%nat eqn:X6; bool_hyps; [lia|]. rewrite Hkey, Hv.
    do 2 eexists. split; [by apply branch_tcp|reflexivity].
  - destruct (length frame <? 14 + ihl + 8)%nat eqn:X6; bool_hyps; [lia|]. rewrite Hkey, Hv.
    do 2 eexists. split; [by apply branch_udp|reflexivity].
Qed.

(** The fields of a packet translated for a flow whose entry is [v]. *)
Lemma snat_packet mapPut now pkt wan t pkt' t' :
  (forall mm k v mm', mapPut mm k v = Some mm' -> mm' = <[k:=v]> mm) ->
  NatInv wan t -> bytes_ok pkt -> addr_ok wan -> (20 <= ihl_of pkt)%nat -> snat_eligible pkt wan = true ->
  ApplySNAT mapPut now pkt wan t = (Ok pkt', t') ->
  exists p v, port_in_range p /\ pkt' = snat_rewrite pkt wan p /\ ihl_of pkt' = ihl_of pkt /\ pkt'.[9] = pkt.[9] /\
    (pkt.[9] = IPPROTO_TCP \/ pkt.[9] = IPPROTO_UDP) /\
    be32 pkt' 12 = wan /\ be16 pkt' (ihl_of pkt) = p /\ be32 pkt' 16 = be32 pkt 16 /\ be16 pkt' (ihl_of pkt + 2) = be16 pkt (ihl_of pkt + 2) /\
    m t' !! reply_key wan p pkt.[9] (be32 pkt 16) (be16 pkt (ihl_of pkt + 2)) = Some v /\
    ClientIP v = be32 pkt 12 /\ ClientPort v = hostToNet16 (be16 pkt (ihl_of pkt)) /\ NatInv wan t'.
Proof.
  intros Hput HI Hok Hwan Hihl He HA. unfold ApplySNAT in HA. rewrite He in HA.
  destruct (AllocPort _ _ _ _ _ _ _ _ _) as [[p|e] t1] eqn:EA; [|discriminate]. injection HA as <- <-.
  destruct (snat_eligible_inv _ _ He) as (_ & Hlen8 & _ & Hproto).
  destruct (AllocPort_entry _ _ _ _ _ _ _ _ _ _ _ Hput (be16_port_ok _ _ Hok) (be16_port_ok _ _ Hok) HI EA)
    as (HI' & Hp & v & Hv & E1 & E2).
  assert (Hpr : 61000 <= p <= 65535) by exact Hp.
  destruct (snat_rewrite_fields pkt wan p) as [F1 F2]; [done|unfold port_ok; lia|done|lia|].
  assert (Hihl' : ihl_of (snat_rewrite pkt wan p) = ihl_of pkt) by (by apply ihl_of_snat_rewrite).
  exists p, v. split_and!; try done.
  - apply snat_rewrite_byte; lia.
  - destruct Hproto as [[H _]|H]; auto.
  - unfold be32. rewrite (be16_ext _ pkt 16), (be16_ext _ pkt (16 + 2)); [done|apply snat_rewrite_byte; lia..].
  - apply be16_ext; apply snat_rewrite_frame; unfold snat_touched, l4_csum_off; destruct (pkt.[9] =? IPPROTO_TCP); lia.
Qed.


