(* ===== verification/TcpParse.v ===== *)
(** * Parsing inner TCP segments

    The two header parsers of the data path: [parseTCP] (utility/reseq.go),
    which yields the sequence interval of an ordered segment, and [parseV4TCP]
    with [tcpOptsEqual] (utility/tun_gso.go), which yields the view the
    coalescer works on. *)
From S2P Require Import Prelude Words.
Local Open Scope Z_scope.
Local Open Scope masqued_scope.

(** [b[i:j]]. *)
Definition slice (b : bytes) (i j : nat) : bytes := take (j - i) (drop i b).
#[global] Arguments slice : simpl never.

(** The 4-bit data offset, in bytes: [int(tcp[12]>>4) * 4]. *)
Definition doff_of (tcp : bytes) : nat := (Z.to_nat (Z.shiftr tcp.[12] 4) * 4)%nat.

Record tcpSeg := { seg_seq : Z; seg_nextAfter : Z; seg_key : bytes }.

Definition parseTCP (ip : bytes) : option tcpSeg :=
  if (length ip <? 20)%nat || negb (Z.shiftr ip.[0] 4 =? 4) then None
  else
    let ihl := ihl_of ip in
    if (ihl <? 20)%nat || (length ip <? ihl + 20)%nat || negb (ip.[9] =? 6) then None
    else
      let tcp := drop ihl ip in
      let dataOff := doff_of tcp in
      if (dataOff <? 20)%nat || (length tcp <? dataOff)%nat then None
      else
        let seq := be32 tcp 4 in
        let payloadLen := Z.of_nat (length ip - ihl - dataOff) in
        let flags := tcp.[13] in
        let consumed :=
          if negb (Z.land flags 2 =? 0) || negb (Z.land flags 1 =? 0) then payloadLen + 1 else payloadLen in
        if consumed =? 0 then None
        else Some {| seg_seq := seq; seg_nextAfter := u32 (seq + consumed);
                     seg_key := slice ip 12 16 ++ slice ip 16 20 ++ slice tcp 0 2 ++ slice tcp 2 4 ++ [6] |}.

Record tcpView := { v_ihl : nat; v_thl : nat; v_seq : Z; v_payloadOff : nat; v_payloadLen : nat; v_key : bytes }.

Definition parseV4TCP (pkt : bytes) : option tcpView :=
  if (length pkt <? 20)%nat || negb (Z.shiftr pkt.[0] 4 =? 4) then None
  else
    let ihl := ihl_of pkt in
    if (ihl <? 20)%nat || (length pkt <? ihl + 20)%nat || negb (pkt.[9] =? 6) then None
    else
      let tcp := drop ihl pkt in
      let thl := doff_of tcp in
      if (thl <? 20)%nat || (length tcp <? thl)%nat then None
      else Some {| v_ihl := ihl; v_thl := thl; v_seq := be32 tcp 4; v_payloadOff := ihl + thl;
                   v_payloadLen := length pkt - (ihl + thl);
                   v_key := slice pkt 12 16 ++ slice pkt 16 20 ++ slice tcp 0 2 ++ slice tcp 2 4 |}.

(** The element-wise comparison loop. *)
Fixpoint bytes_eqb (a c : bytes) : bool :=
  match a, c with
  | [], [] => true
  | x :: a, y :: c => (x =? y) && bytes_eqb a c
  | _, _ => false
  end.

Definition tcpOptsEqual (pkt : bytes) (v : tcpView) (open : bytes) (ihl0 thl0 : nat) : bool :=
  if negb (v_thl v =? thl0)%nat then false
  else bytes_eqb (slice pkt (v_ihl v + 20) (v_ihl v + thl0)) (slice open (ihl0 + 20) (ihl0 + thl0)).

(** ** Facts *)

Lemma bytes_eqb_eq a c : bytes_eqb a c = true <-> a = c.
Proof.
  revert c. induction a as [|x a IH]; intros [|y c]; simpl; try easy.
  rewrite andb_true_iff, Z.eqb_eq, IH. split; [by intros [-> ->]|by intros [= -> ->]].
Qed.

Lemma slice_length b i j : (i <= j)%nat -> (j <= length b)%nat -> length (slice b i j) = (j - i)%nat.
Proof. intros. unfold slice. rewrite length_take, length_drop. lia. Qed.

Lemma doff_of_bound tcp : bytes_ok tcp -> (doff_of tcp <= 60)%nat.
Proof.
  intros H. unfold doff_of. rewrite Z.shiftr_div_pow2 by lia. change (2 ^ 4) with 16.
  pose proof (bytes_ok_at tcp 12 H). assert (tcp.[12] / 16 < 16) by (apply Z.div_lt_upper_bound; lia). lia.
Qed.

(** What a successful [parseTCP] says of the packet. *)
Lemma parseTCP_inv ip s : parseTCP ip = Some s -> bytes_ok ip ->
  0 <= seg_seq s < 4294967296 /\ 0 <= seg_nextAfter s < 4294967296 /\
  exists consumed, 0 < consumed <= Z.of_nat (length ip) /\ seg_nextAfter s = u32 (seg_seq s + consumed).
Proof.
  unfold parseTCP. intros H Hok.
  do 3 guard_in H. rewrite length_drop in *.
  match type of H with (if ?x =? 0 then _ else _) = _ => set (c := x) in H end. guard_in H.
  injection H as <-. cbn. split; [auto with mq|]. split; [apply u32_range|].
  exists c. split; [|done]. subst c. destruct (_ || _); lia.
Qed.

(** What a successful [parseV4TCP] says of the packet. *)
Lemma parseV4TCP_inv pkt v : parseV4TCP pkt = Some v ->
  v_ihl v = ihl_of pkt /\ (20 <= v_ihl v)%nat /\ v_thl v = doff_of (drop (v_ihl v) pkt) /\ (20 <= v_thl v)%nat /\
  v_payloadOff v = (v_ihl v + v_thl v)%nat /\ (length pkt = v_ihl v + v_thl v + v_payloadLen v)%nat /\
  v_seq v = be32 pkt (v_ihl v + 4) /\ pkt.[9] = 6 /\ Z.shiftr pkt.[0] 4 = 4 /\
  v_key v = slice pkt 12 16 ++ slice pkt 16 20 ++ slice (drop (v_ihl v) pkt) 0 2 ++ slice (drop (v_ihl v) pkt) 2 4.
Proof.
  unfold parseV4TCP. intros H.
  do 3 guard_in H. rewrite length_drop in *. injection H as <-. cbn. rewrite be32_drop. split_and!; try done; lia.
Qed.

(** Conversely, a packet with these fields parses. *)
Lemma parseV4TCP_intro pkt : Z.shiftr pkt.[0] 4 = 4 -> pkt.[9] = 6 ->
  let i := ihl_of pkt in let t := doff_of (drop i pkt) in
  (20 <= i)%nat -> (20 <= t)%nat -> (i + t <= length pkt)%nat ->
  parseV4TCP pkt = Some {| v_ihl := i; v_thl := t; v_seq := be32 pkt (i + 4); v_payloadOff := i + t;
    v_payloadLen := length pkt - (i + t);
    v_key := slice pkt 12 16 ++ slice pkt 16 20 ++ slice (drop i pkt) 0 2 ++ slice (drop i pkt) 2 4 |}.
Proof.
  intros H0 H9 i t Hi Ht Hl. unfold parseV4TCP. fold i. fold t. rewrite H0, H9, length_drop, be32_drop.
  replace (length pkt <? 20)%nat with false by (symmetry; apply Nat.ltb_ge; lia).
  replace (i <? 20)%nat with false by (symmetry; apply Nat.ltb_ge; lia).
  replace (length pkt <? i + 20)%nat with false by (symmetry; apply Nat.ltb_ge; lia).
  replace (t <? 20)%nat with false by (symmetry; apply Nat.ltb_ge; lia).
  replace (length pkt - i <? t)%nat with false by (symmetry; apply Nat.ltb_ge; lia). done.
Qed.

Lemma slice_ext b b' i j : (forall n, (i <= n < j)%nat -> b !! n = b' !! n) -> slice b i j = slice b' i j.
Proof.
  intros H. unfold slice. apply list_eq. intros n. destruct (decide (n < j - i)%nat).
  - rewrite !lookup_take_lt, !lookup_drop by lia. apply H. lia.
  - by rewrite !lookup_take_ge by lia.
Qed.

(** The parse depends on the length and on the header bytes that are not the
    length, the checksums, the flags, the window or the acknowledgement. *)
Lemma parseV4TCP_ext pkt pkt' v : parseV4TCP pkt = Some v -> length pkt' = length pkt ->
  (forall n, (n < 2 \/ 9 = n \/ 12 <= n)%nat -> (n < v_ihl v + 8 \/ n = v_ihl v + 12)%nat -> pkt' !! n = pkt !! n) ->
  parseV4TCP pkt' = Some v.
Proof.
  intros Hp Hl Hb. destruct (parseV4TCP_inv _ _ Hp) as (E1 & E2 & E3 & E4 & E5 & E6 & E7 & E8 & E9 & E10).
  assert (Hat : forall n, (n < 2 \/ 9 = n \/ 12 <= n)%nat -> (n < v_ihl v + 8 \/ n = v_ihl v + 12)%nat -> pkt'.[n] = pkt.[n]).
  { intros n ? ?. unfold byte_at. rewrite !nth_lookup. by rewrite Hb. }
  assert (Ei : ihl_of pkt' = v_ihl v) by (rewrite E1; unfold ihl_of; by rewrite Hat by lia).
  assert (Et : doff_of (drop (v_ihl v) pkt') = v_thl v).
  { rewrite E3. unfold doff_of. rewrite !byte_at_drop. by rewrite Hat by lia. }
  rewrite parseV4TCP_intro; rewrite ?Ei, ?Et; try lia.
  - destruct v as [vi vt vs vo vl vk]. cbn in *. f_equal. f_equal; try lia.
    + rewrite E7. unfold be32, be16. rewrite !Hat by lia. done.
    + rewrite E10. rewrite !(slice_ext pkt' pkt) by (intros; apply Hb; lia).
      by rewrite !(slice_ext (drop vi pkt') (drop vi pkt)) by (intros; rewrite !lookup_drop; apply Hb; lia).
  - by rewrite Hat by lia.
  - by rewrite Hat by lia.
Qed.

(** Appending bytes extends the payload only. *)
Lemma parseV4TCP_app pkt q v : parseV4TCP pkt = Some v ->
  parseV4TCP (pkt ++ q) = Some {| v_ihl := v_ihl v; v_thl := v_thl v; v_seq := v_seq v; v_payloadOff := v_payloadOff v;
    v_payloadLen := v_payloadLen v + length q; v_key := v_key v |}.
Proof.
  intros Hp. destruct (parseV4TCP_inv _ _ Hp) as (E1 & E2 & E3 & E4 & E5 & E6 & E7 & E8 & E9 & E10).
  assert (Hat : forall n, (n < length pkt)%nat -> (pkt ++ q).[n] = pkt.[n]) by (intros; by apply byte_at_app_l).
  assert (Hlk : forall n, (n < length pkt)%nat -> (pkt ++ q) !! n = pkt !! n) by (intros; by apply lookup_app_l).
  assert (Ei : ihl_of (pkt ++ q) = v_ihl v) by (rewrite E1; unfold ihl_of; by rewrite Hat by lia).
  assert (Et : doff_of (drop (v_ihl v) (pkt ++ q)) = v_thl v).
  { rewrite E3. unfold doff_of. rewrite !byte_at_drop. by rewrite Hat by lia. }
  rewrite parseV4TCP_intro; rewrite ?Ei, ?Et, ?length_app; try lia.
  - rewrite E5, E7, E10. do 2 f_equal; try lia.
    + unfold be32, be16. rewrite !Hat by lia. done.
    + rewrite !(slice_ext (pkt ++ q) pkt) by (intros; apply Hlk; lia).
      by rewrite !(slice_ext (drop (v_ihl v) (pkt ++ q)) (drop (v_ihl v) pkt)) by (intros; rewrite !lookup_drop; apply Hlk; lia).
  - by rewrite Hat by lia.
  - by rewrite Hat by lia.
Qed.
