(* ===== verification/Reseq.v ===== *)
(** * The per-flow resequencer (utility/reseq.go)

    [ForwardReseq] holds back TCP segments that arrive ahead of their turn.
    Time is a number of nanoseconds; a Go map is a [gmap], and where the code
    ranges over one the visited sequence is an argument.  The observers that
    count inversions before and after this stage are modelled at the end. *)
From S2P Require Import Prelude Words TcpParse.
Local Open Scope Z_scope.
Local Open Scope masqued_scope.

Record reseqEntry := { data : bytes; nextAfter : Z }.
Record reseqFlow := { primed : bool; nextSeq : Z; buf : gmap Z reseqEntry; lastSeen : Z }.
Record ForwardReseq := { flows : gmap bytes reseqFlow; window : Z; maxAge : Z }.

Definition NewForwardReseq (window maxAge : Z) : ForwardReseq :=
  let window := if window <=? 0 then 64 else window in
  let maxAge := if maxAge <=? 0 then 5000000 else maxAge in
  {| flows := ∅; window := window; maxAge := maxAge |}.

(** [int32(s - f.nextSeq)]. *)
Definition dist (f : reseqFlow) (s : Z) : Z := i32 (u32 (s - nextSeq f)).

(** [f.nextSeq = e.nextAfter] with the buffer given. *)
Definition set_next (f : reseqFlow) (n : Z) (b : gmap Z reseqEntry) : reseqFlow :=
  {| primed := primed f; nextSeq := n; buf := b; lastSeen := lastSeen f |}.

(** The loop of [drain]; each round removes a buffered entry, so one more round
    than the buffer holds always reaches the exit test ([drain_done]). *)
Fixpoint drain_loop (fuel : nat) (f : reseqFlow) (out : list bytes) : list bytes * reseqFlow :=
  match fuel with
  | O => (out, f)
  | S n =>
      match buf f !! nextSeq f with
      | None => (out, f)
      | Some e => drain_loop n (set_next f (nextAfter e) (delete (nextSeq f) (buf f))) (out ++ [data e])
      end
  end.
Definition drain (f : reseqFlow) (out : list bytes) : list bytes * reseqFlow :=
  drain_loop (S (size (buf f))) f out.

(** The scan of [skipGap] over the buffered sequence numbers: the swept buffer
    and the nearest future number seen so far. *)
Definition skip_scan (f : reseqFlow) (iter : list Z) : gmap Z reseqEntry * option Z :=
  foldl (fun '(b, oldest) s =>
      if dist f s <=? 0 then (delete s b, oldest)
      else match oldest with
           | None => (b, Some s)
           | Some o => if dist f s <? dist f o then (b, Some s) else (b, oldest)
           end) (buf f, None) iter.

Definition skipGap_over (iter : list Z) (f : reseqFlow) (out : list bytes) : list bytes * bool * reseqFlow :=
  let '(b, oldest) := skip_scan f iter in
  match oldest with
  | None => (out, false, set_next f (nextSeq f) b)
  | Some o =>
      match b !! o with
      | None => (out, false, f)
      | Some e =>
          let '(out, f) := drain (set_next f (nextAfter e) (delete o b)) (out ++ [data e]) in
          (out, true, f)
      end
  end.

(** The map's own enumeration; [skipGap_any_order] shows that every other one
    gives the same result. *)
Definition skipGap (f : reseqFlow) (out : list bytes) : list bytes * bool * reseqFlow :=
  skipGap_over (map_to_list (buf f)).*1 f out.

Definition new_flow (seq now : Z) : reseqFlow :=
  {| primed := true; nextSeq := seq; buf := ∅; lastSeen := now |}.

(** The flow a segment is handled in: created and primed by its first one. *)
Definition touch_flow (fo : option reseqFlow) (seq now : Z) : reseqFlow :=
  match fo with
  | None => new_flow seq now
  | Some f => {| primed := true; nextSeq := if primed f then nextSeq f else seq;
                 buf := buf f; lastSeen := now |}
  end.

(** The switch of [Push] on one flow. *)
Definition push_flow (win : Z) (f : reseqFlow) (s : tcpSeg) (ip : bytes) (out : list bytes)
  : list bytes * reseqFlow :=
  let d := dist f (seg_seq s) in
  if d =? 0 then drain (set_next f (seg_nextAfter s) (buf f)) (out ++ [ip])
  else if d <? 0 then (out ++ [ip], f)
  else
    let b := match buf f !! seg_seq s with
             | Some _ => buf f
             | None => <[seg_seq s := {| data := ip; nextAfter := seg_nextAfter s |}]> (buf f)
             end in
    let f := set_next f (nextSeq f) b in
    if win <? Z.of_nat (size b) then
      let '(out, _, f) := skipGap f out in (out, f)
    else (out, f).

Definition set_flows (r : ForwardReseq) (fl : gmap bytes reseqFlow) : ForwardReseq :=
  {| flows := fl; window := window r; maxAge := maxAge r |}.

Definition Push (r : ForwardReseq) (ip : bytes) (now : Z) (out : list bytes) : list bytes * ForwardReseq :=
  match parseTCP ip with
  | None => (out ++ [ip], r)
  | Some s =>
      let f := touch_flow (flows r !! seg_key s) (seg_seq s) now in
      let '(out, f) := push_flow (window r) f s ip out in
      (out, set_flows r (<[seg_key s := f]> (flows r)))
  end.

(** The inner loop of [FlushExpired]; every successful round emits an entry. *)
Fixpoint flush_loop (fuel : nat) (f : reseqFlow) (out : list bytes) : list bytes * reseqFlow :=
  match fuel with
  | O => (out, f)
  | S n =>
      if (size (buf f) =? 0)%nat then (out, f)
      else let '(out, ok, f) := skipGap f out in
           if ok then flush_loop n f out else (out, f)
  end.

Definition flush_one (now : Z) (st : list bytes * ForwardReseq) (k : bytes) : list bytes * ForwardReseq :=
  let '(out, r) := st in
  match flows r !! k with
  | None => (out, r)
  | Some f =>
      if now - lastSeen f <? maxAge r then (out, r)
      else let '(out, _) := flush_loop (S (size (buf f))) f out in
           (out, set_flows r (delete k (flows r)))
  end.

(** [FlushExpired], the flows visited in the order [iter]. *)
Definition FlushExpired (iter : list bytes) (r : ForwardReseq) (now : Z) (out : list bytes)
  : list bytes * ForwardReseq := foldl (flush_one now) (out, r) iter.

(** ** Observers *)

(** [UploadOrderObserver] / [PreReseqObserver]: the state, with the two
    counters it adds to. *)
Record OrderObserver := { maxSeq : gmap bytes Z; Total : Z; OOO : Z }.
Definition NewOrderObserver : OrderObserver := {| maxSeq := ∅; Total := 0; OOO := 0 |}.

Definition UploadOrder_Observe (o : OrderObserver) (ip : bytes) : OrderObserver :=
  match parseTCP ip with
  | None => o
  | Some s =>
      let total := Total o + 1 in
      match maxSeq o !! seg_key s with
      | None =>
          let mx := if 65536 <=? Z.of_nat (size (maxSeq o)) then ∅ else maxSeq o in
          {| maxSeq := <[seg_key s := seg_seq s]> mx; Total := total; OOO := OOO o |}
      | Some mx =>
          if i32 (u32 (seg_seq s - mx)) <? 0
          then {| maxSeq := maxSeq o; Total := total; OOO := OOO o + 1 |}
          else {| maxSeq := <[seg_key s := seg_seq s]> (maxSeq o); Total := total; OOO := OOO o |}
      end
  end.

(** The same code on the download side. *)
Definition PreReseq_Observe := UploadOrder_Observe.

Definition preSendRingSize : nat := 1024.
Record preSendFlow := { psMaxSeq : Z; ring : list Z; inRing : gset Z; rhead : nat; rcount : nat }.
Record PreSendGenuineObserver := { psFlows : gmap bytes preSendFlow; PreSendTotal : Z; PreSendGenuine : Z; PreSendRetr : Z }.

Inductive preSendClass := PsRetransmit | PsInOrder | PsGenuine.

Definition new_preSendFlow : preSendFlow :=
  {| psMaxSeq := 0; ring := replicate preSendRingSize 0; inRing := ∅; rhead := 0; rcount := 0 |}.

(** The part of [PreSendGenuineObserver.Observe] on one flow. *)
Definition preSend_flow (f : preSendFlow) (seq : Z) : preSendFlow * preSendClass :=
  if decide (seq ∈ inRing f) then (f, PsRetransmit)
  else
    let full := (rcount f =? preSendRingSize)%nat in
    let inr := if full then inRing f ∖ {[ nth (rhead f) (ring f) 0 ]} else inRing f in
    let cnt := if full then rcount f else S (rcount f) in
    let mk mx := {| psMaxSeq := mx; ring := <[rhead f := seq]> (ring f); inRing := {[seq]} ∪ inr;
                    rhead := (S (rhead f) mod preSendRingSize)%nat; rcount := cnt |} in
    if (cnt =? 1)%nat || (0 <=? i32 (u32 (seq - psMaxSeq f))) then (mk seq, PsInOrder)
    else (mk (psMaxSeq f), PsGenuine).

Definition PreSend_Observe (o : PreSendGenuineObserver) (ip : bytes) : PreSendGenuineObserver :=
  match parseTCP ip with
  | None => o
  | Some s =>
      let '(fl, f) := match psFlows o !! seg_key s with
        | Some f => (psFlows o, f)
        | None => (if (256 <=? size (psFlows o))%nat then ∅ else psFlows o, new_preSendFlow)
        end in
      let '(f, c) := preSend_flow f (seg_seq s) in
      {| psFlows := <[seg_key s := f]> fl; PreSendTotal := PreSendTotal o + 1;
         PreSendGenuine := PreSendGenuine o + (match c with PsGenuine => 1 | _ => 0 end);
         PreSendRetr := PreSendRetr o + (match c with PsRetransmit => 1 | _ => 0 end) |}
  end.

(** ** Buffered packets *)

Definition contents (b : gmap Z reseqEntry) : list bytes := map (fun kv => data kv.2) (map_to_list b).

Lemma contents_insert b z e : b !! z = None -> Permutation (contents (<[z := e]> b)) (data e :: contents b).
Proof. intros H. unfold contents. by rewrite map_to_list_insert. Qed.

Lemma contents_delete b z e : b !! z = Some e -> Permutation (contents b) (data e :: contents (delete z b)).
Proof. intros H. rewrite <- (insert_delete_id b z e H) at 1. apply contents_insert, lookup_delete_eq. Qed.

Lemma contents_length b : length (contents b) = size b.
Proof. unfold contents. rewrite length_map. apply length_map_to_list. Qed.

Lemma contents_partition (P : Z * reseqEntry -> Prop) `{forall x, Decision (P x)} b :
  Permutation (contents b) (contents (filter P b) ++ contents (filter (fun kv => ~ P kv) b)).
Proof.
  induction b as [|z e b Hz IH] using map_ind; [done|].
  rewrite contents_insert, IH, !map_filter_insert by done. rewrite !(delete_id b) by done.
  assert (Hf : forall Q `{forall x, Decision (Q x)}, filter Q b !! z = None)
    by (intros; apply map_lookup_filter_None; by left).
  destruct (decide (P (z, e))) as [HP|HP], (decide (~ P (z, e))) as [HN|HN]; try tauto.
  - by rewrite contents_insert.
  - rewrite (contents_insert (filter (fun kv => ~ P kv) b)) by apply Hf. apply Permutation_middle.
Qed.

(** ** [drain] *)

Lemma dist_set_next f n b s : dist (set_next f n b) s = i32 (u32 (s - n)).
Proof. done. Qed.

Lemma map_size_delete_lt {V} (b : gmap Z V) z e : b !! z = Some e -> size b = S (size (delete z b)).
Proof. intros H. rewrite <- (insert_delete_id b z e H) at 1. rewrite map_size_insert_None; [done|apply lookup_delete_eq]. Qed.

(** The loop stops at a number that is not buffered. *)
Lemma drain_loop_done fuel f out : (size (buf f) < fuel)%nat ->
  let r := drain_loop fuel f out in buf r.2 !! nextSeq r.2 = None.
Proof.
  revert f out. induction fuel as [|n IH]; intros f out Hs; [lia|]. cbn [drain_loop].
  destruct (buf f !! nextSeq f) as [e|] eqn:E; [|done]. apply IH. cbn.
  rewrite (map_size_delete_lt _ _ _ E) in Hs. lia.
Qed.
Lemma drain_done f out : buf (drain f out).2 !! nextSeq (drain f out).2 = None.
Proof. apply (drain_loop_done (S (size (buf f)))). lia. Qed.

(** What the loop appends, and what it keeps. *)
Lemma drain_loop_frame fuel f out :
  exists l, (drain_loop fuel f out).1 = out ++ l /\
    Permutation (contents (buf f)) (l ++ contents (buf (drain_loop fuel f out).2)) /\
    (size (buf (drain_loop fuel f out).2) <= size (buf f))%nat /\
    lastSeen (drain_loop fuel f out).2 = lastSeen f /\ primed (drain_loop fuel f out).2 = primed f.
Proof.
  revert f out. induction fuel as [|n IH]; intros f out; cbn [drain_loop].
  { exists []. rewrite app_nil_r. done. }
  destruct (buf f !! nextSeq f) as [e|] eqn:E; [|exists []; rewrite app_nil_r; done].
  edestruct IH as (l & H1 & H2 & H3 & H4 & H5). exists (data e :: l). split_and!.
  - by rewrite H1, <- app_assoc.
  - cbn [buf set_next] in H2.
    rewrite (contents_delete _ _ _ E). cbn. by rewrite H2.
  - cbn in H3. rewrite (map_size_delete_lt _ _ _ E). lia.
  - done.
  - done.
Qed.

(** ** [skipGap] *)

(** The scan keeps the future entries and finds the nearest one. *)
Definition nearest (f : reseqFlow) (b : gmap Z reseqEntry) (o : option Z) : Prop :=
  match o with
  | None => forall s, is_Some (b !! s) -> dist f s <= 0
  | Some s => is_Some (b !! s) /\ 0 < dist f s /\
              forall s', is_Some (b !! s') -> 0 < dist f s' -> dist f s <= dist f s'
  end.

Definition future (f : reseqFlow) (b : gmap Z reseqEntry) : gmap Z reseqEntry :=
  filter (fun kv => 0 < dist f kv.1) b.

Lemma skip_scan_spec f iter : NoDup iter -> (forall s, s ∈ iter <-> is_Some (buf f !! s)) ->
  (skip_scan f iter).1 = future f (buf f) /\ nearest f (buf f) (skip_scan f iter).2.
Proof.
  intros Hnd Hdom. unfold skip_scan.
  set (step := fun '(b, oldest) s => _).
  assert (H : forall done_ rest b o, iter = done_ ++ rest ->
    b = filter (fun kv => 0 < dist f kv.1 \/ kv.1 ∈ rest) (buf f) ->
    match o with
    | None => forall s, s ∈ done_ -> dist f s <= 0
    | Some s => s ∈ done_ /\ 0 < dist f s /\ forall s', s' ∈ done_ -> 0 < dist f s' -> dist f s <= dist f s'
    end ->
    (foldl step (b, o) rest).1 = future f (buf f) /\ nearest f (buf f) (foldl step (b, o) rest).2).
  { intros done_ rest. revert done_. induction rest as [|s rest IH]; intros done_ b o Hi Hb Ho; cbn [foldl].
    - rewrite app_nil_r in Hi. subst done_. split.
      + cbn. rewrite Hb. apply map_filter_ext. intros k x _. cbn. rewrite elem_of_nil. tauto.
      + cbn. destruct o as [s|]; cbn.
        * destruct Ho as (H1 & H2 & H3). split_and!; [by apply Hdom|done|]. intros s' Hs'. apply H3. by apply Hdom.
        * intros s Hs. apply Ho. by apply Hdom.
    - assert (Hi' : iter = (done_ ++ [s]) ++ rest) by (by rewrite <- app_assoc).
      assert (Hsr : s ∉ rest).
      { rewrite Hi in Hnd. apply NoDup_app in Hnd as (_ & _ & Hnd). by inversion Hnd. }
      unfold step at 2 4. destruct (dist f s <=? 0) eqn:E.
      + apply (IH (done_ ++ [s])); [done| |].
        * bool_hyps. rewrite Hb. apply map_eq. intros k. apply option_eq. intros x.
          rewrite lookup_delete_Some, !map_lookup_filter_Some. cbn. rewrite elem_of_cons. split.
          -- intros (Hne & Hk & [Hd|[->|Hr]]); (split; [done|]); [by left|done|by right].
          -- intros (Hk & Hd). assert (s <> k) by (intros ->; destruct Hd; [lia|done]). split; [done|].
             split; [done|]. destruct Hd; auto.
        * bool_hyps. destruct o as [o|].
          -- destruct Ho as (H1 & H2 & H3). split_and!; [apply elem_of_app; by left|done|].
             intros s' [Hs'|Hs'%list_elem_of_singleton]%elem_of_app Hd; [by apply H3|subst s'; lia].
          -- intros s' [Hs'|Hs'%list_elem_of_singleton]%elem_of_app; [by apply Ho|subst s'; done].
      + bool_hyps. assert (Hb' : b = filter (fun kv => 0 < dist f kv.1 \/ kv.1 ∈ rest) (buf f)).
        { rewrite Hb. apply map_filter_ext. intros k x _. cbn. rewrite elem_of_cons.
          split; [intros [?|[->|?]]; auto|intros [?|?]; auto]. }
        destruct o as [o|]; [destruct (dist f s <? dist f o) eqn:E2|]; apply (IH (done_ ++ [s])); try done; bool_hyps.
        * destruct Ho as (H1 & H2 & H3). split_and!; [apply elem_of_app; right; by left|lia|].
          intros s' [Hs'|Hs'%list_elem_of_singleton]%elem_of_app Hd; [specialize (H3 _ Hs' Hd); lia|subst s'; lia].
        * destruct Ho as (H1 & H2 & H3). split_and!; [apply elem_of_app; by left|done|].
          intros s' [Hs'|Hs'%list_elem_of_singleton]%elem_of_app Hd; [by apply H3|subst s'; lia].
        * split_and!; [apply elem_of_app; right; by left|lia|].
          intros s' [Hs'|Hs'%list_elem_of_singleton]%elem_of_app Hd; [specialize (Ho _ Hs'); lia|subst s'; lia]. }
  apply (H [] iter); [done| |by intros ? ?%elem_of_nil].
  apply map_eq. intros k. apply option_eq. intros x. rewrite map_lookup_filter_Some. cbn. split; [|by intros [? _]].
  intros Hk. split; [done|]. right. apply Hdom. by eexists.
Qed.

(** Sequence numbers are 32-bit, so distances identify them. *)
Definition u32_keys (b : gmap Z reseqEntry) : Prop := forall s, is_Some (b !! s) -> 0 <= s < 4294967296.

Lemma dist_inj f s1 s2 : 0 <= s1 < 4294967296 -> 0 <= s2 < 4294967296 -> dist f s1 = dist f s2 -> s1 = s2.
Proof.
  unfold dist, i32, u32. intros H1 H2 H.
  set (n := nextSeq f) in *.
  assert (E : (s1 - n + 2147483648) mod 4294967296 = (s2 - n + 2147483648) mod 4294967296).
  { rewrite <- (Zplus_mod_idemp_l (s1 - n)), <- (Zplus_mod_idemp_l (s2 - n)). lia. }
  pose proof (Z.div_mod (s1 - n + 2147483648) 4294967296). pose proof (Z.div_mod (s2 - n + 2147483648) 4294967296).
  set (q1 := (s1 - n + 2147483648) / 4294967296) in *. set (q2 := (s2 - n + 2147483648) / 4294967296) in *. lia.
Qed.

Lemma nearest_unique f b o1 o2 : u32_keys b -> nearest f b o1 -> nearest f b o2 -> o1 = o2.
Proof.
  intros Hk. destruct o1 as [s1|], o2 as [s2|]; cbn; [| | |done].
  - intros (A1 & B1 & C1) (A2 & B2 & C2). f_equal. apply (dist_inj f); [by apply Hk..|].
    specialize (C1 _ A2 B2). specialize (C2 _ A1 B1). lia.
  - intros (A & B & _) C. specialize (C _ A). lia.
  - intros C (A & B & _). specialize (C _ A). lia.
Qed.

Lemma map_keys_spec (b : gmap Z reseqEntry) :
  NoDup (map_to_list b).*1 /\ forall s, s ∈ (map_to_list b).*1 <-> is_Some (b !! s).
Proof.
  split; [apply NoDup_fst_map_to_list|]. intros s. rewrite list_elem_of_fmap. split.
  - intros ([k x] & -> & H%elem_of_map_to_list). by eexists.
  - intros [x Hx]. exists (s, x). split; [done|]. by apply elem_of_map_to_list.
Qed.

(** The order in which Go ranges over the map does not matter. *)
Lemma skipGap_any_order iter f out : u32_keys (buf f) ->
  NoDup iter -> (forall s, s ∈ iter <-> is_Some (buf f !! s)) ->
  skipGap_over iter f out = skipGap f out.
Proof.
  intros Hk Hnd Hd. unfold skipGap, skipGap_over. destruct (map_keys_spec (buf f)) as [Hnd' Hd'].
  destruct (skip_scan_spec f iter Hnd Hd) as [E1 N1]. destruct (skip_scan_spec f _ Hnd' Hd') as [E2 N2].
  destruct (skip_scan f iter) as [b1 o1], (skip_scan f (map_to_list (buf f)).*1) as [b2 o2]. cbn in *. subst.
  by rewrite (nearest_unique _ _ _ _ Hk N1 N2).
Qed.

(** [skipGap] in terms of the nearest future entry. *)
Lemma skipGap_cases f out :
  (future f (buf f) = ∅ /\ skipGap f out = (out, false, set_next f (nextSeq f) ∅)) \/
  (exists o e, future f (buf f) !! o = Some e /\ nearest f (buf f) (Some o) /\
     skipGap f out = (let '(out', f') := drain (set_next f (nextAfter e) (delete o (future f (buf f)))) (out ++ [data e]) in
                      (out', true, f'))).
Proof.
  unfold skipGap, skipGap_over. destruct (map_keys_spec (buf f)) as [Hnd Hd].
  destruct (skip_scan_spec f _ Hnd Hd) as [E N].
  destruct (skip_scan f (map_to_list (buf f)).*1) as [b [o|]]; cbn in E, N; subst b.
  - right. destruct N as ([e He] & Hp & Hm).
    assert (Hf : future f (buf f) !! o = Some e) by (by apply map_lookup_filter_Some).
    exists o, e. rewrite Hf. split; [done|]. split; [|done]. split; [by eexists|]. by split.
  - left. assert (Hf : future f (buf f) = ∅).
    { apply map_eq. intros k. rewrite lookup_empty. apply map_lookup_filter_None. right. cbn.
      intros x Hx Hd0. specialize (N k (ex_intro _ _ Hx)). lia. }
    by rewrite Hf.
Qed.

(** What a call emits, keeps and sweeps. *)
Lemma skipGap_frame f out :
  exists l, (skipGap f out).1.1 = out ++ l /\
    Permutation (contents (future f (buf f))) (l ++ contents (buf (skipGap f out).2)) /\
    ((skipGap f out).1.2 = true -> l <> [] /\ (size (buf (skipGap f out).2) < size (buf f))%nat) /\
    ((skipGap f out).1.2 = false -> buf (skipGap f out).2 = ∅) /\
    lastSeen (skipGap f out).2 = lastSeen f /\ primed (skipGap f out).2 = primed f.
Proof.
  destruct (skipGap_cases f out) as [[Hf ->]|(o & e & He & _ & ->)].
  - exists []. rewrite app_nil_r, Hf. split_and!; try done.
  - destruct (drain_loop_frame (S (size (delete o (future f (buf f)))))
      (set_next f (nextAfter e) (delete o (future f (buf f)))) (out ++ [data e])) as (l & H1 & H2 & H3 & H4 & H5).
    unfold drain in *. cbn [buf set_next] in *.
    destruct (drain_loop _ _ _) as [out' f'] eqn:Ed. cbn in *.
    exists (data e :: l). split_and!; try done.
    + by rewrite H1, <- app_assoc.
    + rewrite (contents_delete _ _ _ He). cbn. by rewrite H2.
    + intros _. split; [done|].
      assert (size (future f (buf f)) <= size (buf f))%nat by apply map_size_filter.
      rewrite (map_size_delete_lt _ _ _ He) in *. lia.
Qed.

(** ** [FlushExpired]'s inner loop *)

(** The loop ends, whatever the buffer, with the buffer empty. *)
Lemma flush_loop_done fuel f out : (size (buf f) < fuel)%nat -> buf (flush_loop fuel f out).2 = ∅.
Proof.
  revert f out. induction fuel as [|n IH]; intros f out Hs; [lia|]. cbn [flush_loop].
  destruct (size (buf f) =? 0)%nat eqn:E; bool_hyps; [by apply map_size_empty_inv|].
  destruct (skipGap_frame f out) as (l & _ & _ & H3 & H4 & _).
  destruct (skipGap f out) as [[out' ok] f']. cbn in *. destruct ok; [|by apply H4].
  apply IH. destruct H3; [done|]. lia.
Qed.
