(* ===== verification/ReseqProps.v ===== *)
(** * Properties of the resequencer (utility/reseq.go)

    A TCP stream whose segments arrive with bounded overtaking leaves in order;
    no call invents, duplicates or silently loses a packet; the buffer is
    bounded by the window; a flush always ends and empties an idle flow; the
    observers count exactly what they describe. *)
From S2P Require Import Prelude Words TcpParse Reseq.
Local Open Scope Z_scope.

(** Push a sequence of packets, each with its arrival time. *)
Definition push_all (r : ForwardReseq) (l : list (bytes * Z)) : list bytes * ForwardReseq :=
  foldl (fun '(out, r) '(ip, now) => Push r ip now out) ([], r) l.

(** ** A stream of consecutive segments *)

(** Serial distance of two stream offsets less than 2^31 apart. *)
Lemma serial_dist s0 a b : - 2147483648 <= a - b < 2147483648 ->
  i32 (u32 (u32 (s0 + a) - u32 (s0 + b))) = a - b.
Proof.
  intros H. rewrite i32_u32. unfold i32.
  assert (E : (u32 (s0 + a) - u32 (s0 + b) + 2147483648) mod 4294967296 = (a - b + 2147483648) mod 4294967296).
  { unfold u32. rewrite Zplus_mod, Zminus_mod, !Z.mod_mod, <- Zminus_mod, <- Zplus_mod by lia. f_equal; lia. }
  rewrite E, Z.mod_small; lia.
Qed.

Section Stream.
(** Segment [i] covers the stream bytes [off i .. off (S i)). *)
Context (n : nat) (pk : nat -> bytes) (off : nat -> Z) (s0 : Z) (key : bytes).
Context (Hoff : forall i, off i < off (S i)).
Context (Hpk : forall i, (i < n)%nat -> parseTCP (pk i) =
  Some {| seg_seq := u32 (s0 + off i); seg_nextAfter := u32 (s0 + off (S i)); seg_key := key |}).

Local Abbreviation Sq i := (u32 (s0 + off i)).
Local Abbreviation En i := {| data := pk i; nextAfter := Sq (S i) |}.

Lemma off_lt i j : (i < j)%nat -> off i < off j.
Proof using Hoff. induction 1; [done|]. pose proof (Hoff m). lia. Qed.

(** Two segments less than 2^31 bytes apart have different numbers. *)
Lemma Sq_inj i j : Sq i = Sq j -> - 2147483648 <= off i - off j < 2147483648 -> i = j.
Proof using Hoff.
  intros E H. pose proof (serial_dist s0 (off i) (off j) H) as Hd. rewrite E, Z.sub_diag in Hd. change (0 = off i - off j) in Hd.
  destruct (Nat.lt_trichotomy i j) as [L|[?|L]]; [pose proof (off_lt _ _ L); lia|done|pose proof (off_lt _ _ L); lia].
Qed.

(** The buffer holds exactly the arrived segments from [k] on. *)
Definition holds (A : list nat) (k : nat) (b : gmap Z reseqEntry) : Prop :=
  forall z e, b !! z = Some e <-> exists i, i ∈ A /\ (k <= i)%nat /\ z = Sq i /\ e = En i.

Definition near (A : list nat) (k : nat) : Prop := forall i, i ∈ A -> off i < off k + 2147483648.

Lemma holds_delete A k b : near A k -> holds A k b -> holds A (S k) (delete (Sq k) b).
Proof using Hoff.
  intros Hn HB z e. rewrite lookup_delete_Some, (HB z e). split.
  - intros (Hne & i & HA & Hk & -> & ->). exists i. split; [done|]. split; [|done].
    assert (i <> k) by congruence. lia.
  - intros (i & HA & Hk & -> & ->). split; [|exists i; split; [done|]; split; [lia|done]].
    intros E. specialize (Hn i HA). pose proof (off_lt k i ltac:(lia)).
    apply Sq_inj in E; lia.
Qed.

Lemma near_mono A k k' : (k <= k')%nat -> near A k -> near A k'.
Proof using Hoff.
  intros H Hn i Hi. specialize (Hn i Hi). destruct (decide (k = k')) as [->|]; [done|].
  pose proof (off_lt k k' ltac:(lia)). lia.
Qed.

(** Draining delivers the consecutive run that starts at [k]. *)
Lemma drain_run A fuel k f out : (size (buf f) < fuel)%nat -> nextSeq f = Sq k ->
  near A k -> holds A k (buf f) ->
  exists k', (k <= k')%nat /\ (k' ∉ A) /\ (forall j, (k <= j < k')%nat -> j ∈ A) /\
    let r := drain_loop fuel f out in
    r.1 = out ++ map pk (seq k (k' - k)) /\ nextSeq r.2 = Sq k' /\ holds A k' (buf r.2) /\
    primed r.2 = primed f.
Proof using Hoff.
  revert k f out. induction fuel as [|fu IH]; intros k f out Hs Hk Hn HB; [lia|]. cbn [drain_loop].
  destruct (buf f !! nextSeq f) as [e|] eqn:E.
  - assert (HkA : k ∈ A /\ e = En k).
    { rewrite Hk in E. apply HB in E as (i & HA & Hi & Heq & ->). specialize (Hn i HA).
      assert (i = k) as ->; [|done]. destruct (decide (k = i)) as [?|]; [done|].
      pose proof (off_lt k i ltac:(lia)). symmetry in Heq. apply Sq_inj in Heq; lia. }
    destruct HkA as [HkA ->].
    destruct (IH (S k) (set_next f (nextAfter (En k)) (delete (nextSeq f) (buf f))) (out ++ [data (En k)]))
      as (k' & H1 & H2 & H3 & H4 & H5 & H6 & H7); cbn [buf set_next nextSeq nextAfter data].
    + pose proof (map_size_delete_lt _ _ _ E). lia.
    + done.
    + apply (near_mono A k); [lia|done].
    + rewrite Hk. by apply holds_delete.
    + exists k'. split; [lia|]. split; [done|]. split.
      { intros j Hj. destruct (decide (j = k)) as [->|]; [done|]. apply H3. lia. }
      cbn in H4. split; [|done]. rewrite H4, <- app_assoc. cbn [app].
      replace (k' - k)%nat with (S (k' - S k)) by lia. done.
  - exists k. rewrite Nat.sub_diag, app_nil_r. split_and!; try done; [|intros; lia].
    intros HA. assert (Hb : buf f !! nextSeq f = Some (En k)); [|by rewrite E in Hb].
    rewrite Hk. apply HB. by exists k.
Qed.

(** The state after the arrivals [A] : the first [k] segments are out. *)
Record stream_inv (A : list nat) (k : nat) (f : reseqFlow) (out : list bytes) : Prop := {
  si_primed : primed f = true;
  si_next : nextSeq f = Sq k;
  si_out : out = map pk (seq 0 k);
  si_holds : holds A k (buf f);
  si_miss : k ∉ A;
  si_all : forall j, (j < k)%nat -> j ∈ A
}.

(** Segments that have overtaken [k]. *)
Definition ahead (k : nat) (A : list nat) : list nat := filter (fun i => k < i)%nat A.

Lemma holds_size A k b : k ∉ A -> holds A k b -> (size b <= length (ahead k A))%nat.
Proof using.
  intros Hk HB. rewrite <- length_map_to_list.
  rewrite <- (length_map fst), <- (length_map (fun i => Sq i) (ahead k A)).
  apply submseteq_length, NoDup_submseteq.
  - apply NoDup_fst_map_to_list.
  - intros z Hz. apply list_elem_of_fmap in Hz as ([z' e] & -> & H%elem_of_map_to_list).
    apply HB in H as (i & HA & Hi & -> & ->). apply list_elem_of_fmap. exists i. split; [done|].
    apply list_elem_of_filter. split; [|done]. assert (i <> k) by (by intros ->). lia.
Qed.

(** Two segments near [k] and not before it have different numbers. *)
Lemma near_ne A k i j : near A k -> i ∈ A -> j ∈ A -> (k <= i)%nat -> (k <= j)%nat -> Sq i = Sq j -> i = j.
Proof using Hoff.
  intros Hn Hi Hj Hki Hkj. apply Hn in Hi, Hj.
  assert (Hm : forall m, (k <= m)%nat -> off k <= off m) by (intros m Hm; destruct (decide (k = m)) as [->|]; [lia|pose proof (off_lt k m ltac:(lia)); lia]).
  pose proof (Hm i Hki). pose proof (Hm j Hkj). intros E. apply Sq_inj in E; lia.
Qed.

(** The due segment arrives, or a later one. *)
Lemma holds_due A k b : holds A k b -> k ∉ A -> holds (A ++ [k]) (S k) b.
Proof using.
  intros HB Hk z e. rewrite (HB z e). split; intros (j & HA & Hj & -> & ->); exists j.
  - split; [apply elem_of_app; by left|]. split; [|done]. assert (j <> k) by (by intros ->). lia.
  - apply elem_of_app in HA as [HA|HA%list_elem_of_singleton]; [|lia]. split; [done|]. split; [lia|done].
Qed.
Lemma holds_insert A k b i : holds A k b -> near (A ++ [i]) k -> i ∉ A -> (k <= i)%nat -> b !! Sq i = None /\ holds (A ++ [i]) k (<[Sq i := En i]> b).
Proof using Hoff.
  intros HB Hn Hi Hki. assert (Hii : i ∈ A ++ [i]) by (apply elem_of_app; right; by left).
  assert (Hne : forall j, j ∈ A -> (k <= j)%nat -> Sq i <> Sq j).
  { intros j HA Hj Heq. apply (near_ne (A ++ [i]) k) in Heq; [by subst|done|done|apply elem_of_app; by left|done|done]. }
  split.
  - destruct (b !! Sq i) as [e|] eqn:E; [|done]. apply HB in E as (j & HA & Hj & Heq & ->). by destruct (Hne j HA Hj).
  - intros z e. rewrite lookup_insert_Some, (HB z e). split.
    + intros [[<- <-]|(_ & j & HA & Hj & -> & ->)]; [by exists i|exists j]. split; [apply elem_of_app; by left|done].
    + intros (j & [HA|HA%list_elem_of_singleton]%elem_of_app & Hj & -> & ->); [|subst; by left].
      right. split; [by apply Hne|by exists j].
Qed.

(** One arrival. *)
Lemma stream_push A k f out win i :
  stream_inv A k f out -> i ∉ A -> (i < n)%nat ->
  near (A ++ [i]) k -> Z.of_nat (length (ahead k (A ++ [i]))) <= win ->
  exists k' f' out', push_flow win f {| seg_seq := Sq i; seg_nextAfter := Sq (S i); seg_key := key |} (pk i) out = (out', f') /\
    stream_inv (A ++ [i]) k' f' out'.
Proof using Hoff.
  intros [H1 H2 H3 H4 H5 H6] Hi Hin Hn Hw.
  assert (Hik : (k <= i)%nat) by (destruct (decide (i < k)%nat) as [L|]; [by apply H6 in L|lia]).
  assert (Hiin : i ∈ A ++ [i]) by (apply elem_of_app; right; by left).
  assert (Hd : dist f (Sq i) = off i - off k).
  { unfold dist. rewrite H2. apply serial_dist. specialize (Hn i Hiin).
    destruct (decide (k = i)) as [->|]; [lia|]. pose proof (off_lt k i ltac:(lia)). lia. }
  unfold push_flow. cbn [seg_seq seg_nextAfter]. rewrite Hd.
  destruct (off i - off k =? 0) eqn:E0; bool_hyps.
  - assert (i = k) as ->.
    { destruct (decide (k = i)) as [?|]; [done|]. pose proof (off_lt k i ltac:(lia)). lia. }
    pose proof (holds_due A k (buf f) H4 H5) as HB.
    destruct (drain_run (A ++ [k]) (S (size (buf f))) (S k) (set_next f (Sq (S k)) (buf f)) (out ++ [pk k]))
      as (k' & G1 & G2 & G3 & G4 & G5 & G6 & G7); [cbn; lia|done|by apply (near_mono _ k); [lia|]|done|].
    unfold drain. cbn [buf set_next] in *. destruct (drain_loop _ _ _) as [out' f'] eqn:Ed. cbn in *.
    exists k', f', out'. split; [done|]. split; [by rewrite G7|done| |done|done|].
    + rewrite G4, H3. replace k' with (k + S (k' - S k))%nat at 2 by lia. rewrite seq_app, map_app.
      cbn. by rewrite <- app_assoc.
    + intros j Hj. destruct (decide (j < k)%nat) as [L|]; [apply elem_of_app; left; by apply H6|].
      destruct (decide (j = k)) as [->|]; [done|]. apply G3. lia.
  - assert (k < i)%nat by (destruct (decide (k = i)) as [->|]; lia).
    pose proof (off_lt k i ltac:(lia)).
    destruct (off i - off k <? 0) eqn:E1; bool_hyps; [lia|].
    destruct (holds_insert A k (buf f) i H4 Hn Hi Hik) as [Hnone HB]. rewrite Hnone.
    assert (HkA : k ∉ A ++ [i]).
    { intros [?|?%list_elem_of_singleton]%elem_of_app; [done|lia]. }
    pose proof (holds_size _ _ _ HkA HB) as Hsz. cbn [buf set_next].
    destruct (win <? _) eqn:E2; bool_hyps; [lia|].
    do 3 eexists. split; [reflexivity|]. split; try done.
    intros j Hj. apply elem_of_app; left; by apply H6.
Qed.

(** An arrival order in which [0] comes first and no segment is overtaken by
    more than [win] later ones, nor by one 2^31 bytes ahead. *)
Definition arrival_ok (win : Z) (l : list nat) : Prop :=
  Permutation l (seq 0 n) /\ head l = Some O /\
  forall l1 k l2, l = l1 ++ k :: l2 -> Z.of_nat (length (ahead k l1)) <= win /\ near l1 k.

(** The bounds of an acceptable order hold for the segment that is due, too. *)
Lemma arrival_due win l B k i rest f out0 : arrival_ok win l -> l = B ++ i :: rest -> i ∉ B -> (k <= i)%nat -> (i < n)%nat ->
  stream_inv B k f out0 -> Z.of_nat (length (ahead k (B ++ [i]))) <= win /\ near (B ++ [i]) k.
Proof using.
  intros (HP & _ & Hov) HlB HiB Hik Hin HI.
  destruct (decide (k = i)) as [->|Hne].
  - destruct (Hov B i rest HlB) as [Ho Hnr]. unfold ahead. rewrite filter_app, length_app.
    rewrite filter_cons_False by lia. cbn. split; [unfold ahead in Ho; lia|].
    intros j [Hj|Hj%list_elem_of_singleton]%elem_of_app; [by apply Hnr|subst; lia].
  - assert (Hkl : k ∈ l) by (rewrite HP; apply elem_of_seq; lia).
    rewrite HlB in Hkl. apply elem_of_app in Hkl as [Hkl|Hkl]; [by destruct (si_miss _ _ _ _ HI)|].
    apply list_elem_of_In in Hkl. destruct Hkl as [->|Hkr]; [done|]. apply list_elem_of_In in Hkr.
    apply list_elem_of_split in Hkr as (r1' & r2' & ->).
    destruct (Hov (B ++ i :: r1') k r2') as [Ho Hnr]; [by rewrite HlB, <- app_assoc|].
    split.
    + unfold ahead in *. rewrite filter_app, length_app in Ho. rewrite filter_app, length_app.
      rewrite filter_cons in Ho |- *. destruct (decide (k < i)%nat); cbn in *; lia.
    + intros j Hj. apply Hnr. apply elem_of_app. apply elem_of_app in Hj as [?|?%list_elem_of_singleton]; [by left|].
      subst. right. by left.
Qed.

(** The invariant along the arrivals. *)
Lemma stream_run win l r : arrival_ok win l -> window r = win -> flows r !! key = None ->
  forall A rest, l = A ++ rest -> forall times, length times = length A ->
  let st := push_all r (zip (map pk A) times) in
  window st.2 = win /\
  (A = [] /\ st.1 = [] /\ flows st.2 !! key = None \/
   exists k f, flows st.2 !! key = Some f /\ stream_inv A k f st.1).
Proof using Hoff Hpk.
  intros (HP & Hh & Hov) Hwin Hfl A. induction A as [|i A IH] using rev_ind; intros rest Hl times Ht.
  { destruct times; [|done]. cbn. split; [done|]. by left. }
  rewrite length_app in Ht. cbn in Ht.
  destruct (@exists_last _ times) as (times' & t & ->); [by intros ->; cbn in Ht; lia|].
  rewrite length_app in Ht. cbn in Ht.
  rewrite map_app, zip_with_app by (rewrite length_map; lia). cbn [map zip_with].
  unfold push_all. rewrite foldl_app. cbn [foldl].
  rewrite <- app_assoc in Hl. cbn [app] in Hl.
  specialize (IH (i :: rest) Hl times' ltac:(lia)). cbn zeta in IH. unfold push_all in IH.
  destruct (foldl _ ([], r) (zip (map pk A) times')) as [out r1]. cbn [fst snd] in IH. destruct IH as [Hw IH].
  assert (Hnd : NoDup l) by (rewrite HP; apply NoDup_seq).
  assert (Hin : (i < n)%nat).
  { assert (Hi : i ∈ l) by (rewrite Hl; apply elem_of_app; right; by left). rewrite HP in Hi. apply elem_of_seq in Hi. lia. }
  assert (HiA : i ∉ A).
  { rewrite Hl in Hnd. apply NoDup_app in Hnd as (_ & Hnd & _). intros Hi. apply (Hnd i Hi). by left. }
  unfold Push. rewrite (Hpk i Hin). cbn [seg_key seg_seq]. rewrite Hw. cbv zeta.
  assert (Hstep : forall A k f out0, stream_inv A k f out0 -> l = A ++ i :: rest -> i ∉ A ->
    exists k' f' out', push_flow win f {| seg_seq := Sq i; seg_nextAfter := Sq (S i); seg_key := key |} (pk i) out0 = (out', f') /\
      stream_inv (A ++ [i]) k' f' out').
  { intros B k f out0 HI HlB HiB. pose proof (Hov B i rest HlB) as [_ Hnear_i].
    assert (Hik : (k <= i)%nat) by (destruct (decide (i < k)%nat) as [L|]; [by apply (si_all _ _ _ _ HI) in L|lia]).
    pose proof (arrival_due win l B k i rest f out0 (conj HP (conj Hh Hov)) HlB HiB Hik Hin HI) as Hk.
    destruct Hk. by apply (stream_push B k f out0). }
  destruct IH as [(-> & -> & Hn0)|(k & f & Hf & HI)].
  - rewrite Hn0. cbn [touch_flow].
    rewrite Hl in Hh. cbn in Hh. injection Hh as ->.
    assert (HI : stream_inv [] 0 (new_flow (Sq 0) t) []).
    { split; [done|done|done| |apply not_elem_of_nil|intros; lia].
      intros z e. split; [intros H; cbn in H; by rewrite lookup_empty in H|intros (j & Hj & _); by apply not_elem_of_nil in Hj]. }
    destruct (Hstep [] 0%nat _ _ HI Hl HiA) as (k' & f' & out' & -> & HI').
    cbn [snd fst window set_flows flows]. split; [done|]. right. exists k', f'. by rewrite lookup_insert_eq.
  - rewrite Hf. cbn [touch_flow]. rewrite (si_primed _ _ _ _ HI).
    assert (HI2 : stream_inv A k {| primed := true; nextSeq := nextSeq f; buf := buf f; lastSeen := t |} out)
      by (destruct HI; by split).
    destruct (Hstep A k _ _ HI2 Hl HiA) as (k' & f' & out' & -> & HI').
    cbn [snd fst window set_flows flows]. split; [done|]. right. exists k', f'. by rewrite lookup_insert_eq.
Qed.
End Stream.

(** The whole stream, pushed in an acceptable order, is out and in order. *)
Lemma stream_complete n pk off s0 key win l times r :
  (forall i, off i < off (S i)) ->
  (forall i, (i < n)%nat -> parseTCP (pk i) =
    Some {| seg_seq := u32 (s0 + off i); seg_nextAfter := u32 (s0 + off (S i)); seg_key := key |}) ->
  arrival_ok n off win l -> window r = win -> flows r !! key = None -> length times = length l ->
  (push_all r (zip (map pk l) times)).1 = map pk (seq 0 n).
Proof.
  intros Hoff Hpk Har Hwin Hfl Ht.
  destruct (stream_run n pk off s0 key Hoff Hpk win l r Har Hwin Hfl l [] (eq_sym (app_nil_r l)) times Ht)
    as [_ [(-> & -> & _)|(k & f & _ & HI)]]; destruct Har as (HP & Hh & _); [done|].
  rewrite (si_out _ _ _ _ _ _ _ HI). do 2 f_equal.
  assert (Hkn : (n <= k)%nat).
  { destruct (decide (k < n)%nat) as [L|]; [|lia]. exfalso. apply (si_miss _ _ _ _ _ _ _ HI).
    rewrite HP. apply elem_of_seq. lia. }
  destruct (decide (n < k)%nat) as [L|]; [|lia]. apply (si_all _ _ _ _ _ _ _ HI) in L.
  rewrite HP in L. apply elem_of_seq in L. lia.
Qed.

(** C5.  Reordering: the segments of one TCP flow, arriving first segment first
    and otherwise in any order in which no segment is overtaken by more than
    [window] later ones (nor by one 2^31 bytes ahead), leave [Push] exactly once
    each and in stream order, whatever the arrival times, across wrap-around of
    the sequence numbers and for streams of any length. *)
Theorem reseq_restores_order n pk off s0 key l times r :
  (forall i, off i < off (S i)) ->
  (forall i, (i < n)%nat -> parseTCP (pk i) =
    Some {| seg_seq := u32 (s0 + off i); seg_nextAfter := u32 (s0 + off (S i)); seg_key := key |}) ->
  arrival_ok n off (window r) l -> flows r !! key = None -> length times = length l ->
  (push_all r (zip (map pk l) times)).1 = map pk (seq 0 n).
Proof. intros. by eapply stream_complete. Qed.

(** A 44-byte TCP segment with four payload bytes and sequence number [s]. *)
Definition seg_pkt (s : Z) : bytes :=
  put32 [69;0;0;44;0;0;64;0;64;6;0;0;10;0;0;2;8;8;8;8;156;64;1;187;0;0;0;0;0;0;0;0;80;16;32;0;0;0;0;0;1;2;3;4] 24 s.

Definition seg_key0 : bytes := [10;0;0;2;8;8;8;8;156;64;1;187;6].

Lemma seg_pkt_parse_3 s0 : s0 = 4294967290 -> forall i, (i < 3)%nat ->
  parseTCP (seg_pkt (u32 (s0 + 4 * Z.of_nat i))) =
    Some {| seg_seq := u32 (s0 + 4 * Z.of_nat i); seg_nextAfter := u32 (s0 + 4 * Z.of_nat (S i)); seg_key := seg_key0 |}.
Proof. intros -> i Hi. destruct i as [|[|[|i]]]; [vm_compute; reflexivity..|lia]. Qed.

Lemma arrival_021 : arrival_ok 3 (fun i => 4 * Z.of_nat i) 64 [0; 2; 1]%nat.
Proof.
  split; [|split; [done|]].
  - simpl. apply perm_skip, perm_swap.
  - intros l1 k l2 H.
    destruct l1 as [|a [|b [|c l1]]]; cbn in H; simplify_eq; [..|by destruct l1];
      (split; [by vm_compute|]); intros j Hj;
      repeat (apply elem_of_cons in Hj as [->|Hj]; [lia|]); by apply not_elem_of_nil in Hj.
Qed.

Lemma seg_pkt_parse_4 s0 : s0 = 4294967290 -> forall i, (i < 4)%nat ->
  parseTCP (seg_pkt (u32 (s0 + 4 * Z.of_nat i))) =
    Some {| seg_seq := u32 (s0 + 4 * Z.of_nat i); seg_nextAfter := u32 (s0 + 4 * Z.of_nat (S i)); seg_key := seg_key0 |}.
Proof. intros -> i Hi. destruct i as [|[|[|[|i]]]]; [vm_compute; reflexivity..|lia]. Qed.

Lemma arrival_0213 : arrival_ok 4 (fun i => 4 * Z.of_nat i) 64 [0; 2; 1; 3]%nat.
Proof.
  split; [|split; [done|]].
  - simpl. apply perm_skip, perm_swap.
  - intros l1 k l2 H.
    destruct l1 as [|a [|b [|c [|e l1]]]]; cbn in H; simplify_eq; [..|by destruct l1];
      (split; [by vm_compute|]); intros j Hj;
      repeat (apply elem_of_cons in Hj as [->|Hj]; [lia|]); by apply not_elem_of_nil in Hj.
Qed.

Lemma reseq_restores_order_witness :
  let pk i := seg_pkt (u32 (4294967290 + 4 * Z.of_nat i)) in
  (push_all (NewForwardReseq 64 5000000) [(pk 0%nat, 0); (pk 2%nat, 1); (pk 1%nat, 2)]).1 = [pk 0%nat; pk 1%nat; pk 2%nat].
Proof.
  intros pk.
  apply (reseq_restores_order 3 pk (fun i => 4 * Z.of_nat i) 4294967290 seg_key0 [0;2;1]%nat [0;1;2]
    (NewForwardReseq 64 5000000)).
  - intros i. lia.
  - apply seg_pkt_parse_3. reflexivity.
  - exact arrival_021.
  - reflexivity.
  - reflexivity.
Defined.

(** ** Conservation *)

(** Everything the resequencer holds. *)
Definition held (r : ForwardReseq) : list bytes :=
  concat (map (fun kf => contents (buf kf.2)) (map_to_list (flows r))).

Definition flow_contents (fo : option reseqFlow) : list bytes :=
  match fo with Some f => contents (buf f) | None => [] end.

Definition held_flows (fl : gmap bytes reseqFlow) : list bytes :=
  concat (map (fun kf => contents (buf kf.2)) (map_to_list fl)).

Lemma held_insert fl k f : Permutation (held_flows (<[k := f]> fl)) (contents (buf f) ++ held_flows (delete k fl)).
Proof.
  unfold held_flows. rewrite <- insert_delete_eq. rewrite map_to_list_insert by apply lookup_delete_eq. done.
Qed.

Lemma held_delete fl k : Permutation (held_flows fl) (flow_contents (fl !! k) ++ held_flows (delete k fl)).
Proof.
  destruct (fl !! k) as [f|] eqn:E; cbn.
  - rewrite <- held_insert. by rewrite insert_id.
  - by rewrite delete_id.
Qed.

(** The packets a gap skip leaves behind. *)
Definition swept (f : reseqFlow) : list bytes := contents (filter (fun kv => ~ 0 < dist f kv.1) (buf f)).

Lemma skipGap_conserves f out : exists l, (skipGap f out).1.1 = out ++ l /\
  Permutation (contents (buf f)) (l ++ contents (buf (skipGap f out).2) ++ swept f).
Proof.
  destruct (skipGap_frame f out) as (l & H1 & H2 & _). exists l. split; [done|].
  rewrite (contents_partition (fun kv => 0 < dist f kv.1) (buf f)).
  change (filter (fun kv => 0 < dist f kv.1) (buf f)) with (future f (buf f)). rewrite H2. by rewrite app_assoc.
Qed.

Lemma push_flow_conserves win f s ip out :
  let r := push_flow win f s ip out in
  exists l dropped, r.1 = out ++ l /\
    Permutation (ip :: contents (buf f)) (l ++ contents (buf r.2) ++ dropped) /\
    (dropped = [] \/ is_Some (buf f !! seg_seq s) \/ (win <= Z.of_nat (size (buf f)) /\ 0 < dist f (seg_seq s))).
Proof.
  unfold push_flow. destruct (dist f (seg_seq s) =? 0) eqn:E0.
  - destruct (drain_loop_frame (S (size (buf (set_next f (seg_nextAfter s) (buf f)))))
      (set_next f (seg_nextAfter s) (buf f)) (out ++ [ip])) as (l & H1 & H2 & _).
    fold (drain (set_next f (seg_nextAfter s) (buf f)) (out ++ [ip])) in *.
    destruct (drain _ _) as [out' f']. cbn in *. exists (ip :: l), [].
    split; [by rewrite H1, <- app_assoc|]. rewrite app_nil_r. split; [by rewrite H2|by left].
  - destruct (dist f (seg_seq s) <? 0) eqn:E1.
    + exists [ip], []. rewrite app_nil_r. split; [done|]. split; [done|by left].
    + bool_hyps. destruct (buf f !! seg_seq s) as [e|] eqn:Eb; cbn [buf set_next].
      * destruct (win <? _).
        -- destruct (skipGap_conserves (set_next f (nextSeq f) (buf f)) out) as (l & H1 & H2).
           destruct (skipGap _ _) as [[out' ok] f']. cbn in *.
           exists l, (swept (set_next f (nextSeq f) (buf f)) ++ [ip]). split; [done|]. split; [|right; left; by eexists].
           rewrite H2, !app_assoc. apply Permutation_cons_append.
        -- exists [], [ip]. rewrite app_nil_r. split; [done|]. split; [apply Permutation_cons_append|right; left; by eexists].
      * set (b := <[seg_seq s := {| data := ip; nextAfter := seg_nextAfter s |}]> (buf f)).
        assert (Hb : Permutation (contents b) (ip :: contents (buf f))) by (by apply contents_insert).
        destruct (win <? Z.of_nat (size b)) eqn:E2; bool_hyps.
        -- destruct (skipGap_conserves (set_next f (nextSeq f) b) out) as (l & H1 & H2).
           destruct (skipGap _ _) as [[out' ok] f']. cbn in *.
           exists l, (swept (set_next f (nextSeq f) b)). split; [done|]. split; [transitivity (contents b); [by symmetry|exact H2]|].
           right; right. unfold b in E2. rewrite map_size_insert_None in E2 by done. lia.
        -- exists [], []. rewrite app_nil_r. split; [done|]. split; [cbn; rewrite app_nil_r; symmetry; exact Hb|by left].
Qed.

(** Conservation: what [Push] emits and still holds is exactly the new
    packet and what it held before, as a multiset, apart from packets dropped;
    and it drops something only when the segment's number is already buffered,
    or when the segment is ahead of a full window (the gap skip). *)
Theorem Push_conserves r ip now out :
  let res := Push r ip now out in
  exists l dropped, res.1 = out ++ l /\
    Permutation (ip :: held r) (l ++ held res.2 ++ dropped) /\
    (dropped = [] \/
     exists s f, parseTCP ip = Some s /\ flows r !! seg_key s = Some f /\
       (is_Some (buf f !! seg_seq s) \/ window r <= Z.of_nat (size (buf f)))) .
Proof.
  unfold Push. destruct (parseTCP ip) as [s|] eqn:Ep; cbn zeta.
  2:{ exists [ip], []. rewrite app_nil_r. split; [done|]. split; [done|by left]. }
  set (f0 := touch_flow (flows r !! seg_key s) (seg_seq s) now).
  destruct (push_flow_conserves (window r) f0 s ip out) as (l & dropped & H1 & H2 & H3).
  destruct (push_flow (window r) f0 s ip out) as [out' f'] eqn:E. cbn [fst snd] in *.
  assert (Hc : flow_contents (flows r !! seg_key s) = contents (buf f0))
    by (unfold f0; by destruct (flows r !! seg_key s)).
  exists l, dropped. split; [done|]. split.
  - change (held r) with (held_flows (flows r)).
    change (held (set_flows r (<[seg_key s:=f']> (flows r)))) with (held_flows (<[seg_key s:=f']> (flows r))).
    rewrite (held_delete (flows r) (seg_key s)), held_insert, Hc.
    rewrite app_comm_cons, H2. rewrite <- !app_assoc. apply Permutation_app_head, Permutation_app_head.
    apply Permutation_app_comm.
  - destruct H3 as [->|H3]; [by left|]. right. exists s.
    destruct (flows r !! seg_key s) as [f|] eqn:Ef; cbn in *.
    + exists f. split; [done|]. split; [done|]. unfold f0 in H3. cbn in H3. destruct H3 as [?|[? _]]; auto.
    + exfalso. unfold f0, new_flow, dist in H3. cbn [buf nextSeq] in H3.
      rewrite lookup_empty, Z.sub_diag in H3. destruct H3 as [[? ?]|[_ H3]]; [done|].
      vm_compute in H3. done.
Qed.

(** ** The window *)

Inductive reseq_step : ForwardReseq -> ForwardReseq -> Prop :=
  | rs_push r ip now : reseq_step r (Push r ip now []).2
  | rs_flush r now iter : reseq_step r (FlushExpired iter r now []).2.

Definition window_inv (w : Z) (r : ForwardReseq) : Prop :=
  window r = w /\ 0 <= w /\ forall k f, flows r !! k = Some f -> Z.of_nat (size (buf f)) <= w.

Lemma push_flow_size win f s ip out : 0 <= win -> Z.of_nat (size (buf f)) <= win ->
  Z.of_nat (size (buf (push_flow win f s ip out).2)) <= win.
Proof.
  intros Hw Hs. unfold push_flow. destruct (dist f (seg_seq s) =? 0).
  - destruct (drain_loop_frame (S (size (buf (set_next f (seg_nextAfter s) (buf f)))))
      (set_next f (seg_nextAfter s) (buf f)) (out ++ [ip])) as (l & _ & _ & H3 & _).
    unfold drain. destruct (drain_loop _ _ _). cbn in *. lia.
  - destruct (dist f (seg_seq s) <? 0); [done|].
    set (b := match buf f !! seg_seq s with Some _ => _ | None => _ end).
    assert (Hb : (size b <= S (size (buf f)))%nat).
    { unfold b. destruct (buf f !! seg_seq s) eqn:E; [lia|]. by rewrite map_size_insert_None. }
    cbn [buf set_next]. destruct (win <? Z.of_nat (size b)) eqn:E; bool_hyps; [|done].
    destruct (skipGap_frame (set_next f (nextSeq f) b) out) as (l & _ & _ & H3 & H4 & _).
    destruct (skipGap _ _) as [[out' ok] f']. cbn in *. destruct ok.
    + destruct H3; [done|]. lia.
    + rewrite H4 by done. rewrite map_size_empty. lia.
Qed.

Lemma flush_one_flows now st k : exists l,
  flush_one now st k = (st.1 ++ l, (flush_one now st k).2) /\
  window (flush_one now st k).2 = window st.2 /\ maxAge (flush_one now st k).2 = maxAge st.2 /\
  flows (flush_one now st k).2 =
    match flows st.2 !! k with
    | Some f => if maxAge st.2 <=? now - lastSeen f then delete k (flows st.2) else flows st.2
    | None => flows st.2
    end.
Proof.
  destruct st as [out r]. unfold flush_one. cbn [fst snd].
  destruct (flows r !! k) as [f|] eqn:E.
  - destruct (now - lastSeen f <? maxAge r) eqn:Ea; bool_hyps.
    + exists []. rewrite app_nil_r. split_and!; try done.
      destruct (maxAge r <=? now - lastSeen f) eqn:E'; bool_hyps; [lia|done].
    + assert (Hfr : forall fu f out, exists l, (flush_loop fu f out).1 = out ++ l).
      { clear. induction fu as [|n IH]; intros f out; cbn [flush_loop]; [exists []; by rewrite app_nil_r|].
        destruct (_ =? _)%nat; [exists []; by rewrite app_nil_r|].
        destruct (skipGap_frame f out) as (l & H1 & _). destruct (skipGap f out) as [[o' ok] f']. cbn in H1. subst.
        destruct ok; [|by exists l]. destruct (IH f' (out ++ l)) as [l' ->]. exists (l ++ l'). by rewrite app_assoc. }
      destruct (Hfr (S (size (buf f))) f out) as [l Hl].
      destruct (flush_loop (S (size (buf f))) f out) as [out' f'] eqn:El. cbn in *. subst out'.
      exists l. split_and!; try done. destruct (maxAge r <=? now - lastSeen f) eqn:E'; bool_hyps; [done|lia].
  - exists []. rewrite app_nil_r. split_and!; done.
Qed.

(** The flows that survive a sweep. *)
Definition expired (now : Z) (r : ForwardReseq) (f : reseqFlow) : Prop := maxAge r <= now - lastSeen f.

Lemma FlushExpired_flows now iter r out :
  let res := FlushExpired iter r now out in
  window res.2 = window r /\ maxAge res.2 = maxAge r /\ (exists l, res.1 = out ++ l) /\
  forall k f, flows res.2 !! k = Some f <-> (flows r !! k = Some f /\ ~ (k ∈ iter /\ expired now r f)).
Proof.
  unfold FlushExpired. revert out r. induction iter as [|k0 iter IH]; intros out r; cbn [foldl].
  { split_and!; [done|done|exists []; by rewrite app_nil_r|]. intros k f. rewrite elem_of_nil. tauto. }
  destruct (flush_one_flows now (out, r) k0) as (l & -> & H2 & H3 & H4). cbn [fst snd] in *.
  destruct (flush_one now (out, r) k0) as [out1 r1] eqn:E1. cbn [fst snd] in *.
  destruct (IH (out ++ l) r1) as (G1 & G2 & (l' & G3) & G4). split_and!; [congruence|congruence| |].
  { exists (l ++ l'). by rewrite G3, app_assoc. }
  intros k f. rewrite G4, H4. unfold expired. rewrite H3, elem_of_cons.
  destruct (flows r !! k0) as [f0|] eqn:E0.
  - destruct (maxAge r <=? now - lastSeen f0) eqn:Ea; bool_hyps.
    + rewrite lookup_delete_Some. split.
      * intros [[Hne Hk] Hn]. split; [done|]. intros [[->|Hi] Hx]; [done|]. by apply Hn.
      * intros [Hk Hn]. assert (k0 <> k).
        { intros ->. apply Hn. split; [by left|]. rewrite Hk in E0. by injection E0 as ->. }
        split; [done|]. intros [Hi Hx]. apply Hn. auto.
    + split; intros [Hk Hn]; (split; [done|]); intros [Hi Hx]; apply Hn; [|by auto].
      destruct Hi as [->|Hi]; [|done]. exfalso. rewrite Hk in E0. injection E0 as ->. lia.
  - split; intros [Hk Hn]; (split; [done|]); intros [Hi Hx]; apply Hn; [|by auto].
    destruct Hi as [->|Hi]; [|done]. by rewrite Hk in E0.
Qed.

(** Bounded memory: from a fresh resequencer, after any sequence of pushes
    and flushes, no flow buffers more segments than the window. *)
Theorem reseq_window_bound w age r :
  reach reseq_step (NewForwardReseq w age) r -> window_inv (window (NewForwardReseq w age)) r.
Proof.
  apply reach_invariant.
  - split; [done|]. split; [unfold NewForwardReseq; cbn; destruct (w <=? 0) eqn:E; bool_hyps; lia|].
    intros k f H. cbn in H. by rewrite lookup_empty in H.
  - generalize (window (NewForwardReseq w age)). clear r. intros w' r0 r1 (Hw & H0 & Hs) Hstep; destruct Hstep as [r2 ip now|r2 now iter].
    + unfold Push. destruct (parseTCP ip) as [s|] eqn:Ep; [|done].
      set (f0 := touch_flow _ _ _).
      assert (Hf0 : Z.of_nat (size (buf f0)) <= window r2).
      { rewrite Hw. unfold f0. destruct (flows r2 !! seg_key s) as [f|] eqn:E; cbn.
        - by apply (Hs (seg_key s)).
        - rewrite map_size_empty. lia. }
      pose proof (push_flow_size (window r2) f0 s ip [] ltac:(lia) Hf0) as Hsz.
      destruct (push_flow (window r2) f0 s ip []) as [out' f'] eqn:E. cbn in *.
      split; [done|]. split; [done|]. intros k f Hk. cbn in Hk. apply lookup_insert_Some in Hk as [[<- <-]|[_ Hk]]; [lia|by apply (Hs k)].
    + destruct (FlushExpired_flows now iter r2 []) as (G1 & _ & _ & G4).
      split; [by rewrite G1|]. split; [done|]. intros k f Hk. apply G4 in Hk as [Hk _]. by apply (Hs k).
Qed.

Lemma reseq_window_bound_witness :
  let r := (Push (NewForwardReseq 1 1) (seg_pkt 7) 0 []).2 in window_inv 1 r.
Proof.
  intros r. apply (reseq_window_bound 1 1). eapply reach_step; [constructor|]. apply rs_push.
Defined.

(** ** Flushing *)

Lemma skipGap_emits_nearest f out s e : nearest f (buf f) (Some s) -> buf f !! s = Some e -> u32_keys (buf f) ->
  (skipGap f out).1.2 = true /\ exists l, (skipGap f out).1.1 = out ++ l /\ data e ∈ l.
Proof.
  intros Hn He Hk. destruct (skipGap_cases f out) as [[Hf _]|(o & e' & He' & Ho & ->)].
  - destruct Hn as (_ & Hp & _). exfalso. assert (H : future f (buf f) !! s = Some e) by (by apply map_lookup_filter_Some).
    by rewrite Hf, lookup_empty in H.
  - assert (E : Some o = Some s) by (by eapply nearest_unique). injection E as ->.
    apply map_lookup_filter_Some in He' as [He' _]. rewrite He in He'. injection He' as <-.
    unfold drain.
    match goal with |- context [drain_loop ?fu ?f0 ?o] => destruct (drain_loop_frame fu f0 o) as (l & H1 & _) end.
    destruct (drain_loop _ _ _) as [out' f'] eqn:Ed. cbn in *.
    split; [done|]. exists (data e :: l). split; [|by left]. rewrite <- app_assoc in H1. exact H1.
Qed.

Lemma flush_loop_conserves fuel f out : exists l dropped, (flush_loop fuel f out).1 = out ++ l /\
  Permutation (contents (buf f)) (l ++ contents (buf (flush_loop fuel f out).2) ++ dropped).
Proof.
  revert f out. induction fuel as [|n IH]; intros f out; cbn [flush_loop].
  { exists [], []. cbn. rewrite !app_nil_r; done. }
  destruct (size (buf f) =? 0)%nat; [exists [], []; by rewrite !app_nil_r|].
  destruct (skipGap_conserves f out) as (l & H1 & H2). destruct (skipGap f out) as [[o ok] f'].
  cbn in H1, H2. subst o. destruct ok.
  - destruct (IH f' (out ++ l)) as (l' & d & G1 & G2). exists (l ++ l'), (d ++ swept f).
    split; [by rewrite G1, app_assoc|]. rewrite H2, G2. by rewrite <- !app_assoc.
  - exists l, (swept f). done.
Qed.

Lemma flush_loop_nearest fuel f out s e : nearest f (buf f) (Some s) -> buf f !! s = Some e -> u32_keys (buf f) ->
  exists l, (flush_loop (S fuel) f out).1 = out ++ l /\ data e ∈ l.
Proof.
  intros Hn He Hk. cbn [flush_loop].
  destruct (size (buf f) =? 0)%nat eqn:Es; bool_hyps.
  { apply map_size_empty_inv in Es. rewrite Es in He. by rewrite lookup_empty in He. }
  destruct (skipGap_emits_nearest f out s e Hn He Hk) as (Hok & l & Hl & Hin).
  destruct (skipGap f out) as [[o ok] f']. cbn in Hok, Hl. subst.
  destruct (flush_loop_conserves fuel f' (out ++ l)) as (l' & d & -> & _).
  exists (l ++ l'). split; [by rewrite app_assoc|]. apply elem_of_app. by left.
Qed.

Definition keys_ok (r : ForwardReseq) : Prop := forall k f, flows r !! k = Some f -> u32_keys (buf f).

Lemma flush_one_conserves now st k : exists l dropped, (flush_one now st k).1 = st.1 ++ l /\
  Permutation (held st.2) (l ++ held (flush_one now st k).2 ++ dropped).
Proof.
  destruct st as [out r]. unfold flush_one. cbn [fst snd].
  assert (Hz : exists l dropped : list bytes, out = out ++ l /\ Permutation (held r) (l ++ held r ++ dropped))
    by (exists [], []; by rewrite !app_nil_r).
  destruct (flows r !! k) as [f|] eqn:E; [|done].
  destruct (now - lastSeen f <? maxAge r); [done|]. clear Hz.
  destruct (flush_loop_conserves (S (size (buf f))) f out) as (l & d & H1 & H2).
  pose proof (flush_loop_done (S (size (buf f))) f out ltac:(lia)) as Hd.
  destruct (flush_loop (S (size (buf f))) f out) as [o f']. cbn [fst snd] in *. subst o.
  exists l, d. split; [done|]. rewrite Hd in H2. change (contents ∅) with (@nil bytes) in H2. cbn [app] in H2.
  change (held r) with (held_flows (flows r)). change (held (set_flows _ _)) with (held_flows (delete k (flows r))).
  rewrite (held_delete (flows r) k), E. cbn [flow_contents]. rewrite H2. cbn.
  rewrite <- !app_assoc. apply Permutation_app_head, Permutation_app_comm.
Qed.

(** A missing segment never stalls the rest: [FlushExpired], in whatever
    order the map is visited, removes exactly the flows idle for [maxAge], emits
    or abandons what they held without inventing or duplicating a packet, keeps
    every other flow untouched, and for each expired flow with a segment ahead
    of the gap emits at least the nearest one. *)
Theorem FlushExpired_spec now iter r out :
  (forall k, k ∈ iter <-> is_Some (flows r !! k)) -> keys_ok r ->
  let res := FlushExpired iter r now out in
  (forall k f, flows res.2 !! k = Some f <-> (flows r !! k = Some f /\ now - lastSeen f < maxAge r)) /\
  exists l dropped, res.1 = out ++ l /\ Permutation (held r) (l ++ held res.2 ++ dropped) /\
    forall k f s e, flows r !! k = Some f -> maxAge r <= now - lastSeen f ->
      nearest f (buf f) (Some s) -> buf f !! s = Some e -> data e ∈ l.
Proof.
  intros Hit Hkeys res. split.
  { intros k f. unfold res. destruct (FlushExpired_flows now iter r out) as (_ & _ & _ & ->). unfold expired.
    split; intros [Hk Hn]; (split; [done|]).
    - destruct (decide (now - lastSeen f < maxAge r)); [done|]. exfalso. apply Hn. split; [apply Hit; by eexists|lia].
    - intros [_ ?]. lia. }
  assert (Hin : forall k f, flows r !! k = Some f -> k ∈ iter) by (intros; apply Hit; by eexists).
  clear Hit. unfold res, FlushExpired. clear res.
  enough (H : exists l dropped, (foldl (flush_one now) (out, r) iter).1 = out ++ l /\
    Permutation (held r) (l ++ held (foldl (flush_one now) (out, r) iter).2 ++ dropped) /\
    forall k f s e, k ∈ iter -> flows r !! k = Some f -> maxAge r <= now - lastSeen f ->
      nearest f (buf f) (Some s) -> buf f !! s = Some e -> data e ∈ l).
  { destruct H as (l & d & H1 & H2 & H3). exists l, d. split; [done|]. split; [done|]. intros; eauto. }
  clear Hin. revert r out Hkeys. induction iter as [|k0 iter IH]; intros r out Hkeys; cbn [foldl].
  { exists [], []. rewrite !app_nil_r. split; [done|]. split; [done|]. by intros ? ? ? ? ?%not_elem_of_nil. }
  destruct (flush_one_conserves now (out, r) k0) as (l0 & d0 & H1 & H2).
  destruct (flush_one_flows now (out, r) k0) as (_ & _ & _ & Hage & Hfl).
  assert (Hnear : forall f s e, flows r !! k0 = Some f -> maxAge r <= now - lastSeen f ->
      nearest f (buf f) (Some s) -> buf f !! s = Some e -> data e ∈ l0).
  { intros f s e Hf Ha Hn He. unfold flush_one in H1. rewrite Hf in H1.
    destruct (now - lastSeen f <? maxAge r) eqn:Ea; bool_hyps; [lia|].
    destruct (flush_loop_nearest (size (buf f)) f out s e Hn He (Hkeys _ _ Hf)) as (l & Hl & Hi).
    destruct (flush_loop _ f out) as [o f']. cbn in H1, Hl. rewrite Hl in H1. apply app_inv_head in H1. by subst l. }
  destruct (flush_one now (out, r) k0) as [out1 r1]. cbn [fst snd] in *. subst out1.
  assert (Hsub : forall k f, flows r1 !! k = Some f -> flows r !! k = Some f).
  { intros k f. rewrite Hfl. destruct (flows r !! k0) as [f0|]; [|done]. destruct (_ <=? _); [|done].
    by intros [_ ?]%lookup_delete_Some. }
  destruct (IH r1 (out ++ l0)) as (l & d & G1 & G2 & G3); [intros k f Hk; by apply (Hkeys k), Hsub|].
  exists (l0 ++ l), (d ++ d0). split; [by rewrite G1, app_assoc|]. split.
  { rewrite H2, G2. by rewrite <- !app_assoc. }
  intros k f s e [->|Hk]%elem_of_cons Hf Ha Hn He; [apply elem_of_app; left; by eapply Hnear|].
  destruct (decide (k = k0)) as [->|Hne]; [apply elem_of_app; left; by eapply Hnear|].
  apply elem_of_app. right. apply (G3 k f s e Hk); [|by rewrite Hage|done|done].
  rewrite Hfl. destruct (flows r !! k0); [|done]. destruct (_ <=? _); [|done]. by rewrite lookup_delete_ne.
Qed.

Lemma FlushExpired_spec_witness :
  let r := (push_all (NewForwardReseq 64 5) [(seg_pkt 10, 0); (seg_pkt 30, 1)]).2 in
  (FlushExpired [seg_key0] r 100 []).1 = [seg_pkt 30] /\ flows (FlushExpired [seg_key0] r 100 []).2 !! seg_key0 = None.
Proof.
  intros r. assert (Hfl : flows r = {[seg_key0 := {| primed := true; nextSeq := 14;
      buf := {[30 := {| data := seg_pkt 30; nextAfter := 34 |}]}; lastSeen := 1 |}]}) by (vm_compute; reflexivity).
  destruct (FlushExpired_spec 100 [seg_key0] r []) as (H1 & _).
  - intros k. rewrite Hfl, list_elem_of_singleton. split.
    + intros ->. rewrite lookup_singleton_eq. by eexists.
    + intros [f Hf]. by apply lookup_singleton_Some in Hf as [? _].
  - intros k f Hk. rewrite Hfl in Hk. apply lookup_singleton_Some in Hk as [_ <-]. intros s [e He].
    cbn in He. apply lookup_singleton_Some in He as [<- _]. lia.
  - split; [vm_compute; reflexivity|].
    destruct (flows (FlushExpired [seg_key0] r 100 []).2 !! seg_key0) as [f|] eqn:E; [|reflexivity].
    apply H1 in E as [E Hl]. rewrite Hfl in E. apply lookup_singleton_Some in E as [_ <-].
    exfalso. vm_compute in Hl. discriminate Hl.
Defined.

(** ** Observers *)

(** A stream observed in order has no inversion. *)
Lemma observe_in_order n pk off s0 key :
  (forall i, off i < off (S i) < off i + 2147483648) ->
  (forall i, (i < n)%nat -> parseTCP (pk i) =
    Some {| seg_seq := u32 (s0 + off i); seg_nextAfter := u32 (s0 + off (S i)); seg_key := key |}) ->
  let o := foldl UploadOrder_Observe NewOrderObserver (map pk (seq 0 n)) in
  OOO o = 0 /\ Total o = Z.of_nat n /\
  maxSeq o !! key = match n with O => None | S k => Some (u32 (s0 + off k)) end.
Proof.
  intros Hoff. induction n as [|n IH]; intros Hpk; [done|].
  rewrite seq_S, map_app, foldl_app. cbn [foldl map].
  destruct IH as (H1 & H2 & H3); [intros; apply Hpk; lia|].
  set (o := foldl UploadOrder_Observe NewOrderObserver (map pk (seq 0 n))) in *.
  unfold UploadOrder_Observe. rewrite Nat.add_0_l, (Hpk n) by lia. cbn [seg_key seg_seq]. rewrite H3.
  destruct n as [|k]; cbn [OOO Total maxSeq].
  - split; [done|]. split; [lia|]. apply lookup_insert_eq.
  - pose proof (Hoff k). rewrite serial_dist by lia. destruct (off (S k) - off k <? 0) eqn:E; bool_hyps; [lia|].
    cbn [OOO Total maxSeq]. split; [done|]. split; [rewrite H2; lia|]. apply lookup_insert_eq.
Qed.

(** The metric after the resequencer: for the streams [reseq_restores_order]
    describes, with segments shorter than 2^31 bytes, [UploadOrderObserver] fed
    with the resequencer's output counts every segment once and reports no
    out-of-order segment, whatever order they arrived in. *)
Theorem reseq_then_observe n pk off s0 key l times r :
  (forall i, off i < off (S i) < off i + 2147483648) ->
  (forall i, (i < n)%nat -> parseTCP (pk i) =
    Some {| seg_seq := u32 (s0 + off i); seg_nextAfter := u32 (s0 + off (S i)); seg_key := key |}) ->
  arrival_ok n off (window r) l -> flows r !! key = None -> length times = length l ->
  let o := foldl UploadOrder_Observe NewOrderObserver (push_all r (zip (map pk l) times)).1 in
  OOO o = 0 /\ Total o = Z.of_nat n.
Proof.
  intros Hoff Hpk Har Hfl Ht o. unfold o.
  rewrite (stream_complete n pk off s0 key (window r) l times r) by (done || intros i; apply Hoff).
  destruct (observe_in_order n pk off s0 key Hoff Hpk) as (H1 & H2 & _). done.
Qed.

Lemma reseq_then_observe_witness :
  let pk i := seg_pkt (u32 (4294967290 + 4 * Z.of_nat i)) in
  let o := foldl UploadOrder_Observe NewOrderObserver
    (push_all (NewForwardReseq 64 5000000) [(pk 0%nat, 0); (pk 2%nat, 1); (pk 1%nat, 2)]).1 in
  OOO o = 0 /\ Total o = 3.
Proof.
  intros pk o.
  apply (reseq_then_observe 3 pk (fun i => 4 * Z.of_nat i) 4294967290 seg_key0 [0;2;1]%nat [0;1;2]
    (NewForwardReseq 64 5000000)).
  - intros i. lia.
  - apply seg_pkt_parse_3. reflexivity.
  - exact arrival_021.
  - reflexivity.
  - reflexivity.
Defined.

(** *** The seen-set

    Specification: the distinct numbers recorded last, newest first, at most
    [preSendRingSize] of them. *)
Definition recent_add (recent : list Z) (s : Z) : list Z := take preSendRingSize (s :: recent).

Definition ring_slot (f : preSendFlow) (i : nat) : nat :=
  ((rhead f + (preSendRingSize - 1) - i) mod preSendRingSize)%nat.

Record ring_refines (f : preSendFlow) (recent : list Z) : Prop := {
  rr_len : length (ring f) = preSendRingSize;
  rr_head : (rhead f < preSendRingSize)%nat;
  rr_count : rcount f = length recent;
  rr_bound : (length recent <= preSendRingSize)%nat;
  rr_set : inRing f = list_to_set recent;
  rr_nodup : NoDup recent;
  rr_slots : forall i, (i < length recent)%nat -> nth (ring_slot f i) (ring f) 0 = nth i recent 0
}.

Lemma ring_refines_new : ring_refines new_preSendFlow [].
Proof. split; cbn [ring rhead rcount inRing new_preSendFlow length]; try done; [unfold preSendRingSize; lia|lia|apply NoDup_nil_2|intros; lia]. Qed.

(** Slot arithmetic. *)
Lemma ring_slot_0 N h : (0 < N)%nat -> (h < N)%nat -> ((S h mod N + (N - 1) - 0) mod N)%nat = h.
Proof.
  intros HN Hh. destruct (decide (S h = N)) as [E|].
  - rewrite E, Nat.Div0.mod_same by lia. rewrite Nat.mod_small; lia.
  - rewrite (Nat.mod_small (S h)) by lia. replace (S h + (N - 1) - 0)%nat with (h + 1 * N)%nat by lia.
    rewrite Nat.Div0.mod_add. apply Nat.mod_small. lia.
Qed.
Lemma ring_slot_S N h i : (h < N)%nat -> (S i < N)%nat ->
  ((S h mod N + (N - 1) - S i) mod N = (h + (N - 1) - i) mod N)%nat.
Proof.
  intros Hh Hi. destruct (decide (S h = N)) as [E|].
  - rewrite E, Nat.Div0.mod_same. replace (h + (N - 1) - i)%nat with ((0 + (N - 1) - S i) + 1 * N)%nat by lia.
    by rewrite Nat.Div0.mod_add.
  - rewrite (Nat.mod_small (S h)) by lia. replace (S h + (N - 1) - S i)%nat with (h + (N - 1) - i)%nat by lia. done.
Qed.
Lemma ring_slot_ne N h i : (h < N)%nat -> (S i < N)%nat -> ((h + (N - 1) - i) mod N)%nat <> h.
Proof.
  intros Hh Hi E. destruct (decide (i < h)%nat).
  - replace (h + (N - 1) - i)%nat with ((h - 1 - i) + 1 * N)%nat in E by lia.
    rewrite Nat.Div0.mod_add, Nat.mod_small in E; lia.
  - rewrite Nat.mod_small in E; lia.
Qed.
Lemma ring_slot_last N h : (0 < N)%nat -> (h < N)%nat -> ((h + (N - 1) - (N - 1)) mod N)%nat = h.
Proof. intros. rewrite Nat.mod_small; lia. Qed.

Lemma nth_insert_eq (l : list Z) i x d : (i < length l)%nat -> nth i (<[i:=x]> l) d = x.
Proof. intros. apply nth_lookup_Some. by apply list_lookup_insert_eq. Qed.
Lemma nth_insert_ne (l : list Z) i j x d : i <> j -> nth j (<[i:=x]> l) d = nth j l d.
Proof. intros. rewrite !nth_lookup. by rewrite list_lookup_insert_ne. Qed.

Lemma ring_set_shift s o (init : list Z) : o ∉ init ->
  {[s]} ∪ (list_to_set (init ++ [o]) ∖ {[o]}) = (list_to_set (s :: init) : gset Z).
Proof.
  intros Ho. rewrite list_to_set_app_L. cbn. f_equal.
  apply set_eq. intros x. rewrite elem_of_difference, elem_of_union, union_empty_r_L, elem_of_singleton, elem_of_list_to_set.
  split; [tauto|]. intros Hx. split; [by left|]. by intros ->.
Qed.

(** Recording a new number: the slot of the oldest one is reused when the ring
    is full. *)
Lemma ring_record f recent s mx : ring_refines f recent -> s ∉ recent ->
  let full := (rcount f =? preSendRingSize)%nat in
  let inr := if full then inRing f ∖ {[nth (rhead f) (ring f) 0]} else inRing f in
  let cnt := if full then rcount f else S (rcount f) in
  ring_refines {| psMaxSeq := mx; ring := <[rhead f := s]> (ring f);
      inRing := {[s]} ∪ inr; rhead := (S (rhead f) mod preSendRingSize)%nat; rcount := cnt |} (recent_add recent s).
Proof.
  intros [H1 H2 H3 H4 H5 H6 H7] Hin full inr cnt.
  unfold recent_add.
  assert (HN : (0 < preSendRingSize)%nat) by (unfold preSendRingSize; lia).
  assert (Hslots : forall i, (i < length (take preSendRingSize (s :: recent)))%nat ->
    nth ((S (rhead f) mod preSendRingSize + (preSendRingSize - 1) - i) mod preSendRingSize)%nat
      (<[rhead f:=s]> (ring f)) 0 = nth i (take preSendRingSize (s :: recent)) 0).
  { intros i Hi. rewrite length_take in Hi. cbn [length] in Hi.
    rewrite (nth_lookup (take _ _)), lookup_take_lt, <- nth_lookup by lia.
    destruct i as [|i].
    - rewrite ring_slot_0 by done. by rewrite nth_insert_eq by lia.
    - rewrite ring_slot_S by lia. rewrite nth_insert_ne by (symmetry; apply ring_slot_ne; lia). apply H7. lia. }
  destruct (length recent =? preSendRingSize)%nat eqn:E; bool_hyps.
  - assert (Hlast : exists init o, recent = init ++ [o] /\ o = nth (rhead f) (ring f) 0).
    { destruct (@exists_last _ recent) as (init & o & Hr); [intros ->; cbn in E; lia|].
      exists init, o. split; [done|]. specialize (H7 (preSendRingSize - 1)%nat ltac:(lia)).
      unfold ring_slot in H7. rewrite ring_slot_last in H7 by done. rewrite H7.
      rewrite Hr, length_app in E. cbn in E. rewrite Hr, app_nth2 by lia.
      by replace (preSendRingSize - 1 - length init)%nat with 0%nat by lia. }
    destruct Hlast as (init & o & Hr & Ho).
    assert (Htk : take preSendRingSize (s :: recent) = s :: init).
    { rewrite Hr, app_comm_cons. apply take_app_length'. rewrite Hr, length_app in E. cbn in *. lia. }
    rewrite Hr in H6. apply NoDup_app in H6 as (N1 & N2 & _).
    split; cbn [ring rhead rcount inRing].
    + by rewrite length_insert.
    + apply Nat.mod_upper_bound. lia.
    + rewrite Htk. unfold cnt, full. rewrite H3, E, Nat.eqb_refl, <- E. rewrite Hr, length_app. cbn. lia.
    + rewrite length_take. lia.
    + rewrite Htk. unfold inr, full. rewrite H3, E, Nat.eqb_refl. rewrite H5, Hr, <- Ho.
      apply ring_set_shift. intros Hi. apply (N2 o Hi). by left.
    + rewrite Htk. apply NoDup_cons. split; [|done]. intros Hi. apply Hin. rewrite Hr. apply elem_of_app. by left.
    + exact Hslots.
  - assert (Htk : take preSendRingSize (s :: recent) = s :: recent) by (apply take_ge; cbn; lia).
    assert (Ef : full = false) by (unfold full; apply Nat.eqb_neq; lia).
    split; cbn [ring rhead rcount inRing].
    + by rewrite length_insert.
    + apply Nat.mod_upper_bound. lia.
    + rewrite Htk. unfold cnt. rewrite Ef, H3. done.
    + rewrite length_take. lia.
    + rewrite Htk. unfold inr. rewrite Ef, H5. done.
    + rewrite Htk. by apply NoDup_cons.
    + exact Hslots.
Qed.

(** The seen-set observer refines its specification: in a state that
    represents the last at most 1024 distinct sequence numbers, a segment is
    classed a retransmit exactly when its number is among them (the state is
    then unchanged), and otherwise its number is recorded, pushing out the
    oldest one when the ring is full; so memory stays bounded and the class of
    every segment is determined by the recorded numbers and the running
    maximum. *)
Theorem preSend_refines f recent s :
  ring_refines f recent ->
  let '(f', c) := preSend_flow f s in
  (c = PsRetransmit <-> s ∈ recent) /\
  (s ∈ recent -> f' = f) /\
  (s ∉ recent -> ring_refines f' (recent_add recent s) /\
     (c = PsGenuine <-> recent <> [] /\ i32 (u32 (s - psMaxSeq f)) < 0) /\
     psMaxSeq f' = match c with PsInOrder => s | _ => psMaxSeq f end).
Proof.
  intros Hrr. pose proof Hrr as [H1 H2 H3 H4 H5 H6 H7]. unfold preSend_flow.
  destruct (decide (s ∈ inRing f)) as [Hin|Hin]; rewrite H5, elem_of_list_to_set in Hin; [done|].
  set (full := (rcount f =? preSendRingSize)%nat).
  set (inr := if full then inRing f ∖ _ else inRing f). set (cnt := if full then rcount f else _).
  pose proof (fun mx => ring_record f recent s mx Hrr Hin) as HR. cbv zeta in HR. fold full in HR. fold inr cnt in HR.
  assert (Hc : (cnt =? 1)%nat = true <-> recent = []).
  { rewrite Nat.eqb_eq. unfold cnt, full. rewrite H3. destruct (length recent =? preSendRingSize)%nat eqn:E; bool_hyps.
    - unfold preSendRingSize in E. split; [lia|]. intros ->. cbn in E. lia.
    - split; [intros; apply length_zero_iff_nil; lia|by intros ->]. }
  destruct ((cnt =? 1)%nat || (0 <=? i32 (u32 (s - psMaxSeq f)))) eqn:Ec.
  - split; [by split|]. split; [done|]. intros _. split; [apply HR|]. split; [|done].
    split; [done|]. intros [Hne Hlt]. apply orb_true_iff in Ec as [Ec|Ec]; [by apply Hc in Ec|bool_hyps; lia].
  - split; [by split|]. split; [done|]. intros _. split; [apply HR|]. split; [|done].
    apply orb_false_iff in Ec as [Ec1 Ec2]. bool_hyps. split; [|done]. intros _. split; [|done].
    intros ->. destruct Hc as [_ Hc]. specialize (Hc eq_refl). apply Nat.eqb_eq in Hc. lia.
Qed.

Lemma preSend_refines_witness :
  let '(f, c) := preSend_flow new_preSendFlow 5 in ring_refines f (recent_add [] 5) /\ c = PsInOrder.
Proof.
  pose proof (preSend_refines new_preSendFlow [] 5 ring_refines_new) as H.
  destruct (preSend_flow new_preSendFlow 5) as [f c] eqn:E. destruct H as (_ & _ & H).
  destruct H as (H & _ & _); [intros H; inversion H|]. split; [exact H|]. vm_compute in E. congruence.
Defined.
