(* ===== verification/ReseqRuns.v ===== *)
(** * The resequencer under pushes and sweeps (utility/reseq.go)

    A run of the resequencer as its callers drive it: packets of any flows and
    sweeps of the idle ones, at any times.  One TCP stream among the rest leaves
    in sequence as long as no sweep finds it idle with a segment missing. *)
From S2P Require Import Prelude Words TcpParse Reseq ReseqProps.
Local Open Scope Z_scope.

Inductive rop := RPush (ip : bytes) (now : Z) | RExpire (now : Z) (iter : list bytes).

Definition rop_step (r : ForwardReseq) (o : rop) : list bytes * ForwardReseq :=
  match o with RPush ip now => Push r ip now [] | RExpire now iter => FlushExpired iter r now [] end.
Fixpoint rop_run (r : ForwardReseq) (ops : list rop) : list bytes * ForwardReseq :=
  match ops with
  | [] => ([], r)
  | o :: ops => let '(l1, r1) := rop_step r o in let '(l2, r2) := rop_run r1 ops in (l1 ++ l2, r2)
  end.

Lemma rop_run_cons r o ops : rop_run r (o :: ops) = ((rop_step r o).1 ++ (rop_run (rop_step r o).2 ops).1, (rop_run (rop_step r o).2 ops).2).
Proof. cbn [rop_run]. destruct (rop_step r o) as [l1 r1]. cbn [fst snd]. by destruct (rop_run r1 ops). Qed.
Lemma rop_run_app r l1 l2 : rop_run r (l1 ++ l2) = ((rop_run r l1).1 ++ (rop_run (rop_run r l1).2 l2).1, (rop_run (rop_run r l1).2 l2).2).
Proof.
  revert r. induction l1 as [|o l1 IH]; intros r; cbn [app]; [cbn [rop_run fst snd app]; by destruct (rop_run r l2)|].
  rewrite !rop_run_cons, IH. cbn [fst snd]. by rewrite app_assoc.
Qed.
Lemma rop_run_snoc r l o : rop_run r (l ++ [o]) = ((rop_run r l).1 ++ (rop_step (rop_run r l).2 o).1, (rop_step (rop_run r l).2 o).2).
Proof. rewrite rop_run_app, rop_run_cons. cbn [rop_run fst snd]. by rewrite app_nil_r. Qed.

(** ** What is emitted does not depend on what was emitted before *)

Lemma drain_loop_app fuel : forall f out, drain_loop fuel f out = (out ++ (drain_loop fuel f []).1, (drain_loop fuel f []).2).
Proof.
  induction fuel as [|n IH]; intros f out; cbn [drain_loop]; [by rewrite app_nil_r|].
  destruct (buf f !! nextSeq f) as [e|]; [|by rewrite app_nil_r]. rewrite IH, (IH _ ([] ++ _)). cbn [fst snd]. by rewrite <- app_assoc.
Qed.
Lemma drain_app f out : drain f out = (out ++ (drain f []).1, (drain f []).2).
Proof. apply drain_loop_app. Qed.
Lemma skipGap_app f out : skipGap f out = (out ++ (skipGap f []).1.1, (skipGap f []).1.2, (skipGap f []).2).
Proof.
  unfold skipGap, skipGap_over. destruct (skip_scan f _) as [b [o|]]; [|cbn; by rewrite app_nil_r].
  destruct (b !! o) as [e|]; [|cbn; by rewrite app_nil_r]. rewrite (drain_app _ (out ++ _)), (drain_app _ ([] ++ _)). cbn.
  by rewrite <- app_assoc.
Qed.
Lemma push_flow_app win f s ip out : push_flow win f s ip out = (out ++ (push_flow win f s ip []).1, (push_flow win f s ip []).2).
Proof.
  unfold push_flow. destruct (_ =? 0).
  - rewrite drain_app, (drain_app _ ([] ++ _)). cbn. by rewrite <- app_assoc.
  - destruct (_ <? 0); [done|]. destruct (win <? _); [|cbn; by rewrite app_nil_r].
    rewrite skipGap_app. by destruct (skipGap _ []) as [[l b] f'].
Qed.

Lemma push_flow_seen win f s ip out : lastSeen (push_flow win f s ip out).2 = lastSeen f.
Proof.
  unfold push_flow. destruct (_ =? 0).
  - by destruct (drain_loop_frame (S (size (buf (set_next f (seg_nextAfter s) (buf f))))) (set_next f (seg_nextAfter s) (buf f)) (out ++ [ip])) as (_ & _ & _ & _ & Hs & _).
  - destruct (_ <? 0); [done|]. destruct (win <? _); [|done].
    match goal with |- context [skipGap ?g out] => destruct (skipGap_frame g out) as (_ & _ & _ & _ & _ & Hs & _) end.
    by destruct (skipGap _ out) as [[l b] f'].
Qed.

(** ** Flows do not mix *)

Definition on_flow (key : bytes) (ip : bytes) : Prop := seg_key <$> parseTCP ip = Some key.
Global Instance on_flow_dec key ip : Decision (on_flow key ip).
Proof. unfold on_flow. apply _. Defined.

Lemma other_flow k key l : k <> key -> Forall (on_flow k) l -> filter (on_flow key) l = [].
Proof.
  intros Hne H. induction H as [|x l Hx _ IH]; [done|]. rewrite filter_cons_False; [done|]. unfold on_flow in *. congruence.
Qed.
Lemma all_on_flow key l : Forall (on_flow key) l -> filter (on_flow key) l = l.
Proof. induction 1 as [|x l Hx _ IH]; [done|]. by rewrite filter_cons_True, IH. Qed.

(** Each flow holds packets of its own. *)
Definition keyed (r : ForwardReseq) : Prop := forall k f, flows r !! k = Some f -> Forall (on_flow k) (contents (buf f)).

Lemma Push_on_flow r ip s now : parseTCP ip = Some s -> keyed r ->
  let res := push_flow (window r) (touch_flow (flows r !! seg_key s) (seg_seq s) now) s ip [] in
  Push r ip now [] = (res.1, set_flows r (<[seg_key s := res.2]> (flows r))) /\
  Forall (on_flow (seg_key s)) res.1 /\ keyed (Push r ip now []).2 /\ lastSeen res.2 = now.
Proof.
  intros Hp Hk. cbv zeta. set (f0 := touch_flow _ _ _). assert (Hf0 : Forall (on_flow (seg_key s)) (contents (buf f0)) /\ lastSeen f0 = now).
  { subst f0. destruct (flows r !! seg_key s) as [f|] eqn:E; cbn; [by split; [apply Hk|]|]. split; [constructor|done]. }
  destruct Hf0 as [Hf0 Hl]. pose proof (push_flow_seen (window r) f0 s ip []) as Hs.
  destruct (push_flow_conserves (window r) f0 s ip []) as (l & d & E1 & E2 & _).
  assert (Hip : on_flow (seg_key s) ip) by (unfold on_flow; by rewrite Hp).
  assert (Hall : Forall (on_flow (seg_key s)) (l ++ contents (buf (push_flow (window r) f0 s ip []).2) ++ d)) by (rewrite <- E2; by constructor).
  apply Forall_app in Hall as [Ha Hb]. apply Forall_app in Hb as [Hb _].
  assert (EP : Push r ip now [] = ((push_flow (window r) f0 s ip []).1, set_flows r (<[seg_key s := (push_flow (window r) f0 s ip []).2]> (flows r)))).
  { unfold Push. rewrite Hp. change (touch_flow _ _ _) with f0. by destruct (push_flow (window r) f0 s ip []). }
  split; [done|]. split; [by rewrite E1|]. split; [|congruence]. rewrite EP. intros k f Hf. cbn [snd flows set_flows] in Hf.
  apply lookup_insert_Some in Hf as [[<- <-]|[_ Hf]]; [done|by apply Hk].
Qed.

(** A push leaves the other flows alone. *)
Lemma Push_other r ip now key : ~ on_flow key ip -> keyed r ->
  filter (on_flow key) (Push r ip now []).1 = [] /\ flows (Push r ip now []).2 !! key = flows r !! key /\ keyed (Push r ip now []).2.
Proof.
  intros Hn Hk. destruct (parseTCP ip) as [s|] eqn:Ep.
  - assert (Hne : seg_key s <> key) by (intros E; apply Hn; unfold on_flow; rewrite Ep; cbn; by f_equal).
    destruct (Push_on_flow r ip s now Ep Hk) as (E & Hall & Hk' & _). rewrite E in *. cbn [fst snd flows set_flows] in *.
    split; [by apply (other_flow (seg_key s))|]. split; [by rewrite lookup_insert_ne|done].
  - unfold Push. rewrite Ep. cbn [app fst snd]. by rewrite filter_cons_False.
Qed.

Lemma flush_one_keyed now r k out : keyed r -> exists l, (flush_one now (out, r) k).1 = out ++ l /\ Forall (on_flow k) l /\
  keyed (flush_one now (out, r) k).2 /\
  (match flows r !! k with Some f => buf f = ∅ \/ now - lastSeen f < maxAge r | None => True end -> l = []).
Proof.
  intros Hk. unfold flush_one. destruct (flows r !! k) as [f|] eqn:E; cycle 1.
  { exists []. rewrite app_nil_r. split; [done|]. split; [done|]. split; [done|]. done. }
  destruct (now - lastSeen f <? maxAge r) eqn:Et; bool_hyps.
  { exists []. rewrite app_nil_r. split; [done|]. split; [done|]. split; [done|]. done. }
  destruct (flush_loop_conserves (S (size (buf f))) f out) as (l & d & H1 & H2).
  assert (Hempty : buf f = ∅ -> l = []).
  { intros Hb. rewrite Hb in H2. apply Permutation_nil_l in H2. symmetry in H2. by apply app_eq_nil in H2 as [-> _]. }
  destruct (flush_loop _ f out) as [o f']. cbn [fst snd] in *. subst o. exists l. split; [done|].
  assert (Hl : Forall (on_flow k) (l ++ contents (buf f') ++ d)) by (rewrite <- H2; by apply Hk). apply Forall_app in Hl as [Hl _].
  split; [done|]. split; [|intros [Hb|Hb]; [by apply Hempty|lia]]. intros k' f0 Hf. cbn [flows set_flows] in Hf.
  apply lookup_delete_Some in Hf as [_ Hf]. by apply Hk.
Qed.

(** A sweep emits nothing of a flow that is not idle, or holds nothing. *)
Lemma sweep_keyed now iter key : forall r out, keyed r -> exists l, (FlushExpired iter r now out).1 = out ++ l /\
  keyed (FlushExpired iter r now out).2 /\
  (match flows r !! key with Some f => buf f = ∅ \/ now - lastSeen f < maxAge r | None => True end -> filter (on_flow key) l = []).
Proof.
  unfold FlushExpired. induction iter as [|k iter IH]; intros r out Hk; cbn [foldl]; [exists []; by rewrite app_nil_r|].
  destruct (flush_one_keyed now r k out Hk) as (l1 & E1 & A1 & K1 & N1).
  destruct (flush_one_flows now (out, r) k) as (_ & _ & _ & Hage & Hfl). cbn [fst snd] in Hage, Hfl.
  destruct (flush_one now (out, r) k) as [o1 r1]. cbn [fst snd] in *. subst o1.
  destruct (IH r1 (out ++ l1) K1) as (l2 & E2 & K2 & N2). exists (l1 ++ l2). split; [by rewrite E2, app_assoc|]. split; [done|].
  intros Hq. rewrite filter_app. destruct (decide (k = key)) as [->|Hne].
  - rewrite (N1 Hq), N2; [done|]. rewrite Hfl. destruct (flows r !! key) as [f|] eqn:Ef; [|by rewrite Ef].
    destruct (maxAge r <=? now - lastSeen f); [by rewrite lookup_delete_eq|]. rewrite Ef. by rewrite Hage.
  - rewrite (other_flow k key l1 Hne A1). cbn [app]. apply N2. rewrite Hfl, Hage. destruct (flows r !! k); [|done].
    destruct (_ <=? _); [by rewrite lookup_delete_ne|done].
Qed.

(** ** A stream among other traffic *)

(** The packets of the flow, with their times. *)
Definition arrived (key : bytes) (ops : list rop) : list (bytes * Z) :=
  omap (fun o => match o with RPush ip now => if decide (on_flow key ip) then Some (ip, now) else None | RExpire _ _ => None end) ops.
Lemma arrived_snoc key ops o : arrived key (ops ++ [o]) = arrived key ops ++ arrived key [o].
Proof. apply omap_app. Qed.

(** The first [c] arrivals are segments [0] to [c - 1], and [c] is next. *)
Definition whole (l : list nat) (c : nat) : Prop := Permutation (take c l) (seq 0 c) /\ forall i, l !! c = Some i -> i = c.

(** When a sweep comes, the flow's last segment is younger than [age], or no
    segment is missing and the one that follows is the next to arrive. *)
Definition timely (key : bytes) (l : list nat) (age : Z) (ops : list rop) : Prop :=
  forall pre now iter post, ops = pre ++ RExpire now iter :: post ->
    (forall ip t, last (arrived key pre) = Some (ip, t) -> now < t + age) \/ whole l (length (arrived key pre)).
Lemma timely_snoc key l age ops o : timely key l age (ops ++ [o]) -> timely key l age ops /\
  (forall now iter, o = RExpire now iter -> (forall ip t, last (arrived key ops) = Some (ip, t) -> now < t + age) \/ whole l (length (arrived key ops))).
Proof.
  intros H. split.
  - intros pre now iter post ->. apply (H pre now iter (post ++ [o])). by rewrite <- app_assoc.
  - intros now iter ->. by apply (H ops now iter []).
Qed.

(** A check of [timely] on a concrete run. *)
Definition wholeb (l : list nat) (c : nat) : bool :=
  bool_decide (Permutation (take c l) (seq 0 c)) && match l !! c with Some i => bool_decide (i = c) | None => true end.
Fixpoint timelyb (key : bytes) (l : list nat) (age : Z) (c : nat) (seen : option Z) (ops : list rop) : bool :=
  match ops with
  | [] => true
  | RPush ip now :: ops => if decide (on_flow key ip) then timelyb key l age (S c) (Some now) ops else timelyb key l age c seen ops
  | RExpire now _ :: ops =>
      (match seen with Some t => now <? t + age | None => true end || wholeb l c) && timelyb key l age c seen ops
  end.
Lemma wholeb_whole l c : wholeb l c = true -> whole l c.
Proof.
  unfold wholeb. intros H. apply andb_true_iff in H as [H1 H2]. split; [by apply bool_decide_eq_true in H1|]. intros i Hi. rewrite Hi in H2.
  by apply bool_decide_eq_true in H2.
Qed.
Lemma timelyb_spec key l age rest : forall ops, timelyb key l age (length (arrived key ops)) (snd <$> last (arrived key ops)) rest = true ->
  forall pre now iter post, rest = pre ++ RExpire now iter :: post ->
    (forall ip t, last (arrived key (ops ++ pre)) = Some (ip, t) -> now < t + age) \/ whole l (length (arrived key (ops ++ pre))).
Proof.
  induction rest as [|o rest IH]; intros ops H pre now iter post E; [by destruct pre|]. destruct pre as [|o' pre].
  - injection E as -> ->. cbn [timelyb] in H. apply andb_true_iff in H as [H _]. rewrite app_nil_r. apply orb_true_iff in H as [H|H]; [left|right; by apply wholeb_whole].
    intros ip t El. rewrite El in H. cbn in H. by apply Z.ltb_lt.
  - injection E as <- E. change (o :: pre) with ([o] ++ pre). rewrite app_assoc. apply (IH (ops ++ [o])) with (post := post) (iter := iter); [|done].
    rewrite arrived_snoc. destruct o as [ip t|t it]; cbn [timelyb] in H.
    + unfold arrived at 2 4. cbn [omap list_omap]. destruct (decide (on_flow key ip)); [|by rewrite app_nil_r].
      rewrite length_app, last_snoc. cbn [length]. by rewrite Nat.add_1_r.
    + apply andb_true_iff in H as [_ H]. cbn [arrived omap list_omap]. by rewrite app_nil_r.
Qed.
Lemma timely_check key l age ops : timelyb key l age 0 None ops = true -> timely key l age ops.
Proof. intros H pre now iter post E. exact (timelyb_spec key l age ops [] H pre now iter post E). Qed.

Section Stream.
Context (n : nat) (pk : nat -> bytes) (off : nat -> Z) (s0 : Z) (key : bytes).
Context (Hoff : forall i, off i < off (S i)).
Context (Hpk : forall i, (i < n)%nat -> parseTCP (pk i) =
  Some {| seg_seq := u32 (s0 + off i); seg_nextAfter := u32 (s0 + off (S i)); seg_key := key |}).
Context (l : list nat) (r0 : ForwardReseq).
Hypothesis Harr : arrival_ok n off (window r0) l.
Local Abbreviation inv := (stream_inv pk off s0).

(** [c] segments have arrived; [out] are those that have left. *)
Definition stream_at (c : nat) (last_seen : option Z) (fo : option reseqFlow) (out : list bytes) : Prop :=
  match fo with
  | None => whole l c /\ out = map pk (seq 0 c)
  | Some f => exists k, inv (take c l) k f out /\ last_seen = Some (lastSeen f)
  end.

Lemma in_stream i : i ∈ l -> (i < n)%nat.
Proof using Harr. destruct Harr as (HP & _ & _). rewrite HP, elem_of_seq. lia. Qed.

(** A flow with no segment missing holds nothing. *)
Lemma whole_empty c k f out : whole l c -> inv (take c l) k f out -> k = c /\ buf f = ∅.
Proof using.
  intros [HP _] [_ _ _ H4 H5 H6]. assert (Hc : forall j, j ∈ take c l <-> (j < c)%nat) by (intros j; rewrite HP, elem_of_seq; lia).
  assert (k = c) as ->.
  { rewrite Hc in H5. destruct (decide (c < k)%nat) as [L|]; [|lia]. apply H6, Hc in L. lia. }
  split; [done|]. apply map_eq. intros z. rewrite lookup_empty. destruct (buf f !! z) as [e|] eqn:E; [|done].
  apply H4 in E as (i & Hi & Hci & _). apply Hc in Hi. lia.
Qed.

(** The flow's next segment. *)
Lemma stream_next c t now fo out i : stream_at c t fo out -> l !! c = Some i ->
  let res := push_flow (window r0) (touch_flow fo (u32 (s0 + off i)) now)
    {| seg_seq := u32 (s0 + off i); seg_nextAfter := u32 (s0 + off (S i)); seg_key := key |} (pk i) [] in
  stream_at (S c) (Some now) (Some res.2) (out ++ res.1).
Proof using Hoff Harr.
  intros Hat Hi. cbv zeta. pose proof Harr as (HP & _ & Hov). assert (Hnd : NoDup l) by (rewrite HP; apply NoDup_seq).
  assert (Hin : (i < n)%nat) by (by eapply in_stream, list_elem_of_lookup_2).
  pose proof (take_drop_middle l c i Hi) as El. set (rest := drop (S c) l) in *.
  assert (HiA : i ∉ take c l).
  { rewrite <- El in Hnd. apply NoDup_app in Hnd as (_ & Hnd & _). intros H. apply (Hnd i H). by left. }
  assert (HA : take (S c) l = take c l ++ [i]) by (by apply take_S_r).
  assert (Hstep : forall k f out0, inv (take c l) k f out0 -> lastSeen f = now ->
    let res := push_flow (window r0) f {| seg_seq := u32 (s0 + off i); seg_nextAfter := u32 (s0 + off (S i)); seg_key := key |} (pk i) [] in
    stream_at (S c) (Some now) (Some res.2) (out0 ++ res.1)).
  { intros k f out0 HI Hl. assert (Hki : (k <= i)%nat) by (destruct (decide (i < k)%nat) as [L|]; [by apply (si_all _ _ _ _ _ _ _ HI) in L|lia]).
    destruct (arrival_due n pk off s0 (window r0) l (take c l) k i rest f out0 Harr (eq_sym El) HiA Hki Hin HI) as [D1 D2].
    destruct (stream_push n pk off s0 key Hoff (take c l) k f out0 (window r0) i HI HiA Hin D2 D1) as (k' & f' & out' & E & HI').
    cbv zeta. pose proof (push_flow_seen (window r0) f {| seg_seq := u32 (s0 + off i); seg_nextAfter := u32 (s0 + off (S i)); seg_key := key |} (pk i) []) as Hs.
    rewrite push_flow_app in E. injection E as <- <-. exists k'. rewrite HA. split; [done|]. by rewrite Hs, Hl. }
  destruct fo as [f|]; cbn [stream_at] in Hat.
  - destruct Hat as (k & HI & _). cbn [touch_flow]. rewrite (si_primed _ _ _ _ _ _ _ HI). apply (Hstep k); [|done]. by destruct HI; split.
  - destruct Hat as [[HPc Hnext] ->]. assert (i = c) as -> by (by apply Hnext). cbn [touch_flow]. apply (Hstep c); [|done].
    assert (Hc : forall j, j ∈ take c l <-> (j < c)%nat) by (intros j; rewrite HPc, elem_of_seq; lia).
    split; try done; [|by intros j Hj; apply Hc]. intros z e. cbn [buf new_flow]. rewrite lookup_empty. split; [done|].
    intros (j & Hj & Hcj & _). apply Hc in Hj. lia.
Qed.

(** The invariant along a run. *)
Lemma stream_ops ops : keyed r0 -> flows r0 !! key = None -> timely key l (maxAge r0) ops -> (arrived key ops).*1 `prefix_of` map pk l ->
  let st := rop_run r0 ops in
  keyed st.2 /\ window st.2 = window r0 /\ maxAge st.2 = maxAge r0 /\
  stream_at (length (arrived key ops)) (snd <$> last (arrived key ops)) (flows st.2 !! key) (filter (on_flow key) st.1).
Proof using Hoff Hpk Harr.
  intros Hk0 Hf0. induction ops as [|o ops IH] using rev_ind; intros Ht Hpre; cbv zeta.
  { cbn. rewrite Hf0. split; [done|]. split; [done|]. split; [done|]. split; [|done]. split; [done|]. intros i Hi. destruct Harr as (_ & Hh & _).
    destruct l; [done|]. cbn in *. congruence. }
  apply timely_snoc in Ht as [Ht Hsweep]. rewrite arrived_snoc, fmap_app in Hpre.
  assert (Hpre1 : (arrived key ops).*1 `prefix_of` map pk l) by (etrans; [by apply prefix_app_r|exact Hpre]).
  destruct (IH Ht Hpre1) as (K & W & Mx & St). rewrite rop_run_snoc, arrived_snoc. set (st := rop_run r0 ops) in *. cbn [fst snd].
  rewrite filter_app. destruct o as [ip now|now iter]; cbn [rop_step].
  - unfold arrived at 2 4. cbn [omap list_omap]. destruct (decide (on_flow key ip)) as [Hon|Hoff'].
    + unfold arrived at 2 in Hpre. cbn [omap list_omap fmap list_fmap] in Hpre. rewrite decide_True in Hpre by done. cbn [fmap list_fmap fst] in Hpre.
      assert (Hi : map pk l !! length (arrived key ops) = Some ip).
      { destruct Hpre as [rest ->]. rewrite <- app_assoc. rewrite lookup_app_r by (by rewrite length_fmap). by rewrite length_fmap, Nat.sub_diag. }
      apply list_lookup_fmap_Some in Hi as (i & -> & Hi). pose proof (Hpk i (in_stream i (list_elem_of_lookup_2 _ _ _ Hi))) as Hp.
      destruct (Push_on_flow st.2 (pk i) _ now Hp K) as (E & Hall & K' & _). cbn [seg_key seg_seq] in E, Hall.
      split; [done|]. rewrite E. cbn [fst snd flows window maxAge set_flows]. split; [done|]. split; [done|].
      rewrite length_app, lookup_insert_eq, last_snoc, (all_on_flow key _ Hall), W. cbn [length fmap option_fmap option_map snd]. rewrite Nat.add_1_r.
      exact (stream_next _ _ now _ _ i St Hi).
    + rewrite app_nil_r. destruct (Push_other st.2 ip now key Hoff' K) as (H1 & H2 & H3). rewrite H1, H2, app_nil_r. split; [done|].
      assert (Hw : window (Push st.2 ip now []).2 = window st.2 /\ maxAge (Push st.2 ip now []).2 = maxAge st.2).
      { unfold Push. destruct (parseTCP ip); [|done]. by destruct (push_flow _ _ _ _ _). }
      destruct Hw as [-> ->]. done.
  - rewrite app_nil_r. destruct (sweep_keyed now iter key st.2 [] K) as (out & E1 & K1 & N1).
    destruct (FlushExpired_flows now iter st.2 []) as (F1 & F2 & _ & F3). split; [done|]. rewrite F1, F2. split; [done|]. split; [done|].
    cbn [app] in E1. rewrite E1. destruct (flows st.2 !! key) as [f|] eqn:Ef.
    + destruct St as (k & HI & Hl). specialize (Hsweep now iter eq_refl).
      assert (Hcase : now - lastSeen f < maxAge st.2 \/ whole l (length (arrived key ops))).
      { destruct Hsweep as [Hy|]; [left|by right]. destruct (last (arrived key ops)) as [[ip t]|]; [|done]. injection Hl as ->.
        specialize (Hy ip _ eq_refl). lia. }
      destruct (flows (FlushExpired iter st.2 now []).2 !! key) as [f'|] eqn:Ef'.
      * apply F3 in Ef' as [Ef' _]. injection (eq_trans (eq_sym Ef) Ef') as <-. rewrite N1, app_nil_r; [by exists k|].
        destruct Hcase as [?|Hwh]; [by right|left]. by destruct (whole_empty _ _ _ _ Hwh HI).
      * assert (Hx : key ∈ iter /\ expired now st.2 f).
        { destruct (decide (key ∈ iter)) as [Hi|Hi]; [|exfalso].
          - split; [done|]. unfold expired. destruct (decide (maxAge st.2 <= now - lastSeen f)) as [|Hn]; [done|exfalso].
            assert (Hs : flows (FlushExpired iter st.2 now []).2 !! key = Some f) by (apply F3; split; [done|]; intros [_ ?]; by unfold expired in *; lia).
            congruence.
          - assert (Hs : flows (FlushExpired iter st.2 now []).2 !! key = Some f) by (apply F3; split; [done|]; by intros [? _]). congruence. }
        destruct Hx as [_ Hx]. unfold expired in Hx. destruct Hcase as [?|Hwh]; [lia|]. destruct (whole_empty _ _ _ _ Hwh HI) as [-> Hb].
        rewrite N1, app_nil_r by (by left). split; [done|]. apply (si_out _ _ _ _ _ _ _ HI).
    + assert (Ef' : flows (FlushExpired iter st.2 now []).2 !! key = None).
      { destruct (flows (FlushExpired iter st.2 now []).2 !! key) as [f'|] eqn:Ef'; [|done]. apply F3 in Ef' as [Ef' _]. congruence. }
      rewrite Ef', N1, app_nil_r by done. done.
Qed.

(** What has left is always the beginning of the stream, and all of it once all
    has arrived. *)
Lemma stream_at_prefix c t fo out : (c <= length l)%nat -> stream_at c t fo out ->
  out `prefix_of` map pk (seq 0 n) /\ (c = length l -> out = map pk (seq 0 n)).
Proof using Harr.
  intros Hc Hat. pose proof Harr as (HP & _ & _). assert (Hn : length l = n) by (rewrite HP; apply length_seq).
  assert (Hex : exists k, out = map pk (seq 0 k) /\ (k <= n)%nat /\ (c = length l -> k = n)).
  { destruct fo as [f|]; cbn [stream_at] in Hat.
    - destruct Hat as (k & HI & _). exists k. split; [apply (si_out _ _ _ _ _ _ _ HI)|]. assert (Hkn : (k <= n)%nat).
      { destruct k as [|k]; [lia|]. pose proof (si_all _ _ _ _ _ _ _ HI k ltac:(lia)) as Hk. apply subseteq_take in Hk. by apply in_stream in Hk. }
      split; [done|]. intros ->. destruct (decide (k < n)%nat) as [L|]; [|lia]. destruct (si_miss _ _ _ _ _ _ _ HI).
      rewrite firstn_all, HP. apply elem_of_seq. lia.
    - destruct Hat as [_ ->]. exists c. split; [done|]. split; [lia|]. congruence. }
  destruct Hex as (k & -> & Hk & Hall). split; [|intros E; by rewrite (Hall E)].
  replace n with (k + (n - k))%nat by lia. rewrite seq_app, map_app. by apply prefix_app_r.
Qed.

Lemma stream_emitted ops : keyed r0 -> flows r0 !! key = None -> timely key l (maxAge r0) ops -> (arrived key ops).*1 `prefix_of` map pk l ->
  filter (on_flow key) (rop_run r0 ops).1 `prefix_of` map pk (seq 0 n) /\
  ((arrived key ops).*1 = map pk l -> filter (on_flow key) (rop_run r0 ops).1 = map pk (seq 0 n)).
Proof using Hoff Hpk Harr.
  intros Hk Hf Ht Hpre. destruct (stream_ops ops Hk Hf Ht Hpre) as (_ & _ & _ & Hat).
  assert (Hlen : (length (arrived key ops) <= length l)%nat) by (apply prefix_length in Hpre; by rewrite length_fmap, length_map in Hpre).
  destruct (stream_at_prefix _ _ _ _ Hlen Hat) as [H1 H2]. split; [done|]. intros E. apply H2.
  rewrite <- (length_fmap fst (arrived key ops)), E. apply length_map.
Qed.
End Stream.
