(* ===== verification/Gso.v ===== *)
(** * Coalescing inner TCP into GSO super-frames (utility/tun_gso.go)

    [TunGSOBatch]: one open super-frame per flow, grown by [Add], finalised by
    [flushSlot] with a virtio-net header, the IP header resealed and the TCP
    checksum field seeded for offload.  A slot's buffer is modelled by its
    occupied part [l3] (the bytes from [vnetHdrLen] to [aoff]); the frames given
    to [unix.Write] are recorded in order in [frames]. *)
From S2P Require Import Prelude Words Checksum TcpParse.
Local Open Scope Z_scope.
Local Open Scope masqued_scope.

Definition vnetHdrLen : nat := 10.
Definition gsoMaxL3 : Z := 64000.
Definition gsoMaxSegs : nat := 64.
Definition tunMaxFlowSlots : nat := 32.
Definition slotReapIdle : Z := 10000000.
(** [len(s.buf) - vnetHdrLen] and [len(b.scratch) - vnetHdrLen]. *)
Definition slotRoom : Z := gsoMaxL3 + 128.

Record gsoSlot := {
  l3 : bytes;
  segs : nat;
  s_ihl : nat;
  s_thl : nat;
  segSize : nat;
  s_nextSeq : Z;
  lastGrow : Z
}.

Record TunGSOBatch := {
  slots : gmap bytes gsoSlot;
  free : list gsoSlot;
  open : Z;
  frames : list bytes
}.

(** A slot as [getSlot] allocates it. *)
Definition empty_slot : gsoSlot :=
  {| l3 := []; segs := 0; s_ihl := 0; s_thl := 0; segSize := 0; s_nextSeq := 0; lastGrow := 0 |}.

(** [NewTunGSOBatch]; [None] is the error for a descriptor that is not open. *)
Definition NewTunGSOBatch (tunFd : Z) : option TunGSOBatch :=
  if tunFd <? 0 then None else Some {| slots := ∅; free := []; open := 0; frames := [] |}.

Definition writeFrame (b : TunGSOBatch) (frame : bytes) : TunGSOBatch :=
  {| slots := slots b; free := free b; open := open b; frames := frames b ++ [frame] |}.

Definition zero_hdr : bytes := replicate vnetHdrLen 0.

(** [writeNonGSO]: an oversized packet is dropped. *)
Definition writeNonGSO (b : TunGSOBatch) (pkt : bytes) : TunGSOBatch :=
  if slotRoom <? Z.of_nat (length pkt) then b
  else writeFrame b (zero_hdr ++ pkt).

(** The bytes of a little-endian 16-bit field. *)
Definition le16_bytes (v : Z) : bytes := [u8 v; u8 (v / 256)].

Definition vFNeedsCsum : Z := 1.
Definition vGSOTcpv4 : Z := 1.

(** The frame of a slot with one segment or more: the [flushSlot] body. *)
Definition vnet_hdr (s : gsoSlot) : bytes :=
  [vFNeedsCsum; vGSOTcpv4] ++ le16_bytes (Z.of_nat (s_ihl s + s_thl s)) ++ le16_bytes (Z.of_nat (segSize s))
    ++ le16_bytes (Z.of_nat (s_ihl s)) ++ le16_bytes 16.

Definition seal_ip (ip : bytes) (ihl : nat) : bytes :=
  let ip := put16 ip 2 (Z.of_nat (length ip)) in
  let ip := <[11%nat := 0]> (<[10%nat := 0]> ip) in
  put16 ip 10 (not16 (fold16 (sum16 (take ihl ip) 0))).

Definition seed_tcp (ip : bytes) (ihl : nat) : bytes :=
  let tcpLen := u16 (Z.of_nat (length ip - ihl)) in
  put16 ip (ihl + 16) (tcpPseudoSeedV4 (slice ip 12 16) (slice ip 16 20) tcpLen).

Definition slot_frame (s : gsoSlot) : bytes :=
  if (segs s =? 1)%nat then zero_hdr ++ l3 s
  else vnet_hdr s ++ seed_tcp (seal_ip (l3 s) (s_ihl s)) (s_ihl s).

(** The slot after a flush: [segs = 0], [aoff = 0]. *)
Definition reset_slot (s : gsoSlot) : gsoSlot :=
  {| l3 := []; segs := 0; s_ihl := s_ihl s; s_thl := s_thl s; segSize := segSize s;
     s_nextSeq := s_nextSeq s; lastGrow := lastGrow s |}.

(** [flushSlot] on the slot [s] of flow [k]. *)
Definition flushSlot (b : TunGSOBatch) (k : bytes) (s : gsoSlot) : TunGSOBatch :=
  if (segs s =? 0)%nat then b
  else {| slots := <[k := reset_slot s]> (slots b); free := free b; open := open b - 1;
          frames := frames b ++ [slot_frame s] |}.

Section Batch.
(** Configuration (FORWARD_TUN_GSO_MAXSEGS, FORWARD_TUN_NOCOALESCE,
    FORWARD_TUN_GSO_FLUSH_IDLE_US) and the order in which Go ranges over the
    slot map. *)
Variable tunMaxSegs : nat.
Variable tunNoCoalesce : bool.
Variable flushIdle : Z.
Variable range : gmap bytes gsoSlot -> list (bytes * gsoSlot).

(** The scan of [evictOldest]: the first slot with the least [lastGrow]. *)
Definition oldest (l : list (bytes * gsoSlot)) : option (bytes * gsoSlot) :=
  foldl (fun old ks => match old with
    | None => Some ks
    | Some o => if lastGrow ks.2 <? lastGrow o.2 then Some ks else old
    end) None l.

Definition evictOldest (b : TunGSOBatch) : TunGSOBatch :=
  match oldest (range (slots b)) with
  | None => b
  | Some (k, old) =>
      let b := if (0 <? segs old)%nat then flushSlot b k old else b in
      {| slots := delete k (slots b); free := free b ++ [reset_slot old]; open := open b; frames := frames b |}
  end.

Definition getSlot (b : TunGSOBatch) (k : bytes) : gsoSlot * TunGSOBatch :=
  match slots b !! k with
  | Some s => (s, b)
  | None =>
      let b := if (tunMaxFlowSlots <=? size (slots b))%nat then evictOldest b else b in
      let '(s, fr) := match last (free b) with
        | Some s => (s, removelast (free b))
        | None => (empty_slot, free b)
        end in
      (s, {| slots := <[k := s]> (slots b); free := fr; open := open b; frames := frames b |})
  end.

Definition set_slot (b : TunGSOBatch) (k : bytes) (s : gsoSlot) : TunGSOBatch :=
  {| slots := <[k := s]> (slots b); free := free b; open := open b; frames := frames b |}.

(** The condition under which [pkt] joins the open frame. *)
Definition coalesces (s : gsoSlot) (v : tcpView) (pkt : bytes) : bool :=
  (0 <? segs s)%nat && (v_seq v =? s_nextSeq s) && (v_ihl v =? s_ihl s)%nat && (v_thl v =? s_thl s)%nat
  && (v_payloadLen v <=? segSize s)%nat && (segs s <? tunMaxSegs)%nat
  && (Z.of_nat (length (l3 s) + v_payloadLen v) <=? gsoMaxL3)
  && tcpOptsEqual pkt v (l3 s) (s_ihl s) (s_thl s).

Definition grow_slot (now : Z) (s : gsoSlot) (v : tcpView) (pkt : bytes) : gsoSlot :=
  {| l3 := l3 s ++ slice pkt (v_payloadOff v) (v_payloadOff v + v_payloadLen v); segs := S (segs s);
     s_ihl := s_ihl s; s_thl := s_thl s; segSize := segSize s;
     s_nextSeq := u32 (s_nextSeq s + Z.of_nat (v_payloadLen v)); lastGrow := now |}.

Definition start_slot (now : Z) (v : tcpView) (pkt : bytes) : gsoSlot :=
  {| l3 := take (Z.to_nat slotRoom) pkt; segs := 1; s_ihl := v_ihl v; s_thl := v_thl v;
     segSize := v_payloadLen v; s_nextSeq := u32 (v_seq v + Z.of_nat (v_payloadLen v)); lastGrow := now |}.

(** The close-now test after a growth. *)
Definition full_now (s : gsoSlot) (v : tcpView) : bool :=
  (v_payloadLen v <? segSize s)%nat || (tunMaxSegs <=? segs s)%nat
  || (gsoMaxL3 <? Z.of_nat (length (l3 s) + segSize s)).

Definition Add (now : Z) (b : TunGSOBatch) (pkt : bytes) : TunGSOBatch :=
  if tunNoCoalesce then writeNonGSO b pkt
  else match parseV4TCP pkt with
  | None => writeNonGSO b pkt
  | Some v =>
      let k := v_key v in
      let '(s, b) := getSlot b k in
      if coalesces s v pkt then
        let s := grow_slot now s v pkt in
        let b := set_slot b k s in
        if full_now s v then flushSlot b k s else b
      else
        let b := if (0 <? segs s)%nat then flushSlot b k s else b in
        let b := set_slot b k (start_slot now v pkt) in
        {| slots := slots b; free := free b; open := open b + 1; frames := frames b |}
  end.

(** The body of [Flush]'s loop. *)
Definition flush_visit (now : Z) (b : TunGSOBatch) (ks : bytes * gsoSlot) : TunGSOBatch :=
  let '(k, s) := ks in
  if (0 <? segs s)%nat then
    if flushIdle <=? now - lastGrow s then flushSlot b k s else b
  else if slotReapIdle <=? now - lastGrow s
       then {| slots := delete k (slots b); free := free b ++ [s]; open := open b; frames := frames b |}
       else b.

Definition Flush (now : Z) (b : TunGSOBatch) : TunGSOBatch :=
  foldl (flush_visit now) b (range (slots b)).

Definition Close (b : TunGSOBatch) : TunGSOBatch :=
  foldl (fun b ks => flushSlot b ks.1 ks.2) b (range (slots b)).
End Batch.

Definition Empty (b : TunGSOBatch) : bool := open b =? 0.

(** ** Specification: the byte stream of a flow

    A piece is a sequence number with the non-empty payload that starts there;
    [tso] is what the kernel cuts a super-frame's payload into. *)
Fixpoint tso (fuel g : nat) (seq : Z) (p : bytes) : list (Z * bytes) :=
  match fuel with
  | O => []
  | S n => match p, g with
           | [], _ => []
           | _, O => []
           | _, _ => (seq, take g p) :: tso n g (u32 (seq + Z.of_nat g)) (drop g p)
           end
  end.

Definition payload (v : tcpView) (ip : bytes) : bytes := drop (v_payloadOff v) ip.

Definition view_pieces (k : bytes) (g : tcpView -> nat) (ip : bytes) : list (Z * bytes) :=
  match parseV4TCP ip with
  | Some v => if decide (v_key v = k) then tso (length ip) (g v) (v_seq v) (payload v ip) else []
  | None => []
  end.

(** The pieces of flow [k] in a packet, in a frame written to the device, and
    in an open slot. *)
Definition pkt_pieces (k ip : bytes) : list (Z * bytes) := view_pieces k v_payloadLen ip.
Definition frame_pieces (k frame : bytes) : list (Z * bytes) :=
  if frame.[1] =? vGSOTcpv4 then view_pieces k (fun _ => Z.to_nat (le16 frame 4)) (drop vnetHdrLen frame)
  else pkt_pieces k (drop vnetHdrLen frame).
Definition slot_pieces (k : bytes) (s : gsoSlot) : list (Z * bytes) :=
  if (segs s =? 0)%nat then [] else view_pieces k (fun _ => segSize s) (l3 s).

Definition open_pieces (k : bytes) (m : gmap bytes gsoSlot) : list (Z * bytes) :=
  match m !! k with Some s => slot_pieces k s | None => [] end.
Definition batch_pieces (k : bytes) (b : TunGSOBatch) : list (Z * bytes) :=
  concat (map (frame_pieces k) (frames b)) ++ open_pieces k (slots b).

(** What a slot's contents satisfy; [exact_slot] is the state between calls:
    every segment has the full size. *)
Record frame_ok (k : bytes) (s : gsoSlot) (v : tcpView) : Prop := {
  fo_parse : parseV4TCP (l3 s) = Some v;
  fo_key : v_key v = k;
  fo_ihl : s_ihl s = v_ihl v;
  fo_thl : s_thl s = v_thl v;
  fo_bytes : bytes_ok (l3 s);
  fo_len : Z.of_nat (length (l3 s)) <= slotRoom;
  fo_one : segs s = 1%nat -> segSize s = v_payloadLen v;
  fo_seg : (segSize s <= length (l3 s))%nat;
  fo_segs : (1 <= segs s)%nat;
  fo_next : s_nextSeq s = u32 (v_seq v + Z.of_nat (v_payloadLen v));
  fo_super : (2 <= segs s)%nat -> Z.of_nat (length (l3 s)) <= gsoMaxL3
}.

Definition exact_slot (k : bytes) (s : gsoSlot) : Prop :=
  segs s = 0%nat \/ exists v, frame_ok k s v /\ v_payloadLen v = (segs s * segSize s)%nat.

(** ** [tso] *)

Lemma tso_nil fuel g sq : tso fuel g sq [] = [].
Proof. by destruct fuel. Qed.

Lemma tso_fuel f1 f2 g sq p : (length p <= f1)%nat -> (length p <= f2)%nat -> tso f1 g sq p = tso f2 g sq p.
Proof.
  revert f2 sq p. induction f1 as [|f1 IH]; intros [|f2] sq p H1 H2; try (destruct p; [done|cbn in *; lia]).
  cbn [tso]. destruct p as [|x p]; [done|]. destruct g as [|g]; [done|]. f_equal.
  apply IH; rewrite length_drop; cbn in *; lia.
Qed.

Lemma tso_single fuel g sq p : (length p <= fuel)%nat -> (length p <= g)%nat ->
  tso fuel g sq p = match p with [] => [] | _ => [(sq, p)] end.
Proof.
  intros Hf Hg. destruct p as [|x p]; [apply tso_nil|]. destruct fuel as [|fuel]; [cbn in *; lia|].
  destruct g as [|g]; [cbn in *; lia|]. cbn [tso]. rewrite take_ge, drop_ge by (cbn in *; lia). by rewrite tso_nil.
Qed.

(** Adding a segment of at most [g] bytes to whole ones. *)
Lemma tso_app fuel g n sq p q : 0 <= sq < 4294967296 -> length p = (n * g)%nat -> (length q <= g)%nat -> (length (p ++ q) <= fuel)%nat ->
  tso fuel g sq (p ++ q) = tso fuel g sq p ++ match q with [] => [] | _ => [(u32 (sq + Z.of_nat (length p)), q)] end.
Proof.
  intros Hsq. revert fuel sq Hsq p. induction n as [|n IH]; intros fuel sq Hsq p Hp Hq Hf.
  - destruct p; [|cbn in Hp; lia]. rewrite tso_nil. cbn [app length]. rewrite tso_single by done.
    destruct q; [done|]. by rewrite Z.add_0_r, u32_small.
  - destruct g as [|g].
    { rewrite Nat.mul_0_r in Hp. destruct p; [|cbn in Hp; lia]. destruct q; [|cbn in Hq; lia]. by rewrite !app_nil_r. }
    destruct fuel as [|fuel].
    { rewrite length_app in Hf. lia. }
    rewrite length_app in Hf.
    destruct p as [|x p]; [cbn in Hp; lia|]. cbn [tso app]. rewrite app_comm_cons.
    rewrite take_app_le, drop_app_le by lia. f_equal.
    destruct (decide (drop (S g) (x :: p) = [] /\ q = [])) as [[E ->]|Hne].
    { rewrite E, !app_nil_r. done. }
    rewrite IH; [|apply u32_range|rewrite length_drop; lia|done|rewrite length_app, length_drop; lia].
    f_equal. destruct q as [|y q]; [done|]. do 2 f_equal.
    rewrite u32_idem_add, length_drop. f_equal. lia.
Qed.

(** ** The finalised frame *)

Lemma lookup_put16_ne b i v n : n <> i -> n <> S i -> put16 b i v !! n = b !! n.
Proof. intros. unfold put16. by rewrite !list_lookup_insert_ne. Qed.

Definition sealed (s : gsoSlot) : bytes := seed_tcp (seal_ip (l3 s) (s_ihl s)) (s_ihl s).

Lemma seal_ip_length ip i : length (seal_ip ip i) = length ip.
Proof. unfold seal_ip. by rewrite put16_length, !length_insert, put16_length. Qed.

Lemma sealed_length s : length (sealed s) = length (l3 s).
Proof. unfold sealed, seed_tcp. by rewrite put16_length, seal_ip_length. Qed.

Lemma seal_ip_lookup ip i n : (n < 2 \/ 4 <= n < 10 \/ 12 <= n)%nat -> seal_ip ip i !! n = ip !! n.
Proof.
  intros H. unfold seal_ip. rewrite lookup_put16_ne, !list_lookup_insert_ne, lookup_put16_ne by lia. done.
Qed.

Lemma sealed_lookup s n : (n < 2 \/ 4 <= n < 10 \/ 12 <= n)%nat -> n <> (s_ihl s + 16)%nat -> n <> (s_ihl s + 17)%nat ->
  sealed s !! n = l3 s !! n.
Proof.
  intros. unfold sealed, seed_tcp. rewrite lookup_put16_ne by lia. by apply seal_ip_lookup.
Qed.

Lemma drop_ext (b b' : bytes) n : (forall j, (n <= j)%nat -> b !! j = b' !! j) -> drop n b = drop n b'.
Proof. intros H. apply list_eq. intros j. rewrite !lookup_drop. apply H. lia. Qed.

Lemma vnet_hdr_length s : length (vnet_hdr s) = vnetHdrLen.
Proof. done. Qed.

Lemma le16_le16_bytes v : 0 <= v < 65536 -> le16 (le16_bytes v) 0 = v.
Proof.
  intros. unfold le16, le16_bytes, byte_at, u8. cbn [nth].
  rewrite (Z.mod_small (v / 256)) by (split; [apply Z.div_pos; lia|apply Z.div_lt_upper_bound; lia]).
  pose proof (Z.div_mod v 256). lia.
Qed.

Lemma view_pieces_one k0 s v : frame_ok k0 s v -> segs s = 1%nat -> forall k,
  pkt_pieces k (l3 s) = view_pieces k (fun _ => segSize s) (l3 s).
Proof. intros H H1 k. unfold pkt_pieces, view_pieces. rewrite (fo_parse _ _ _ H). by rewrite (fo_one _ _ _ H H1). Qed.

(** The header rewrite does not disturb the flow's view of the packet. *)
Lemma view_pieces_sealed k0 s v k g : frame_ok k0 s v -> view_pieces k g (sealed s) = view_pieces k g (l3 s).
Proof.
  intros H. pose proof (fo_parse _ _ _ H) as Hp. unfold view_pieces.
  destruct (parseV4TCP_inv _ _ Hp) as (E1 & E2 & E3 & E4 & E5 & E6 & _).
  rewrite Hp, (parseV4TCP_ext (l3 s) (sealed s) v Hp (sealed_length s)).
  - rewrite sealed_length. case_decide; [|done]. f_equal. unfold payload. apply drop_ext. intros j Hj.
    apply sealed_lookup; rewrite ?(fo_ihl _ _ _ H); lia.
  - intros n H1 H2. apply sealed_lookup; rewrite ?(fo_ihl _ _ _ H); lia.
Qed.

Lemma frame_pieces_slot k0 s v k : frame_ok k0 s v -> frame_pieces k (slot_frame s) = slot_pieces k s.
Proof.
  intros H. unfold slot_frame, slot_pieces. pose proof (fo_segs _ _ _ H).
  replace (segs s =? 0)%nat with false by (symmetry; apply Nat.eqb_neq; lia).
  destruct (segs s =? 1)%nat eqn:E; bool_hyps.
  - unfold frame_pieces. change ((zero_hdr ++ l3 s).[1]) with 0. cbn [Z.eqb vGSOTcpv4].
    change (drop vnetHdrLen (zero_hdr ++ l3 s)) with (l3 s). by eapply view_pieces_one.
  - unfold frame_pieces. fold (sealed s).
    change ((vnet_hdr s ++ sealed s).[1]) with 1. cbn [Z.eqb vGSOTcpv4 Pos.eqb].
    change (drop vnetHdrLen (vnet_hdr s ++ sealed s)) with (sealed s).
    change (le16 (vnet_hdr s ++ sealed s) 4) with (le16 (le16_bytes (Z.of_nat (segSize s))) 0).
    pose proof (fo_len _ _ _ H). pose proof (fo_seg _ _ _ H). unfold slotRoom, gsoMaxL3 in *.
    rewrite le16_le16_bytes by lia. rewrite Nat2Z.id. by eapply view_pieces_sealed.
Qed.

(** Pieces of a slot belong to its own flow. *)
Lemma slot_pieces_other k0 s v k : frame_ok k0 s v -> k <> k0 -> slot_pieces k s = [].
Proof.
  intros H Hne. unfold slot_pieces, view_pieces. destruct (segs s =? 0)%nat; [done|].
  rewrite (fo_parse _ _ _ H). rewrite decide_False; [done|]. rewrite (fo_key _ _ _ H). congruence.
Qed.

(** ** Invariant of a batch *)

Definition in_use (m : gmap bytes gsoSlot) : gmap bytes gsoSlot := filter (fun ks => (0 < segs ks.2)%nat) m.

Record batch_inv (b : TunGSOBatch) : Prop := {
  bi_cap : (size (slots b) <= tunMaxFlowSlots)%nat;
  bi_slots : forall k s, slots b !! k = Some s -> exact_slot k s;
  bi_free : Forall (fun s => segs s = 0%nat) (free b);
  bi_open : open b = Z.of_nat (size (in_use (slots b)))
}.

(** ** Flushing one slot *)

Lemma open_pieces_insert k k0 m s : open_pieces k (<[k0 := s]> m) = if decide (k = k0) then slot_pieces k s else open_pieces k m.
Proof.
  unfold open_pieces. case_decide; [subst; by rewrite lookup_insert_eq|by rewrite lookup_insert_ne].
Qed.

Lemma slot_pieces_reset k s : slot_pieces k (reset_slot s) = [].
Proof. done. Qed.

Lemma in_use_insert m k s : in_use (<[k := s]> m) =
  if decide (0 < segs s)%nat then <[k := s]> (in_use m) else delete k (in_use m).
Proof.
  unfold in_use. rewrite map_filter_insert. cbn. case_decide; [done|]. apply map_filter_delete.
Qed.

Lemma in_use_lookup m k s : in_use m !! k = Some s <-> m !! k = Some s /\ (0 < segs s)%nat.
Proof. unfold in_use. by rewrite map_lookup_filter_Some. Qed.

Lemma size_in_use_delete m k s : m !! k = Some s -> (0 < segs s)%nat ->
  Z.of_nat (size (delete k (in_use m))) = Z.of_nat (size (in_use m)) - 1.
Proof.
  intros Hk Hs. assert (H : in_use m !! k = Some s) by (by apply in_use_lookup).
  rewrite map_size_delete, H. assert (size (in_use m) <> 0%nat); [|lia].
  intros E. apply map_size_empty_inv in E. by rewrite E, lookup_empty in H.
Qed.

Lemma in_use_delete m k : in_use (delete k m) = delete k (in_use m).
Proof. apply map_filter_delete. Qed.

(** Finalising the frame that slot [s] (the slot of [k], perhaps just grown)
    holds; the flow's pieces move from the slot to the written frames. *)
Lemma flushSlot_pieces b k s v k' : slots b !! k = Some s -> frame_ok k s v ->
  batch_pieces k' (flushSlot b k s) = batch_pieces k' b.
Proof.
  intros Hk Hf. unfold flushSlot. pose proof (fo_segs _ _ _ Hf).
  replace (segs s =? 0)%nat with false by (symmetry; apply Nat.eqb_neq; lia).
  unfold batch_pieces. cbn [slots frames]. rewrite map_app, concat_app, <- app_assoc. f_equal. cbn.
  rewrite app_nil_r, open_pieces_insert, slot_pieces_reset, (frame_pieces_slot k s v) by done.
  unfold open_pieces. case_decide as Hd; [subst; by rewrite Hk, app_nil_r|].
  by rewrite (slot_pieces_other k s v).
Qed.

Lemma flushSlot_inv b k s : slots b !! k = Some s -> (0 < segs s)%nat ->
  (size (slots b) <= tunMaxFlowSlots)%nat ->
  (forall k' s', k' <> k -> slots b !! k' = Some s' -> exact_slot k' s') ->
  Forall (fun s => segs s = 0%nat) (free b) -> open b = Z.of_nat (size (in_use (slots b))) ->
  batch_inv (flushSlot b k s).
Proof.
  intros Hk Hs H1 H2 H3 H4. unfold flushSlot.
  replace (segs s =? 0)%nat with false by (symmetry; apply Nat.eqb_neq; lia).
  split; cbn [slots free open].
  - by rewrite map_size_insert, Hk.
  - intros k' s' [[<- <-]|[Hne Hk']]%lookup_insert_Some; [by left|by apply H2].
  - done.
  - rewrite in_use_insert, decide_False by (cbn; lia). rewrite (size_in_use_delete _ _ _ Hk Hs). lia.
Qed.

Lemma exact_frame k s : exact_slot k s -> (0 < segs s)%nat -> exists v, frame_ok k s v /\ v_payloadLen v = (segs s * segSize s)%nat.
Proof. intros [?|H] ?; [lia|done]. Qed.

(** On a batch that satisfies the invariant. *)
Lemma flushSlot_ok b k s : batch_inv b -> slots b !! k = Some s ->
  batch_inv (flushSlot b k s) /\ forall k', batch_pieces k' (flushSlot b k s) = batch_pieces k' b.
Proof.
  intros HI Hk. destruct (decide (0 < segs s)%nat) as [Hs|Hs].
  - destruct (exact_frame k s (bi_slots _ HI _ _ Hk) Hs) as (v & Hf & _).
    split; [apply flushSlot_inv; try done; try apply HI; intros; by apply (bi_slots _ HI)|].
    intros. by eapply flushSlot_pieces.
  - unfold flushSlot. replace (segs s =? 0)%nat with true by (symmetry; apply Nat.eqb_eq; lia). done.
Qed.

Lemma flushSlot_slots b k s : slots (flushSlot b k s) = if (segs s =? 0)%nat then slots b else <[k := reset_slot s]> (slots b).
Proof. unfold flushSlot. by destruct (segs s =? 0)%nat. Qed.

(** Removing an empty slot. *)
Lemma drop_slot_ok b k s fr : batch_inv b -> slots b !! k = Some s -> segs s = 0%nat -> segs fr = 0%nat ->
  let b' := {| slots := delete k (slots b); free := free b ++ [fr]; open := open b; frames := frames b |} in
  batch_inv b' /\ forall k', batch_pieces k' b' = batch_pieces k' b.
Proof.
  intros HI Hk Hs Hfr b'. unfold b'. clear b'. split.
  - split; cbn [slots free open].
    + pose proof (bi_cap _ HI). rewrite map_size_delete, Hk. lia.
    + intros k' s' [_ H]%lookup_delete_Some. by apply (bi_slots _ HI).
    + apply Forall_app. split; [apply HI|]. by constructor.
    + rewrite in_use_delete, delete_id; [apply HI|].
      apply map_lookup_filter_None. right. intros x Hx. cbn. rewrite Hk in Hx. injection Hx as <-. lia.
  - intros k'. unfold batch_pieces, open_pieces. cbn [slots frames]. f_equal.
    destruct (decide (k' = k)) as [->|]; [|by rewrite lookup_delete_ne].
    rewrite lookup_delete_eq, Hk. unfold slot_pieces. by rewrite Hs.
Qed.
