(* ===== verification/GsoProps.v ===== *)
(** * Properties of the GSO coalescer (utility/tun_gso.go)

    The payload stream of every flow survives coalescing and segmentation; the
    slot table stays within its bounds; a super-frame's headers, checksums and
    offload metadata are consistent; and the per-segment information that
    coalescing does lose is exhibited. *)
From S2P Require Import Prelude Words Checksum TcpParse Snat Gso.
Local Open Scope Z_scope.
Local Open Scope masqued_scope.

(** A packet the forwarder reads from the tunnel: bytes, and small enough for
    the staging buffers. *)
Definition pkt_ok (pkt : bytes) : Prop := bytes_ok pkt /\ Z.of_nat (length pkt) <= slotRoom.

Inductive gso_op := OpAdd (now : Z) (pkt : bytes) | OpFlush (now : Z).

Definition op_ok (o : gso_op) : Prop := match o with OpAdd _ p => pkt_ok p | OpFlush _ => True end.
Definition op_pkts (ops : list gso_op) : list bytes :=
  concat (map (fun o => match o with OpAdd _ p => [p] | OpFlush _ => [] end) ops).

Lemma gso_empty_inv : batch_inv {| slots := ∅; free := []; open := 0; frames := [] |}.
Proof.
  split; cbn [slots free open].
  - rewrite map_size_empty. unfold tunMaxFlowSlots. lia.
  - intros k s H. by rewrite lookup_empty in H.
  - constructor.
  - unfold in_use. by rewrite map_filter_empty, map_size_empty.
Qed.

Lemma oldest_in l x : oldest l = Some x -> x ∈ l.
Proof.
  unfold oldest. rewrite <- (rev_involutive l). induction (rev l) as [|y r IH]; cbn [rev]; [done|].
  rewrite foldl_app. cbn [foldl]. intros H. apply elem_of_app.
  destruct (foldl _ None (rev r)) as [o|]; [|injection H as <-; right; by left].
  destruct (lastGrow y.2 <? lastGrow o.2); [injection H as <-; right; by left|left; auto].
Qed.

Lemma oldest_none l : oldest l = None -> l = [].
Proof.
  unfold oldest. rewrite <- (rev_involutive l). destruct (rev l) as [|y r]; cbn [rev]; [done|].
  rewrite foldl_app. cbn [foldl]. destruct (foldl _ None (rev r)) as [o|]; [|done].
  by destruct (lastGrow y.2 <? lastGrow o.2).
Qed.

(** ** The slot a packet lands in *)

(** The view after growth, the resulting slot, and its pieces. *)
Lemma grow_ok maxSegs now k s v pkt : frame_ok k s v ->
  v_payloadLen v = (segs s * segSize s)%nat -> forall v', parseV4TCP pkt = Some v' -> bytes_ok pkt -> v_key v' = k ->
  coalesces maxSegs s v' pkt = true ->
  let s' := grow_slot now s v' pkt in
  exists v'', frame_ok k s' v'' /\ v_payloadLen v'' = (segs s * segSize s + v_payloadLen v')%nat /\ segs s' = S (segs s) /\
    forall k', slot_pieces k' s' = slot_pieces k' s ++ pkt_pieces k' pkt.
Proof.
  intros Hf Hx v' Hp Hok Hk Hc s'. unfold coalesces in Hc. bool_hyps.
  destruct (parseV4TCP_inv _ _ Hp) as (_ & _ & _ & _ & Eo & El & _).
  pose proof (fo_parse _ _ _ Hf) as Hps. pose proof (fo_key _ _ _ Hf) as Hks.
  destruct (parseV4TCP_inv _ _ Hps) as (_ & _ & _ & _ & Eos & Els & Esq & _).
  set (q := slice pkt (v_payloadOff v') (v_payloadOff v' + v_payloadLen v')).
  assert (Hq : q = payload v' pkt).
  { unfold q, slice, payload. apply take_ge. rewrite length_drop. lia. }
  assert (Hql : length q = v_payloadLen v') by (unfold q; rewrite slice_length; lia).
  assert (Hpay : length (payload v (l3 s)) = (segs s * segSize s)%nat).
  { unfold payload. rewrite length_drop. lia. }
  exists {| v_ihl := v_ihl v; v_thl := v_thl v; v_seq := v_seq v; v_payloadOff := v_payloadOff v;
    v_payloadLen := v_payloadLen v + length q; v_key := v_key v |}. split; [|split; [|split; [reflexivity|]]].
  - split; cbn [l3 segs s_ihl s_thl segSize s_nextSeq grow_slot s']; try (apply Hf).
    + fold q. by apply parseV4TCP_app.
    + fold q. apply bytes_ok_app; [apply Hf|]. rewrite Hq. unfold payload. auto with mq.
    + rewrite length_app. fold q. unfold slotRoom. lia.
    + lia.
    + rewrite length_app. pose proof (fo_seg _ _ _ Hf). lia.
    + lia.
    + cbn [v_seq v_payloadLen]. rewrite (fo_next _ _ _ Hf), u32_idem_add. f_equal. rewrite Hql. lia.
    + intros _. rewrite length_app. fold q. lia.
  - cbn [v_payloadLen]. rewrite Hql. lia.
  - intros k'. unfold slot_pieces, pkt_pieces. cbn [segs l3 segSize s' grow_slot]. fold q.
    replace (segs s =? 0)%nat with false by (symmetry; apply Nat.eqb_neq; lia). cbn [Nat.eqb].
    unfold view_pieces. rewrite (parseV4TCP_app _ q v Hps), Hps, Hp. cbn [v_key v_seq].
    rewrite Hks, Hk. case_decide as Hd; [|done].
    assert (Hpl : payload {| v_ihl := v_ihl v; v_thl := v_thl v; v_seq := v_seq v; v_payloadOff := v_payloadOff v;
        v_payloadLen := v_payloadLen v + length q; v_key := k |} (l3 s ++ q) = payload v (l3 s) ++ q).
    { unfold payload. cbn [v_payloadOff]. apply drop_app_le. lia. }
    rewrite Hpl.
    assert (Hsq : 0 <= v_seq v < 4294967296) by (rewrite Esq; apply be32_range, Hf).
    rewrite (tso_app _ (segSize s) (segs s)); [|done|done|lia|rewrite !length_app; unfold payload; rewrite length_drop; lia].
    f_equal.
    + apply tso_fuel; rewrite ?length_app; unfold payload; rewrite length_drop; lia.
    + rewrite tso_single by (rewrite <- Hq; rewrite Hql; lia). rewrite <- Hq.
      destruct q as [|x q']; [done|]. do 2 f_equal.
      rewrite Hpay, <- Hx, <- (fo_next _ _ _ Hf). lia.
Qed.

Lemma start_ok now k v pkt : parseV4TCP pkt = Some v -> pkt_ok pkt -> v_key v = k ->
  let s := start_slot now v pkt in
  frame_ok k s v /\ v_payloadLen v = (segs s * segSize s)%nat /\ forall k', slot_pieces k' s = pkt_pieces k' pkt.
Proof.
  intros Hp [Hok Hl] Hk s. destruct (parseV4TCP_inv _ _ Hp) as (_ & _ & _ & _ & _ & El & _).
  assert (Ht : take (Z.to_nat slotRoom) pkt = pkt) by (apply take_ge; lia).
  split; [|split].
  - split; cbn [l3 segs s_ihl s_thl segSize s_nextSeq start_slot s]; rewrite ?Ht; try done; lia.
  - cbn. lia.
  - intros k'. unfold slot_pieces, pkt_pieces, view_pieces. cbn [segs l3 segSize s start_slot Nat.eqb]. rewrite Ht, Hp. done.
Qed.

Section Run.
Context (tunMaxSegs : nat) (tunNoCoalesce : bool) (flushIdle : Z).
Context (range : gmap bytes gsoSlot -> list (bytes * gsoSlot)).
Context (Hrange : forall m, Permutation (range m) (map_to_list m)).

Lemma range_in m k s : (k, s) ∈ range m <-> m !! k = Some s.
Proof using Hrange. rewrite Hrange. apply elem_of_map_to_list. Qed.
Lemma range_nodup m : NoDup (range m).*1.
Proof using Hrange. rewrite Hrange. apply NoDup_fst_map_to_list. Qed.

Lemma evictOldest_ok b k0 : batch_inv b -> slots b !! k0 = None -> (tunMaxFlowSlots <= size (slots b))%nat ->
  let b' := evictOldest range b in
  batch_inv b' /\ (size (slots b') < tunMaxFlowSlots)%nat /\ slots b' !! k0 = None /\
  forall k, batch_pieces k b' = batch_pieces k b.
Proof using Hrange.
  intros HI H0 Hsz. unfold evictOldest.
  destruct (oldest (range (slots b))) as [[k old]|] eqn:E.
  2:{ apply oldest_none in E. pose proof (Hrange (slots b)) as Hr. rewrite E in Hr. apply Permutation_length in Hr.
      rewrite length_map_to_list in Hr. cbn in Hr. unfold tunMaxFlowSlots in Hsz. lia. }
  apply oldest_in, range_in in E. cbv zeta.
  destruct (flushSlot_ok b k old HI E) as [HI1 HP1].
  assert (Hb1 : (if (0 <? segs old)%nat then flushSlot b k old else b) = flushSlot b k old).
  { unfold flushSlot. destruct (segs old); done. }
  rewrite Hb1.
  assert (Hk1 : exists s1, slots (flushSlot b k old) !! k = Some s1 /\ segs s1 = 0%nat).
  { rewrite flushSlot_slots. destruct (segs old =? 0)%nat eqn:Es; bool_hyps; [by exists old|].
    exists (reset_slot old). by rewrite lookup_insert_eq. }
  destruct Hk1 as (s1 & Hk1 & Hs1).
  assert (Hsz1 : size (slots (flushSlot b k old)) = size (slots b)).
  { rewrite flushSlot_slots. destruct (segs old =? 0)%nat; [done|]. by rewrite map_size_insert, E. }
  destruct (drop_slot_ok (flushSlot b k old) k s1 (reset_slot old) HI1 Hk1 Hs1 eq_refl) as [HI2 HP2].
  split; [exact HI2|]. split; [|split].
  - cbn [slots]. rewrite map_size_delete, Hk1. pose proof (bi_cap _ HI). unfold tunMaxFlowSlots in *. lia.
  - cbn [slots]. apply lookup_delete_None. destruct (decide (k = k0)) as [?|Hne]; [by left|]. right.
    rewrite flushSlot_slots. destruct (segs old =? 0)%nat; [done|]. by rewrite lookup_insert_ne.
  - intros k'. by rewrite HP2, HP1.
Qed.

Lemma getSlot_ok b k s b1 : batch_inv b -> getSlot range b k = (s, b1) ->
  batch_inv b1 /\ slots b1 !! k = Some s /\ forall k', batch_pieces k' b1 = batch_pieces k' b.
Proof using Hrange.
  intros HI H. unfold getSlot in H. destruct (slots b !! k) as [s0|] eqn:E.
  { injection H as <- <-. done. }
  set (b2 := if (tunMaxFlowSlots <=? size (slots b))%nat then evictOldest range b else b) in H.
  assert (H2 : batch_inv b2 /\ (size (slots b2) < tunMaxFlowSlots)%nat /\ slots b2 !! k = None /\
    forall k', batch_pieces k' b2 = batch_pieces k' b).
  { unfold b2. destruct (tunMaxFlowSlots <=? size (slots b))%nat eqn:Es; bool_hyps; [by apply evictOldest_ok|done]. }
  destruct H2 as (HI2 & Hsz2 & Hn2 & HP2).
  assert (Hfree : exists fr, Forall (fun s => segs s = 0%nat) fr /\ segs s = 0%nat /\
    b1 = {| slots := <[k := s]> (slots b2); free := fr; open := open b2; frames := frames b2 |}).
  { pose proof (bi_free _ HI2) as Hfr. destruct (last (free b2)) as [sl|] eqn:El; injection H as <- <-.
    - destruct (free b2) as [|x l] using rev_ind; [done|]. rewrite last_snoc in El. injection El as ->.
      apply Forall_app in Hfr as [Hf1 Hf2]. inversion Hf2; subst.
      exists l. split; [done|]. split; [done|]. rewrite removelast_last. done.
    - by exists (free b2). }
  destruct Hfree as (fr & Hfr & Hs & ->). cbn [slots]. split; [|split].
  - split; cbn [slots free open].
    + rewrite map_size_insert, Hn2. lia.
    + intros k' s' [[<- <-]|[_ H']]%lookup_insert_Some; [by left|by apply (bi_slots _ HI2)].
    + done.
    + rewrite in_use_insert, decide_False by lia. rewrite delete_id; [apply HI2|].
      apply map_lookup_filter_None. by left.
  - apply lookup_insert_eq.
  - intros k'. rewrite <- HP2. unfold batch_pieces. cbn [slots frames]. f_equal.
    rewrite open_pieces_insert. case_decide; [subst k'|done].
    unfold slot_pieces, open_pieces. by rewrite Hs, Hn2.
Qed.

Definition run_inv (b : TunGSOBatch) : Prop := batch_inv b /\ (tunNoCoalesce = true -> slots b = ∅).

(** A segment merged into the open frame of its flow. *)
Lemma grow_step_ok now b1 s v pkt : batch_inv b1 -> slots b1 !! v_key v = Some s -> bytes_ok pkt -> parseV4TCP pkt = Some v ->
  coalesces tunMaxSegs s v pkt = true ->
  let s' := grow_slot now s v pkt in
  let b2 := set_slot b1 (v_key v) s' in
  let b3 := if full_now tunMaxSegs s' v then flushSlot b2 (v_key v) s' else b2 in
  batch_inv b3 /\ forall k, batch_pieces k b3 = batch_pieces k b1 ++ pkt_pieces k pkt.
Proof using.
  intros HI1 Hs1 Hok Ep Ec. cbv zeta.
  assert (Hsegs : (0 < segs s)%nat) by (unfold coalesces in Ec; bool_hyps; lia).
  destruct (exact_frame _ _ (bi_slots _ HI1 _ _ Hs1) Hsegs) as (v0 & Hf & Hx).
  destruct (grow_ok tunMaxSegs now _ _ _ pkt Hf Hx v Ep Hok eq_refl Ec) as (v1 & Hf1 & Hx1 & Hsg & HPs).
  set (s' := grow_slot now s v pkt) in *. set (b2 := set_slot b1 (v_key v) s').
  assert (Hs2 : slots b2 !! v_key v = Some s') by apply lookup_insert_eq.
  assert (HP2 : forall k, batch_pieces k b2 = batch_pieces k b1 ++ pkt_pieces k pkt).
  { intros k. unfold batch_pieces, b2. cbn [set_slot slots frames].
    rewrite open_pieces_insert, <- app_assoc. f_equal. case_decide as Hd.
    - subst k. rewrite HPs. unfold open_pieces. by rewrite Hs1.
    - unfold pkt_pieces at 1, view_pieces. rewrite Ep, decide_False by congruence. by rewrite app_nil_r. }
  assert (Hopen : open b2 = Z.of_nat (size (in_use (slots b2)))).
  { unfold b2. cbn [set_slot slots open]. rewrite in_use_insert, decide_True by lia.
    rewrite map_size_insert. replace (in_use (slots b1) !! v_key v) with (Some s) by (symmetry; by apply in_use_lookup).
    apply HI1. }
  assert (Hcap : (size (slots b2) <= tunMaxFlowSlots)%nat).
  { unfold b2. cbn [set_slot slots]. rewrite map_size_insert, Hs1. apply HI1. }
  assert (Hoth : forall k' s', k' <> v_key v -> slots b2 !! k' = Some s' -> exact_slot k' s').
  { intros k' x Hne. unfold b2. cbn [set_slot slots]. rewrite lookup_insert_ne by done. apply (bi_slots _ HI1). }
  destruct (full_now tunMaxSegs s' v) eqn:Ef.
  - split.
    + apply flushSlot_inv; [exact Hs2|rewrite Hsg; lia|exact Hcap|exact Hoth|apply HI1|exact Hopen].
    + intros k. rewrite (flushSlot_pieces _ _ _ _ k Hs2 Hf1). apply HP2.
  - split; [|apply HP2]. split; [exact Hcap| |apply HI1|exact Hopen].
    intros k' x Hk'. destruct (decide (k' = v_key v)) as [->|Hne]; [|by apply Hoth].
    rewrite Hs2 in Hk'. injection Hk' as <-. right. exists v1. split; [done|].
    unfold full_now in Ef. bool_hyps. rewrite Hx1, Hsg.
    assert (segSize s' = segSize s) by done. unfold coalesces in Ec. bool_hyps. lia.
Qed.

(** A segment that starts a frame of its own. *)
Lemma start_step_ok now b1 s v pkt : batch_inv b1 -> slots b1 !! v_key v = Some s -> pkt_ok pkt -> parseV4TCP pkt = Some v ->
  let b2 := if (0 <? segs s)%nat then flushSlot b1 (v_key v) s else b1 in
  let b3 := set_slot b2 (v_key v) (start_slot now v pkt) in
  let b4 := {| slots := slots b3; free := free b3; open := open b3 + 1; frames := frames b3 |} in
  batch_inv b4 /\ forall k, batch_pieces k b4 = batch_pieces k b1 ++ pkt_pieces k pkt.
Proof using.
  intros HI1 Hs1 [Hok Hl] Ep. cbv zeta.
  assert (Hb2 : (if (0 <? segs s)%nat then flushSlot b1 (v_key v) s else b1) = flushSlot b1 (v_key v) s)
    by (unfold flushSlot; by destruct (segs s)).
  rewrite Hb2. destruct (flushSlot_ok b1 _ s HI1 Hs1) as [HI2 HP2].
  destruct (start_ok now _ v pkt Ep (conj Hok Hl) eq_refl) as (Hf & Hx & HPs).
  set (s' := start_slot now v pkt) in *. set (b2 := flushSlot b1 (v_key v) s) in *.
  assert (Hs2 : exists s2, slots b2 !! v_key v = Some s2 /\ segs s2 = 0%nat).
  { unfold b2. rewrite flushSlot_slots. destruct (segs s =? 0)%nat eqn:Es; bool_hyps; [by exists s|].
    exists (reset_slot s). by rewrite lookup_insert_eq. }
  destruct Hs2 as (s2 & Hs2 & Hz2).
  split.
  - split; cbn [set_slot slots free open].
    + rewrite map_size_insert, Hs2. apply HI2.
    + intros k' x [[<- <-]|[_ Hk']]%lookup_insert_Some; [right; by exists v|by apply (bi_slots _ HI2)].
    + apply HI2.
    + rewrite in_use_insert, decide_True by (cbn; lia).
      rewrite map_size_insert_None; [rewrite (bi_open _ HI2); lia|].
      apply map_lookup_filter_None. right. intros x Hx0. cbn. rewrite Hs2 in Hx0. injection Hx0 as <-. lia.
  - intros k. rewrite <- HP2. unfold batch_pieces. cbn [set_slot slots frames].
    rewrite open_pieces_insert, <- app_assoc. f_equal. case_decide as Hd.
    + subst k. rewrite HPs. unfold open_pieces, slot_pieces. by rewrite Hs2, Hz2.
    + unfold pkt_pieces at 1, view_pieces. rewrite Ep, decide_False by congruence. by rewrite app_nil_r.
Qed.

(** One packet. *)
Lemma Add_ok now b pkt : run_inv b -> pkt_ok pkt ->
  let b' := Add tunMaxSegs tunNoCoalesce range now b pkt in
  run_inv b' /\ forall k, batch_pieces k b' = batch_pieces k b ++ pkt_pieces k pkt.
Proof using Hrange.
  intros [HI Hmode] [Hok Hl]. unfold Add.
  assert (Hplain : (tunNoCoalesce = true \/ parseV4TCP pkt = None) ->
    run_inv (writeNonGSO b pkt) /\ forall k, batch_pieces k (writeNonGSO b pkt) = batch_pieces k b ++ pkt_pieces k pkt).
  { intros Hc. unfold writeNonGSO. replace (slotRoom <? _) with false by (symmetry; apply Z.ltb_ge; lia).
    split; [split; [split; apply HI|done]|]. intros k. unfold batch_pieces. cbn [writeFrame slots frames].
    rewrite map_app, concat_app. cbn [map concat]. rewrite app_nil_r.
    change (frame_pieces k (zero_hdr ++ pkt)) with (pkt_pieces k pkt).
    destruct Hc as [Hm|Hn].
    - rewrite (Hmode Hm). unfold open_pieces. by rewrite lookup_empty, !app_nil_r.
    - unfold pkt_pieces, view_pieces. rewrite Hn. by rewrite !app_nil_r. }
  destruct tunNoCoalesce eqn:Em; [by apply Hplain; left|].
  destruct (parseV4TCP pkt) as [v|] eqn:Ep; [|by apply Hplain; right]. clear Hplain.
  destruct (getSlot range b (v_key v)) as [s b1] eqn:Eg.
  destruct (getSlot_ok b (v_key v) s b1 HI Eg) as (HI1 & Hs1 & HP1).
  destruct (coalesces tunMaxSegs s v pkt) eqn:Ec.
  - destruct (grow_step_ok now b1 s v pkt HI1 Hs1 Hok Ep Ec) as [G1 G2]. cbv zeta in G1, G2.
    split; [split; [exact G1|congruence]|]. intros k. by rewrite G2, HP1.
  - destruct (start_step_ok now b1 s v pkt HI1 Hs1 (conj Hok Hl) Ep) as [G1 G2]. cbv zeta in G1, G2.
    split; [split; [exact G1|congruence]|]. intros k. by rewrite G2, HP1.
Qed.
(** Visiting a snapshot of the slot map with a step that keeps the invariant
    and the pieces and touches its own key only. *)
Lemma sweep_ok (visit : TunGSOBatch -> bytes * gsoSlot -> TunGSOBatch) :
  (forall b k s, batch_inv b -> slots b !! k = Some s ->
    batch_inv (visit b (k, s)) /\ (forall k', batch_pieces k' (visit b (k, s)) = batch_pieces k' b) /\
    (forall k', k' <> k -> slots (visit b (k, s)) !! k' = slots b !! k')) ->
  forall l b, batch_inv b -> NoDup l.*1 -> (forall k s, (k, s) ∈ l -> slots b !! k = Some s) ->
  let b' := foldl visit b l in
  batch_inv b' /\ (forall k', batch_pieces k' b' = batch_pieces k' b) /\
  (forall k, k ∉ l.*1 -> slots b' !! k = slots b !! k).
Proof using.
  intros Hv l. induction l as [|[k s] l IH]; intros b HI Hnd Hl; cbn [foldl]; [done|].
  rewrite fmap_cons in Hnd. apply NoDup_cons in Hnd as [Hn Hnd].
  destruct (Hv b k s HI) as (H1 & H2 & H3); [apply Hl; by left|].
  destruct (IH (visit b (k, s)) H1 Hnd) as (G1 & G2 & G3).
  { intros k' s' Hin. rewrite H3; [apply Hl; by right|]. intros ->. apply Hn. apply list_elem_of_fmap. by exists (k, s'). }
  split; [done|]. split; [intros k'; by rewrite G2|].
  intros k' Hk'. rewrite fmap_cons, not_elem_of_cons in Hk'. destruct Hk' as [Hne Hk'].
  rewrite G3 by done. by apply H3.
Qed.

Lemma flushSlot_other b k s k' : k' <> k -> slots (flushSlot b k s) !! k' = slots b !! k'.
Proof using. intros. rewrite flushSlot_slots. destruct (segs s =? 0)%nat; [done|]. by rewrite lookup_insert_ne. Qed.

Lemma flush_visit_ok now b k s : batch_inv b -> slots b !! k = Some s ->
  batch_inv (flush_visit flushIdle now b (k, s)) /\
  (forall k', batch_pieces k' (flush_visit flushIdle now b (k, s)) = batch_pieces k' b) /\
  (forall k', k' <> k -> slots (flush_visit flushIdle now b (k, s)) !! k' = slots b !! k').
Proof using.
  intros HI Hk. unfold flush_visit. destruct (0 <? segs s)%nat eqn:Es; bool_hyps.
  - destruct (flushIdle <=? now - lastGrow s); [|done].
    destruct (flushSlot_ok b k s HI Hk) as [H1 H2]. split_and!; try done. intros. by apply flushSlot_other.
  - destruct (slotReapIdle <=? now - lastGrow s); [|done].
    destruct (drop_slot_ok b k s s HI Hk) as [H1 H2]; [lia|lia|]. split_and!; try done.
    intros k' Hne. cbn [slots]. by rewrite lookup_delete_ne.
Qed.

Lemma range_snapshot b k s : (k, s) ∈ range (slots b) -> slots b !! k = Some s.
Proof using Hrange. apply range_in. Qed.

Lemma Flush_ok now b : run_inv b -> let b' := Flush flushIdle range now b in
  run_inv b' /\ forall k, batch_pieces k b' = batch_pieces k b.
Proof using Hrange.
  intros [HI Hm] b'. unfold b', Flush.
  destruct (sweep_ok _ (flush_visit_ok now) (range (slots b)) b HI (range_nodup _) (range_snapshot b)) as (H1 & H2 & H3).
  split; [|done]. split; [done|]. intros Ht. rewrite (Hm Ht) in *.
  apply map_eq. intros k. rewrite H3; [done|]. pose proof (Hrange ∅) as Hr. rewrite map_to_list_empty in Hr.
  symmetry in Hr. apply Permutation_nil in Hr. rewrite Hr. apply not_elem_of_nil.
Qed.

(** The effect of [Close] on a slot. *)
Lemma Close_ok b : batch_inv b -> let b' := Close range b in
  batch_inv b' /\ (forall k, batch_pieces k b' = batch_pieces k b) /\
  (forall k s, slots b' !! k = Some s -> segs s = 0%nat).
Proof using Hrange.
  intros HI b'. unfold b', Close.
  assert (Hv : forall b k s, batch_inv b -> slots b !! k = Some s ->
    batch_inv (flushSlot b k s) /\ (forall k', batch_pieces k' (flushSlot b k s) = batch_pieces k' b) /\
    (forall k', k' <> k -> slots (flushSlot b k s) !! k' = slots b !! k')).
  { intros b0 k s H0 Hk. destruct (flushSlot_ok b0 k s H0 Hk). split_and!; try done. intros. by apply flushSlot_other. }
  destruct (sweep_ok (fun b ks => flushSlot b ks.1 ks.2) Hv (range (slots b)) b HI (range_nodup _) (range_snapshot b))
    as (H1 & H2 & _).
  split; [done|]. split; [done|].
  (* every slot is visited *)
  assert (Hz : forall l b0, NoDup l.*1 -> (forall k s, (k, s) ∈ l -> slots b0 !! k = Some s) ->
    (forall k s, slots b0 !! k = Some s -> segs s = 0%nat \/ (k, s) ∈ l) ->
    forall k s, slots (foldl (fun b ks => flushSlot b ks.1 ks.2) b0 l) !! k = Some s -> segs s = 0%nat).
  { clear. induction l as [|[k0 s0] l IH]; intros b0 Hnd Hl Hc k s; cbn [foldl].
    - intros Hk. destruct (Hc _ _ Hk) as [?|Hin]; [done|]. by apply not_elem_of_nil in Hin.
    - rewrite fmap_cons in Hnd. apply NoDup_cons in Hnd as [Hn Hnd]. cbn [fst snd] in *. apply IH; [done| |].
      + intros k' s' Hin. rewrite flushSlot_other; [apply Hl; by right|]. intros ->. apply Hn.
        apply list_elem_of_fmap. by exists (k0, s').
      + intros k' s' Hk'. destruct (decide (k' = k0)) as [->|Hne].
        * left. rewrite flushSlot_slots in Hk'. destruct (segs s0 =? 0)%nat eqn:E; bool_hyps.
          -- rewrite (Hl k0 s0) in Hk' by (by left). by injection Hk' as <-.
          -- rewrite lookup_insert_eq in Hk'. by injection Hk' as <-.
        * rewrite flushSlot_other in Hk' by done. destruct (Hc _ _ Hk') as [?|Hin]; [by left|right].
          apply elem_of_cons in Hin as [[= -> ->]|?]; done. }
  apply Hz; [apply range_nodup|apply range_snapshot|]. intros k s Hk. right. by apply range_in.
Qed.

Definition gso_apply (b : TunGSOBatch) (o : gso_op) : TunGSOBatch :=
  match o with
  | OpAdd now pkt => Add tunMaxSegs tunNoCoalesce range now b pkt
  | OpFlush now => Flush flushIdle range now b
  end.
Definition gso_run (ops : list gso_op) (b : TunGSOBatch) : TunGSOBatch := foldl gso_apply b ops.

Lemma gso_run_ok ops b : run_inv b -> Forall op_ok ops ->
  run_inv (gso_run ops b) /\
  forall k, batch_pieces k (gso_run ops b) = batch_pieces k b ++ concat (map (pkt_pieces k) (op_pkts ops)).
Proof using Hrange.
  revert b. induction ops as [|o ops IH]; intros b Hb Hops; cbn [foldl gso_run].
  { split; [done|]. intros. by rewrite app_nil_r. }
  inversion Hops as [|? ? Ho Hops']; subst.
  assert (H : run_inv (gso_apply b o) /\ forall k, batch_pieces k (gso_apply b o) =
    batch_pieces k b ++ concat (map (pkt_pieces k) (op_pkts [o]))).
  { destruct o as [now pkt|now]; cbn [gso_apply].
    - destruct (Add_ok now b pkt Hb Ho) as [H1 H2]. split; [done|]. intros k. rewrite H2. cbn. by rewrite app_nil_r.
    - destruct (Flush_ok now b Hb) as [H1 H2]. split; [done|]. intros k. rewrite H2. cbn. by rewrite app_nil_r. }
  destruct H as [H1 H2]. destruct (IH _ H1 Hops') as [G1 G2]. split; [done|]. intros k.
  change (foldl gso_apply (gso_apply b o) ops) with (gso_run ops (gso_apply b o)).
  rewrite G2, H2, <- app_assoc. f_equal. unfold op_pkts. cbn [map concat]. rewrite app_nil_r.
  by rewrite <- concat_app, <- map_app.
Qed.
End Run.

(** The run from an empty batch, closed. *)
Lemma gso_stream tunMaxSegs tunNoCoalesce flushIdle range (Hr : forall m, Permutation (range m) (map_to_list m)) ops : Forall op_ok ops ->
  let b := Close range (gso_run tunMaxSegs tunNoCoalesce flushIdle range ops {| slots := ∅; free := []; open := 0; frames := [] |}) in
  (forall k, concat (map (frame_pieces k) (frames b)) = concat (map (pkt_pieces k) (op_pkts ops))) /\
  Empty b = true.
Proof.
  intros Hops. set (b0 := {| slots := ∅; free := []; open := 0; frames := [] |}). intros b.
  destruct (gso_run_ok tunMaxSegs tunNoCoalesce flushIdle range Hr ops b0) as [[H1 _] H2]; [|done|].
  { split; [apply gso_empty_inv|done]. }
  destruct (Close_ok range Hr _ H1) as (H3 & H4 & H5). fold b in H3, H4, H5. split.
  - intros k. specialize (H4 k). rewrite H2 in H4. unfold batch_pieces at 1 in H4.
    assert (Ho : open_pieces k (slots b) = []).
    { unfold open_pieces. destruct (slots b !! k) as [s|] eqn:E; [|done]. unfold slot_pieces. by rewrite (H5 _ _ E). }
    by rewrite Ho, app_nil_r in H4.
  - unfold Empty. rewrite (bi_open _ H3). apply Z.eqb_eq.
    assert (Hi : in_use (slots b) = ∅); [|by rewrite Hi, map_size_empty].
    apply map_eq. intros k. rewrite lookup_empty. apply map_lookup_filter_None. right. intros s Hs. cbn.
    rewrite (H5 _ _ Hs). lia.
Qed.

(** C6.  Stream fidelity: whatever packets are added (TCP or not, any flows,
    any sizes the buffers hold), whatever flushes happen in between and
    whatever order Go ranges over the slot map, once the batch is closed the
    data segments the kernel cuts out of the written frames are, for every
    flow, exactly the data segments of the packets that were added, with their
    sequence numbers and in the order they were added. *)
Theorem gso_stream_fidelity tunMaxSegs tunNoCoalesce flushIdle range tunFd b0 ops :
  (forall m, Permutation (range m) (map_to_list m)) ->
  NewTunGSOBatch tunFd = Some b0 -> Forall op_ok ops ->
  let b := Close range (gso_run tunMaxSegs tunNoCoalesce flushIdle range ops b0) in
  (forall k, concat (map (frame_pieces k) (frames b)) = concat (map (pkt_pieces k) (op_pkts ops))) /\
  Empty b = true.
Proof.
  intros Hr Hb0 Hops b. unfold NewTunGSOBatch in Hb0. destruct (tunFd <? 0); [done|]. injection Hb0 as <-. by apply gso_stream.
Qed.

(** A TCP segment of flow 10.0.0.2:40000 -> 8.8.8.8:443 with sequence number
    [s], acknowledgement [a], flags [fl] and payload [p]. *)
Definition tcp_seg (s a fl : Z) (p : bytes) : bytes :=
  put32 (put32 ([69;0;0;0;0;0;64;0;64;6;0;0;10;0;0;2;8;8;8;8;156;64;1;187;0;0;0;0;0;0;0;0;80;fl;32;0;0;0;0;0] ++ p) 24 s) 28 a.

Lemma gso_stream_fidelity_witness :
  let ops := [OpAdd 0 (tcp_seg 100 1 16 [1;2;3;4]); OpAdd 1 (tcp_seg 104 1 16 [5;6;7;8]); OpFlush 5;
              OpAdd 6 (tcp_seg 108 1 16 [9])] in
  exists b0, NewTunGSOBatch 3 = Some b0 /\
  let b := Close map_to_list (gso_run 64 false 120000 map_to_list ops b0) in
  concat (map (frame_pieces [10;0;0;2;8;8;8;8;156;64;1;187]) (frames b)) = [(100, [1;2;3;4]); (104, [5;6;7;8]); (108, [9])] /\
  length (frames b) = 1%nat.
Proof.
  intros ops. eexists. split; [reflexivity|]. intros b.
  split; [|vm_compute; reflexivity].
  destruct (gso_stream_fidelity 64 false 120000 map_to_list 3 {| slots := ∅; free := []; open := 0; frames := [] |} ops)
    as [H _].
  - intros m. reflexivity.
  - reflexivity.
  - repeat (apply Forall_cons; split; [first [exact I|split; [apply bytes_okb_ok; reflexivity|vm_compute; discriminate]]|]).
    apply Forall_nil. exact I.
  - unfold b. rewrite H. vm_compute. reflexivity.
Defined.

(** ** Validity of a super-frame *)

Lemma slice4 b i : (i + 4 <= length b)%nat -> slice b i (i + 4) = [b.[i]; b.[i + 1]; b.[i + 2]; b.[i + 3]].
Proof.
  intros H. unfold slice. replace (i + 4 - i)%nat with 4%nat by lia.
  rewrite (drop_S b (b.[i]) i) by (apply lookup_byte_at; lia).
  rewrite (drop_S b (b.[S i]) (S i)) by (apply lookup_byte_at; lia).
  rewrite (drop_S b (b.[S (S i)]) (S (S i))) by (apply lookup_byte_at; lia).
  rewrite (drop_S b (b.[S (S (S i))]) (S (S (S i)))) by (apply lookup_byte_at; lia).
  cbn [take]. rewrite take_0. by rewrite !Nat.add_succ_r, Nat.add_0_r.
Qed.

Lemma wsum_slice4 b i : (i + 4 <= length b)%nat -> wsum (slice b i (i + 4)) = be16 b i + be16 b (i + 2).
Proof.
  intros H. rewrite slice4 by done. cbn [wsum]. unfold be16. rewrite !Nat.add_succ_r, !Nat.add_0_r. lia.
Qed.

Lemma bytes_ok_slice b i j : bytes_ok b -> bytes_ok (slice b i j).
Proof. intros. unfold slice. auto with mq. Qed.
#[export] Hint Resolve bytes_ok_slice : mq.

(** The seed is the folded pseudo-header sum. *)
Lemma seed_cong src dst len : bytes_ok src -> bytes_ok dst -> length src = 4%nat -> length dst = 4%nat ->
  0 <= len < 65536 -> exists k, tcpPseudoSeedV4 src dst len = wsum src + wsum dst + 6 + len + 65535 * k /\
    0 <= tcpPseudoSeedV4 src dst len < 65536.
Proof.
  intros H1 H2 L1 L2 Hl. unfold tcpPseudoSeedV4.
  pose proof (wsum_bound src H1). pose proof (wsum_bound dst H2). pose proof (wsum_nonneg src H1). pose proof (wsum_nonneg dst H2).
  rewrite L1, L2 in *.
  rewrite (sum16_wsum src 0), (sum16_wsum dst) by (done || lia).
  rewrite (u32_small (0 + wsum src + wsum dst + 6)) by lia. rewrite u32_small by lia. rewrite fold16_norm by lia.
  destruct (ones_norm_cong (0 + wsum src + wsum dst + 6 + len)) as [k Hk].
  exists k. split; [lia|]. apply ones_norm_range. lia.
Qed.

(** What the device does with CHECKSUM_PARTIAL metadata: sum from csum_start,
    seed included, and store the complement at csum_start + csum_offset. *)
Definition offload (f : bytes) : bytes :=
  let ip := drop vnetHdrLen f in
  let start := Z.to_nat (le16 f 6) in
  put16 ip (start + Z.to_nat (le16 f 8)) (not16 (ones_norm (wsum (drop start ip)))).

Section Super.
Context (k : bytes) (s : gsoSlot) (v : tcpView) (Hf : frame_ok k s v).
Let i := s_ihl s.
Let ip1 := <[11%nat:=0]> (<[10%nat:=0]> (put16 (l3 s) 2 (Z.of_nat (length (l3 s))))).
Let ip2 := seal_ip (l3 s) i.
Let ip := sealed s.

Lemma super_len : (20 <= i)%nat /\ (i + 20 <= length (l3 s))%nat /\ Z.of_nat (length (l3 s)) <= 64128.
Proof using Hf.
  destruct (parseV4TCP_inv _ _ (fo_parse _ _ _ Hf)) as (_ & E2 & _ & E4 & _ & E6 & _).
  pose proof (fo_ihl _ _ _ Hf). pose proof (fo_len _ _ _ Hf). unfold i, slotRoom, gsoMaxL3 in *. lia.
Qed.

Lemma super_bytes : bytes_ok ip1 /\ bytes_ok ip2 /\ bytes_ok ip.
Proof using Hf.
  assert (H1 : bytes_ok ip1).
  { unfold ip1. apply bytes_ok_insert; [apply bytes_ok_insert|]; try lia. apply bytes_ok_put16, Hf. }
  assert (H2 : bytes_ok ip2) by (unfold ip2, seal_ip; fold ip1; auto with mq).
  split; [done|]. split; [done|]. unfold ip, sealed, seed_tcp. auto with mq.
Qed.

Lemma super_at n : (n < 2 \/ 4 <= n < 10 \/ 12 <= n)%nat -> n <> (i + 16)%nat -> n <> (i + 17)%nat -> ip.[n] = (l3 s).[n].
Proof using. intros. unfold byte_at. rewrite !nth_lookup. unfold ip. by rewrite sealed_lookup. Qed.

Lemma super_ihl : ihl_of ip = i.
Proof using Hf.
  destruct (parseV4TCP_inv _ _ (fo_parse _ _ _ Hf)) as (E1 & _). pose proof super_len.
  rewrite (ihl_of_ext ip (l3 s)) by (apply super_at; lia). unfold i. rewrite (fo_ihl _ _ _ Hf). congruence.
Qed.

Lemma super_ip_total : csum_ok (ip_total ip).
Proof using Hf.
  destruct super_len as (Hi & Hl & Hb). destruct super_bytes as (B1 & B2 & B3).
  assert (L1 : length ip1 = length (l3 s)) by (unfold ip1; by rewrite !length_insert, put16_length).
  assert (Hp : 0 < (l3 s).[0]).
  { destruct (parseV4TCP_inv _ _ (fo_parse _ _ _ Hf)) as (_ & _ & _ & _ & _ & _ & _ & _ & E9 & _).
    rewrite Z.shiftr_div_pow2 in E9 by lia. change (2 ^ 4) with 16 in E9.
    pose proof (Z.div_mod ((l3 s).[0]) 16). pose proof (Z.mod_pos_bound ((l3 s).[0]) 16). lia. }
  assert (A0 : (take i ip1).[0] = (l3 s).[0]).
  { rewrite byte_at_take by lia. unfold ip1. rewrite !byte_at_insert_ne, byte_at_put16_ne by lia. done. }
  assert (Bt : bytes_ok (take i ip1)) by auto with mq.
  assert (Lt : length (take i ip1) = i) by (rewrite length_take; lia).
  assert (Hpos : 0 < wsum (take i ip1)) by (apply (wsum_pos_first _ 0); [done|lia|rewrite A0; lia]).
  assert (Hbd : wsum (take i ip1) < 4294967296) by (pose proof (wsum_bound _ Bt); lia).
  unfold ip_total. rewrite super_ihl. unfold ip, sealed, seed_tcp. rewrite take_put16_ge by (fold i; lia).
  unfold seal_ip. fold i. fold ip1. rewrite take_put16_lt by lia.
  rewrite sum16_wsum by (done || lia). rewrite fold16_norm by lia. rewrite Z.add_0_l.
  apply wsum_seal; try done; [by exists 5%nat|lia|].
  unfold be16. rewrite !byte_at_take by lia. unfold ip1.
  rewrite (byte_at_insert_ne _ 11 10), (byte_at_insert_eq _ 10) by (rewrite ?put16_length; lia).
  rewrite byte_at_insert_eq by (rewrite length_insert, put16_length; lia). done.
Qed.

Lemma super_iplen : be16 ip 2 = Z.of_nat (length ip).
Proof using Hf.
  destruct super_len as (Hi & Hl & Hb). unfold ip. rewrite sealed_length. unfold sealed, seed_tcp, seal_ip.
  rewrite !be16_put16_ne by (fold i; lia). unfold be16. rewrite !byte_at_insert_ne by lia.
  apply be16_put16_eq; lia.
Qed.

Lemma super_l4 : csum_ok (l4_total (put16 ip (i + 16) (not16 (ones_norm (wsum (drop i ip)))))).
Proof using Hf.
  destruct super_len as (Hi & Hl & Hb). destruct super_bytes as (B1 & B2 & B3).
  assert (L : length ip = length (l3 s)) by apply sealed_length.
  assert (L2 : length ip2 = length (l3 s)) by apply seal_ip_length.
  set (c := not16 (ones_norm (wsum (drop i ip)))).
  assert (Hc : 0 <= c < 65536) by apply not16_range.
  set (q := put16 ip (i + 16) c).
  assert (Eq : forall j, (j < i)%nat -> q.[j] = ip.[j]) by (intros; unfold q; by rewrite byte_at_put16_ne by lia).
  assert (Eih : ihl_of q = i) by (rewrite <- super_ihl; apply ihl_of_ext, Eq; lia).
  assert (Bq : bytes_ok q) by (unfold q; auto with mq).
  assert (H9 : q.[9] = 6).
  { rewrite Eq, super_at by lia. by destruct (parseV4TCP_inv _ _ (fo_parse _ _ _ Hf)) as (_ & _ & _ & _ & _ & _ & _ & E8 & _). }
  pose proof (wsum_nonneg (drop i ip) ltac:(auto with mq)) as Hnn.
  set (seed := tcpPseudoSeedV4 (slice ip2 12 16) (slice ip2 16 20) (u16 (Z.of_nat (length ip2 - i)))).
  destruct (seed_cong (slice ip2 12 16) (slice ip2 16 20) (u16 (Z.of_nat (length ip2 - i)))) as (k1 & Hk1 & Hs);
    [auto with mq..|rewrite slice_length; lia|rewrite slice_length; lia|apply u16_range|].
  fold seed in Hk1, Hs. rewrite u16_small in Hk1 by lia.
  change 16%nat with (12 + 4)%nat in Hk1 at 1. change 20%nat with (16 + 4)%nat in Hk1.
  rewrite !wsum_slice4 in Hk1 by lia. simpl Nat.add in Hk1.
  assert (Esl : forall j, (12 <= j)%nat -> (j + 2 <= i)%nat -> be16 ip2 j = be16 q j).
  { intros j ? ?. unfold be16. rewrite !Eq by lia. unfold ip, sealed, seed_tcp. fold i. fold ip2.
    by rewrite !byte_at_put16_ne by lia. }
  assert (Hdrop : drop i ip = put16 (drop i ip2) 16 seed).
  { unfold ip, sealed, seed_tcp. fold i. fold ip2. fold seed. rewrite drop_put16_ge by lia.
    by replace (i + 16 - i)%nat with 16%nat by lia. }
  assert (Ld : length (drop i ip) = (length ip - i)%nat) by apply length_drop.
  assert (Hfield : be16 (drop i ip) 16 = seed).
  { rewrite Hdrop. apply be16_put16_eq; [|done]. rewrite length_drop. lia. }
  assert (Hq : wsum (drop (ihl_of q) q) = wsum (drop i ip) - seed + c).
  { rewrite Eih. unfold q. rewrite drop_put16_ge by lia. replace (i + 16 - i)%nat with 16%nat by lia.
    rewrite wsum_put16; [by rewrite Hfield|by exists 8%nat|lia|done]. }
  destruct (ones_norm_cong (wsum (drop i ip))) as [k2 Hk2].
  assert (Hcv : c = 65535 - ones_norm (wsum (drop i ip))).
  { unfold c, not16. rewrite u16_small; [done|]. by apply ones_norm_range. }
  unfold l4_total. fold c. fold q. rewrite Hq, H9, Eih. rewrite !Esl in Hk1 by lia.
  assert (Lq : length q = length ip) by apply put16_length. rewrite Lq.
  assert (Hn1 : 0 <= wsum (drop (ihl_of q) q)) by (apply wsum_nonneg; auto with mq). rewrite Hq in Hn1.
  pose proof (be16_range q 12 Bq). pose proof (be16_range q 14 Bq). pose proof (be16_range q 16 Bq). pose proof (be16_range q 18 Bq).
  assert (Hle : length ip2 = length ip) by lia. rewrite Hle in Hk1.
  split; [|lia].
  replace (be16 q 12 + be16 q 14 + (be16 q 16 + be16 q 18) + 6 + Z.of_nat (length ip - i) + (wsum (drop i ip) - seed + c))
    with ((1 - k1 - k2) * 65535) by lia.
  apply Z.mod_mul. lia.
Qed.
End Super.

(** A super-frame is well formed: the virtio-net header announces the
    header length, the segment size and the checksum position of the packet
    behind it; the IP total length is the coalesced length and the IP header
    checksum is valid; and the TCP field holds the seed over the full coalesced
    length, so that the checksum the device completes is valid. *)
Theorem super_frame_valid k s v :
  frame_ok k s v -> (2 <= segs s)%nat ->
  let f := slot_frame s in
  let ip := drop vnetHdrLen f in
  f.[0] = vFNeedsCsum /\ f.[1] = vGSOTcpv4 /\
  le16 f 2 = Z.of_nat (ihl_of ip + v_thl v) /\ le16 f 4 = Z.of_nat (segSize s) /\
  le16 f 6 = Z.of_nat (ihl_of ip) /\ le16 f 8 = 16 /\
  length ip = length (l3 s) /\
  be16 ip 2 = Z.of_nat (length ip) /\ csum_ok (ip_total ip) /\ csum_ok (l4_total (offload f)).
Proof.
  intros Hf H2 f ip.
  assert (Ef : f = vnet_hdr s ++ sealed s).
  { unfold f, slot_frame. destruct (segs s =? 1)%nat eqn:E; bool_hyps; [lia|done]. }
  assert (Ei : ip = sealed s) by (unfold ip; by rewrite Ef).
  destruct (super_len k s v Hf) as (Hi & Hl & Hb). pose proof (fo_seg _ _ _ Hf).
  destruct (parseV4TCP_inv _ _ (fo_parse _ _ _ Hf)) as (_ & _ & _ & _ & _ & Et & _).
  assert (Hfld : le16 f 2 = Z.of_nat (s_ihl s + s_thl s) /\ le16 f 4 = Z.of_nat (segSize s) /\
    le16 f 6 = Z.of_nat (s_ihl s) /\ le16 f 8 = 16).
  { rewrite Ef. rewrite (fo_thl _ _ _ Hf), (fo_ihl _ _ _ Hf) in *.
    change (le16 (vnet_hdr s ++ sealed s) 2) with (le16 (le16_bytes (Z.of_nat (s_ihl s + s_thl s))) 0).
    change (le16 (vnet_hdr s ++ sealed s) 4) with (le16 (le16_bytes (Z.of_nat (segSize s))) 0).
    change (le16 (vnet_hdr s ++ sealed s) 6) with (le16 (le16_bytes (Z.of_nat (s_ihl s))) 0).
    change (le16 (vnet_hdr s ++ sealed s) 8) with (le16 (le16_bytes 16) 0).
    rewrite (fo_thl _ _ _ Hf), (fo_ihl _ _ _ Hf). rewrite !le16_le16_bytes by lia. done. }
  destruct Hfld as (F2 & F4 & F6 & F8).
  assert (Eih : ihl_of ip = s_ihl s) by (rewrite Ei; by eapply super_ihl).
  rewrite Eih, F2, F4, F6, F8, (fo_thl _ _ _ Hf).
  split; [by rewrite Ef|]. split; [by rewrite Ef|]. split_and!; try done.
  - rewrite Ei. apply sealed_length.
  - rewrite Ei. by eapply super_iplen.
  - rewrite Ei. by eapply super_ip_total.
  - unfold offload. rewrite F6, F8. fold ip. rewrite Nat2Z.id. rewrite Ei. change (Z.to_nat 16) with 16%nat.
    by eapply super_l4.
Qed.

Lemma super_frame_valid_witness :
  let p1 := tcp_seg 100 1 16 [1;2;3;4] in let p2 := tcp_seg 104 1 16 [5;6;7;8] in
  exists v1 v2, parseV4TCP p1 = Some v1 /\ parseV4TCP p2 = Some v2 /\
  let s := grow_slot 1 (start_slot 0 v1 p1) v2 p2 in
  csum_ok (ip_total (drop vnetHdrLen (slot_frame s))) /\ csum_ok (l4_total (offload (slot_frame s))).
Proof.
  intros p1 p2. eexists. eexists. split; [vm_compute; reflexivity|]. split; [vm_compute; reflexivity|].
  match goal with |- context [start_slot 0 ?a p1] => set (v1 := a) end.
  match goal with |- context [grow_slot 1 _ ?a p2] => set (v2 := a) end.
  intros s.
  assert (E1 : parseV4TCP p1 = Some v1) by (vm_compute; reflexivity).
  assert (E2 : parseV4TCP p2 = Some v2) by (vm_compute; reflexivity).
  assert (O1 : pkt_ok p1) by (split; [apply bytes_okb_ok; reflexivity|vm_compute; discriminate]).
  destruct (start_ok 0 _ v1 p1 E1 O1 eq_refl) as (F1 & X1 & _).
  destruct (grow_ok 64 1 _ _ _ p2 F1 X1 v2 E2) as (v3 & F3 & _ & _ & _);
    [apply bytes_okb_ok; reflexivity|reflexivity|vm_compute; reflexivity|].
  destruct (super_frame_valid _ s v3 F3) as (_ & _ & _ & _ & _ & _ & _ & _ & H1 & H2).
  - vm_compute. lia.
  - split; [exact H1|exact H2].
Defined.

(** The TCP flags and acknowledgement number of the packet behind a frame. *)
Definition frame_flags (f : bytes) : Z := (drop (ihl_of (drop vnetHdrLen f)) (drop vnetHdrLen f)).[13].
Definition frame_ack (f : bytes) : Z := be32 (drop vnetHdrLen f) (ihl_of (drop vnetHdrLen f) + 8).

(** Flags are lost: [Add] compares sequence numbers, header lengths and
    options but not the TCP flags, so a segment carrying FIN (and the last bytes
    of the stream) that follows the open frame is merged into it; its bytes are
    sent, and no frame written to the device carries the FIN. *)
Theorem gso_fin_lost :
  exists p1 p2 b0, NewTunGSOBatch 3 = Some b0 /\ pkt_ok p1 /\ pkt_ok p2 /\
    Z.land (frame_flags (zero_hdr ++ p2)) 1 = 1 /\
    let b := Close map_to_list (gso_run 64 false 120000 map_to_list [OpAdd 0 p1; OpAdd 1 p2] b0) in
    concat (map (frame_pieces [10;0;0;2;8;8;8;8;156;64;1;187]) (frames b)) = [(100, [1;2;3;4]); (104, [5;6])] /\
    length (frames b) = 1%nat /\ Forall (fun f => Z.land (frame_flags f) 1 = 0) (frames b).
Proof.
  exists (tcp_seg 100 1 16 [1;2;3;4]), (tcp_seg 104 1 17 [5;6]). eexists. split; [reflexivity|].
  split; [split; [apply bytes_okb_ok; reflexivity|vm_compute; discriminate]|].
  split; [split; [apply bytes_okb_ok; reflexivity|vm_compute; discriminate]|].
  split; [vm_compute; reflexivity|]. cbv zeta. split; [vm_compute; reflexivity|]. split; [vm_compute; reflexivity|].
  match goal with |- Forall _ ?l => let x := eval vm_compute in l in change (Forall (fun f => Z.land (frame_flags f) 1 = 0) x) end.
  apply Forall_cons. split; [vm_compute; reflexivity|]. apply Forall_nil. exact I.
Qed.

(** Pure acknowledgements are merged: two data-less segments of a flow
    with the same sequence number and options leave as one frame that announces
    TCP segmentation with a segment size of zero and carries the first
    acknowledgement number; the second one is never sent. *)
Theorem gso_ack_merged :
  exists p1 p2 b0, NewTunGSOBatch 3 = Some b0 /\ pkt_ok p1 /\ pkt_ok p2 /\
    frame_ack (zero_hdr ++ p1) = 5000 /\ frame_ack (zero_hdr ++ p2) = 9000 /\
    let b := Close map_to_list (gso_run 64 false 120000 map_to_list [OpAdd 0 p1; OpAdd 1 p2] b0) in
    map (fun f => (f.[1], le16 f 4, frame_ack f)) (frames b) = [(vGSOTcpv4, 0, 5000)].
Proof.
  exists (tcp_seg 100 5000 16 []), (tcp_seg 100 9000 16 []). eexists. split; [reflexivity|].
  split; [split; [apply bytes_okb_ok; reflexivity|vm_compute; discriminate]|].
  split; [split; [apply bytes_okb_ok; reflexivity|vm_compute; discriminate]|].
  split; [vm_compute; reflexivity|]. split; vm_compute; reflexivity.
Qed.

(** The slot table: after any sequence of additions and flushes there are
    at most [tunMaxFlowSlots] slots, [Empty] answers whether no frame is open,
    and every open slot holds one flow's packet with whole segments of its
    segment size, the next expected sequence number and at most
    [gsoMaxL3] bytes once it holds two segments. *)
Theorem gso_slots_bounded tunMaxSegs tunNoCoalesce flushIdle range tunFd b0 ops :
  (forall m, Permutation (range m) (map_to_list m)) ->
  NewTunGSOBatch tunFd = Some b0 -> Forall op_ok ops ->
  let b := gso_run tunMaxSegs tunNoCoalesce flushIdle range ops b0 in
  (size (slots b) <= tunMaxFlowSlots)%nat /\
  (Empty b = true <-> forall k s, slots b !! k = Some s -> segs s = 0%nat) /\
  (forall k s, slots b !! k = Some s -> (0 < segs s)%nat ->
     exists v, frame_ok k s v /\ v_payloadLen v = (segs s * segSize s)%nat).
Proof.
  intros Hr Hb0 Hops b.
  assert (E0 : b0 = {| slots := ∅; free := []; open := 0; frames := [] |}).
  { unfold NewTunGSOBatch in Hb0. destruct (tunFd <? 0); [done|]. by injection Hb0. }
  destruct (gso_run_ok tunMaxSegs tunNoCoalesce flushIdle range Hr ops b0) as [[H1 _] _]; [|done|].
  { subst b0. split; [apply gso_empty_inv|done]. }
  fold b in H1. split; [apply H1|]. split.
  - unfold Empty. rewrite (bi_open _ H1), Z.eqb_eq. split.
    + intros Hz k s Hk. destruct (decide (0 < segs s)%nat) as [Hs|]; [|lia].
      assert (Hu : in_use (slots b) !! k = Some s) by (by apply in_use_lookup).
      assert (Hz' : size (in_use (slots b)) = 0%nat) by lia. apply map_size_empty_inv in Hz'.
      by rewrite Hz', lookup_empty in Hu.
    + intros Hs. assert (Hi : in_use (slots b) = ∅); [|by rewrite Hi, map_size_empty].
      apply map_eq. intros k. rewrite lookup_empty. apply map_lookup_filter_None. right. intros s Hk. cbn.
      rewrite (Hs _ _ Hk). lia.
  - intros k s Hk Hs. apply exact_frame; [|done]. by apply (bi_slots _ H1).
Qed.

Lemma gso_slots_bounded_witness :
  exists b0, NewTunGSOBatch 3 = Some b0 /\
  let b := gso_run 64 false 120000 map_to_list [OpAdd 0 (tcp_seg 100 1 16 [1;2;3;4])] b0 in
  (size (slots b) <= tunMaxFlowSlots)%nat.
Proof.
  eexists. split; [reflexivity|].
  eapply (gso_slots_bounded 64 false 120000 map_to_list 3); [intros m; reflexivity|reflexivity|].
  apply Forall_cons. split; [split; [apply bytes_okb_ok; reflexivity|vm_compute; discriminate]|apply Forall_nil; exact I].
Defined.
