(* ===== verification/Session.v ===== *)
(** * Tunnel selection and the session table (xdp/tunnel.go, utility/flowhash.go)

    The two flow hashes, the groups of bonded tunnels, registration and removal,
    delivery of a return packet, the address pool and the framing helpers.  A
    [*TunnelSession] is identified by [sid]; an IPv4 address is its 32-bit
    value; [SendDatagram] is a parameter. *)
From S2P Require Import Prelude Words TcpParse.
Local Open Scope Z_scope.
Local Open Scope masqued_scope.

(** ** Flow hashes *)

Definition offset32 : Z := 2166136261.
Definition prime32 : Z := 16777619.

(** [h ^= uint32(b); h *= prime32]. *)
Definition mix (h b : Z) : Z := u32 (Z.lxor h b * prime32).

(** utility/flowhash.go [FlowHash]. *)
Definition FlowHash (ip : bytes) : Z :=
  if (length ip <? 20)%nat || negb (Z.shiftr ip.[0] 4 =? 4) then foldl mix offset32 (take 20 ip)
  else
    let h := foldl mix offset32 (slice ip 12 20) in
    let proto := ip.[9] in
    let h := mix h proto in
    let ihl := ihl_of ip in
    if ((proto =? 6) || (proto =? 17)) && (20 <=? ihl)%nat && (ihl + 4 <=? length ip)%nat
    then mix (mix (mix (mix h ip.[ihl]) ip.[ihl + 1]) ip.[ihl + 2]) ip.[ihl + 3]
    else h.

(** [bytes.Compare]. *)
Fixpoint bytes_compare (a b : bytes) : comparison :=
  match a, b with
  | [], [] => Eq
  | [], _ => Lt
  | _, [] => Gt
  | x :: a, y :: b => match x ?= y with Eq => bytes_compare a b | c => c end
  end.

(** The canonical byte sequence of [flowHashSym]. *)
Definition flow_bytes (loIP : bytes) (loPort : Z) (hiIP : bytes) (hiPort proto : Z) : bytes :=
  loIP ++ [u8 (Z.shiftr loPort 8); u8 loPort] ++ hiIP ++ [u8 (Z.shiftr hiPort 8); u8 hiPort] ++ [proto].

Definition flow_ports (pkt : bytes) : Z * Z :=
  let ihl := ihl_of pkt in
  if ((pkt.[9] =? 6) || (pkt.[9] =? 17)) && (ihl + 4 <=? length pkt)%nat
  then (be16 pkt ihl, be16 pkt (ihl + 2)) else (0, 0).

(** xdp/tunnel.go [flowHashSym]. *)
Definition flowHashSym (pkt : bytes) : Z :=
  let srcIP := slice pkt 12 16 in
  let dstIP := slice pkt 16 20 in
  let '(srcPort, dstPort) := flow_ports pkt in
  let swap := match bytes_compare srcIP dstIP with Gt => true | Eq => dstPort <? srcPort | Lt => false end in
  foldl mix offset32
    (if swap then flow_bytes dstIP dstPort srcIP srcPort pkt.[9] else flow_bytes srcIP srcPort dstIP dstPort pkt.[9]).

(** ** Sessions *)

Record TunnelSession := { sid : Z; InnerIP : Z; TunnelIndex : nat }.
Global Instance TunnelSession_eq_dec : EqDecision TunnelSession.
Proof. solve_decision. Defined.

Record sessionGroup := { sessions : list (option TunnelSession); gcount : nat }.

(** The first live tunnel. *)
Definition first_live (l : list (option TunnelSession)) : option TunnelSession := head (omap id l).

Definition pick (g : sessionGroup) (pkt : bytes) : option TunnelSession :=
  if (gcount g <=? 0)%nat || (length (sessions g) =? 0)%nat then None
  else
    let idx := Z.to_nat (flowHashSym pkt mod Z.of_nat (gcount g)) in
    match sessions g !! idx with
    | Some (Some s) => Some s
    | _ => first_live (sessions g)
    end.

Abbreviation SessionTable := (gmap Z sessionGroup).
Definition NewSessionTable : SessionTable := ∅.

(** [for idx >= len(g.sessions) { append nil }]. *)
Definition pad (n : nat) (l : list (option TunnelSession)) : list (option TunnelSession) :=
  l ++ replicate (n - length l) None.

Definition Register (s : TunnelSession) (count : Z) (t : SessionTable) : SessionTable :=
  let count := if count <? 1 then 1%nat else Z.to_nat count in
  let g := match t !! InnerIP s with
           | Some g => g
           | None => {| sessions := replicate count None; gcount := count |}
           end in
  let c := Nat.max (gcount g) count in
  <[InnerIP s := {| sessions := <[TunnelIndex s := Some s]> (pad (S (TunnelIndex s)) (sessions g)); gcount := c |}]> t.

Definition RemoveSession (s : TunnelSession) (t : SessionTable) : SessionTable :=
  match t !! InnerIP s with
  | None => t
  | Some g =>
      let l := match sessions g !! TunnelIndex s with
               | Some (Some x) => if decide (x = s) then <[TunnelIndex s := None]> (sessions g) else sessions g
               | _ => sessions g
               end in
      match first_live l with
      | Some _ => <[InnerIP s := {| sessions := l; gcount := gcount g |}]> t
      | None => delete (InnerIP s) t
      end
  end.

(** [Deliver]: [send] is [SendDatagram] of the session's connection; the
    session a datagram was handed to is part of the result. *)
Definition Deliver (send : TunnelSession -> bytes -> bool) (pkt : bytes) (dstIP : Z) (t : SessionTable)
  : bool * option TunnelSession * SessionTable :=
  if (length pkt <? 20)%nat then (false, None, t)
  else match t !! dstIP with
  | None => (false, None, t)
  | Some g => match pick g pkt with
              | None => (false, None, t)
              | Some s => if send s pkt then (true, Some s, t) else (false, Some s, RemoveSession s t)
              end
  end.

(** ** Address pool *)

Record IPPool := { pnext : Z; pbase : Z; psize : Z }.

(** [NewIPPool] of the subnet [ip/ones]. *)
Definition NewIPPool (ip : Z) (ones : nat) : IPPool :=
  {| pbase := ip; pnext := u32 (ip + 1); psize := u32 (2 ^ Z.of_nat (32 - ones)) |}.

Definition Allocate (p : IPPool) : option Z * IPPool :=
  if u32 (u32 (pbase p + psize p) - 1) <=? pnext p then (None, p)
  else (Some (pnext p), {| pnext := u32 (pnext p + 1); pbase := pbase p; psize := psize p |}).

(** ** Framing *)

Definition WriteFramed (w pkt : bytes) : bytes :=
  w ++ [u8 (Z.of_nat (length pkt) / 256); u8 (Z.of_nat (length pkt))] ++ pkt.

(** [ReadFramed] on the bytes a reader still holds; [None] is an error of
    [io.ReadFull]. *)
Definition ReadFramed (r : bytes) : option (bytes * bytes) :=
  match r with
  | h0 :: h1 :: r =>
      let n := Z.to_nat (Z.lor (Z.shiftl h0 8) h1) in
      if (length r <? n)%nat then None else Some (take n r, drop n r)
  | _ => None
  end.

(** ** Lemmas *)

Lemma mix_range h b : 0 <= mix h b < 4294967296.
Proof. apply u32_range. Qed.

Lemma bytes_compare_sym a b : bytes_compare b a = CompOpp (bytes_compare a b).
Proof.
  revert b. induction a as [|x a IH]; intros [|y b]; cbn; try done.
  rewrite Z.compare_antisym. destruct (x ?= y); cbn; auto.
Qed.

Lemma bytes_compare_eq a b : bytes_compare a b = Eq -> a = b.
Proof.
  revert b. induction a as [|x a IH]; intros [|y b]; cbn; try done.
  destruct (Z.compare_spec x y) as [->| |]; try done. intros H. f_equal. auto.
Qed.

Lemma first_live_Some l s : first_live l = Some s -> Some s ∈ l.
Proof.
  unfold first_live. intros H. destruct (omap id l) as [|x r] eqn:E; [done|]. injection H as ->.
  assert (Hs : s ∈ omap id l) by (rewrite E; by left). apply list_elem_of_omap in Hs as ([y|] & Hy & Hid); [|done].
  by injection Hid as ->.
Qed.

Lemma first_live_None l : first_live l = None <-> forall s, Some s ∉ l.
Proof.
  unfold first_live. split.
  - intros H s Hs. destruct (omap id l) as [|x r] eqn:E; [|done].
    assert (Hin : s ∈ omap id l) by (apply list_elem_of_omap; by exists (Some s)). rewrite E in Hin. by apply not_elem_of_nil in Hin.
  - intros H. destruct (omap id l) as [|x r] eqn:E; [done|].
    assert (Hin : x ∈ omap id l) by (rewrite E; by left). apply list_elem_of_omap in Hin as ([y|] & Hy & Hid); [|done].
    by apply H in Hy.
Qed.

(** The session in a slot of the table. *)
Definition live (t : SessionTable) (ip : Z) (i : nat) : option TunnelSession :=
  g ← t !! ip; mjoin (sessions g !! i).

(** What every group of a reachable table satisfies. *)
Record group_ok (ip : Z) (g : sessionGroup) : Prop := {
  go_count : (1 <= gcount g)%nat;
  go_slots : forall i s, sessions g !! i = Some (Some s) -> InnerIP s = ip /\ TunnelIndex s = i;
  go_live : exists s, Some s ∈ sessions g
}.
Definition table_ok (t : SessionTable) : Prop := forall ip g, t !! ip = Some g -> group_ok ip g.

Lemma pad_lookup n l i : pad n l !! i = match l !! i with
  | Some x => Some x | None => if decide (length l <= i < n)%nat then Some None else None end.
Proof.
  unfold pad. destruct (l !! i) as [x|] eqn:E.
  - by apply lookup_app_l_Some.
  - apply lookup_ge_None in E. rewrite lookup_app_r by done. case_decide.
    + apply lookup_replicate_2. lia.
    + apply lookup_replicate_None. lia.
Qed.

Lemma pad_length n l : (n <= length (pad n l))%nat.
Proof. unfold pad. rewrite length_app, length_replicate. lia. Qed.

Lemma mjoin_pad n l i : mjoin (pad n l !! i) = mjoin (l !! i).
Proof. rewrite pad_lookup. destruct (l !! i) as [x|]; [done|]. by case_decide. Qed.

Lemma live_Register s c t ip i :
  live (Register s c t) ip i = if decide (ip = InnerIP s /\ i = TunnelIndex s) then Some s else live t ip i.
Proof.
  unfold live, Register. set (cnt := if c <? 1 then _ else _).
  destruct (decide (ip = InnerIP s)) as [->|Hne].
  - rewrite lookup_insert_eq. cbn [option_bind sessions].
    destruct (decide (i = TunnelIndex s)) as [->|Hi].
    + rewrite decide_True by done. cbn. rewrite list_lookup_insert_eq; [done|].
      match goal with |- context [pad ?n ?l] => pose proof (pad_length n l) end. lia.
    + rewrite decide_False by tauto. cbn. rewrite list_lookup_insert_ne, mjoin_pad by done.
      destruct (t !! InnerIP s) as [g|]; [done|]. cbn. destruct (replicate cnt None !! i) eqn:E; [|done].
      apply lookup_replicate in E as [-> _]. done.
  - rewrite lookup_insert_ne by done. by rewrite decide_False by tauto.
Qed.

Lemma live_RemoveSession s t ip i :
  live (RemoveSession s t) ip i =
    if decide (ip = InnerIP s /\ i = TunnelIndex s /\ live t ip i = Some s) then None else live t ip i.
Proof.
  unfold RemoveSession. destruct (t !! InnerIP s) as [g|] eqn:E.
  2:{ rewrite decide_False; [done|]. intros (-> & -> & H). unfold live in H. by rewrite E in H. }
  set (l := match sessions g !! TunnelIndex s with Some _ => _ | None => _ end).
  assert (Hl : forall j, mjoin (l !! j) =
    if decide (j = TunnelIndex s /\ mjoin (sessions g !! j) = Some s) then None else mjoin (sessions g !! j)).
  { intros j. unfold l. destruct (sessions g !! TunnelIndex s) as [[x|]|] eqn:Ex.
    - destruct (decide (x = s)) as [->|Hx].
      + destruct (decide (j = TunnelIndex s)) as [->|Hj].
        * rewrite list_lookup_insert_eq by (by eapply lookup_lt_Some). rewrite decide_True by (by rewrite Ex). done.
        * rewrite list_lookup_insert_ne by done. by rewrite decide_False by tauto.
      + rewrite decide_False; [done|]. intros [-> H]. rewrite Ex in H. cbn in H. congruence.
    - rewrite decide_False; [done|]. intros [-> H]. by rewrite Ex in H.
    - rewrite decide_False; [done|]. intros [-> H]. by rewrite Ex in H. }
  destruct (decide (ip = InnerIP s)) as [->|Hne].
  - assert (Hlive : live t (InnerIP s) i = mjoin (sessions g !! i)) by (unfold live; by rewrite E).
    rewrite Hlive. destruct (first_live l) as [x|] eqn:Ef.
    + unfold live. rewrite lookup_insert_eq. cbn. rewrite Hl.
      destruct (decide (i = TunnelIndex s /\ mjoin (sessions g !! i) = Some s)) as [[H1 H2]|H].
      * by rewrite decide_True.
      * rewrite decide_False by tauto. done.
    + unfold live. rewrite lookup_delete_eq. cbn.
      assert (Hn : mjoin (l !! i) = None).
      { destruct (l !! i) as [[y|]|] eqn:Ey; [|done|done]. apply list_elem_of_lookup_2 in Ey.
        by apply (proj1 (first_live_None l) Ef) in Ey. }
      rewrite Hl in Hn.
      destruct (decide (i = TunnelIndex s /\ mjoin (sessions g !! i) = Some s)) as [[H1 H2]|H].
      * by rewrite decide_True.
      * rewrite decide_False by tauto. done.
  - rewrite decide_False by tauto. unfold live. destruct (first_live l); [by rewrite lookup_insert_ne|by rewrite lookup_delete_ne].
Qed.

Lemma table_ok_Register s c t : table_ok t -> table_ok (Register s c t).
Proof.
  intros Ht ip g Hg. unfold Register in Hg. set (cnt := if c <? 1 then _ else _) in Hg.
  assert (Hc : (1 <= cnt)%nat) by (unfold cnt; destruct (c <? 1) eqn:E; bool_hyps; lia).
  apply lookup_insert_Some in Hg as [[<- <-]|[_ Hg]]; [|by apply Ht].
  set (g0 := match t !! InnerIP s with Some g => g | None => _ end).
  assert (Hg0 : forall i x, sessions g0 !! i = Some (Some x) -> InnerIP x = InnerIP s /\ TunnelIndex x = i).
  { intros i x Hx. unfold g0 in Hx. destruct (t !! InnerIP s) as [g|] eqn:E; [by apply (go_slots _ _ (Ht _ _ E))|].
    cbn in Hx. by apply lookup_replicate in Hx as [? _]. }
  split; cbn.
  - lia.
  - intros i x Hx. destruct (decide (i = TunnelIndex s)) as [->|Hne].
    + rewrite list_lookup_insert_eq in Hx; [by injection Hx as <-|].
      match goal with |- context [pad ?n ?l] => pose proof (pad_length n l) end. lia.
    + rewrite list_lookup_insert_ne in Hx by done. rewrite pad_lookup in Hx.
      destruct (sessions g0 !! i) as [y|] eqn:Ey; [injection Hx as ->; by apply Hg0|]. by case_decide.
  - exists s. eapply list_elem_of_lookup_2, list_lookup_insert_eq.
    match goal with |- context [pad ?n ?l] => pose proof (pad_length n l) end. lia.
Qed.

Lemma table_ok_Remove s t : table_ok t -> table_ok (RemoveSession s t).
Proof.
  intros Ht ip g Hg. unfold RemoveSession in Hg. destruct (t !! InnerIP s) as [g0|] eqn:E; [|by apply Ht].
  set (l := match sessions g0 !! TunnelIndex s with Some _ => _ | None => _ end) in Hg.
  destruct (first_live l) as [x|] eqn:Ef.
  2:{ apply lookup_delete_Some in Hg as [_ Hg]. by apply Ht. }
  apply lookup_insert_Some in Hg as [[<- <-]|[_ Hg]]; [|by apply Ht].
  pose proof (Ht _ _ E) as Hg0. split; cbn.
  - apply Hg0.
  - intros i y Hy. apply (go_slots _ _ Hg0). unfold l in Hy.
    destruct (sessions g0 !! TunnelIndex s) as [[z|]|] eqn:Ez; [|done|done]. destruct (decide (z = s)); [|done].
    destruct (decide (i = TunnelIndex s)) as [->|Hne].
    + rewrite list_lookup_insert_eq in Hy; [done|by eapply lookup_lt_Some].
    + by rewrite list_lookup_insert_ne in Hy.
  - exists x. by apply first_live_Some.
Qed.

Lemma table_ok_Deliver send pkt dst t : table_ok t -> table_ok (Deliver send pkt dst t).2.
Proof.
  intros Ht. unfold Deliver. destruct (length pkt <? 20)%nat; [done|]. destruct (t !! dst) as [g|]; [|done].
  destruct (pick g pkt) as [s|]; [|done]. destruct (send s pkt); [done|]. by apply table_ok_Remove.
Qed.
