(* ===== verification/SessionProps.v ===== *)
(** * Properties of tunnel selection and the session table

    Both directions of a flow choose the same tunnel; the table refines a map
    from (inner address, tunnel index) to the live session; delivery reaches a
    live session of the right client whenever there is one; the address pool
    and the framing helpers. *)
From S2P Require Import Prelude Words TcpParse Session.
Local Open Scope Z_scope.
Local Open Scope masqued_scope.

(** [q] is a packet of the opposite direction of [p]'s flow. *)
Record reverse_of (p q : bytes) : Prop := {
  rv_src : slice q 12 16 = slice p 16 20;
  rv_dst : slice q 16 20 = slice p 12 16;
  rv_proto : q.[9] = p.[9];
  rv_ports : flow_ports q = ((flow_ports p).2, (flow_ports p).1)
}.

Lemma flowHashSym_reverse p q : reverse_of p q -> flowHashSym q = flowHashSym p.
Proof.
  intros [H1 H2 H3 H4]. unfold flowHashSym. rewrite H1, H2, H3, H4.
  destruct (flow_ports p) as [sp dp]. cbn [fst snd].
  rewrite (bytes_compare_sym (slice p 12 16) (slice p 16 20)).
  destruct (bytes_compare (slice p 12 16) (slice p 16 20)) eqn:Ec; cbn [CompOpp]; try done.
  apply bytes_compare_eq in Ec. rewrite Ec.
  destruct (sp <? dp) eqn:E1, (dp <? sp) eqn:E2; bool_hyps; try lia; try done.
  assert (sp = dp) as -> by lia. done.
Qed.

(** The two directions of a flow choose the same tunnel: for a packet of
    the opposite direction (addresses and ports swapped, same protocol) the
    symmetric hash is equal, so with the same table [pick] answers the same
    session, whatever the group's occupancy. *)
Theorem pick_symmetric g p q : reverse_of p q ->
  flowHashSym q = flowHashSym p /\ pick g q = pick g p.
Proof.
  intros H. pose proof (flowHashSym_reverse p q H) as E. split; [done|]. unfold pick. by rewrite E.
Qed.

Definition pkt_out : bytes :=
  [69;0;0;40;0;0;64;0;64;6;0;0;10;0;0;2;8;8;8;8;156;64;1;187;0;0;0;1;0;0;0;0;80;16;32;0;0;0;0;0].
Definition pkt_back : bytes :=
  [69;0;0;40;0;0;64;0;57;6;0;0;8;8;8;8;10;0;0;2;1;187;156;64;0;0;0;9;0;0;0;0;80;18;32;0;0;0;0;0].

Lemma pick_symmetric_witness :
  let g := {| sessions := [Some {| sid := 1; InnerIP := 167772162; TunnelIndex := 0 |};
                           Some {| sid := 2; InnerIP := 167772162; TunnelIndex := 1 |}]; gcount := 2 |} in
  flowHashSym pkt_back = flowHashSym pkt_out /\ pick g pkt_back = pick g pkt_out.
Proof. intros g. apply (pick_symmetric g pkt_out pkt_back). split; vm_compute; reflexivity. Defined.

(** ** The abstract table *)

Inductive session_op :=
  | SReg (s : TunnelSession) (count : Z)
  | SRem (s : TunnelSession)
  | SDeliver (send : TunnelSession -> bytes -> bool) (pkt : bytes) (dst : Z).

Definition session_run (ops : list session_op) (t : SessionTable) : SessionTable :=
  foldl (fun t o => match o with
    | SReg s c => Register s c t
    | SRem s => RemoveSession s t
    | SDeliver send pkt dst => (Deliver send pkt dst t).2
    end) t ops.

(** The specification: a map from (inner address, index) to the session last
    registered there; a removal removes that session only, and a delivery that
    fails removes the session it was tried on. *)
Definition abs_step (t : SessionTable) (a : gmap (Z * nat) TunnelSession) (o : session_op) : gmap (Z * nat) TunnelSession :=
  let remove s a := if decide (a !! (InnerIP s, TunnelIndex s) = Some s) then delete (InnerIP s, TunnelIndex s) a else a in
  match o with
  | SReg s _ => <[(InnerIP s, TunnelIndex s) := s]> a
  | SRem s => remove s a
  | SDeliver send pkt dst =>
      match (Deliver send pkt dst t).1 with
      | (false, Some s) => remove s a
      | _ => a
      end
  end.

Fixpoint abs_run (t : SessionTable) (a : gmap (Z * nat) TunnelSession) (ops : list session_op) : gmap (Z * nat) TunnelSession :=
  match ops with
  | [] => a
  | o :: ops => abs_run (session_run [o] t) (abs_step t a o) ops
  end.

Definition represents (t : SessionTable) (a : gmap (Z * nat) TunnelSession) : Prop :=
  forall ip i, live t ip i = a !! (ip, i).

Lemma represents_remove t a s : represents t a ->
  represents (RemoveSession s t)
    (if decide (a !! (InnerIP s, TunnelIndex s) = Some s) then delete (InnerIP s, TunnelIndex s) a else a).
Proof.
  intros H ip i. rewrite live_RemoveSession, (H ip i).
  destruct (decide (ip = InnerIP s /\ i = TunnelIndex s /\ a !! (ip, i) = Some s)) as [(-> & -> & Ha)|Hn].
  - rewrite decide_True by done. by rewrite lookup_delete_eq.
  - case_decide as Hd; [|done]. destruct (decide ((ip, i) = (InnerIP s, TunnelIndex s))) as [E|Hne].
    + injection E as E1 E2. exfalso. apply Hn. by subst ip i.
    + by rewrite lookup_delete_ne by congruence.
Qed.

Lemma represents_step t a o : represents t a -> represents (session_run [o] t) (abs_step t a o).
Proof.
  intros H. destruct o as [s c|s|send pkt dst]; cbn.
  - intros ip i. rewrite live_Register, (H ip i). case_decide as Hd.
    + destruct Hd as [-> ->]. by rewrite lookup_insert_eq.
    + rewrite lookup_insert_ne; [done|]. intros E. injection E as E1 E2. apply Hd. by rewrite E1, E2.
  - by apply represents_remove.
  - unfold Deliver. destruct (length pkt <? 20)%nat; [done|]. destruct (t !! dst) as [g|]; [|done].
    destruct (pick g pkt) as [s|]; [|done]. destruct (send s pkt); [done|]. cbn. by apply represents_remove.
Qed.

Lemma session_run_table_ok ops t : table_ok t -> table_ok (session_run ops t).
Proof.
  revert t. induction ops as [|o ops IH]; intros t Ht; [done|]. apply (IH (session_run [o] t)).
  destruct o; cbn; [by apply table_ok_Register|by apply table_ok_Remove|by apply table_ok_Deliver].
Qed.

(** C32.  Refinement: after any sequence of registrations, removals and
    deliveries, the session in each slot is the one the abstract map holds; in
    particular removing (or failing to deliver to) a session that has been
    replaced by a reconnect leaves its successor in place, and no client's
    removal disturbs another client. *)
Theorem session_table_refines ops :
  represents (session_run ops NewSessionTable) (abs_run NewSessionTable ∅ ops).
Proof.
  assert (H : forall ops t a, represents t a -> represents (session_run ops t) (abs_run t a ops)).
  { clear. induction ops as [|o ops IH]; intros t a H; [done|]. cbn [abs_run].
    change (session_run (o :: ops) t) with (session_run ops (session_run [o] t)). apply IH. by apply represents_step. }
  apply H. intros ip i. unfold live, NewSessionTable. by rewrite !lookup_empty.
Qed.

(** A group of a table has a live session to choose, the hashed one when live. *)
Lemma pick_spec ip g pkt : group_ok ip g ->
  match pick g pkt with
  | Some s => (exists i, sessions g !! i = Some (Some s)) /\
      forall s', sessions g !! Z.to_nat (flowHashSym pkt mod Z.of_nat (gcount g)) = Some (Some s') -> s = s'
  | None => False
  end.
Proof.
  intros [Hc Hs (s0 & Hs0)]. unfold pick.
  replace (gcount g <=? 0)%nat with false by (symmetry; apply Nat.leb_gt; lia).
  destruct (sessions g) as [|x l] eqn:El; [by apply not_elem_of_nil in Hs0|]. cbn [length Nat.eqb orb].
  rewrite <- El in *.
  assert (Hfirst : exists s, first_live (sessions g) = Some s).
  { destruct (first_live (sessions g)) as [s|] eqn:Ef; [by exists s|]. by apply (proj1 (first_live_None _) Ef) in Hs0. }
  destruct (sessions g !! Z.to_nat _) as [[s|]|] eqn:Ei.
  - split; [by eexists|]. intros s' [=]. done.
  - destruct Hfirst as [s Hf]. rewrite Hf. split; [|done].
    apply first_live_Some in Hf. by apply list_elem_of_lookup_1 in Hf.
  - destruct Hfirst as [s Hf]. rewrite Hf. split; [|done].
    apply first_live_Some in Hf. by apply list_elem_of_lookup_1 in Hf.
Qed.

(** An address with a live session is delivered to, through an adapter that
    always accepts. *)
Lemma Deliver_live pkt dst t i x : table_ok t -> (20 <= length pkt)%nat -> live t dst i = Some x ->
  exists y, Deliver (fun _ _ => true) pkt dst t = (true, Some y, t) /\ exists j, live t dst j = Some y.
Proof.
  intros Ht Hlen Hx. unfold Deliver. replace (length pkt <? 20)%nat with false by (symmetry; apply Nat.ltb_ge; lia).
  unfold live in Hx |- *. destruct (t !! dst) as [g|] eqn:Eg; [|done].
  pose proof (pick_spec dst g pkt (Ht _ _ Eg)) as Hp. destruct (pick g pkt) as [s|]; [|done]. destruct Hp as [[j Hj] _].
  exists s. split; [done|]. exists j. cbn. by rewrite Hj.
Qed.

(** C33.  Delivery: in every reachable table, a return packet (of at least an IP
    header) for an inner address with a live session is handed to a live
    session of exactly that client, to the one at the hashed index when that
    one is live; it reports success exactly when the datagram was accepted, and
    on refusal removes that session only.  For an address without a live
    session nothing is sent and nothing changes. *)
Theorem Deliver_spec send pkt dst ops :
  (20 <= length pkt)%nat ->
  let t := session_run ops NewSessionTable in
  match Deliver send pkt dst t with
  | (ok, Some s, t') =>
      live t dst (TunnelIndex s) = Some s /\ InnerIP s = dst /\ ok = send s pkt /\
      (forall g i s', t !! dst = Some g -> i = Z.to_nat (flowHashSym pkt mod Z.of_nat (gcount g)) ->
         live t dst i = Some s' -> s = s') /\
      t' = (if ok then t else RemoveSession s t)
  | (ok, None, t') => ok = false /\ t' = t /\ forall i, live t dst i = None
  end.
Proof.
  intros Hlen t. assert (Ht : table_ok t).
  { apply session_run_table_ok. intros ip g H. unfold NewSessionTable in H. by rewrite lookup_empty in H. }
  unfold Deliver. replace (length pkt <? 20)%nat with false by (symmetry; apply Nat.ltb_ge; lia).
  destruct (t !! dst) as [g|] eqn:Eg.
  2:{ split; [done|]. split; [done|]. intros i. unfold live. by rewrite Eg. }
  pose proof (Ht _ _ Eg) as Hg.
  assert (Hlv : forall i, live t dst i = mjoin (sessions g !! i)) by (intros; unfold live; by rewrite Eg).
  pose proof (pick_spec dst g pkt Hg) as Hpick.
  destruct (pick g pkt) as [s|]; [|done]. destruct Hpick as [[i Hi] Hidx].
  destruct (go_slots _ _ Hg _ _ Hi) as [Hip Hti].
  assert (Hl : live t dst (TunnelIndex s) = Some s) by (rewrite Hlv, Hti, Hi; done).
  assert (Hx : forall g' i0 s', Some g = Some g' -> i0 = Z.to_nat (flowHashSym pkt mod Z.of_nat (gcount g')) ->
     live t dst i0 = Some s' -> s = s').
  { intros g' i0 s' [= <-] -> H. apply Hidx. rewrite Hlv in H.
    destruct (sessions g !! Z.to_nat (flowHashSym pkt mod Z.of_nat (gcount g))) as [[y|]|]; cbn in H; congruence. }
  destruct (send s pkt) eqn:Es; (split; [done|]; split; [done|]; split; [done|]; split; [exact Hx|done]).
Qed.

Lemma Deliver_spec_witness :
  let s := {| sid := 7; InnerIP := 134744072; TunnelIndex := 0 |} in
  let t := session_run [SReg s 1] NewSessionTable in
  (Deliver (fun _ _ => true) pkt_out 134744072 t).1 = (true, Some s) /\ live t 134744072 0 = Some s.
Proof.
  intros s t.
  pose proof (Deliver_spec (fun _ _ => true) pkt_out 134744072 [SReg s 1] ltac:(vm_compute; lia)) as H.
  cbv zeta in H. fold t in H.
  assert (E : (Deliver (fun _ _ => true) pkt_out 134744072 t).1 = (true, Some s)) by (vm_compute; reflexivity).
  split; [exact E|]. destruct (Deliver (fun _ _ => true) pkt_out 134744072 t) as [[ok o] t'].
  cbn [fst] in E. injection E as -> ->. destruct H as (H & _). exact H.
Defined.

(** ** Address pool *)

(** Take [n] addresses. *)
Fixpoint alloc_n (n : nat) (p : IPPool) : list (option Z) * IPPool :=
  match n with
  | O => ([], p)
  | S n => let '(a, p) := Allocate p in let '(l, p) := alloc_n n p in (a :: l, p)
  end.

Lemma alloc_from p n : 0 <= pbase p -> 0 < psize p -> pbase p + psize p <= 4294967296 ->
  pbase p < pnext p <= pbase p + psize p ->
  (alloc_n n p).1 = map (fun i => if pnext p + Z.of_nat i <? pbase p + psize p - 1 then Some (pnext p + Z.of_nat i) else None) (seq 0 n).
Proof.
  revert p. induction n as [|n IH]; intros p H0 H1 H2 H3; [done|]. cbn [alloc_n seq map].
  unfold Allocate. rewrite u32_idem_sub, (u32_small (pbase p + psize p - 1)) by lia.
  destruct (pbase p + psize p - 1 <=? pnext p) eqn:E; bool_hyps.
  - specialize (IH p H0 H1 H2 H3). destruct (alloc_n n p) as [l p']. cbn [fst] in *. f_equal.
    + destruct (pnext p + Z.of_nat 0 <? pbase p + psize p - 1) eqn:E'; bool_hyps; [lia|done].
    + rewrite IH. rewrite <- seq_shift, map_map. apply map_ext. intros x.
      repeat match goal with |- context [if ?c then _ else _] => let E := fresh in destruct c eqn:E end; bool_hyps; try done; lia.
  - specialize (IH {| pnext := u32 (pnext p + 1); pbase := pbase p; psize := psize p |}).
    cbn [pbase psize pnext] in IH. rewrite u32_small in IH |- * by lia. specialize (IH H0 H1 H2 ltac:(lia)).
    destruct (alloc_n n _) as [l p']. cbn [fst] in *. f_equal.
    + destruct (pnext p + Z.of_nat 0 <? pbase p + psize p - 1) eqn:E'; bool_hyps; [|lia]. f_equal. lia.
    + rewrite IH. rewrite <- seq_shift, map_map. apply map_ext. intros x.
      replace (pnext p + 1 + Z.of_nat x) with (pnext p + Z.pos (Pos.of_succ_nat x)) by lia. done.
Qed.

(** The address pool of a subnet [base/ones] (with [ones] at least 1):
    the n-th call answers [base + 1 + n] until the broadcast address is next
    and an error from then on, so no address is handed out twice and neither
    the network nor the broadcast address ever is. *)
Theorem IPPool_allocates base ones n :
  0 <= base -> (1 <= ones <= 31)%nat -> base + 2 ^ Z.of_nat (32 - ones) <= 4294967296 ->
  (alloc_n n (NewIPPool base ones)).1
  = map (fun i => if base + 1 + Z.of_nat i <? base + 2 ^ Z.of_nat (32 - ones) - 1
                  then Some (base + 1 + Z.of_nat i) else None) (seq 0 n).
Proof.
  intros H0 H1 H2.
  assert (Hp : 2 <= 2 ^ Z.of_nat (32 - ones) <= 2 ^ 31).
  { split; [change 2 with (2 ^ 1) at 1|]; apply Z.pow_le_mono_r; lia. }
  change (2 ^ 31) with 2147483648 in Hp.
  assert (E1 : u32 (2 ^ Z.of_nat (32 - ones)) = 2 ^ Z.of_nat (32 - ones)) by (apply u32_small; lia).
  assert (E2 : u32 (base + 1) = base + 1) by (apply u32_small; lia).
  rewrite alloc_from; unfold NewIPPool; cbn [pnext pbase psize]; rewrite ?E1, ?E2; try lia. done.
Qed.

Lemma IPPool_allocates_witness :
  (alloc_n 3 (NewIPPool 167772160 30)).1 = [Some 167772161; Some 167772162; None].
Proof. rewrite (IPPool_allocates 167772160 30 3); [reflexivity|lia|lia|vm_compute; discriminate]. Defined.

(** Framing round trip: what [WriteFramed] appends is what [ReadFramed]
    reads back, leaving the rest of the stream, exactly for packets of at most
    65535 bytes; a longer one is cut at its length modulo 65536. *)
Theorem framed_roundtrip pkt rest :
  ReadFramed (WriteFramed [] pkt ++ rest) =
    (let n := Z.to_nat (Z.of_nat (length pkt) mod 65536) in
     Some (take n pkt, drop n pkt ++ rest)).
Proof.
  unfold WriteFramed, ReadFramed. cbn [app].
  set (L := Z.of_nat (length pkt)).
  assert (Hn : Z.lor (Z.shiftl (u8 (L / 256)) 8) (u8 L) = L mod 65536).
  { rewrite Z.shiftl_mul_pow2 by lia. change (2 ^ 8) with 256.
    assert (Hd : Z.land (u8 (L / 256) * 256) (u8 L) = 0).
    { replace (u8 L) with (Z.land L (Z.ones 8)) by (rewrite Z.land_ones by lia; done).
      rewrite (Z.land_comm L), Z.land_assoc, Z.land_ones by lia. change (2 ^ 8) with 256.
      rewrite Z.mod_mul by lia. apply Z.land_0_l. }
    rewrite <- Z.lxor_lor, <- Z.add_nocarry_lxor by done. unfold u8.
    replace 65536 with (256 * 256) by lia. rewrite Z.rem_mul_r by lia. lia. }
  rewrite Hn. cbv zeta. set (n := Z.to_nat (L mod 65536)).
  assert (Hle : (n <= length pkt)%nat).
  { unfold n. pose proof (Z.mod_le L 65536). pose proof (Z.mod_pos_bound L 65536). lia. }
  replace (length (pkt ++ rest) <? n)%nat with false by (symmetry; apply Nat.ltb_ge; rewrite length_app; lia).
  by rewrite take_app_le, drop_app_le by done.
Qed.

(** The per-flow hash sees the flow only: two IPv4 packets with full
    headers, the same addresses, protocol and (for TCP and UDP) ports get the
    same [FlowHash], whatever their options, lengths and payloads, so a flow's
    packets stay on one tunnel. *)
Theorem FlowHash_flow p q :
  (20 <= length p)%nat -> (20 <= length q)%nat -> Z.shiftr p.[0] 4 = 4 -> Z.shiftr q.[0] 4 = 4 ->
  (20 <= ihl_of p)%nat -> (20 <= ihl_of q)%nat ->
  (ihl_of p + 4 <= length p)%nat -> (ihl_of q + 4 <= length q)%nat ->
  slice p 12 20 = slice q 12 20 -> p.[9] = q.[9] ->
  slice p (ihl_of p) (ihl_of p + 4) = slice q (ihl_of q) (ihl_of q + 4) ->
  FlowHash p = FlowHash q.
Proof.
  intros Lp Lq Vp Vq Ip Iq Pp Pq Ha Hp Hs. unfold FlowHash. rewrite Vp, Vq.
  replace (length p <? 20)%nat with false by (symmetry; apply Nat.ltb_ge; lia).
  replace (length q <? 20)%nat with false by (symmetry; apply Nat.ltb_ge; lia).
  cbn [negb Z.eqb Pos.eqb orb]. rewrite Ha, Hp.
  replace (20 <=? ihl_of p)%nat with true by (symmetry; apply Nat.leb_le; lia).
  replace (20 <=? ihl_of q)%nat with true by (symmetry; apply Nat.leb_le; lia).
  replace (ihl_of p + 4 <=? length p)%nat with true by (symmetry; apply Nat.leb_le; lia).
  replace (ihl_of q + 4 <=? length q)%nat with true by (symmetry; apply Nat.leb_le; lia).
  assert (Hat : forall j, (j < 4)%nat -> p.[ihl_of p + j] = q.[ihl_of q + j]).
  { intros j Hj. assert (H : (slice p (ihl_of p) (ihl_of p + 4)).[j] = (slice q (ihl_of q) (ihl_of q + 4)).[j]) by (by rewrite Hs).
    unfold slice in H. rewrite !byte_at_take, !byte_at_drop in H by lia. done. }
  pose proof (Hat 0%nat ltac:(lia)) as H0. rewrite !Nat.add_0_r in H0.
  by rewrite H0, (Hat 1%nat), (Hat 2%nat), (Hat 3%nat) by lia.
Qed.

Lemma FlowHash_flow_witness :
  let q := [69;0;0;41;9;9;64;0;12;6;7;7;10;0;0;2;8;8;8;8;156;64;1;187;5;5;5;5;0;0;0;0;80;17;1;0;2;2;0;0;77] in
  FlowHash pkt_out = FlowHash q.
Proof. intros q. apply (FlowHash_flow pkt_out q); first [vm_compute; lia|vm_compute; reflexivity]. Defined.
