(* ===== verification/Conn.v ===== *)
(** * The AF_XDP packet connection (xdp/conn.go)

    Neighbour learning and next-hop choice, classification of received frames,
    the per-queue QUIC shards and their consumer, and the construction and
    transmission of QUIC frames.  MAC addresses and IP addresses are byte
    strings as in the code; the kernel's ARP table and the forward handler are
    parameters.  Each return of a descriptor to the fill ring is recorded in
    [fills]. *)
From S2P Require Import Prelude Words Checksum TcpParse.
Local Open Scope Z_scope.
Local Open Scope masqued_scope.

Definition ethHdr : nat := 14.
Definition quicShardCap : nat := 1024.
Definition txPumpFrameCap : nat := 4096.

(** ** Neighbour table *)

Definition macEq (a b : bytes) : bool :=
  if negb (length a =? 6)%nat || (length b <? 6)%nat then false else bytes_eqb a (take 6 b).

Abbreviation neighTable := (option (gmap bytes bytes)).

(** [learnNeighbour]: the check before the lock, the check under it (the same
    test when no other learner ran in between), and the copy-on-write store. *)
Definition learnNeighbour (neigh : neighTable) (ip mac : bytes) : neighTable :=
  let known := match neigh with
    | Some m => match m !! ip with Some cur => macEq cur mac | None => false end
    | None => false
    end in
  if known then neigh
  else let nm := match neigh with Some m => m | None => ∅ end in
       Some (<[ip := take 6 mac ++ replicate (6 - length mac) 0]> nm).

(** [netip.AddrFromSlice] followed by [Unmap]: 4 bytes, or 16 bytes with the
    v4-mapped prefix removed. *)
Definition addrFromSlice (ip : bytes) : option bytes :=
  if (length ip =? 4)%nat then Some ip
  else if (length ip =? 16)%nat then
    Some (if bytes_eqb (take 12 ip) (replicate 10 0 ++ [255; 255]) then drop 12 ip else ip)
  else None.

Definition neigh_lookup (neigh : neighTable) (a : bytes) : option bytes := m ← neigh; m !! a.

Definition NextHopMACForIP (neigh : neighTable) (gwMAC : bytes) (ip : bytes) : bytes :=
  match addrFromSlice ip with
  | Some a => match neigh_lookup neigh a with Some mac => mac | None => gwMAC end
  | None => gwMAC
  end.

(** [LanNextHopMAC]: [arp] is the kernel's table ([lookupNeighbourMAC]).  The
    result is the MAC, the neighbour table and the set of pending probes; the
    probe goroutine itself is [arp_probe]. *)
Definition LanNextHopMAC (arp : bytes -> option bytes) (neigh : neighTable) (pending : gset bytes) (dst : bytes)
  : option bytes * neighTable * gset bytes :=
  match addrFromSlice dst with
  | None => (None, neigh, pending)
  | Some a =>
      match neigh_lookup neigh a with
      | Some mac => (Some mac, neigh, pending)
      | None =>
          match arp a with
          | Some mac => if (length mac =? 6)%nat then (Some mac, learnNeighbour neigh a mac, pending)
                        else (None, neigh, {[a]} ∪ pending)
          | None => (None, neigh, {[a]} ∪ pending)
          end
      end
  end.

(** The probe's retries, [arps] the kernel table at each of them. *)
Fixpoint arp_probe (arps : list (bytes -> option bytes)) (a : bytes) (neigh : neighTable) : neighTable :=
  match arps with
  | [] => neigh
  | arp :: arps => match arp a with
                   | Some mac => if (length mac =? 6)%nat then learnNeighbour neigh a mac else arp_probe arps a neigh
                   | None => arp_probe arps a neigh
                   end
  end.
Definition arp_probe_done (arps : list (bytes -> option bytes)) (a : bytes) (neigh : neighTable) (pending : gset bytes)
  : neighTable * gset bytes := (arp_probe (take 5 arps) a neigh, pending ∖ {[a]}).

(** ** Receive path *)

Record quicFrame := { q_ip : bytes; q_port : Z; q_data : bytes }.

Record Conn := {
  neigh : neighTable;
  quicShards : list (list quicFrame);
  rxPending : list quicFrame;
  rxNotify : bool;
  fills : list Z;
  quicChDrops : Z;
  fwdDrops : Z
}.

Definition refill (c : Conn) (desc : Z) : Conn :=
  {| neigh := neigh c; quicShards := quicShards c; rxPending := rxPending c; rxNotify := rxNotify c;
     fills := fills c ++ [desc]; quicChDrops := quicChDrops c; fwdDrops := fwdDrops c |}.

(** The locked part of [dispatchQUIC]: [None] is a full shard. *)
Definition enqueue {F} (shards : list (list F)) (idx : nat) (f : F) : option (list (list F)) :=
  match shards !! idx with
  | Some buf => if (quicShardCap <=? length buf)%nat then None else Some (<[idx := buf ++ [f]]> shards)
  | None => None
  end.

Definition dispatchQUIC (c : Conn) (idx : nat) (frame : bytes) (desc : Z) (ihl : nat) : Conn :=
  let udpBase := (ethHdr + ihl)%nat in
  if (length frame <? udpBase + 8)%nat then refill c desc
  else
    let f := {| q_ip := slice frame (ethHdr + 12) (ethHdr + 16); q_port := be16 frame udpBase;
                q_data := drop (udpBase + 8) frame |} in
    let c := refill c desc in
    match enqueue (quicShards c) idx f with
    | None => {| neigh := neigh c; quicShards := quicShards c; rxPending := rxPending c; rxNotify := rxNotify c;
                 fills := fills c; quicChDrops := quicChDrops c + 1; fwdDrops := fwdDrops c |}
    | Some sh => {| neigh := neigh c; quicShards := sh; rxPending := rxPending c; rxNotify := true;
                    fills := fills c; quicChDrops := quicChDrops c; fwdDrops := fwdDrops c |}
    end.

(** [dispatchFwd]; [h] is the registered handler. *)
Definition dispatchFwd (h : option (bytes -> bytes -> bool)) (c : Conn) (frame : bytes) (desc : Z) : Conn :=
  if (length frame <=? ethHdr + 20)%nat then refill c desc
  else
    let ipPkt := drop ethHdr frame in
    let delivered :=
      match h with
      | Some h => if Z.shiftr ipPkt.[0] 4 =? 4 then h ipPkt (slice ipPkt 16 20) else false
      | None => false
      end in
    refill {| neigh := neigh c; quicShards := quicShards c; rxPending := rxPending c; rxNotify := rxNotify c;
              fills := fills c; quicChDrops := quicChDrops c;
              fwdDrops := if delivered then fwdDrops c else fwdDrops c + 1 |} desc.

(** How a frame is classified. *)
Inductive frame_class := ClassDrop | ClassQUIC (ihl : nat) | ClassFwd.

Definition classify (frame : bytes) : frame_class :=
  if (length frame <? ethHdr + 1)%nat then ClassDrop
  else
    let ethertype := be16 frame 12 in
    if ethertype =? 2048 then
      if (length frame <? ethHdr + 20)%nat then ClassDrop
      else
        let ihl := ihl_of (drop ethHdr frame) in
        if (frame.[ethHdr + 9] =? 17) && (ethHdr + ihl + 4 <=? length frame)%nat
           && (be16 frame (ethHdr + ihl + 2) =? 443)
        then ClassQUIC ihl else ClassFwd
    else if ethertype =? 34525 then ClassFwd
    else ClassDrop.

Definition dispatchFrame (h : option (bytes -> bytes -> bool)) (c : Conn) (idx : nat) (frame : bytes) (desc : Z) : Conn :=
  match classify frame with
  | ClassDrop => refill c desc
  | ClassQUIC ihl => dispatchQUIC c idx frame desc ihl
  | ClassFwd => dispatchFwd h c frame desc
  end.

(** One frame in the loop of [dispatchSocket]. *)
Definition receiveFrame (h : option (bytes -> bytes -> bool)) (c : Conn) (idx : nat) (frame : bytes) (desc : Z) : Conn :=
  let c := if (ethHdr + 20 <=? length frame)%nat && (be16 frame 12 =? 2048)
    then {| neigh := learnNeighbour (neigh c) (slice frame (ethHdr + 12) (ethHdr + 16)) (slice frame 6 12);
            quicShards := quicShards c; rxPending := rxPending c; rxNotify := rxNotify c;
            fills := fills c; quicChDrops := quicChDrops c; fwdDrops := fwdDrops c |}
    else c in
  dispatchFrame h c idx frame desc.

(** [ReadFrom] with room for [plen] bytes, while nothing else runs; [None] is
    the wait on [rxNotify] (or on shutdown). *)
Definition sweep (shards : list (list quicFrame)) : list quicFrame := concat shards.

Definition ReadFrom (c : Conn) (plen : nat) : option (bytes * bytes * Z) * Conn :=
  let serve f rest sh :=
    (Some (take plen (q_data f), q_ip f, q_port f),
     {| neigh := neigh c; quicShards := sh; rxPending := rest; rxNotify := rxNotify c; fills := fills c;
        quicChDrops := quicChDrops c; fwdDrops := fwdDrops c |}) in
  match rxPending c with
  | f :: rest => serve f rest (quicShards c)
  | [] => match sweep (quicShards c) with
          | f :: rest => serve f rest (map (fun _ => []) (quicShards c))
          | [] => (None, c)
          end
  end.

(** ** Transmit path *)

(** [txSocketIdx]: FNV-1a over the address bytes and the port, modulo the number
    of sockets. *)
Definition txSocketIdx (nsock : nat) (dstIP : bytes) (dstPort : Z) : nat :=
  let h := foldl (fun h b => u64 (Z.lxor h b * 1099511628211)) 1469598103934665603 dstIP in
  let h := u64 (Z.lxor h (u16 dstPort) * 1099511628211) in
  Z.to_nat (h mod Z.of_nat nsock).

(** [buildUDPFrame] on the buffer [frame]: the writes in the code's order, and
    the length it answers. *)
Definition buildUDPFrame (frame srcMAC dstMAC srcIP : bytes) (srcPort : Z) (dstIP : bytes) (dstPort : Z) (payload : bytes)
  : bytes * nat :=
  let frame := splice frame 0 (take 6 dstMAC) in
  let frame := splice frame 6 (take 6 srcMAC) in
  let frame := <[13%nat := 0]> (<[12%nat := 8]> frame) in
  let ipLen := (20 + 8 + length payload)%nat in
  let frame := <[15%nat := 0]> (<[14%nat := 69]> frame) in
  let frame := put16 frame 16 (u16 (Z.of_nat ipLen)) in
  let frame := put16 frame 18 0 in
  let frame := put16 frame 20 16384 in
  let frame := <[23%nat := 17]> (<[22%nat := 64]> frame) in
  let frame := <[25%nat := 0]> (<[24%nat := 0]> frame) in
  let frame := splice frame 26 (take 4 srcIP) in
  let frame := splice frame 30 (take 4 dstIP) in
  let frame := put16 frame 24 (ipv4Checksum (slice frame 14 34)) in
  let frame := put16 frame 34 (u16 srcPort) in
  let frame := put16 frame 36 (u16 dstPort) in
  let frame := put16 frame 38 (u16 (Z.of_nat (8 + length payload))) in
  let frame := <[41%nat := 0]> (<[40%nat := 0]> frame) in
  let frame := splice frame 42 payload in
  (frame, 42 + length payload)%nat.

(** What the transmit functions need of a [Conn]. *)
Record txConfig := { nsock : nat; srcMAC : bytes; gwMAC : bytes; localIP : bytes; localPort : Z }.

(** [WriteTo] and [WriteBatch] hand [frame[:total]] to the pump of a socket:
    [None] is the slice panic for a payload the frame cannot hold. *)
Definition frame_slice (buf : bytes) (total : nat) : option bytes :=
  if (length buf <? total)%nat then None else Some (take total buf).

Definition WriteTo (cfg : txConfig) (nt : neighTable) (done : bool) (p dstIP : bytes) (dstPort : Z)
  : result unit (option (nat * bytes)) :=
  if done then Err tt
  else
    let idx := txSocketIdx (nsock cfg) dstIP dstPort in
    let dstMAC := NextHopMACForIP nt (gwMAC cfg) dstIP in
    let '(frame, total) := buildUDPFrame (replicate txPumpFrameCap 0) (srcMAC cfg) dstMAC
                             (localIP cfg) (localPort cfg) dstIP dstPort p in
    Ok (f ← frame_slice frame total; Some (idx, f)).

(** [WriteBatch]: one buffer reused for every packet. *)
Fixpoint write_batch (cfg : txConfig) (dstMAC dstIP : bytes) (dstPort : Z) (buf : bytes) (pkts : list bytes)
  : option (list bytes) :=
  match pkts with
  | [] => Some []
  | p :: pkts =>
      let '(buf, total) := buildUDPFrame buf (srcMAC cfg) dstMAC (localIP cfg) (localPort cfg) dstIP dstPort p in
      f ← frame_slice buf total;
      fs ← write_batch cfg dstMAC dstIP dstPort buf pkts;
      Some (f :: fs)
  end.

Definition WriteBatch (cfg : txConfig) (nt : neighTable) (done : bool) (pkts : list bytes) (dstIP : bytes) (dstPort : Z)
  : result unit (option (nat * list bytes)) :=
  if done then Err tt
  else
    let dstMAC := NextHopMACForIP nt (gwMAC cfg) dstIP in
    let idx := txSocketIdx (nsock cfg) dstIP dstPort in
    Ok (fs ← write_batch cfg dstMAC dstIP dstPort (replicate txPumpFrameCap 0) pkts; Some (idx, fs)).

(** ** The shard handoff under concurrency

    The lock regions of [dispatchQUIC] and [ReadFrom] as atomic steps, any
    number of producers (one per queue) and one consumer; [q_token] is the
    one-slot channel [rxNotify], [q_notifiers] the producers between their
    unlock and their send, [q_accepted] the frames accepted so far.  [shard_of]
    names the queue a frame was received on. *)
Inductive reader := RServe | RSweep (j : nat) | RWait.

Record qstate (F : Type) := {
  q_shards : list (list F);
  q_pend : list F;
  q_reader : reader;
  q_token : bool;
  q_notifiers : list nat;
  q_out : list F;
  q_accepted : list F
}.
Arguments q_shards {F}. Arguments q_pend {F}. Arguments q_reader {F}. Arguments q_token {F}.
Arguments q_notifiers {F}. Arguments q_out {F}. Arguments q_accepted {F}.
Arguments Build_qstate {F}.

Inductive qstep {F} (shard_of : F -> nat) : qstate F -> qstate F -> Prop :=
  | q_produce s i f sh : shard_of f = i -> i ∉ q_notifiers s -> enqueue (q_shards s) i f = Some sh ->
      qstep shard_of s (Build_qstate sh (q_pend s) (q_reader s) (q_token s) (i :: q_notifiers s) (q_out s) (q_accepted s ++ [f]))
  | q_notify s i l : Permutation (q_notifiers s) (i :: l) ->
      qstep shard_of s (Build_qstate (q_shards s) (q_pend s) (q_reader s) true l (q_out s) (q_accepted s))
  | q_serve s f rest : q_reader s = RServe -> q_pend s = f :: rest ->
      qstep shard_of s (Build_qstate (q_shards s) rest RServe (q_token s) (q_notifiers s) (q_out s ++ [f]) (q_accepted s))
  | q_begin s : q_reader s = RServe -> q_pend s = [] ->
      qstep shard_of s (Build_qstate (q_shards s) [] (RSweep 0) (q_token s) (q_notifiers s) (q_out s) (q_accepted s))
  | q_sweep s j buf : q_reader s = RSweep j -> q_shards s !! j = Some buf ->
      qstep shard_of s (Build_qstate (<[j := []]> (q_shards s)) (q_pend s ++ buf) (RSweep (S j)) (q_token s) (q_notifiers s)
                 (q_out s) (q_accepted s))
  | q_end s j : q_reader s = RSweep j -> length (q_shards s) = j ->
      qstep shard_of s (Build_qstate (q_shards s) (q_pend s) (match q_pend s with [] => RWait | _ => RServe end)
                 (q_token s) (q_notifiers s) (q_out s) (q_accepted s))
  | q_wake s : q_reader s = RWait -> q_token s = true ->
      qstep shard_of s (Build_qstate (q_shards s) (q_pend s) RServe false (q_notifiers s) (q_out s) (q_accepted s)).

Definition q_init (F : Type) (n : nat) : qstate F := Build_qstate (replicate n []) [] RServe false [] [] [].
