(* ===== verification/ConnProps.v ===== *)
(** * Properties of the AF_XDP connection (xdp/conn.go)

    The frame built for a QUIC payload is a valid packet that the receive path
    takes apart again; every received descriptor goes back to the fill ring
    exactly once; replies go to the learned neighbour; the shard handoff loses
    no frame, keeps each queue's order and never sleeps on a frame. *)
From S2P Require Import Prelude Words Checksum TcpParse Snat Conn.
Local Open Scope Z_scope.
Local Open Scope masqued_scope.

(** ** The built frame *)

Definition ip_hdr0 (len : nat) (srcIP dstIP : bytes) : bytes :=
  [69; 0; u8 (u16 (Z.of_nat (28 + len)) / 256); u8 (u16 (Z.of_nat (28 + len))); 0; 0; 64; 0; 64; 17; 0; 0] ++ srcIP ++ dstIP.

Definition udp_packet (srcIP : bytes) (srcPort : Z) (dstIP : bytes) (dstPort : Z) (p : bytes) : bytes :=
  put16 (ip_hdr0 (length p) srcIP dstIP) 10 (ipv4Checksum (ip_hdr0 (length p) srcIP dstIP))
  ++ [u8 (u16 srcPort / 256); u8 (u16 srcPort); u8 (u16 dstPort / 256); u8 (u16 dstPort);
      u8 (u16 (Z.of_nat (8 + length p)) / 256); u8 (u16 (Z.of_nat (8 + length p))); 0; 0] ++ p.

Definition eth_frame (dstMAC srcMAC pkt : bytes) : bytes := dstMAC ++ srcMAC ++ [8; 0] ++ pkt.

(** The header writes, before the payload is copied. *)
Definition udp_header (frame srcMAC dstMAC srcIP : bytes) (srcPort : Z) (dstIP : bytes) (dstPort : Z) (len : nat) : bytes :=
  let frame := splice (splice frame 0 (take 6 dstMAC)) 6 (take 6 srcMAC) in
  let frame := <[15%nat := 0]> (<[14%nat := 69]> (<[13%nat := 0]> (<[12%nat := 8]> frame))) in
  let frame := put16 (put16 (put16 frame 16 (u16 (Z.of_nat (20 + 8 + len)))) 18 0) 20 16384 in
  let frame := <[25%nat := 0]> (<[24%nat := 0]> (<[23%nat := 17]> (<[22%nat := 64]> frame))) in
  let frame := splice (splice frame 26 (take 4 srcIP)) 30 (take 4 dstIP) in
  let frame := put16 frame 24 (ipv4Checksum (slice frame 14 34)) in
  let frame := put16 (put16 (put16 frame 34 (u16 srcPort)) 36 (u16 dstPort)) 38 (u16 (Z.of_nat (8 + len))) in
  <[41%nat := 0]> (<[40%nat := 0]> frame).

Lemma buildUDPFrame_header buf sm dm si sp di dp p :
  buildUDPFrame buf sm dm si sp di dp p = (splice (udp_header buf sm dm si sp di dp (length p)) 42 p, (42 + length p)%nat).
Proof. reflexivity. Qed.

Lemma u8_consts : u8 (0 / 256) = 0 /\ u8 0 = 0 /\ u8 (16384 / 256) = 64 /\ u8 16384 = 0.
Proof. done. Qed.

Section Build.
Local Opaque u8 u16 ipv4Checksum Z.div Z.of_nat Nat.add.

Lemma udp_header_eq buf sm dm si sp di dp (p : bytes) :
  length sm = 6%nat -> length dm = 6%nat -> length si = 4%nat -> length di = 4%nat -> (42 <= length buf)%nat ->
  udp_header buf sm dm si sp di dp (length p) =
    eth_frame dm sm (put16 (ip_hdr0 (length p) si di) 10 (ipv4Checksum (ip_hdr0 (length p) si di)) ++
      [u8 (u16 sp / 256); u8 (u16 sp); u8 (u16 dp / 256); u8 (u16 dp);
       u8 (u16 (Z.of_nat (8 + length p)) / 256); u8 (u16 (Z.of_nat (8 + length p))); 0; 0]) ++ drop 42 buf.
Proof.
  intros Hsm Hdm Hsi Hdi Hb. destruct u8_consts as (C1 & C2 & C3 & C4).
  do 6 (destruct sm as [|? sm]; [discriminate|]). destruct sm; [|discriminate].
  do 6 (destruct dm as [|? dm]; [discriminate|]). destruct dm; [|discriminate].
  do 4 (destruct si as [|? si]; [discriminate|]). destruct si; [|discriminate].
  do 4 (destruct di as [|? di]; [discriminate|]). destruct di; [|discriminate].
  do 42 (destruct buf as [|? buf]; [exfalso; cbn in Hb; lia|]).
  unfold udp_header, eth_frame, ip_hdr0, splice, slice, put16. generalize (length p). intros len. clear Hb.
  change (20 + 8 + len)%nat with (28 + len)%nat.
  cbn. rewrite C1, C2, C3, C4. done.
Qed.
End Build.

Lemma buildUDPFrame_eq buf sm dm si sp di dp p :
  length sm = 6%nat -> length dm = 6%nat -> length si = 4%nat -> length di = 4%nat ->
  (42 + length p <= length buf)%nat ->
  let '(f, total) := buildUDPFrame buf sm dm si sp di dp p in
  take total f = eth_frame dm sm (udp_packet si sp di dp p) /\ length f = length buf /\ total = (42 + length p)%nat.
Proof.
  intros Hsm Hdm Hsi Hdi Hb. rewrite buildUDPFrame_header, udp_header_eq by (done || lia).
  set (h := eth_frame dm sm _).
  assert (Hh : length h = 42%nat).
  { unfold h, eth_frame. rewrite !length_app, put16_length. unfold ip_hdr0. rewrite !length_app. cbn. lia. }
  assert (Hl : length (h ++ drop 42 buf) = length buf) by (rewrite length_app, length_drop; lia).
  split; [|split; [by rewrite splice_length by lia|done]].
  rewrite splice_full by lia. rewrite (take_app_length' h) by done.
  rewrite app_assoc, take_app_length' by (rewrite length_app; lia).
  unfold h, udp_packet, eth_frame. by rewrite <- !app_assoc.
Qed.


Lemma ipv4Checksum_norm hdr : bytes_ok hdr -> length hdr = 20%nat -> ipv4Checksum hdr = not16 (ones_norm (wsum hdr)).
Proof.
  intros Hok Hl. pose proof (wsum_bound hdr Hok). pose proof (wsum_nonneg hdr Hok). rewrite Hl in *.
  unfold ipv4Checksum. rewrite ipv4_sum_wsum by (done || lia || (rewrite Hl; by exists 10%nat)).
  rewrite fold_loop_exits by lia. by rewrite Z.add_0_l.
Qed.

Lemma ip_hdr0_ok len si di : bytes_ok si -> bytes_ok di -> bytes_ok (ip_hdr0 len si di).
Proof.
  intros. unfold ip_hdr0. apply bytes_ok_app; [|by apply bytes_ok_app].
  repeat (apply Forall_cons; split; [first [apply u8_range|lia]|]). apply Forall_nil. exact I.
Qed.
Lemma ip_hdr0_length len si di : length si = 4%nat -> length di = 4%nat -> length (ip_hdr0 len si di) = 20%nat.
Proof. intros. unfold ip_hdr0. rewrite !length_app. cbn. lia. Qed.

Lemma udp_packet_ihl si sp di dp p : ihl_of (udp_packet si sp di dp p) = 20%nat.
Proof. reflexivity. Qed.

Lemma udp_packet_ip_total si sp di dp p : bytes_ok si -> bytes_ok di -> length si = 4%nat -> length di = 4%nat ->
  csum_ok (ip_total (udp_packet si sp di dp p)).
Proof.
  intros B1 B2 L1 L2. unfold ip_total. rewrite udp_packet_ihl. unfold udp_packet.
  pose proof (ip_hdr0_ok (length p) si di B1 B2) as Bh. pose proof (ip_hdr0_length (length p) si di L1 L2) as Lh.
  rewrite take_app_length' by (by rewrite put16_length). rewrite ipv4Checksum_norm by done.
  pose proof (wsum_bound _ Bh).
  apply wsum_seal; [done|by exists 5%nat|lia|done| |lia].
  apply (wsum_pos_first _ 0); [done|lia|done].
Qed.

(** A configuration and a neighbour table as [NewConn] and [learnNeighbour]
    build them on a NIC with a gateway. *)
Definition mac_ok (m : bytes) : Prop := length m = 6%nat /\ bytes_ok m.
Definition ip4_ok (a : bytes) : Prop := length a = 4%nat /\ bytes_ok a.
Definition neigh_ok (nt : neighTable) : Prop := forall a m, neigh_lookup nt a = Some m -> mac_ok m.
Record cfg_ok (cfg : txConfig) : Prop := {
  co_sock : (0 < nsock cfg)%nat; co_src : mac_ok (srcMAC cfg); co_gw : mac_ok (gwMAC cfg);
  co_ip : ip4_ok (localIP cfg); co_port : 0 <= localPort cfg < 65536
}.

Lemma NextHop_ok nt gw ip : neigh_ok nt -> mac_ok gw -> mac_ok (NextHopMACForIP nt gw ip).
Proof.
  intros Hn Hg. unfold NextHopMACForIP. destruct (addrFromSlice ip) as [a|]; [|done].
  destruct (neigh_lookup nt a) as [m|] eqn:E; [by apply (Hn a)|done].
Qed.

Lemma txSocketIdx_lt n ip port : (0 < n)%nat -> (txSocketIdx n ip port < n)%nat.
Proof.
  intros. unfold txSocketIdx.
  match goal with |- context [?h mod Z.of_nat n] => pose proof (Z.mod_pos_bound h (Z.of_nat n) ltac:(lia)) end. lia.
Qed.

(** The fields of the packet. *)
Lemma put16_bytes_eq v : 0 <= v < 65536 -> 256 * u8 (v / 256) + u8 v = v.
Proof.
  intros. unfold u8. rewrite (Z.mod_small (v / 256)) by (split; [apply Z.div_pos; lia|apply Z.div_lt_upper_bound; lia]).
  pose proof (Z.div_mod v 256). lia.
Qed.

Lemma udp_packet_length si sp di dp p : length si = 4%nat -> length di = 4%nat ->
  length (udp_packet si sp di dp p) = (28 + length p)%nat.
Proof. intros. unfold udp_packet. rewrite !length_app, put16_length, ip_hdr0_length by done. cbn. lia. Qed.

Lemma udp_packet_fields si di p sp dp : length si = 4%nat -> length di = 4%nat ->
  Z.of_nat (length p) <= 65507 -> 0 <= sp < 65536 -> 0 <= dp < 65536 ->
  let u := udp_packet si sp di dp p in
  be16 u 2 = Z.of_nat (28 + length p) /\ u.[9] = 17 /\ slice u 12 16 = si /\ be16 u 20 = sp /\ be16 u 22 = dp /\ drop 28 u = p.
Proof.
  intros Ls Ld Hl Hs Hd u. unfold u, udp_packet, ip_hdr0. clear u.
  do 4 (destruct si as [|? si]; [discriminate|]). destruct si; [|discriminate].
  do 4 (destruct di as [|? di]; [discriminate|]). destruct di; [|discriminate].
  unfold put16, be16, byte_at, slice. cbn [app list_insert insert nth take drop Nat.sub].
  rewrite !put16_bytes_eq by apply u16_range. rewrite !u16_small by lia. done.
Qed.

Section Frame.
Context (dm sm u : bytes) (Lm : length dm = 6%nat) (Ls : length sm = 6%nat).
Let fr := eth_frame dm sm u.

Lemma eth_frame_drop : drop 14 fr = u.
Proof using Lm Ls.
  unfold fr, eth_frame. rewrite !app_assoc. apply drop_app_length'. rewrite !length_app. cbn. lia.
Qed.
Lemma eth_frame_length : length fr = (14 + length u)%nat.
Proof using Lm Ls. unfold fr, eth_frame. rewrite !length_app. cbn. lia. Qed.
Lemma eth_frame_at j : fr.[14 + j] = u.[j].
Proof using Lm Ls. by rewrite <- eth_frame_drop, byte_at_drop. Qed.
Lemma eth_frame_be16 j : be16 fr (14 + j) = be16 u j.
Proof using Lm Ls. by rewrite <- eth_frame_drop, be16_drop. Qed.
Lemma eth_frame_macs : take 6 fr = dm /\ slice fr 6 12 = sm /\ be16 fr 12 = 2048.
Proof using Lm Ls.
  unfold fr, eth_frame, slice, be16. split; [by apply take_app_length'|].
  rewrite drop_app_length' by done. split; [by apply take_app_length'|].
  rewrite app_assoc. rewrite (byte_at_app_r (dm ++ sm) _ 12), (byte_at_app_r (dm ++ sm) _ 13) by (rewrite length_app; lia). by rewrite length_app, Ls, Lm.
Qed.
End Frame.

(** The receiver's side of a frame for port 443. *)
Lemma dispatch_built dm sm si di sp p h c i desc buf :
  length dm = 6%nat -> length sm = 6%nat -> length si = 4%nat -> length di = 4%nat -> 0 <= sp < 65536 -> Z.of_nat (length p) <= 65507 ->
  quicShards c !! i = Some buf -> (length buf < quicShardCap)%nat ->
  quicShards (dispatchFrame h c i (eth_frame dm sm (udp_packet si sp di 443 p)) desc) =
    <[i := buf ++ [{| q_ip := si; q_port := sp; q_data := p |}]]> (quicShards c).
Proof.
  intros Lm Ls Lsi Ldi Hsp Hl Hbuf Hcap. set (u := udp_packet si sp di 443 p). set (fr := eth_frame dm sm u).
  destruct (udp_packet_fields si di p sp 443 Lsi Ldi Hl Hsp ltac:(lia)) as (_ & F9 & F12 & F20 & F22 & F28).
  fold u in F9, F12, F20, F22, F28.
  assert (Lf : length fr = (42 + length p)%nat).
  { unfold fr. rewrite eth_frame_length by done. unfold u. rewrite udp_packet_length by done. lia. }
  destruct (eth_frame_macs dm sm u Lm Ls) as (_ & _ & E12). fold fr in E12.
  assert (Ed : drop 14 fr = u) by (by apply eth_frame_drop).
  assert (Hcl : classify fr = ClassQUIC 20).
  { unfold classify, ethHdr. rewrite E12, Lf. change (14 + 9)%nat with 23%nat.
    change (drop 14 fr) with (drop 14 fr). rewrite Ed. change (ihl_of u) with 20%nat.
    change (fr.[23]) with (fr.[14 + 9]). unfold fr at 1. rewrite eth_frame_at by done. rewrite F9.
    change (be16 fr (14 + 20 + 2)) with (be16 fr (14 + 22)). unfold fr. rewrite eth_frame_be16 by done. rewrite F22.
    replace (42 + length p <? 14 + 1)%nat with false by (symmetry; apply Nat.ltb_ge; lia).
    replace (42 + length p <? 14 + 20)%nat with false by (symmetry; apply Nat.ltb_ge; lia).
    by replace (14 + 20 + 4 <=? 42 + length p)%nat with true by (symmetry; apply Nat.leb_le; lia). }
  unfold dispatchFrame. rewrite Hcl. unfold dispatchQUIC, ethHdr. rewrite Lf.
  replace (42 + length p <? 14 + 20 + 8)%nat with false by (symmetry; apply Nat.ltb_ge; lia).
  assert (Eip : slice fr (14 + 12) (14 + 16) = si).
  { rewrite <- F12. unfold slice. rewrite <- drop_drop, Ed. done. }
  assert (Edata : drop (14 + 20 + 8) fr = p) by (rewrite <- F28, <- Ed, drop_drop; done).
  assert (Eport : be16 fr (14 + 20) = sp) by (unfold fr; by rewrite eth_frame_be16).
  rewrite Eip, Eport, Edata. unfold enqueue. cbn [refill quicShards]. rewrite Hbuf.
  by replace (quicShardCap <=? length buf)%nat with false by (symmetry; apply Nat.leb_gt; lia).
Qed.

Lemma udp_header_length buf sm dm si sp di dp (p : bytes) :
  length sm = 6%nat -> length dm = 6%nat -> length si = 4%nat -> length di = 4%nat -> (42 <= length buf)%nat ->
  length (udp_header buf sm dm si sp di dp (length p)) = length buf.
Proof.
  intros. rewrite udp_header_eq by done. rewrite length_app, length_drop. unfold eth_frame.
  rewrite !length_app, put16_length, ip_hdr0_length by done. cbn. lia.
Qed.

(** C8.  A QUIC payload survives the wire format: for a payload of at most
    4054 bytes [WriteTo] hands the pump of the destination's queue one frame
    addressed to the next hop, with the exact length, a valid IP header and the
    local source; and a receiver running this receive path, when the frame is
    for port 443 and its shard has room, queues exactly the payload with the
    sender's address.  A longer payload panics on the frame slice. *)
Theorem WriteTo_roundtrip cfg nt p dstIP dstPort :
  cfg_ok cfg -> neigh_ok nt -> ip4_ok dstIP -> 0 <= dstPort < 65536 -> bytes_ok p ->
  match WriteTo cfg nt false p dstIP dstPort with
  | Ok (Some (idx, f)) =>
      (Z.of_nat (length p) <= 4054) /\ (idx < nsock cfg)%nat /\ length f = (42 + length p)%nat /\
      take 6 f = NextHopMACForIP nt (gwMAC cfg) dstIP /\ slice f 6 12 = srcMAC cfg /\
      be16 f 16 = Z.of_nat (28 + length p) /\ csum_ok (ip_total (drop 14 f)) /\
      (dstPort = 443 -> forall h c i desc buf, quicShards c !! i = Some buf -> (length buf < quicShardCap)%nat ->
         quicShards (dispatchFrame h c i f desc) =
           <[i := buf ++ [{| q_ip := localIP cfg; q_port := localPort cfg; q_data := p |}]]> (quicShards c))
  | Ok None => 4054 < Z.of_nat (length p)
  | Err _ => False
  end.
Proof.
  intros [Hs [Ls Bs] [Lg Bg] [Li Bi] Hlp] Hn [Ld Bd] Hdp Hp. unfold WriteTo.
  destruct (NextHop_ok nt (gwMAC cfg) dstIP Hn (conj Lg Bg)) as [Lm Bm].
  set (dm := NextHopMACForIP nt (gwMAC cfg) dstIP) in *.
  assert (Lr : length (replicate txPumpFrameCap 0) = 4096%nat) by apply length_replicate.
  destruct (decide (Z.of_nat (length p) <= 4054)) as [Hsmall|Hbig].
  2:{ rewrite buildUDPFrame_header. cbv zeta. unfold frame_slice.
      rewrite splice_length; rewrite udp_header_length by (done || lia); [|lia].
      rewrite Lr. replace (4096 <? 42 + length p)%nat with true by (symmetry; apply Nat.ltb_lt; lia). cbn. lia. }
  pose proof (buildUDPFrame_eq (replicate txPumpFrameCap 0) (srcMAC cfg) dm (localIP cfg) (localPort cfg) dstIP dstPort p
    Ls Lm Li Ld ltac:(lia)) as HB.
  destruct (buildUDPFrame _ _ _ _ _ _ _ _) as [f total]. destruct HB as (Hf & Hl & Ht).
  unfold frame_slice. rewrite Hl, Lr.
  replace (4096 <? total)%nat with false by (symmetry; apply Nat.ltb_ge; lia).
  cbn [option_bind]. rewrite Hf. set (u := udp_packet _ _ _ _ _).
  destruct (eth_frame_macs dm (srcMAC cfg) u Lm Ls) as (M1 & M2 & _).
  destruct (udp_packet_fields (localIP cfg) dstIP p (localPort cfg) dstPort Li Ld ltac:(lia) Hlp Hdp) as (F2 & _).
  split_and!; try done.
  - by apply txSocketIdx_lt.
  - rewrite eth_frame_length by done. unfold u. rewrite udp_packet_length by done. lia.
  - change 16%nat with (14 + 2)%nat. by rewrite eth_frame_be16.
  - rewrite eth_frame_drop by done. by apply udp_packet_ip_total.
  - intros -> h c i desc buf Hbuf Hcap. apply dispatch_built; (done || lia).
Qed.

Definition cfg_example : txConfig :=
  {| nsock := 2; srcMAC := [2;0;0;0;0;1]; gwMAC := [2;0;0;0;0;254]; localIP := [10;0;0;1]; localPort := 443 |}.

Lemma WriteTo_roundtrip_witness :
  match WriteTo cfg_example None false [1;2;3] [10;0;0;9] 443 with
  | Ok (Some (idx, f)) => length f = 45%nat /\ csum_ok (ip_total (drop 14 f))
  | _ => False
  end.
Proof.
  assert (H : cfg_ok cfg_example) by (split; try (split; [done|apply bytes_okb_ok; reflexivity]); cbn; lia).
  pose proof (WriteTo_roundtrip cfg_example None [1;2;3] [10;0;0;9] 443 H) as T.
  destruct (WriteTo cfg_example None false [1;2;3] [10;0;0;9] 443) as [[[idx f]|]|e] eqn:E.
  - destruct T as (_ & _ & T3 & _ & _ & _ & T7 & _);
      [done|split; [done|apply bytes_okb_ok; reflexivity]|lia|apply bytes_okb_ok; reflexivity|]. split; [exact T3|exact T7].
  - vm_compute in E. discriminate.
  - discriminate.
Defined.

(** ** The receive path *)

(** What one received frame does, besides learning: exactly one of these. *)
Inductive rx_effect (h : option (bytes -> bytes -> bool)) (idx : nat) (frame : bytes) (c c' : Conn) : Prop :=
  | rx_ignored : (classify frame = ClassDrop \/ (exists ihl, classify frame = ClassQUIC ihl /\ (length frame < 22 + ihl)%nat) \/
                  (classify frame = ClassFwd /\ (length frame <= 34)%nat)) ->
      quicShards c' = quicShards c -> quicChDrops c' = quicChDrops c -> fwdDrops c' = fwdDrops c ->
      rx_effect h idx frame c c'
  | rx_queued ihl buf : classify frame = ClassQUIC ihl -> quicShards c !! idx = Some buf -> (length buf < quicShardCap)%nat ->
      quicShards c' = <[idx := buf ++ [{| q_ip := slice frame 26 30; q_port := be16 frame (14 + ihl);
                                          q_data := drop (22 + ihl) frame |}]]> (quicShards c) ->
      rxNotify c' = true -> quicChDrops c' = quicChDrops c -> fwdDrops c' = fwdDrops c -> rx_effect h idx frame c c'
  | rx_shard_full ihl : classify frame = ClassQUIC ihl ->
      (forall buf, quicShards c !! idx = Some buf -> (quicShardCap <= length buf)%nat) ->
      quicShards c' = quicShards c -> quicChDrops c' = quicChDrops c + 1 -> fwdDrops c' = fwdDrops c -> rx_effect h idx frame c c'
  | rx_delivered hd : classify frame = ClassFwd -> h = Some hd -> hd (drop 14 frame) (slice frame 30 34) = true ->
      quicShards c' = quicShards c -> quicChDrops c' = quicChDrops c -> fwdDrops c' = fwdDrops c -> rx_effect h idx frame c c'
  | rx_undelivered : classify frame = ClassFwd ->
      (forall hd, h = Some hd -> hd (drop 14 frame) (slice frame 30 34) = true -> Z.shiftr frame.[14] 4 <> 4) ->
      quicShards c' = quicShards c -> quicChDrops c' = quicChDrops c -> fwdDrops c' = fwdDrops c + 1 -> rx_effect h idx frame c c'.

Lemma slice_drop b n i j : slice (drop n b) i j = slice b (n + i) (n + j).
Proof. unfold slice. rewrite drop_drop. f_equal. lia. Qed.

Lemma learned c h idx frame desc : 
  neigh (receiveFrame h c idx frame desc) =
    if (ethHdr + 20 <=? length frame)%nat && (be16 frame 12 =? 2048)
    then learnNeighbour (neigh c) (slice frame 26 30) (slice frame 6 12) else neigh c.
Proof.
  unfold receiveFrame. set (c0 := if _ : bool then _ else c).
  assert (H : forall c1, neigh (dispatchFrame h c1 idx frame desc) = neigh c1).
  { intros c1. unfold dispatchFrame, dispatchQUIC, dispatchFwd. destruct (classify frame) as [|ihl|]; [done| |].
    - destruct (_ <? _)%nat; [done|]. by destruct (enqueue _ _ _).
    - destruct (length frame <=? ethHdr + 20)%nat; reflexivity. }
  rewrite H. unfold c0. by destruct (_ && _).
Qed.

(** The receive loop: every received frame has exactly one of the effects
    of [rx_effect] (queued as QUIC payload, dropped by a full shard and counted,
    delivered, undeliverable and counted, or ignored), leaves the consumer's
    batch alone, and returns its descriptor to the fill ring exactly once,
    whatever the branch. *)
Theorem receiveFrame_effect h c idx frame desc :
  let c' := receiveFrame h c idx frame desc in
  fills c' = fills c ++ [desc] /\ rxPending c' = rxPending c /\ rx_effect h idx frame c c'.
Proof.
  unfold receiveFrame. set (c0 := if _ : bool then _ else c).
  assert (Hc : fills c0 = fills c /\ rxPending c0 = rxPending c /\ quicShards c0 = quicShards c /\
    quicChDrops c0 = quicChDrops c /\ fwdDrops c0 = fwdDrops c) by (unfold c0; by destruct (_ && _)).
  destruct Hc as (E1 & E2 & E3 & E4 & E5). rewrite <- E1, <- E2.
  assert (Hrx : forall c', rx_effect h idx frame c0 c' -> rx_effect h idx frame c c').
  { intros c' Hx. destruct Hx as [H0 H1 H2 H3|ihl buf H1 H2 H3 H4 H5 H6 H7|ihl H1 H2 H3 H4 H5|hd H1 H2 H3 H4 H5 H6|H1 H0 H2 H3 H4].
    - apply rx_ignored; (assumption || congruence).
    - rewrite E3 in H2, H4. apply (rx_queued _ _ _ _ _ ihl buf); congruence.
    - rewrite E3 in H2. apply (rx_shard_full _ _ _ _ _ ihl); (assumption || congruence).
    - apply (rx_delivered _ _ _ _ _ hd); congruence.
    - apply rx_undelivered; (assumption || congruence). }
  clearbody c0. cut (let c' := dispatchFrame h c0 idx frame desc in
    fills c' = fills c0 ++ [desc] /\ rxPending c' = rxPending c0 /\ rx_effect h idx frame c0 c').
  { intros (H1 & H2 & H3). split; [done|]. split; [done|]. by apply Hrx. }
  cbv zeta. unfold dispatchFrame. destruct (classify frame) as [|ihl|] eqn:Ec.
  - split; [done|]. split; [done|]. apply rx_ignored; [by left|done..].
  - unfold dispatchQUIC. destruct (length frame <? ethHdr + ihl + 8)%nat eqn:El.
    + split; [done|]. split; [done|]. apply rx_ignored; [right; left; exists ihl|done..].
      unfold ethHdr in El. bool_hyps. split; [done|lia].
    + unfold enqueue. cbn [refill quicShards]. destruct (quicShards c0 !! idx) as [buf|] eqn:Eb.
      * destruct (quicShardCap <=? length buf)%nat eqn:Ef; bool_hyps.
        -- split; [done|]. split; [done|]. eapply rx_shard_full; try done. intros b' Hb'. rewrite Eb in Hb'. by injection Hb' as <-.
        -- split; [done|]. split; [done|]. apply (rx_queued _ _ _ _ _ ihl buf); try done.
           cbn [quicShards]. unfold ethHdr. by replace (14 + ihl + 8)%nat with (22 + ihl)%nat by lia.
      * split; [done|]. split; [done|]. eapply rx_shard_full; try done. intros b' Hb'. by rewrite Eb in Hb'.
  - unfold dispatchFwd. destruct (length frame <=? ethHdr + 20)%nat eqn:El.
    + split; [done|]. split; [done|]. apply rx_ignored; [right; right|done..].
      unfold ethHdr in El. bool_hyps. split; [done|lia].
    + split; [done|]. split; [done|]. assert (E14 : (drop ethHdr frame).[0] = frame.[14]).
      { by rewrite byte_at_drop. }
      destruct h as [hd|]; [|by apply rx_undelivered].
      destruct (Z.shiftr (drop ethHdr frame).[0] 4 =? 4) eqn:Ev;
        [|apply rx_undelivered; try done; intros ? _ _; rewrite <- E14; by bool_hyps].
      destruct (hd (drop ethHdr frame) (slice (drop ethHdr frame) 16 20)) eqn:Eh; rewrite slice_drop in Eh;
        [by eapply rx_delivered|]. apply rx_undelivered; try done. intros ? [= <-] H. exfalso. change (hd (drop 14 frame) (slice frame 30 34) = false) in Eh. congruence.
Qed.

Lemma macEq_eq a b : macEq a b = true -> length b = 6%nat -> a = b.
Proof.
  unfold macEq. destruct (_ || _); [done|]. intros H Hl. apply bytes_eqb_eq in H. by rewrite take_ge in H by lia.
Qed.

Lemma learn_lookup nt ip mac a : length mac = 6%nat ->
  neigh_lookup (learnNeighbour nt ip mac) a = if decide (a = ip) then Some mac else neigh_lookup nt a.
Proof.
  intros Hl. unfold learnNeighbour.
  assert (Hm : take 6 mac ++ replicate (6 - length mac) 0 = mac) by (rewrite Hl, take_ge, app_nil_r by lia; done).
  set (known := match nt with Some m => _ | None => _ end). destruct known eqn:E.
  - case_decide as Hd; [|done]. subst a. unfold known in E. destruct nt as [m|]; [|done]. cbn.
    destruct (m !! ip) as [cur|]; [|done]. f_equal. by apply macEq_eq.
  - cbn. rewrite Hm. case_decide as Hd; [subst; apply lookup_insert_eq|].
    rewrite lookup_insert_ne by done. destruct nt; [done|apply lookup_empty].
Qed.

(** Reverse-path learning: after an IPv4 frame of at least a full header
    is received, the next hop of its source address is the frame's source MAC,
    in both the 4-byte and the v4-mapped form of the address; the next hop of
    every other address is unchanged, and an address never heard from still
    falls back to the gateway. *)
Theorem receive_learns_next_hop h c idx frame desc gw :
  (34 <= length frame)%nat -> be16 frame 12 = 2048 ->
  let src := slice frame 26 30 in
  let nt := neigh (receiveFrame h c idx frame desc) in
  NextHopMACForIP nt gw src = slice frame 6 12 /\
  NextHopMACForIP nt gw (replicate 10 0 ++ [255; 255] ++ src) = slice frame 6 12 /\
  forall ip, addrFromSlice ip <> Some src -> NextHopMACForIP nt gw ip = NextHopMACForIP (neigh c) gw ip.
Proof.
  intros Hl He src nt.
  assert (Hs : length src = 4%nat) by (unfold src; rewrite slice_length; lia).
  assert (Hm : length (slice frame 6 12) = 6%nat) by (rewrite slice_length; lia).
  assert (Hnt : nt = learnNeighbour (neigh c) src (slice frame 6 12)).
  { unfold nt. rewrite learned, He. replace (ethHdr + 20 <=? length frame)%nat with true by (symmetry; apply Nat.leb_le; unfold ethHdr; lia). done. }
  assert (Ha : addrFromSlice src = Some src) by (unfold addrFromSlice; by rewrite Hs).
  assert (Ha16 : addrFromSlice (replicate 10 0 ++ [255; 255] ++ src) = Some src).
  { unfold addrFromSlice. rewrite !length_app, Hs. cbn [length replicate Nat.add Nat.eqb].
    change (take 12 _) with (replicate 10 0 ++ [255; 255]). rewrite (proj2 (bytes_eqb_eq _ _)) by done. done. }
  unfold NextHopMACForIP. rewrite Ha, Ha16, Hnt, learn_lookup, decide_True by done.
  split; [done|]. split; [done|]. intros ip Hne. destruct (addrFromSlice ip) as [a|]; [|done].
  rewrite learn_lookup by done. rewrite decide_False by congruence. done.
Qed.

Definition rx_frame_example : bytes :=
  [2;0;0;0;0;1; 2;0;0;0;0;7; 8;0] ++ [69;0;0;20;0;0;0;0;64;1;0;0;10;0;0;9;10;0;0;1].
Definition conn_example : Conn :=
  {| neigh := None; quicShards := [[]; []]; rxPending := []; rxNotify := false; fills := []; quicChDrops := 0; fwdDrops := 0 |}.

Lemma receive_learns_next_hop_witness :
  NextHopMACForIP (neigh (receiveFrame None conn_example 0 rx_frame_example 5)) [9;9;9;9;9;9] [10;0;0;9] = [2;0;0;0;0;7].
Proof.
  destruct (receive_learns_next_hop None conn_example 0 rx_frame_example 5 [9;9;9;9;9;9]) as (H & _);
    [cbn; lia|reflexivity|]. exact H.
Defined.

(** ** The shard handoff *)

Section Handoff.
Context {F : Type} (shard_of : F -> nat) (n : nat).

Definition of_shard (i : nat) (l : list F) : list F := filter (fun f => shard_of f = i) l.
Arguments of_shard : simpl never.
Local Abbreviation reachable := (reach (qstep shard_of) (q_init F n)).

Lemma of_shard_app i l k : of_shard i (l ++ k) = of_shard i l ++ of_shard i k.
Proof. apply filter_app. Qed.
Lemma of_shard_own i l : Forall (fun f => shard_of f = i) l -> of_shard i l = l.
Proof. induction 1 as [|f l Hf _ IH]; [done|]. unfold of_shard in *. rewrite filter_cons_True by done. by rewrite IH. Qed.
Lemma of_shard_other i j l : i <> j -> Forall (fun f => shard_of f = j) l -> of_shard i l = [].
Proof. intros Hne. induction 1 as [|f l Hf _ IH]; [done|]. unfold of_shard in *. by rewrite filter_cons_False by congruence. Qed.

(** What every reachable state satisfies, queue by queue. *)
Record handoff_inv (s : qstate F) : Prop := {
  hi_len : length (q_shards s) = n;
  hi_own i buf : q_shards s !! i = Some buf -> Forall (fun f => shard_of f = i) buf /\ (length buf <= quicShardCap)%nat;
  hi_fifo i buf : q_shards s !! i = Some buf ->
    of_shard i (q_out s) ++ of_shard i (q_pend s) ++ buf = of_shard i (q_accepted s);
  hi_known f : f ∈ q_accepted s -> (shard_of f < n)%nat
}.

Lemma handoff_init : handoff_inv (q_init F n).
Proof.
  constructor; cbn.
  - apply length_replicate.
  - intros i buf H. apply lookup_replicate in H as [-> _]. split; [done|cbn; lia].
  - intros i buf H. by apply lookup_replicate in H as [-> _].
  - intros f Hf. by apply not_elem_of_nil in Hf.
Qed.

Lemma enqueue_Some (shards sh : list (list F)) i f : enqueue shards i f = Some sh ->
  exists buf, shards !! i = Some buf /\ (length buf < quicShardCap)%nat /\ sh = <[i := buf ++ [f]]> shards.
Proof.
  unfold enqueue. destruct (shards !! i) as [buf|]; [|done]. destruct (_ <=? _)%nat eqn:E; [done|].
  intros [= <-]. bool_hyps. by exists buf.
Qed.

Lemma handoff_produce s i f sh : handoff_inv s -> shard_of f = i -> enqueue (q_shards s) i f = Some sh ->
  handoff_inv (Build_qstate sh (q_pend s) (q_reader s) (q_token s) (i :: q_notifiers s) (q_out s) (q_accepted s ++ [f])).
Proof.
  intros [Hlen Hown Hfifo Hknown] Hf (buf & Eb & Hcap & ->)%enqueue_Some.
  assert (Hi : (i < n)%nat) by (rewrite <- Hlen; by eapply lookup_lt_Some). destruct (Hown i buf Eb) as [Ho _].
  constructor; cbn.
  - by rewrite length_insert.
  - intros j b Hj. apply list_lookup_insert_Some in Hj as [(<- & <- & _)|[_ Hj]]; [|by apply Hown].
    split; [apply Forall_app; by repeat constructor|rewrite length_app; cbn; lia].
  - intros j b Hj. rewrite of_shard_app. apply list_lookup_insert_Some in Hj as [(<- & <- & _)|[Hne Hj]].
    + rewrite <- (Hfifo i buf Eb), !app_assoc. f_equal. symmetry. apply of_shard_own. by repeat constructor.
    + rewrite (of_shard_other j i [f]), app_nil_r; [by apply Hfifo|congruence|by repeat constructor].
  - intros g [Hg|Hg%list_elem_of_singleton]%elem_of_app; [by apply Hknown|congruence].
Qed.

Lemma handoff_sweep s j buf : handoff_inv s -> q_shards s !! j = Some buf ->
  handoff_inv (Build_qstate (<[j := []]> (q_shards s)) (q_pend s ++ buf) (RSweep (S j)) (q_token s) (q_notifiers s)
                 (q_out s) (q_accepted s)).
Proof.
  intros [Hlen Hown Hfifo Hknown] Hj. destruct (Hown j buf Hj) as [Ho _]. constructor; cbn.
  - by rewrite length_insert.
  - intros i b Hi. apply list_lookup_insert_Some in Hi as [(<- & <- & _)|[_ Hi]]; [split; [done|cbn; lia]|by apply Hown].
  - intros i b Hi. rewrite of_shard_app. apply list_lookup_insert_Some in Hi as [(<- & <- & _)|[Hne Hi]].
    + rewrite (of_shard_own _ buf), app_nil_r by done. by apply Hfifo.
    + rewrite (of_shard_other i j buf), app_nil_r by done. by apply Hfifo.
  - done.
Qed.

Lemma handoff_step s s' : handoff_inv s -> qstep shard_of s s' -> handoff_inv s'.
Proof.
  intros Hi Hs. destruct Hs as [s i f sh Hf _ He|s i l _|s f rest _ Ep|s _ Ep|s j buf _ Hj|s j _ _|s _ _].
  - by apply handoff_produce.
  - by destruct Hi; constructor.
  - destruct Hi as [H1 H2 H3 H4]. constructor; try done. intros i buf Hb. cbn [q_out q_pend q_accepted].
    rewrite <- (H3 i buf Hb), Ep, of_shard_app, <- app_assoc. f_equal.
    change (f :: rest) with ([f] ++ rest). by rewrite of_shard_app, <- app_assoc.
  - destruct Hi as [H1 H2 H3 H4]. constructor; try done. intros i buf Hb. cbn. by rewrite <- Ep, H3.
  - by apply handoff_sweep.
  - by destruct Hi; constructor.
  - by destruct Hi; constructor.
Qed.

Lemma handoff_reachable s : reachable s -> handoff_inv s.
Proof. induction 1 as [|s s' _ IH Hs]; [apply handoff_init|by eapply handoff_step]. Qed.

(** The wake-up invariant: a non-empty shard is covered by the token, by a
    producer about to set it, or by a consumer that will still look at it. *)
Definition covered (s : qstate F) (i : nat) : Prop :=
  q_token s = true \/ q_notifiers s <> [] \/ q_reader s = RServe \/
  exists j, q_reader s = RSweep j /\ (q_pend s <> [] \/ (j <= i)%nat).

Lemma covered_step s s' : (forall i f l, q_shards s !! i = Some (f :: l) -> covered s i) ->
  qstep shard_of s s' -> length (q_shards s) = n ->
  forall i f l, q_shards s' !! i = Some (f :: l) -> covered s' i.
Proof.
  intros Hc Hs Hlen i g l Hi. destruct Hs as [s k f sh Hf _ He|s k q _|s f rest _ Ep|s _ Ep|s j buf Er Hj|s j Er Hj|s _ _].
  - right; left. discriminate.
  - by left.
  - right; right; by left.
  - right; right; right. exists 0%nat. split; [done|right; lia].
  - cbn in Hi. apply list_lookup_insert_Some in Hi as [(_ & ? & _)|[Hne Hi]]; [done|].
    destruct (Hc i g l Hi) as [H|[H|[H|(j' & H & H')]]]; [by left|by right; left|congruence|].
    right; right; right. exists (S j). split; [done|]. cbn. destruct H' as [H'|H'].
    + left. by destruct (q_pend s).
    + right. rewrite H in Er. injection Er as ->. lia.
  - cbn in Hi. destruct (Hc i g l Hi) as [H|[H|[H|(j' & H & H')]]]; [by left|by right; left|congruence|].
    unfold covered. cbn. destruct (q_pend s) as [|p r]; [|by right; right; left].
    rewrite H in Er. injection Er as ->. apply lookup_lt_Some in Hi. destruct H' as [H'|H']; [done|lia].
  - right; right; by left.
Qed.

Lemma covered_reachable s : reachable s -> forall i f l, q_shards s !! i = Some (f :: l) -> covered s i.
Proof.
  induction 1 as [|s s' Hr IH Hs].
  - intros i f l H. cbn in H. by apply lookup_replicate in H as [? _].
  - eapply covered_step; [exact IH|exact Hs|]. by apply hi_len, handoff_reachable.
Qed.
End Handoff.

(** C29.  The shard handoff, under any interleaving of producers and the
    consumer: at every reachable state, for every queue, the frames already
    returned by [ReadFrom], then those in its private batch, then those still in
    the shard are together exactly the frames accepted from that queue, in the
    order they were received - nothing is lost, duplicated or reordered - and
    no shard ever exceeds its capacity. *)
Theorem shard_handoff_fifo {F} (shard_of : F -> nat) (n : nat) (s : qstate F) :
  reach (qstep shard_of) (q_init F n) s ->
  (forall f, f ∈ q_accepted s -> (shard_of f < n)%nat) /\
  forall i buf, q_shards s !! i = Some buf ->
    (length buf <= quicShardCap)%nat /\
    filter (fun f => shard_of f = i) (q_out s) ++ filter (fun f => shard_of f = i) (q_pend s) ++ buf =
      filter (fun f => shard_of f = i) (q_accepted s).
Proof.
  intros H. destruct (handoff_reachable shard_of n s H) as [H1 H2 H3 H4]. split; [exact H4|].
  intros i buf Hi. split; [apply (H2 i buf Hi)|exact (H3 i buf Hi)].
Qed.

(** C31.  No lost wake-up: whenever a frame sits in a shard while the consumer
    waits on [rxNotify], either the consumer can be woken at once, or a producer
    that accepted a frame has its notification still to send, and the state
    after it is one in which the consumer wakes. *)
Theorem no_lost_wakeup {F} (shard_of : F -> nat) (n : nat) (s : qstate F) i f l :
  reach (qstep shard_of) (q_init F n) s ->
  q_reader s = RWait -> q_shards s !! i = Some (f :: l) ->
  (exists s', qstep shard_of s s' /\ q_reader s' = RServe) \/
  (q_notifiers s <> [] /\ exists s' s'', qstep shard_of s s' /\ qstep shard_of s' s'' /\ q_reader s'' = RServe).
Proof.
  intros Hr Hw Hi. destruct (covered_reachable shard_of n s Hr i f l Hi) as [H|[H|[H|(j & H & _)]]]; [| |congruence..].
  - left. eexists. split; [by apply q_wake|done].
  - right. split; [done|]. destruct (q_notifiers s) as [|k ks] eqn:E; [done|].
    eexists _, _. split; [apply (q_notify _ s k ks); by rewrite E|]. split; [by apply q_wake|done].
Qed.

(** Two queues, one frame on each, a sweep that passes queue 0 before the
    second frame of queue 0 arrives: the consumer still gets it. *)
Definition frame_id := (nat * nat)%type.
Definition mkq (sh : list (list frame_id)) p r t ns o a : qstate frame_id := Build_qstate sh p r t ns o a.

Lemma handoff_example_reach :
  reach (qstep fst) (q_init frame_id 2) (mkq [[(0, 7)]; []]%nat [] RWait false [0]%nat [] [(0, 7)]%nat).
Proof.
  eapply reach_step; [eapply reach_step; [eapply reach_step; [eapply reach_step; [eapply reach_step; [apply reach_refl|]|]|]|]|].
  - by apply q_begin.
  - by eapply (q_sweep _ _ 0).
  - by eapply (q_produce fst _ 0 (0, 7)%nat); [|apply not_elem_of_nil|].
  - by eapply (q_sweep _ _ 1).
  - exact (q_end fst (mkq [[(0, 7)]; []]%nat [] (RSweep 2) false [0]%nat [] [(0, 7)]%nat) 2 eq_refl eq_refl).
Qed.

Lemma shard_handoff_fifo_witness : filter (fun f : frame_id => fst f = 0%nat) [(0, 7)]%nat = [(0, 7)]%nat.
Proof.
  destruct (shard_handoff_fifo fst 2 _ handoff_example_reach) as [_ H]. destruct (H 0%nat _ eq_refl) as [_ E]. symmetry. exact E.
Defined.

Lemma no_lost_wakeup_witness :
  let s := mkq [[(0, 7)]; []]%nat [] RWait false [0]%nat [] [(0, 7)]%nat in
  (exists s', qstep fst s s' /\ q_reader s' = RServe) \/
  (q_notifiers s <> [] /\ exists s' s'', qstep fst s s' /\ qstep fst s' s'' /\ q_reader s'' = RServe).
Proof. exact (no_lost_wakeup fst 2 _ 0 (0, 7)%nat [] handoff_example_reach eq_refl eq_refl). Defined.
