(* ===== verification/RxLoop.v ===== *)
(** * A connection's receive loop, health snapshot and close (xdp/conn.go)

    [dispatchSocket] around [receiveFrame] of Conn: topping up the fill ring,
    waiting for frames, receiving what is ready; [DiagSnapshot], the socket
    buffers and [Close].  What the socket library answers in a turn of the loop
    is an input. *)
From S2P Require Import Prelude Words Conn.
Local Open Scope Z_scope.
Local Open Scope masqued_scope.

(** ** The loop *)

Inductive pollAnswer := PollOk | PollEINTR | PollError.

(** One turn: is [c.done] closed, the free fill slots, the frames ready, the
    answer of poll and the frames ready after it; [ra_ring]: the frames of the
    ring, oldest first, each cut to its length, with its descriptor. *)
Record roundAnswers := {
  ra_done : bool; ra_free : nat; ra_ready : nat; ra_poll : pollAnswer; ra_ready2 : nat; ra_ring : list (bytes * Z)
}.

Record rxLoop := { rl_conn : Conn; rl_topups : list nat; xskRxRounds : Z; xskRxFrames : Z }.

Section Loop.
Context (h : option (bytes -> bytes -> bool)) (idx : nat).

Definition receive_all (c : Conn) (fs : list (bytes * Z)) : Conn :=
  foldl (fun c fd => receiveFrame h c idx fd.1 fd.2) c fs.

Definition receive_round (l : rxLoop) (fs : list (bytes * Z)) : rxLoop :=
  {| rl_conn := receive_all (rl_conn l) fs; rl_topups := rl_topups l;
     xskRxRounds := xskRxRounds l + 1; xskRxFrames := xskRxFrames l + Z.of_nat (length fs) |}.

(** [false]: the goroutine has returned. *)
Definition rx_round (l : rxLoop) (a : roundAnswers) : bool * rxLoop :=
  if ra_done a then (false, l)
  else
    let l := if (0 <? ra_free a)%nat
             then {| rl_conn := rl_conn l; rl_topups := rl_topups l ++ [ra_free a]; xskRxRounds := xskRxRounds l; xskRxFrames := xskRxFrames l |}
             else l in
    if (ra_ready a =? 0)%nat then
      match ra_poll a with
      | PollEINTR => (true, l)
      | PollError => (false, l)
      | PollOk => if (ra_ready2 a =? 0)%nat then (true, l) else (true, receive_round l (take (ra_ready2 a) (ra_ring a)))
      end
    else (true, receive_round l (take (ra_ready a) (ra_ring a))).

Fixpoint dispatchSocket (l : rxLoop) (answers : list roundAnswers) : bool * rxLoop :=
  match answers with
  | [] => (true, l)
  | a :: rest => match rx_round l a with (true, l) => dispatchSocket l rest | stopped => stopped end
  end.
End Loop.

(** ** [DiagSnapshot] *)

(** [so_stats]: the kernel's drop counters of a socket, when they can be read. *)
Record sockState := { so_fillFree : Z; so_txFree : Z; so_stats : option (Z * Z * Z) }.
Record snapshot := {
  d_quicLen : Z; d_quicCap : Z; d_quicChDrops : Z; d_fwdDrops : Z; d_minFill : Z; d_minTxFree : Z;
  d_rxDropped : Z; d_rxRingFull : Z; d_rxFillEmpty : Z
}.
Definition min_from (start : Z) (l : list Z) : Z := foldl (fun m x => if x <? m then x else m) start l.
Definition sum_u64 (l : list Z) : Z := foldl (fun s x => u64 (s + x)) 0 l.
Definition DiagSnapshot (c : Conn) (socks : list sockState) : snapshot :=
  let stats := omap so_stats socks in
  {| d_quicLen := foldl (fun n sh => n + Z.of_nat (length sh)) 0 (quicShards c);
     d_quicCap := Z.of_nat (quicShardCap * length (quicShards c));
     d_quicChDrops := quicChDrops c; d_fwdDrops := fwdDrops c;
     d_minFill := min_from 99999 (map so_fillFree socks); d_minTxFree := min_from 99999 (map so_txFree socks);
     d_rxDropped := sum_u64 (map (fun s => s.1.1) stats); d_rxRingFull := sum_u64 (map (fun s => s.1.2) stats);
     d_rxFillEmpty := sum_u64 (map snd stats) |}.

(** ** Buffers and close *)

(** The sockets' buffer sizes; [ok i]: the option of socket [i] can be set.  The
    answer is the socket whose option could not be set. *)
Fixpoint set_buffers (ok : nat -> bool) (size : Z) (i : nat) (sizes : list Z) : option nat * list Z :=
  match sizes with
  | [] => (None, [])
  | old :: rest => if ok i then let '(e, rest) := set_buffers ok size (S i) rest in (e, size :: rest) else (Some i, old :: rest)
  end.
Definition SetReadBuffer (ok : nat -> bool) (size : Z) (rcvbuf : list Z) : option nat * list Z := set_buffers ok size 0 rcvbuf.
Definition SetWriteBuffer (ok : nat -> bool) (size : Z) (sndbuf : list Z) : option nat * list Z := set_buffers ok size 0 sndbuf.

(** A socket is [None] when its slot is nil, else whether it is open. *)
Record connLife := { done_closed : bool; conn_sockets : list (option bool) }.
Definition closeSockets (sockets : list (option bool)) : list (option bool) :=
  map (fun s => match s with Some _ => Some false | None => None end) sockets.
(** [None]: closing the channel a second time panics. *)
Definition Conn_Close (c : connLife) : option connLife :=
  if done_closed c then None else Some {| done_closed := true; conn_sockets := closeSockets (conn_sockets c) |}.
