(* ===== verification/RxLoopProps.v ===== *)
(** * Properties of the receive loop *)
From S2P Require Import Prelude Words Conn ConnProps RxLoop.
Local Open Scope Z_scope.
Local Open Scope masqued_scope.

(** ** Frames *)

(** What a turn receives: nothing on shutdown, on a poll that is interrupted or
    fails, and when no frame is ready. *)
Definition received (a : roundAnswers) : list (bytes * Z) :=
  if ra_done a then []
  else if (ra_ready a =? 0)%nat then match ra_poll a with PollOk => take (ra_ready2 a) (ra_ring a) | _ => [] end
  else take (ra_ready a) (ra_ring a).
Definition stops (a : roundAnswers) : bool :=
  ra_done a || ((ra_ready a =? 0)%nat && match ra_poll a with PollError => true | _ => false end).
(** The turns until the goroutine returns. *)
Fixpoint turns (answers : list roundAnswers) : list roundAnswers :=
  match answers with [] => [] | a :: rest => if stops a then [] else a :: turns rest end.

(** The shards hold at most their capacity. *)
Definition shards_ok (c : Conn) : Prop := Forall (fun sh => length sh <= quicShardCap)%nat (quicShards c).

Section Loop.
Context (h : option (bytes -> bytes -> bool)) (idx : nat).

Lemma receiveFrame_shards c frame desc : shards_ok c ->
  shards_ok (receiveFrame h c idx frame desc) /\ length (quicShards (receiveFrame h c idx frame desc)) = length (quicShards c).
Proof using.
  unfold receiveFrame, shards_ok. set (c0 := if _ : bool then _ else c). intros Hc.
  assert (E : quicShards c0 = quicShards c) by (unfold c0; by destruct (_ && _)). rewrite <- E in Hc |- *. clearbody c0.
  unfold dispatchFrame, dispatchQUIC, dispatchFwd. destruct (classify frame) as [|ihl|]; [done| |by case_match].
  case_match; [done|]. cbv zeta. unfold enqueue. cbn [quicShards refill].
  destruct (quicShards c0 !! idx) as [buf|] eqn:Eb; [|done].
  destruct (quicShardCap <=? length buf)%nat eqn:Ef; [done|]. bool_hyps. cbn [quicShards]. split; [|by rewrite length_insert].
  apply Forall_insert; [done|]. rewrite length_app. cbn. lia.
Qed.
Lemma receiveFrame_fills c frame desc : fills (receiveFrame h c idx frame desc) = fills c ++ [desc].
Proof using. apply (receiveFrame_effect h c idx frame desc). Qed.

Lemma receive_all_spec fs : forall c, shards_ok c ->
  fills (receive_all h idx c fs) = fills c ++ map snd fs /\ shards_ok (receive_all h idx c fs) /\
  length (quicShards (receive_all h idx c fs)) = length (quicShards c).
Proof using.
  induction fs as [|[f d] fs IH]; intros c Hc; cbn; [by rewrite app_nil_r|].
  destruct (receiveFrame_shards c f d Hc) as [Hs Hl]. destruct (IH _ Hs) as (H1 & H2 & H3).
  unfold receive_all in *. rewrite H1, receiveFrame_fills, <- app_assoc. split; [done|]. split; [done|congruence].
Qed.

Lemma rx_round_spec l a : shards_ok (rl_conn l) ->
  let '(go, l') := rx_round h idx l a in
  go = negb (stops a) /\ fills (rl_conn l') = fills (rl_conn l) ++ map snd (received a) /\
  xskRxFrames l' = xskRxFrames l + Z.of_nat (length (received a)) /\
  shards_ok (rl_conn l') /\ length (quicShards (rl_conn l')) = length (quicShards (rl_conn l)).
Proof using.
  intros Hc. unfold rx_round, received, stops. destruct (ra_done a); [cbn; rewrite app_nil_r; split_and!; (done || lia)|].
  set (l1 := if (0 <? ra_free a)%nat then _ else l).
  assert (H1 : rl_conn l1 = rl_conn l /\ xskRxFrames l1 = xskRxFrames l) by (unfold l1; by case_match). destruct H1 as [E1 E2].
  assert (Hr : forall fs, let l2 := receive_round h idx l1 fs in fills (rl_conn l2) = fills (rl_conn l) ++ map snd fs /\
    xskRxFrames l2 = xskRxFrames l + Z.of_nat (length fs) /\ shards_ok (rl_conn l2) /\ length (quicShards (rl_conn l2)) = length (quicShards (rl_conn l))).
  { intros fs. cbn. rewrite E1, E2. destruct (receive_all_spec fs (rl_conn l) Hc) as (A & B & C). done. }
  assert (Hn : fills (rl_conn l1) = fills (rl_conn l) ++ map snd ([] : list (bytes * Z)) /\ xskRxFrames l1 = xskRxFrames l + Z.of_nat (length ([] : list (bytes * Z))) /\
    shards_ok (rl_conn l1) /\ length (quicShards (rl_conn l1)) = length (quicShards (rl_conn l))).
  { rewrite E1, E2. cbn. rewrite app_nil_r. split_and!; (done || lia). }
  destruct (ra_ready a =? 0)%nat; [|by split]. destruct (ra_poll a); [|by split..].
  destruct (ra_ready2 a =? 0)%nat eqn:E0; [|by split]. apply Nat.eqb_eq in E0. rewrite E0. by split.
Qed.
End Loop.

(** ** The snapshot *)

Lemma min_from_le l : forall m, min_from m l <= m /\ forall x, x ∈ l -> min_from m l <= x.
Proof.
  unfold min_from. induction l as [|y l IH]; intros m; cbn [foldl]; [split; [lia|by intros x Hx%not_elem_of_nil]|].
  destruct (IH (if y <? m then y else m)) as [H1 H2]. destruct (Z.ltb_spec y m); (split; [lia|]); intros x Hx; apply elem_of_cons in Hx as [->|Hx]; try lia; by apply H2.
Qed.
Lemma quicLen_bound (shs : list (list quicFrame)) : forall n, Forall (fun sh => length sh <= quicShardCap)%nat shs ->
  foldl (fun n sh => n + Z.of_nat (length sh)) n shs <= n + Z.of_nat (quicShardCap * length shs).
Proof.
  induction shs as [|sh shs IH]; intros n Hs; cbn [foldl length]; [lia|]. apply Forall_cons in Hs as [H1 Hs].
  specialize (IH (n + Z.of_nat (length sh)) Hs). lia.
Qed.
Lemma snapshot_ok c socks : shards_ok c -> let d := DiagSnapshot c socks in
  d_quicLen d <= d_quicCap d /\ d_quicCap d = Z.of_nat (quicShardCap * length (quicShards c)) /\
  (forall s, s ∈ socks -> d_minFill d <= so_fillFree s /\ d_minTxFree d <= so_txFree s).
Proof.
  intros Hc. cbn [DiagSnapshot d_quicLen d_quicCap d_minFill d_minTxFree].
  split; [apply (quicLen_bound (quicShards c) 0 Hc)|]. split; [done|]. intros s Hs.
  split; apply min_from_le; apply list_elem_of_fmap; by exists s.
Qed.

(** C30.  The receive loop.  Over any sequence of turns it returns exactly at the
    first closed [done] or failed poll (an interrupted one is retried); until
    then it handles every frame it receives, and each descriptor goes back to
    the fill ring once, in the order received; no shard ever holds more than its
    1024 frames, so the occupancy a snapshot shows never exceeds the capacity
    it shows, and its free-slot figures are the least over the sockets. *)
Theorem rx_loop_conserves h idx answers socks : forall l, shards_ok (rl_conn l) ->
  let '(running, l') := dispatchSocket h idx l answers in
  let fs := concat (map received (turns answers)) in
  running = negb (existsb stops answers) /\
  fills (rl_conn l') = fills (rl_conn l) ++ map snd fs /\ xskRxFrames l' = xskRxFrames l + Z.of_nat (length fs) /\
  let d := DiagSnapshot (rl_conn l') socks in
  d_quicLen d <= d_quicCap d /\ d_quicCap d = Z.of_nat (quicShardCap * length (quicShards (rl_conn l))) /\
  (forall s, s ∈ socks -> d_minFill d <= so_fillFree s /\ d_minTxFree d <= so_txFree s).
Proof.
  induction answers as [|a rest IH]; intros l Hl; cbn [dispatchSocket turns existsb].
  - cbn [map concat length]. rewrite app_nil_r. split; [done|]. split; [done|]. split; [lia|]. by apply snapshot_ok.
  - pose proof (rx_round_spec h idx l a Hl) as Hr. destruct (rx_round h idx l a) as [go l1]. destruct Hr as (-> & Hf & Hx & Hs & Hn).
    destruct (stops a) eqn:Es; cbn [negb orb map concat].
    + assert (Er : received a = []).
      { unfold received. unfold stops in Es. destruct (ra_done a); [done|]. cbn in Es. apply andb_true_iff in Es as [-> Es]. by destruct (ra_poll a). }
      rewrite Er in Hf, Hx. cbn [map length] in *. split; [done|]. split; [exact Hf|]. split; [exact Hx|]. rewrite <- Hn. by apply snapshot_ok.
    + specialize (IH l1 Hs). destruct (dispatchSocket h idx l1 rest) as [run l2]. cbv zeta in IH |- *. destruct IH as (I1 & I2 & I3 & I4).
      rewrite Hn in I4. split; [exact I1|]. split; [by rewrite I2, Hf, map_app, app_assoc|]. split; [rewrite I3, Hx, length_app; lia|exact I4].
Qed.

Lemma rx_loop_conserves_witness :
  let a := {| ra_done := false; ra_free := 1; ra_ready := 0; ra_poll := PollOk; ra_ready2 := 1; ra_ring := [(rx_frame_example, 5)] |} in
  let stop := {| ra_done := true; ra_free := 1; ra_ready := 1; ra_poll := PollOk; ra_ready2 := 1; ra_ring := [(rx_frame_example, 6)] |} in
  let l := {| rl_conn := conn_example; rl_topups := []; xskRxRounds := 0; xskRxFrames := 0 |} in
  shards_ok (rl_conn l) /\ fills (rl_conn (dispatchSocket None 0 l [a; stop; a]).2) = [5].
Proof.
  intros a stop l. assert (Hs : shards_ok (rl_conn l)) by (repeat constructor; cbn; unfold quicShardCap; lia).
  split; [exact Hs|]. pose proof (rx_loop_conserves None 0 [a; stop; a] [] l Hs) as H.
  destruct (dispatchSocket None 0 l [a; stop; a]) as [run l']. destruct H as (_ & H & _). exact H.
Defined.

(** ** Buffers and close *)

Lemma set_buffers_spec ok size l : forall i e l', set_buffers ok size i l = (e, l') ->
  length l' = length l /\
  (e = None -> forall k, (k < length l)%nat -> l' !! k = Some size /\ ok (i + k)%nat = true) /\
  (forall j, e = Some j -> ok j = false /\ (i <= j < i + length l)%nat /\
     forall k, (k < length l)%nat -> l' !! k = if (i + k <? j)%nat then Some size else l !! k).
Proof.
  induction l as [|old l IH]; intros i e l'; cbn [set_buffers].
  { intros [= <- <-]. split; [done|]. split; [cbn; lia|]. by intros j. }
  destruct (ok i) eqn:Eo.
  - destruct (set_buffers ok size (S i) l) as [e1 l1] eqn:Es. intros [= <- <-]. destruct (IH _ _ _ Es) as (H1 & H2 & H3).
    split; [cbn; lia|]. split.
    + intros -> [|k] Hk; [split; [done|by rewrite Nat.add_0_r]|]. cbn in Hk |- *. rewrite Nat.add_succ_r. apply H2; [done|lia].
    + intros j Ej. destruct (H3 j Ej) as (A & B & C). split; [done|]. split; [cbn; lia|]. intros [|k] Hk.
      * rewrite Nat.add_0_r. by rewrite (proj2 (Nat.ltb_lt i j)) by lia.
      * cbn in Hk |- *. rewrite Nat.add_succ_r. apply C. lia.
  - intros [= <- <-]. split; [done|]. split; [done|]. intros j [= <-]. split; [done|]. split; [cbn; lia|].
    intros k Hk. by rewrite (proj2 (Nat.ltb_ge (i + k) i)) by lia.
Qed.

(** Setting a socket buffer succeeds exactly when every socket took the size;
    the first that refuses is reported and leaves it and its successors alone. *)
Theorem buffers_all_or_first ok size rcvbuf :
  let '(e, after) := SetReadBuffer ok size rcvbuf in
  length after = length rcvbuf /\
  match e with
  | None => forall k, (k < length rcvbuf)%nat -> after !! k = Some size /\ ok k = true
  | Some j => ok j = false /\ forall k, (k < length rcvbuf)%nat -> after !! k = if (k <? j)%nat then Some size else rcvbuf !! k
  end.
Proof.
  unfold SetReadBuffer. destruct (set_buffers ok size 0 rcvbuf) as [e l'] eqn:E. destruct (set_buffers_spec _ _ _ _ _ _ E) as (H1 & H2 & H3).
  split; [done|]. destruct e as [j|]; [|by apply H2]. destruct (H3 j eq_refl) as (A & _ & C). by split.
Qed.

(** A second [Close] of a connection panics, on the channel closed already; the
    first has closed every socket. *)
Theorem close_twice_panics c c' : Conn_Close c = Some c' ->
  Conn_Close c' = None /\ (forall i s, conn_sockets c' !! i = Some (Some s) -> s = false) /\ length (conn_sockets c') = length (conn_sockets c).
Proof.
  unfold Conn_Close. destruct (done_closed c); [done|]. intros [= <-]. cbn. split; [done|]. unfold closeSockets. split; [|by rewrite length_map].
  intros i s Hs. apply list_lookup_fmap_Some in Hs as ([b|] & Hs & _); [by injection Hs|done].
Qed.
Lemma close_twice_panics_witness : exists c', Conn_Close {| done_closed := false; conn_sockets := [Some true; None] |} = Some c' /\ Conn_Close c' = None.
Proof.
  eexists. split; [reflexivity|]. exact (proj1 (close_twice_panics {| done_closed := false; conn_sockets := [Some true; None] |} _ eq_refl)).
Defined.
