(* ===== verification/Multi.v ===== *)
(** * Several AF_XDP connections as one (xdp/multiconn.go)

    One receive loop per NIC, a shared bounded channel, and the map from a
    client's address to the NIC its last packet arrived on.  The loops and the
    reader interleave freely: each [select], send and receive is a step.  Closing
    is not a step: the system is modelled while it runs. *)
From S2P Require Import Prelude Words Conn.
Local Open Scope Z_scope.

Definition mcPktSize : nat := 2048.
Definition rxChCap : nat := 1024.

Record mcPkt := { mp_data : bytes; mp_addr : bytes * Z; mp_conn : nat }.

(** What [Conn.ReadFrom] answers for frame [f] into the pooled buffer. *)
Definition pkt_of (i : nat) (f : quicFrame) : mcPkt :=
  {| mp_data := take mcPktSize (q_data f); mp_addr := (q_ip f, q_port f); mp_conn := i |}.

(** [mc_in]: per NIC, the frames its Conn has yet to hand over; [mc_hold]: the
    packet its loop is sending; [mc_out]: what [ReadFrom] has answered;
    [mc_log]: the frames read so far, with their NIC. *)
Record MultiConn := {
  mc_in : list (list quicFrame); mc_hold : list (option mcPkt);
  rxCh : list mcPkt; addrToConn : gmap (bytes * Z) nat;
  mc_out : list mcPkt; mc_log : list (nat * quicFrame)
}.

Definition NewMultiConn (conns : list (list quicFrame)) : MultiConn :=
  {| mc_in := conns; mc_hold := replicate (length conns) None; rxCh := []; addrToConn := ∅; mc_out := []; mc_log := [] |}.

Inductive mcstep : MultiConn -> MultiConn -> Prop :=
  (* rxLoop: read one datagram and record its address.  The frames of a NIC and
     the datagram just read are the loop's own until the address is stored, so
     the read and the store, the one access to shared state, are one step. *)
  | mc_read s i f rest : mc_in s !! i = Some (f :: rest) -> mc_hold s !! i = Some None ->
      mcstep s {| mc_in := <[i := rest]> (mc_in s); mc_hold := <[i := Some (pkt_of i f)]> (mc_hold s); rxCh := rxCh s;
                  addrToConn := <[(q_ip f, q_port f) := i]> (addrToConn s); mc_out := mc_out s; mc_log := mc_log s ++ [(i, f)] |}
  (* rxLoop: the send, once the channel has room *)
  | mc_send s i pk : mc_hold s !! i = Some (Some pk) -> (length (rxCh s) < rxChCap)%nat ->
      mcstep s {| mc_in := mc_in s; mc_hold := <[i := None]> (mc_hold s); rxCh := rxCh s ++ [pk];
                  addrToConn := addrToConn s; mc_out := mc_out s; mc_log := mc_log s |}
  (* ReadFrom *)
  | mc_recv s pk rest : rxCh s = pk :: rest ->
      mcstep s {| mc_in := mc_in s; mc_hold := mc_hold s; rxCh := rest; addrToConn := addrToConn s;
                  mc_out := mc_out s ++ [pk]; mc_log := mc_log s |}.

(** What the caller of [ReadFrom] sees of a packet, with room for [plen] bytes. *)
Definition mc_ReadFrom (plen : nat) (pk : mcPkt) : bytes * (bytes * Z) := (take plen (mp_data pk), mp_addr pk).

(** The connection [WriteTo] picks, and the write itself ([cfgs], [nts]: each
    Conn's transmit state). *)
Definition route_to (s : MultiConn) (addr : bytes * Z) : nat := default O (addrToConn s !! addr).
Definition mc_WriteTo (cfgs : list txConfig) (nts : list neighTable) (s : MultiConn) (p : bytes) (addr : bytes * Z)
  : option (result unit (option (nat * bytes))) :=
  cfg ← cfgs !! route_to s addr; nt ← nts !! route_to s addr; Some (WriteTo cfg nt false p addr.1 addr.2).

(** [NewMultiConn] on one Conn answers that Conn: what quic-go then reads. *)
Definition single_ReadFrom (plen : nat) (f : quicFrame) : bytes * (bytes * Z) := (take plen (q_data f), (q_ip f, q_port f)).

(** [Close] closes every Conn and answers the first error. *)
Definition mc_Close {E} (errs : list (option E)) : option E :=
  foldl (fun first e => match e with Some e => match first with None => Some e | _ => first end | None => first end) None errs.
