(* ===== verification/MultiProps.v ===== *)
(** * Properties of the merged connection *)
From S2P Require Import Prelude Words Conn Multi.
Local Open Scope Z_scope.

(** The packets of NIC [i] among [l]. *)
Definition of_conn (i : nat) (l : list mcPkt) : list mcPkt := filter (fun pk => mp_conn pk = i) l.
Definition held (s : MultiConn) (i : nat) : list mcPkt := match mc_hold s !! i with Some (Some pk) => [pk] | _ => [] end.
(** The frames of NIC [i] in the log. *)
Definition log_of (i : nat) (l : list (nat * quicFrame)) : list quicFrame := snd <$> filter (fun x => x.1 = i) l.

Lemma of_conn_app i l l' : of_conn i (l ++ l') = of_conn i l ++ of_conn i l'.
Proof. apply filter_app. Qed.
Lemma of_conn_one i pk : of_conn i [pk] = if decide (mp_conn pk = i) then [pk] else [].
Proof. unfold of_conn. rewrite filter_cons. by case_decide. Qed.
Lemma log_of_app i l l' : log_of i (l ++ l') = log_of i l ++ log_of i l'.
Proof. unfold log_of. by rewrite filter_app, fmap_app. Qed.
Lemma log_of_one i x : log_of i [x] = if decide (x.1 = i) then [x.2] else [].
Proof. unfold log_of. rewrite filter_cons. by case_decide. Qed.

(** The NIC of the last frame from an address. *)
Definition last_conn (addr : bytes * Z) (l : list (nat * quicFrame)) : option nat :=
  fst <$> last (filter (fun x => (q_ip x.2, q_port x.2) = addr) l).

Record mc_ok (ins : list (list quicFrame)) (s : MultiConn) : Prop := {
  mk_len : length (mc_hold s) = length (mc_in s) /\ length (mc_in s) = length ins;
  mk_log i l : ins !! i = Some l -> exists rest, mc_in s !! i = Some rest /\ l = log_of i (mc_log s) ++ rest;
  mk_conn i pk : mc_hold s !! i = Some (Some pk) -> mp_conn pk = i;
  mk_flow i : of_conn i (mc_out s) ++ of_conn i (rxCh s) ++ held s i = pkt_of i <$> log_of i (mc_log s);
  mk_addr a : addrToConn s !! a = last_conn a (mc_log s);
  mk_cap : (length (rxCh s) <= rxChCap)%nat
}.

Lemma last_conn_snoc a l i f : last_conn a (l ++ [(i, f)]) = if decide ((q_ip f, q_port f) = a) then Some i else last_conn a l.
Proof.
  unfold last_conn. rewrite filter_app, filter_cons. cbn [snd]. case_decide; [|by rewrite filter_nil, app_nil_r].
  rewrite filter_nil, last_snoc. done.
Qed.

Lemma mc_init ins : mc_ok ins (NewMultiConn ins).
Proof.
  constructor; cbn.
  - by rewrite length_replicate.
  - intros i l Hl. by exists l.
  - intros i pk Hi. by apply lookup_replicate in Hi as [? _].
  - intros i. unfold held. cbn. destruct (replicate _ None !! i) as [o|] eqn:E; [|done]. by apply lookup_replicate in E as [-> _].
  - intros a. apply lookup_empty.
  - lia.
Qed.

Lemma mc_held_insert s i o j : (i < length (mc_hold s))%nat ->
  match <[i := o]> (mc_hold s) !! j with Some (Some pk) => [pk] | _ => [] end =
  if decide (i = j) then match o with Some pk => [pk] | None => [] end else held s j.
Proof.
  intros Hi. case_decide as Hd.
  - subst. rewrite list_lookup_insert_eq by done. by destruct o.
  - unfold held. by rewrite list_lookup_insert_ne.
Qed.

Lemma mc_step_ok ins s s' : mc_ok ins s -> mcstep s s' -> mc_ok ins s'.
Proof.
  intros [[L1 L2] Hlog Hconn Hflow Haddr Hcap] Hs. destruct Hs as [s i f rest Hin Hh|s i pk Hh Hroom|s pk rest Hq].
  - pose proof (lookup_lt_Some _ _ _ Hh) as Hi. constructor; cbn [mc_in mc_hold rxCh addrToConn mc_out mc_log].
    + rewrite !length_insert. done.
    + intros j l Hl. destruct (Hlog j l Hl) as (r & Er & ->). rewrite log_of_app, log_of_one. cbn [fst snd].
      destruct (decide (i = j)) as [->|Hne].
      * rewrite Hin in Er. injection Er as <-. exists rest. split; [apply list_lookup_insert_eq; by apply lookup_lt_Some in Hin|].
        by rewrite <- app_assoc.
      * exists r. rewrite list_lookup_insert_ne by done. split; [done|]. by rewrite app_nil_r.
    + intros j pk Hj. apply list_lookup_insert_Some in Hj as [(<- & [= <-] & _)|[_ Hj]]; [done|by eapply Hconn].
    + intros j. unfold held. cbn [mc_hold]. rewrite mc_held_insert by done. rewrite log_of_app, log_of_one, fmap_app. cbn [fst snd].
      rewrite <- Hflow. case_decide as Hd.
      * subst j. unfold held. rewrite Hh. cbn. by rewrite !app_nil_r, <- !app_assoc.
      * cbn. by rewrite app_nil_r.
    + intros a. rewrite last_conn_snoc. destruct (decide _) as [<-|Hne]; [apply lookup_insert_eq|rewrite lookup_insert_ne by done; apply Haddr].
    + done.
  - pose proof (lookup_lt_Some _ _ _ Hh) as Hi. constructor; cbn [mc_in mc_hold rxCh addrToConn mc_out mc_log]; try done.
    + by rewrite length_insert.
    + intros j pk' Hj. apply list_lookup_insert_Some in Hj as [(_ & ? & _)|[_ Hj]]; [done|by eapply Hconn].
    + intros j. unfold held. cbn [mc_hold]. rewrite mc_held_insert by done. rewrite of_conn_app, of_conn_one, <- Hflow.
      rewrite (Hconn i pk Hh). case_decide as Hd.
      * subst j. unfold held. rewrite Hh. by rewrite app_nil_r.
      * by rewrite app_nil_r.
    + rewrite length_app. cbn. lia.
  - constructor; cbn [mc_in mc_hold rxCh addrToConn mc_out mc_log]; try done.
    + intros j. rewrite <- Hflow. rewrite of_conn_app, Hq. change (pk :: rest) with ([pk] ++ rest).
      rewrite (of_conn_app j [pk]). unfold held. cbn [mc_hold]. by rewrite <- !app_assoc.
    + rewrite Hq in Hcap. cbn in Hcap. lia.
Qed.

(** C35.  Merging the NICs loses and reorders nothing within a NIC, and replies
    leave by the NIC their client was last heard on.  Under any interleaving of
    the receive loops and the reader: the packets of each NIC that were answered,
    wait in the channel or are held by its loop are exactly the frames read from
    it, in order, each cut to the 2048-byte buffer; the frames read are a prefix
    of those that arrived; the channel stays within its capacity; and an address
    heard from is routed to the NIC of its last frame. *)
Theorem multiconn_merge ins s i l : ins !! i = Some l -> reach mcstep (NewMultiConn ins) s ->
  (of_conn i (mc_out s) ++ of_conn i (rxCh s) ++ held s i = pkt_of i <$> log_of i (mc_log s)) /\
  (exists rest, l = log_of i (mc_log s) ++ rest) /\
  (length (rxCh s) <= rxChCap)%nat /\
  (forall f a, last (filter (fun x => (q_ip x.2, q_port x.2) = a) (mc_log s)) = Some (i, f) -> route_to s a = i).
Proof.
  intros Hl Hr. assert (Hok : mc_ok ins s).
  { eapply (reach_invariant mcstep (mc_ok ins)); [apply mc_init| |exact Hr]. intros s1 s2. apply mc_step_ok. }
  destruct Hok as [_ Hlog _ Hflow Haddr Hcap]. split; [apply Hflow|]. split; [destruct (Hlog i l Hl) as (r & _ & E); by exists r|].
  split; [done|]. intros f a Ha. unfold route_to. rewrite Haddr. unfold last_conn. by rewrite Ha.
Qed.

Lemma multiconn_merge_witness :
  let f := {| q_ip := [10; 0; 0; 9]; q_port := 5000; q_data := [1; 2] |} in
  let ins := [[]; [f]] in
  exists s, reach mcstep (NewMultiConn ins) s /\ mc_out s = [pkt_of 1 f] /\ route_to s ([10; 0; 0; 9], 5000) = 1%nat.
Proof.
  intros f ins.
  pose proof (mc_read (NewMultiConn ins) 1 f [] eq_refl eq_refl) as H1. cbn in H1.
  match type of H1 with mcstep _ ?x => set (s1 := x) in H1 end.
  pose proof (mc_send s1 1 (pkt_of 1 f) eq_refl ltac:(apply Nat.ltb_lt; reflexivity)) as H2. cbn in H2.
  match type of H2 with mcstep _ ?x => set (s2 := x) in H2 end.
  pose proof (mc_recv s2 (pkt_of 1 f) [] eq_refl) as H3. cbn in H3.
  match type of H3 with mcstep _ ?x => set (s3 := x) in H3 end.
  assert (Hr : reach mcstep (NewMultiConn ins) s3) by (eapply reach_step; [eapply reach_step; [eapply reach_step; [apply reach_refl|exact H1]|exact H2]|exact H3]).
  exists s3. split; [exact Hr|]. split; [reflexivity|].
  destruct (multiconn_merge ins s3 1 [f] eq_refl Hr) as (_ & _ & _ & Hroute). apply (Hroute f). vm_compute. reflexivity.
Defined.

(** The merged connection truncates large datagrams: its pooled buffers
    hold 2048 bytes, so a QUIC packet of 2049 to 4000 bytes, which a single Conn
    answers whole into quic-go's 4000-byte buffer, is cut at 2048 as soon as two
    NICs listen; what is delivered is never the packet. *)
Theorem multiconn_truncates i f plen : (mcPktSize < length (q_data f))%nat -> (length (q_data f) <= plen)%nat ->
  single_ReadFrom plen f = (q_data f, (q_ip f, q_port f)) /\
  (mc_ReadFrom plen (pkt_of i f)).1 <> q_data f /\ length (mc_ReadFrom plen (pkt_of i f)).1 = mcPktSize.
Proof.
  intros Hbig Hp. unfold single_ReadFrom, mc_ReadFrom, pkt_of. cbn [fst mp_data].
  assert (Hlen : length (take plen (take mcPktSize (q_data f))) = mcPktSize) by (rewrite !length_take; lia).
  split; [by rewrite take_ge|]. split; [|done]. intros E. rewrite E in Hlen. lia.
Qed.
Lemma multiconn_truncates_witness :
  let f := {| q_ip := [10; 0; 0; 9]; q_port := 5000; q_data := replicate 3000 7 |} in
  length (mc_ReadFrom 4000 (pkt_of 0 f)).1 = mcPktSize.
Proof.
  intros f. apply (multiconn_truncates 0 f 4000); cbn [q_data f]; rewrite length_replicate; apply Nat.leb_le; vm_compute; reflexivity.
Defined.
