(* ===== verification/Egress.v ===== *)
(** * The forward egress (utility/xdp_batch.go, packet_tx.go, socket.go,
    forward_batch.go, tunnel_adapter.go and xdp/txpump.go)

    The three batches a forwarded packet can be put in, the router that chooses
    between them, and the single owner of a TX ring.  A slot buffer that was
    never written is all zeros, so a batch keeps the slots written so far.  The
    socket batch can hold a pointer to its caller's buffer, so the callers'
    buffers are an explicit store.  [sendmmsg] is a parameter; the messages it
    is given are recorded. *)
From S2P Require Import Prelude Words TcpParse Conn.
Local Open Scope Z_scope.
Local Open Scope masqued_scope.

(** ** Packet classes and frame slots *)

Definition IPPROTO_TCP : Z := 6.
Definition IPPROTO_UDP : Z := 17.

Definition IPVersion (b : bytes) : Z := match b with [] => 0 | x :: _ => Z.shiftr x 4 end.

Definition isXDPEligible (pkt : bytes) : bool :=
  if IPVersion pkt =? 4 then
    if (length pkt <? 10)%nat then false else (pkt.[9] =? IPPROTO_TCP) || (pkt.[9] =? IPPROTO_UDP)
  else if IPVersion pkt =? 6 then
    if (length pkt <? 7)%nat then false else (pkt.[6] =? IPPROTO_TCP) || (pkt.[6] =? IPPROTO_UDP)
  else false.

Inductive addError := BatchFull | IPv4TooShort | IPv6TooShort | UnknownIPVersion (v : Z) | PacketTooLarge.
Global Instance addError_eq_dec : EqDecision addError.
Proof. solve_decision. Defined.

Definition ethHdrSize : nat := 14.
Definition maxFrameSize : nat := ethHdrSize + 4082.
Definition MaxXDPBatchSize : nat := 1024.
Definition MaxSocketBatchSize : nat := 1024.

(** The version switch both frame batches start with. *)
Definition ethertype_of (pkt : bytes) : result addError bytes :=
  let v := IPVersion pkt in
  if v =? 4 then if (length pkt <? 20)%nat then Err IPv4TooShort else Ok [8; 0]
  else if v =? 6 then if (length pkt <? 40)%nat then Err IPv6TooShort else Ok [134; 221]
  else Err (UnknownIPVersion v).

Abbreviation slots := (gmap nat bytes).
Definition slot_at (size : nat) (s : slots) (i : nat) : bytes := default (replicate size 0) (s !! i).

(** The Ethernet frame written over a slot. *)
Definition write_frame (frame dstMAC srcMAC ethertype pkt : bytes) : bytes :=
  let frame := splice frame 0 (take 6 dstMAC) in
  let frame := splice frame 6 (take 6 srcMAC) in
  let frame := <[13%nat := ethertype.[1]]> (<[12%nat := ethertype.[0]]> frame) in
  splice frame 14 pkt.

(** ** Interfaces *)

Class FrameSubmitter (P : Type) := Submit : P -> bytes -> P.

(** [fwdEgress]. *)
Class fwdEgress (E : Type) := {
  eg_Add : E -> bytes -> option bytes -> result addError unit * E;
  eg_Flush : E -> option Z * E;
  eg_Full : E -> bool;
  eg_Empty : E -> bool
}.

(** What [ForwardBatch] and the forward writer rely on of any egress: it
    remembers what it accepted ([eg_log]), a flush forgets nothing, and after a
    flush, or when it is empty, it has room. *)
Class EgressLog (E : Type) `{fwdEgress E} := {
  eg_ok : E -> Prop;
  eg_log : E -> list bytes;
  eg_Add_law e pkt mac : eg_ok e -> let '(r, e') := eg_Add e pkt mac in
    eg_ok e' /\ eg_log e' = eg_log e ++ (match r with Ok _ => [pkt] | Err _ => [] end);
  eg_Flush_law e : eg_ok e -> let e' := (eg_Flush e).2 in eg_ok e' /\ eg_log e' = eg_log e /\ eg_Full e' = false;
  eg_Full_law e : eg_ok e -> eg_Empty e = true -> eg_Full e = false
}.

(** An egress that in addition keeps its packets apart and whole: those handed
    on ([eg_out]) and those held ([eg_held]) are the accepted ones in order, and
    [Flush] leaves nothing behind. *)
Class EgressLaws (E : Type) `{EgressLog E} := {
  eg_out : E -> list bytes;
  eg_held : E -> list bytes;
  eg_split e : eg_log e = eg_out e ++ eg_held e;
  eg_drain e : eg_ok e -> let e' := (eg_Flush e).2 in eg_out e' = eg_log e /\ eg_held e' = [];
  eg_Empty_law e : eg_ok e -> (eg_Empty e = true <-> eg_held e = [])
}.

(** ** XDPBatch *)

Record XDPBatch := {
  xb_srcMAC : bytes; xb_dstMAC : bytes;
  xb_bufs : slots; xb_lens : gmap nat nat; xb_count : nat;
  totalXDPFlushes : Z; totalXDPPackets : Z
}.

Definition NewXDPBatch (srcMAC dstMAC : bytes) : XDPBatch :=
  {| xb_srcMAC := srcMAC; xb_dstMAC := dstMAC; xb_bufs := ∅; xb_lens := ∅; xb_count := 0;
     totalXDPFlushes := 0; totalXDPPackets := 0 |}.

Definition XDPBatch_Add (b : XDPBatch) (pkt : bytes) (dstMAC : option bytes) : result addError unit * XDPBatch :=
  if (MaxXDPBatchSize <=? xb_count b)%nat then (Err BatchFull, b)
  else
    let mac := match dstMAC with Some mac => mac | None => xb_dstMAC b end in
    match ethertype_of pkt with
    | Err e => (Err e, b)
    | Ok et =>
        let total := (ethHdrSize + length pkt)%nat in
        if (maxFrameSize <? total)%nat then (Err PacketTooLarge, b)
        else
          let i := xb_count b in
          let frame := write_frame (slot_at maxFrameSize (xb_bufs b) i) mac (xb_srcMAC b) et pkt in
          (Ok tt, {| xb_srcMAC := xb_srcMAC b; xb_dstMAC := xb_dstMAC b; xb_bufs := <[i := frame]> (xb_bufs b);
                     xb_lens := <[i := total]> (xb_lens b); xb_count := S i;
                     totalXDPFlushes := totalXDPFlushes b; totalXDPPackets := totalXDPPackets b |})
    end.

(** The frame in slot [i], [b.bufs[i][:b.lens[i]]]. *)
Definition xb_frame (b : XDPBatch) (i : nat) : bytes :=
  take (default 0%nat (xb_lens b !! i)) (slot_at maxFrameSize (xb_bufs b) i).

Definition XDPBatch_Flush {P} `{FrameSubmitter P} (b : XDPBatch) (pump : P) (enableStats : bool) : XDPBatch * P :=
  if (xb_count b =? 0)%nat then (b, pump)
  else
    let n := xb_count b in
    ({| xb_srcMAC := xb_srcMAC b; xb_dstMAC := xb_dstMAC b; xb_bufs := xb_bufs b; xb_lens := xb_lens b; xb_count := 0;
        totalXDPFlushes := if enableStats then totalXDPFlushes b + 1 else totalXDPFlushes b;
        totalXDPPackets := if enableStats then totalXDPPackets b + Z.of_nat n else totalXDPPackets b |},
     foldl Submit pump (map (xb_frame b) (seq 0 n))).

Definition XDPBatch_Full (b : XDPBatch) : bool := (MaxXDPBatchSize <=? xb_count b)%nat.
Definition XDPBatch_Empty (b : XDPBatch) : bool := (xb_count b =? 0)%nat.

Definition SendOne {P} `{FrameSubmitter P} (pump : P) (srcMAC dstMAC pkt : bytes) (enableStats : bool)
  : result addError unit * P :=
  let b := NewXDPBatch srcMAC dstMAC in
  match XDPBatch_Add b pkt None with
  | (Err e, _) => (Err e, pump)
  | (Ok _, b) => (Ok tt, (XDPBatch_Flush b pump enableStats).2)
  end.

(** ** PacketBatch *)

Record PacketBatch := {
  pb_srcMAC : bytes; pb_bufs : slots; pb_lens : gmap nat nat; pb_count : nat;
  pb_sent : list bytes;
  totalPacketFlushes : Z; totalPacketPackets : Z
}.

Definition NewPacketBatch (srcMAC : bytes) : PacketBatch :=
  {| pb_srcMAC := srcMAC; pb_bufs := ∅; pb_lens := ∅; pb_count := 0; pb_sent := [];
     totalPacketFlushes := 0; totalPacketPackets := 0 |}.

Definition PacketBatch_Add (b : PacketBatch) (pkt : bytes) (dstMAC : option bytes) : result addError unit * PacketBatch :=
  if (MaxSocketBatchSize <=? pb_count b)%nat then (Err BatchFull, b)
  else
    match ethertype_of pkt with
    | Err e => (Err e, b)
    | Ok et =>
        let total := (ethHdrSize + length pkt)%nat in
        if (maxFrameSize <? total)%nat then (Err PacketTooLarge, b)
        else
          let i := pb_count b in
          let frame := write_frame (slot_at maxFrameSize (pb_bufs b) i) (default [] dstMAC) (pb_srcMAC b) et pkt in
          (Ok tt, {| pb_srcMAC := pb_srcMAC b; pb_bufs := <[i := frame]> (pb_bufs b);
                     pb_lens := <[i := total]> (pb_lens b); pb_count := S i; pb_sent := pb_sent b;
                     totalPacketFlushes := totalPacketFlushes b; totalPacketPackets := totalPacketPackets b |})
    end.

Definition pb_frame (b : PacketBatch) (i : nat) : bytes :=
  take (default 0%nat (pb_lens b !! i)) (slot_at maxFrameSize (pb_bufs b) i).

(** [Flush]: one [sendmmsg] of every frame; [errno] is its error number. *)
Definition PacketBatch_Flush (errno : list bytes -> Z) (b : PacketBatch) (enableStats : bool) : option Z * PacketBatch :=
  if (pb_count b =? 0)%nat then (None, b)
  else
    let msgs := map (pb_frame b) (seq 0 (pb_count b)) in
    let b' := {| pb_srcMAC := pb_srcMAC b; pb_bufs := pb_bufs b; pb_lens := pb_lens b; pb_count := 0;
                 pb_sent := pb_sent b ++ msgs;
                 totalPacketFlushes := if enableStats then totalPacketFlushes b + 1 else totalPacketFlushes b;
                 totalPacketPackets := if enableStats then totalPacketPackets b + Z.of_nat (pb_count b)
                                       else totalPacketPackets b |} in
    (if errno msgs =? 0 then None else Some (errno msgs), b').

Definition PacketBatch_Full (b : PacketBatch) : bool := (MaxSocketBatchSize <=? pb_count b)%nat.
Definition PacketBatch_Empty (b : PacketBatch) : bool := (pb_count b =? 0)%nat.

Definition PacketBatch_egress (errno : list bytes -> Z) : fwdEgress PacketBatch := {|
  eg_Add := PacketBatch_Add; eg_Flush b := PacketBatch_Flush errno b true;
  eg_Full := PacketBatch_Full; eg_Empty := PacketBatch_Empty |}.

(** ** SocketBatch *)

(** An iovec: a prefix of the batch's own slot, or of the buffer at a caller's
    address. *)
Inductive iovec := IovSlot (i n : nat) | IovCaller (a n : nat).

Definition socketBufSize : nat := 4096.

Record SocketBatch := {
  sb_msgs : list (bytes * iovec); (* the first [count] entries of [msgs]: address and data *)
  sb_bufs : slots; sb_count : nat;
  sb_sent : list (bytes * bytes);
  totalSocketFlushes : Z; totalSocketPackets : Z
}.

Definition NewSocketBatch : SocketBatch :=
  {| sb_msgs := []; sb_bufs := ∅; sb_count := 0; sb_sent := []; totalSocketFlushes := 0; totalSocketPackets := 0 |}.

Definition sb_push (b : SocketBatch) (bufs : slots) (m : bytes * iovec) : SocketBatch :=
  {| sb_msgs := sb_msgs b ++ [m]; sb_bufs := bufs; sb_count := S (sb_count b); sb_sent := sb_sent b;
     totalSocketFlushes := totalSocketFlushes b; totalSocketPackets := totalSocketPackets b |}.

(** [Add] of the packet [pkt] that the caller keeps at address [a]; [None] is
    the index panic of [b.bufs[b.count]] on a full batch. *)
Definition SocketBatch_Add (b : SocketBatch) (a : nat) (pkt : bytes) : option (result addError unit * SocketBatch) :=
  let i := sb_count b in
  if (MaxSocketBatchSize <=? i)%nat then None
  else
    let bufs := <[i := splice (slot_at socketBufSize (sb_bufs b) i) 0 pkt]> (sb_bufs b) in
    let n := Nat.min socketBufSize (length pkt) in
    let failed := {| sb_msgs := sb_msgs b; sb_bufs := bufs; sb_count := i; sb_sent := sb_sent b;
                     totalSocketFlushes := totalSocketFlushes b; totalSocketPackets := totalSocketPackets b |} in
    let v := IPVersion pkt in
    if v =? 4 then
      if (length pkt <? 20)%nat then Some (Err IPv4TooShort, failed)
      else Some (Ok tt, sb_push b bufs (slice pkt 16 20, IovSlot i n))
    else if v =? 6 then
      if (length pkt <? 40)%nat then Some (Err IPv6TooShort, failed)
      else Some (Ok tt, sb_push b bufs (slice pkt 24 40, IovCaller a (length pkt)))
    else Some (Err (UnknownIPVersion v), failed).

(** What an iovec points to when the kernel reads it. *)
Definition iov_data (heap : gmap nat bytes) (bufs : slots) (v : iovec) : bytes :=
  match v with
  | IovSlot i n => take n (slot_at socketBufSize bufs i)
  | IovCaller a n => take n (default [] (heap !! a))
  end.

Definition SocketBatch_Flush (errno : list (bytes * bytes) -> Z) (heap : gmap nat bytes) (b : SocketBatch)
    (enableStats : bool) : option Z * SocketBatch :=
  if (sb_count b =? 0)%nat then (None, b)
  else
    let msgs := map (fun m => (m.1, iov_data heap (sb_bufs b) m.2)) (sb_msgs b) in
    let b' := {| sb_msgs := []; sb_bufs := sb_bufs b; sb_count := 0; sb_sent := sb_sent b ++ msgs;
                 totalSocketFlushes := if enableStats then totalSocketFlushes b + 1 else totalSocketFlushes b;
                 totalSocketPackets := if enableStats then totalSocketPackets b + Z.of_nat (sb_count b)
                                       else totalSocketPackets b |} in
    (if errno msgs =? 0 then None else Some (errno msgs), b').

Definition SocketBatch_Full (b : SocketBatch) : bool := (MaxSocketBatchSize <=? sb_count b)%nat.
Definition SocketBatch_Empty (b : SocketBatch) : bool := (sb_count b =? 0)%nat.

Definition SendOnSocket (errno : list (bytes * bytes) -> Z) (heap : gmap nat bytes) (a : nat) (pkt : bytes)
    (enableStats : bool) : option (result addError (option Z) * list (bytes * bytes)) :=
  r ← SocketBatch_Add NewSocketBatch a pkt;
  match r with
  | (Err e, _) => Some (Err e, [])
  | (Ok _, b) => let '(e, b) := SocketBatch_Flush errno heap b enableStats in Some (Ok e, sb_sent b)
  end.

(** ** ForwardBatch *)

(** The egress [NewForwardBatch] builds, by the mode flags in the order of its
    switch. *)
Inductive egressKind := EgVhost | EgUring | EgTunGSO | EgNapiTun | EgPacket.
Definition altEgress (viaVhost viaUring viaTun viaNapiTun viaPacket : bool) : option egressKind :=
  if viaVhost then Some EgVhost else if viaUring then Some EgUring else if viaTun then Some EgTunGSO
  else if viaNapiTun then Some EgNapiTun else if viaPacket then Some EgPacket else None.

Definition ForwardCoalesces (viaTun viaVhost : bool) : bool := viaTun || viaVhost.

Record ForwardBatch (E P : Type) := {
  fb_xdp : XDPBatch; fb_alt : option E; fb_sock : SocketBatch; fb_pump : P
}.
Arguments fb_xdp {E P}. Arguments fb_alt {E P}. Arguments fb_sock {E P}. Arguments fb_pump {E P}.
Arguments Build_ForwardBatch {E P}.

Section Forward.
Context {E P : Type} `{fwdEgress E} `{FrameSubmitter P}.
Context (forwardAckViaSocket : bool) (errno : list (bytes * bytes) -> Z).

Definition NewForwardBatch (pump : P) (srcMAC dstMAC : bytes) (alt : option E) : ForwardBatch E P :=
  Build_ForwardBatch (NewXDPBatch srcMAC dstMAC) alt NewSocketBatch pump.

Definition ForwardBatch_Add (b : ForwardBatch E P) (a : nat) (pkt : bytes) (dstMAC : option bytes)
  : option (result addError unit * ForwardBatch E P) :=
  let raw := '(r, s) ← SocketBatch_Add (fb_sock b) a pkt;
             Some (r, Build_ForwardBatch (fb_xdp b) (fb_alt b) s (fb_pump b)) in
  if isXDPEligible pkt then
    if forwardAckViaSocket && (length pkt <? 128)%nat then raw
    else match fb_alt b with
         | Some e => let '(r, e) := eg_Add e pkt dstMAC in
                     Some (r, Build_ForwardBatch (fb_xdp b) (Some e) (fb_sock b) (fb_pump b))
         | None => let '(r, x) := XDPBatch_Add (fb_xdp b) pkt dstMAC in
                   Some (r, Build_ForwardBatch x (fb_alt b) (fb_sock b) (fb_pump b))
         end
  else raw.

Definition ForwardBatch_Flush (heap : gmap nat bytes) (b : ForwardBatch E P) : option Z * ForwardBatch E P :=
  let '(x, pump) := XDPBatch_Flush (fb_xdp b) (fb_pump b) true in
  let '(e2, s) := SocketBatch_Flush errno heap (fb_sock b) true in
  let '(e3, alt) := match fb_alt b with
                    | Some e => let '(e3, e) := eg_Flush e in (e3, Some e)
                    | None => (None, None)
                    end in
  (match e2 with Some e => Some e | None => e3 end, Build_ForwardBatch x alt s pump).

Definition ForwardBatch_Full (b : ForwardBatch E P) : bool :=
  if match fb_alt b with Some e => eg_Full e | None => false end then true
  else XDPBatch_Full (fb_xdp b) || SocketBatch_Full (fb_sock b).

Definition ForwardBatch_Empty (b : ForwardBatch E P) : bool :=
  if match fb_alt b with Some e => negb (eg_Empty e) | None => false end then false
  else XDPBatch_Empty (fb_xdp b) && SocketBatch_Empty (fb_sock b).

(** [ForwardSendOne]: the messages that went to the raw socket, and the pump. *)
Definition ForwardSendOne (heap : gmap nat bytes) (pump : P) (srcMAC dstMAC : bytes) (a : nat) (pkt : bytes)
  : option (result addError (option Z) * list (bytes * bytes) * P) :=
  if isXDPEligible pkt then
    let '(r, pump) := SendOne pump srcMAC dstMAC pkt false in
    Some (match r with Ok _ => Ok None | Err e => Err e end, [], pump)
  else '(r, msgs) ← SendOnSocket errno heap a pkt false; Some (r, msgs, pump).
End Forward.

(** ** The TX pump (xdp/txpump.go) *)

Definition txPumpQueueLen : Z := 16384.
Definition txPumpBatch : nat := 1024.

Record txPump := {
  ch : list bytes;        (* the channel *)
  pbatch : list bytes;    (* [run]'s batch *)
  transmitted : list bytes;
  drops : Z
}.
Definition newTxPump : txPump := {| ch := []; pbatch := []; transmitted := []; drops := 0 |}.

(** [Submit] while the pump runs: the select's send, or its default. *)
Definition txPump_Submit (p : txPump) (frame : bytes) : txPump :=
  if Z.of_nat (length (ch p)) <? txPumpQueueLen
  then {| ch := ch p ++ [frame]; pbatch := pbatch p; transmitted := transmitted p; drops := drops p |}
  else {| ch := ch p; pbatch := pbatch p; transmitted := transmitted p; drops := drops p + 1 |}.
Global Instance txPump_submitter : FrameSubmitter txPump := txPump_Submit.

(** One receive of [run] (the blocking one or one of the drain loop). *)
Definition txPump_recv (p : txPump) : option txPump :=
  match ch p with
  | m :: rest => if (length (pbatch p) <? txPumpBatch)%nat
                 then Some {| ch := rest; pbatch := pbatch p ++ [m]; transmitted := transmitted p; drops := drops p |}
                 else None
  | [] => None
  end.

(** The end of an iteration, once the channel is empty or the batch full: [got]
    descriptors were free; each frame is copied into its UMEM frame. *)
Definition txPump_send (p : txPump) (got : nat) : txPump :=
  {| ch := ch p; pbatch := [];
     transmitted := transmitted p ++ map (take txPumpFrameCap) (take got (pbatch p));
     drops := if (got <? length (pbatch p))%nat then drops p + Z.of_nat (length (pbatch p) - got) else drops p |}.

(** The producers and the pump, interleaved; [sub] is everything submitted so
    far.  [GetDescs(n)] answers at most [n] descriptors. *)
Inductive pump_step : list bytes * txPump -> list bytes * txPump -> Prop :=
  | ps_submit sub p frame : pump_step (sub, p) (sub ++ [frame], txPump_Submit p frame)
  | ps_recv sub p p' : txPump_recv p = Some p' -> pump_step (sub, p) (sub, p')
  | ps_send sub p got : pbatch p <> [] -> (ch p = [] \/ length (pbatch p) = txPumpBatch) ->
      (got <= length (pbatch p))%nat -> pump_step (sub, p) (sub, txPump_send p got).

(** ** The connect-ip adapter (utility/tunnel_adapter.go) *)

Definition packetBufSize : nat := 4096.

(** [SendDatagram] into a channel of capacity [cap]: a full channel drops the
    packet, and the answer is nil (success) either way. *)
Definition SendDatagram (cap : nat) (tunChan : list bytes) (p : bytes) : bool * list bytes :=
  (true, if (length tunChan <? cap)%nat then tunChan ++ [take packetBufSize p] else tunChan).
