(* ===== verification/EgressProps.v ===== *)
(** * Properties of the forward egress *)
From S2P Require Import Prelude Words TcpParse Conn Egress.
Local Open Scope Z_scope.
Local Open Scope masqued_scope.

Arguments slice : simpl never.
Arguments splice : simpl never.
Arguments write_frame : simpl never.
Arguments maxFrameSize : simpl never.
Arguments socketBufSize : simpl never.
Arguments packetBufSize : simpl never.
Arguments slot_at : simpl never.
Arguments Nat.min : simpl never.

(** ** Slots *)

Definition slots_ok (size : nat) (s : slots) : Prop := forall i b, s !! i = Some b -> length b = size.

Lemma slot_at_length size s i : slots_ok size s -> length (slot_at size s i) = size.
Proof. intros H. unfold slot_at. destruct (s !! i) eqn:E; cbn; [by eapply H|apply length_replicate]. Qed.
Lemma slot_at_eq size s i b : slot_at size (<[i := b]> s) i = b.
Proof. unfold slot_at. by rewrite lookup_insert_eq. Qed.
Lemma slot_at_ne size s i j b : i <> j -> slot_at size (<[j := b]> s) i = slot_at size s i.
Proof. intros H. unfold slot_at. by rewrite lookup_insert_ne. Qed.
Lemma slots_ok_insert size s i b : slots_ok size s -> length b = size -> slots_ok size (<[i := b]> s).
Proof. intros H Hb j c Hj. apply lookup_insert_Some in Hj as [[_ <-]|[_ Hj]]; [done|by eapply H]. Qed.

Lemma write_frame_length f d s e p : (14 <= length f)%nat -> length (write_frame f d s e p) = length f.
Proof. intros H. unfold write_frame. rewrite !splice_length; rewrite ?length_insert, ?splice_length; rewrite ?splice_length; lia. Qed.

Lemma write_frame_payload f d s e p : (14 + length p <= length f)%nat ->
  drop 14 (take (14 + length p) (write_frame f d s e p)) = p.
Proof.
  intros H. unfold write_frame. set (g := <[13%nat := _]> _).
  assert (Hg : length g = length f) by (unfold g; rewrite !length_insert, !splice_length; rewrite ?splice_length; lia).
  rewrite splice_full by lia. rewrite take_app, length_take, Hg.
  replace (14 + length p - 14 `min` length f)%nat with (length p) by lia.
  rewrite take_app_length' by done. rewrite (take_ge (take 14 g)) by (rewrite length_take; lia).
  apply drop_app_length'. rewrite length_take. lia.
Qed.

(** The packets in the first [n] frame slots. *)
Definition held_of (bufs : slots) (lens : gmap nat nat) (n : nat) : list bytes :=
  map (fun i => drop 14 (take (default 0%nat (lens !! i)) (slot_at maxFrameSize bufs i))) (seq 0 n).

Lemma held_push bufs lens n d s e p : slots_ok maxFrameSize bufs -> (14 + length p <= maxFrameSize)%nat ->
  held_of (<[n := write_frame (slot_at maxFrameSize bufs n) d s e p]> bufs) (<[n := (14 + length p)%nat]> lens) (S n)
  = held_of bufs lens n ++ [p].
Proof.
  intros Hs Hp. unfold held_of. rewrite seq_S, map_app. cbn [map Nat.add]. f_equal.
  - apply map_ext_in. intros i Hi. apply in_seq in Hi. rewrite slot_at_ne, lookup_insert_ne by lia. done.
  - rewrite slot_at_eq, lookup_insert_eq. cbn [default from_option id]. f_equal.
    apply write_frame_payload. by rewrite slot_at_length.
Qed.

Lemma slots_ok_write bufs n d s e p : slots_ok maxFrameSize bufs ->
  slots_ok maxFrameSize (<[n := write_frame (slot_at maxFrameSize bufs n) d s e p]> bufs).
Proof.
  intros H. apply slots_ok_insert; [done|].
  rewrite write_frame_length; rewrite slot_at_length by done; [done|unfold maxFrameSize, ethHdrSize; lia].
Qed.

(** ** XDPBatch *)

Definition xdp_held (b : XDPBatch) : list bytes := held_of (xb_bufs b) (xb_lens b) (xb_count b).

Lemma XDPBatch_Add_held b pkt mac : slots_ok maxFrameSize (xb_bufs b) ->
  let '(r, b') := XDPBatch_Add b pkt mac in
  slots_ok maxFrameSize (xb_bufs b') /\ xdp_held b' = xdp_held b ++ (match r with Ok _ => [pkt] | Err _ => [] end).
Proof.
  intros Hs. unfold XDPBatch_Add. destruct (_ <=? _)%nat; [by rewrite app_nil_r|].
  destruct (ethertype_of pkt) as [et|e]; [|by rewrite app_nil_r]. cbv zeta.
  destruct (_ <? _)%nat eqn:E; [by rewrite app_nil_r|]. bool_hyps. unfold ethHdrSize in *. cbn [xb_bufs].
  split; [by apply slots_ok_write|]. by apply held_push.
Qed.

Global Instance log_submitter : FrameSubmitter (list bytes) := fun l f => l ++ [f].

Lemma log_fold l fs : foldl Submit l fs = l ++ fs.
Proof. revert l. induction fs as [|f fs IH]; intros l; cbn; [by rewrite app_nil_r|]. rewrite IH. unfold Submit, log_submitter. by rewrite <- app_assoc. Qed.

Lemma XDPBatch_Flush_held (b : XDPBatch) (log : list bytes) st : slots_ok maxFrameSize (xb_bufs b) ->
  let '(b', log') := XDPBatch_Flush b log st in
  slots_ok maxFrameSize (xb_bufs b') /\ xdp_held b' = [] /\ map (drop 14) log' = map (drop 14) log ++ xdp_held b.
Proof.
  intros Hs. unfold XDPBatch_Flush. destruct (_ =? _)%nat eqn:E; bool_hyps.
  - unfold xdp_held. rewrite E. by rewrite app_nil_r.
  - split; [done|]. split; [done|]. rewrite log_fold, map_app. f_equal. unfold xdp_held, held_of, xb_frame. by rewrite map_map.
Qed.

(** ** PacketBatch satisfies the egress interface *)

Section PacketBatchLaws.
Variable errno : list bytes -> Z.
Local Instance pb_egress : fwdEgress PacketBatch := PacketBatch_egress errno.

Definition pb_ok (b : PacketBatch) : Prop := slots_ok maxFrameSize (pb_bufs b).
Definition pb_out (b : PacketBatch) : list bytes := map (drop 14) (pb_sent b).
Definition pb_held (b : PacketBatch) : list bytes := held_of (pb_bufs b) (pb_lens b) (pb_count b).

Lemma pb_Add_law b pkt mac : pb_ok b -> let '(r, b') := PacketBatch_Add b pkt mac in
  pb_ok b' /\ pb_out b' ++ pb_held b' = (pb_out b ++ pb_held b) ++ (match r with Ok _ => [pkt] | Err _ => [] end).
Proof.
  intros Hs. unfold PacketBatch_Add. destruct (_ <=? _)%nat; [by rewrite app_nil_r|].
  destruct (ethertype_of pkt) as [et|e]; [|by rewrite app_nil_r]. cbv zeta.
  destruct (_ <? _)%nat eqn:E; [by rewrite app_nil_r|]. bool_hyps. unfold ethHdrSize in *.
  split; [by apply slots_ok_write|]. rewrite <- app_assoc. unfold pb_out. cbn [pb_sent]. f_equal. by apply held_push.
Qed.

Lemma pb_Flush_law b : pb_ok b -> let b' := (PacketBatch_Flush errno b true).2 in
  pb_ok b' /\ pb_out b' = pb_out b ++ pb_held b /\ pb_held b' = [].
Proof.
  intros Hs. unfold PacketBatch_Flush. destruct (_ =? _)%nat eqn:E; bool_hyps; cbn [snd].
  - unfold pb_held. rewrite E. by rewrite app_nil_r.
  - split; [done|]. split; [|done]. unfold pb_out, pb_held. cbn [pb_sent]. rewrite map_app. f_equal.
    unfold held_of, pb_frame. by rewrite map_map.
Qed.

Lemma pb_Empty_law b : pb_ok b -> PacketBatch_Empty b = true <-> pb_held b = [].
Proof.
  intros _. unfold PacketBatch_Empty, pb_held, held_of. rewrite Nat.eqb_eq.
  destruct (pb_count b); [done|]. by rewrite seq_S, map_app; split; [|intros [_ ?]%app_nil].
Qed.

Lemma pb_Full_law b : pb_ok b -> PacketBatch_Empty b = true -> PacketBatch_Full b = false.
Proof. unfold PacketBatch_Empty, PacketBatch_Full. intros _ H. bool_hyps. by rewrite H. Qed.

Lemma pb_Flush_log b : pb_ok b -> let b' := (PacketBatch_Flush errno b true).2 in
  pb_ok b' /\ pb_out b' ++ pb_held b' = pb_out b ++ pb_held b /\ PacketBatch_Full b' = false.
Proof.
  intros Hb. destruct (pb_Flush_law b Hb) as (H1 & H2 & H3). split; [done|]. split; [by rewrite H2, H3, app_nil_r|].
  apply pb_Full_law; [done|]. by apply pb_Empty_law.
Qed.

#[export] Instance PacketBatch_log : EgressLog PacketBatch := {|
  eg_ok := pb_ok; eg_log b := pb_out b ++ pb_held b;
  eg_Add_law := pb_Add_law; eg_Flush_law := pb_Flush_log; eg_Full_law := pb_Full_law |}.
#[export] Instance PacketBatch_laws : EgressLaws PacketBatch := {|
  eg_out := pb_out; eg_held := pb_held; eg_split b := eq_refl; eg_drain b Hb := proj2 (pb_Flush_law b Hb); eg_Empty_law := pb_Empty_law |}.
End PacketBatchLaws.

(** ** SocketBatch *)

Record sock_ok (b : SocketBatch) : Prop := {
  so_slots : slots_ok socketBufSize (sb_bufs b);
  so_count : length (sb_msgs b) = sb_count b;
  so_own : Forall (fun m => exists i n, m.2 = IovSlot i n /\ (i < sb_count b)%nat) (sb_msgs b)
}.
Definition sock_held (b : SocketBatch) : list (bytes * bytes) :=
  map (fun m => (m.1, iov_data ∅ (sb_bufs b) m.2)) (sb_msgs b).

(** The messages of the raw socket that carry these packets. *)
Definition raw_msgs (l : list bytes) : list (bytes * bytes) := map (fun p => (slice p 16 20, p)) l.

Lemma sock_held_write b i c : sock_ok b -> sb_count b = i ->
  map (fun m => (m.1, iov_data ∅ (<[i := c]> (sb_bufs b)) m.2)) (sb_msgs b) = sock_held b.
Proof.
  intros [_ _ H] <-. apply map_ext_in. intros [d v] Hin. f_equal.
  rewrite Forall_forall in H. destruct (H (d, v)) as (i & n & E & Hi); [by apply list_elem_of_In|].
  cbn in *. subst v. cbn. by rewrite slot_at_ne by lia.
Qed.

Lemma SocketBatch_Add_held b a pkt r b' : sock_ok b -> IPVersion pkt <> 6 -> (length pkt <= socketBufSize)%nat ->
  SocketBatch_Add b a pkt = Some (r, b') ->
  sock_ok b' /\ sb_sent b' = sb_sent b /\
  sock_held b' = sock_held b ++ raw_msgs (match r with Ok _ => [pkt] | Err _ => [] end).
Proof.
  intros Hb H6 Hl H. unfold SocketBatch_Add in H. destruct (_ <=? _)%nat; [done|]. cbv zeta in H.
  rewrite (proj2 (Z.eqb_neq _ _) H6) in H. set (w := splice _ 0 pkt) in H.
  assert (Hw : length w = socketBufSize) by (unfold w; rewrite splice_length; rewrite slot_at_length by apply Hb; lia).
  set (failed := {| sb_msgs := _ |}) in H.
  assert (Hf : sock_ok failed /\ sb_sent failed = sb_sent b /\ sock_held failed = sock_held b ++ []).
  { split; [|split; [done|]].
    - destruct Hb as [H1 H2 H3]. constructor; cbn; [by apply slots_ok_insert|done..].
    - rewrite app_nil_r. by apply (sock_held_write b). }
  destruct (IPVersion pkt =? 4); [|by injection H as <- <-].
  destruct (length pkt <? 20)%nat; injection H as <- <-; [done|]. split; [|split; [done|]].
  - destruct Hb as [H1 H2 H3]. constructor; cbn; [by apply slots_ok_insert|rewrite length_app, H2; cbn; lia|].
    apply Forall_app. split; [|repeat constructor; eexists _, _; split; [done|cbn; lia]].
    eapply Forall_impl; [exact H3|]. intros m (i & n & E & Hi). exists i, n. split; [done|lia].
  - unfold sock_held at 1. cbn [sb_push sb_msgs sb_bufs]. rewrite map_app. f_equal; [by apply (sock_held_write b)|].
    cbn [map fst snd iov_data raw_msgs]. rewrite slot_at_eq. do 2 f_equal.
    unfold w. rewrite splice_full by (rewrite slot_at_length by apply Hb; lia). rewrite take_0. cbn [app].
    apply take_app_length'. lia.
Qed.

Lemma SocketBatch_Flush_held errno heap b st : sock_ok b ->
  let b' := (SocketBatch_Flush errno heap b st).2 in
  sock_ok b' /\ sb_sent b' = sb_sent b ++ sock_held b /\ sock_held b' = [].
Proof.
  intros Hb. unfold SocketBatch_Flush. destruct (_ =? _)%nat eqn:E; bool_hyps; cbn [snd].
  - destruct Hb as [H1 H2 H3]. unfold sock_held. destruct (sb_msgs b) eqn:Em; [|cbn in H2; lia].
    cbn. rewrite app_nil_r. split; [|done]. by constructor; rewrite ?Em.
  - split; [by constructor; cbn; [apply Hb|done|constructor]|]. split; [|done]. cbn. f_equal.
    apply map_ext_in. intros [d v] Hin. f_equal. destruct Hb as [_ _ H]. rewrite Forall_forall in H.
    destruct (H (d, v)) as (i & n & Ev & _); [by apply list_elem_of_In|]. cbn in *. by subst v.
Qed.

Lemma SocketBatch_Empty_held b : sock_ok b -> SocketBatch_Empty b = true <-> sock_held b = [].
Proof.
  intros [_ H _]. unfold SocketBatch_Empty, sock_held. rewrite Nat.eqb_eq, <- H.
  by destruct (sb_msgs b).
Qed.

(** The raw-socket batch aliases IPv6 packets: between [Add] and [Flush]
    an IPv6 packet is not copied, so when its caller recycles the buffer (as
    [handlePkt] does) the bytes sent are the buffer's new contents. *)
Theorem SocketBatch_v6_alias :
  exists pkt1 pkt2 b,
    length pkt1 = 40%nat /\ pkt1 <> pkt2 /\
    SocketBatch_Add NewSocketBatch 7 pkt1 = Some (Ok tt, b) /\
    sb_sent (SocketBatch_Flush (fun _ => 0) {[7%nat := pkt2]} b true).2 = [(slice pkt1 24 40, pkt2)].
Proof.
  exists (96 :: replicate 39 1), (96 :: replicate 39 2). eexists.
  split; [reflexivity|]. split; [discriminate|]. split; reflexivity.
Qed.

(** ** ForwardBatch *)

Inductive route := RRaw | RAlt | RXdp.
Global Instance route_eq_dec : EqDecision route.
Proof. solve_decision. Defined.

(** The path of a packet: everything but TCP and UDP, and anything shorter than
    128 bytes while [FORWARD_ACK_VIA_SOCKET] is on, takes the raw socket. *)
Definition route_of (ackViaSocket alt : bool) (pkt : bytes) : route :=
  if negb (isXDPEligible pkt) || (ackViaSocket && (length pkt <? 128)%nat) then RRaw
  else if alt then RAlt else RXdp.

Definition has {E P} (b : ForwardBatch E P) : bool := match fb_alt b with Some _ => true | None => false end.

(** The calls a forward writer makes on its batch. *)
Inductive fwd_op := OpForward (a : nat) (pkt : bytes) (mac : option bytes) | OpFlushAll (heap : gmap nat bytes).

Definition fwd_op_ok (o : fwd_op) : Prop :=
  match o with OpForward _ pkt _ => IPVersion pkt <> 6 /\ (length pkt <= socketBufSize)%nat | OpFlushAll _ => True end.

Lemma fwd_op_ok_intro a pkt mac : negb (IPVersion pkt =? 6) && (length pkt <=? socketBufSize)%nat = true ->
  fwd_op_ok (OpForward a pkt mac).
Proof. intros H. bool_hyps. by split. Qed.

Section ForwardProps.
Context {E : Type} `{EgressLog E} (ackViaSocket : bool) (errno : list (bytes * bytes) -> Z).
Local Abbreviation FB := (ForwardBatch E (list bytes)).

(** Run the calls; [acc] collects the packets whose [Add] answered nil, and
    [None] is a panic. *)
Fixpoint fwd_run (ops : list fwd_op) (b : FB) (acc : list bytes) : option (FB * list bytes) :=
  match ops with
  | [] => Some (b, acc)
  | OpForward a pkt mac :: ops =>
      rb ← ForwardBatch_Add ackViaSocket b a pkt mac;
      fwd_run ops rb.2 (acc ++ match rb.1 with Ok _ => [pkt] | Err _ => [] end)
  | OpFlushAll heap :: ops => fwd_run ops (ForwardBatch_Flush errno heap b).2 acc
  end.

Definition on (b : FB) (r : route) (acc : list bytes) : list bytes :=
  filter (fun p => route_of ackViaSocket (has b) p = r) acc.

Record fwd_inv (b : FB) (acc : list bytes) : Prop := {
  fi_xslots : slots_ok maxFrameSize (xb_bufs (fb_xdp b));
  fi_sock : sock_ok (fb_sock b);
  fi_alt e : fb_alt b = Some e -> eg_ok e;
  fi_xdp_out : map (drop 14) (fb_pump b) ++ xdp_held (fb_xdp b) = on b RXdp acc;
  fi_alt_out : match fb_alt b with Some e => eg_log e = on b RAlt acc | None => True end;
  fi_raw_out : sb_sent (fb_sock b) ++ sock_held (fb_sock b) = raw_msgs (on b RRaw acc)
}.

Lemma on_accept (b : FB) r acc (ok : result addError unit) pkt :
  on b r (acc ++ match ok with Ok _ => [pkt] | Err _ => [] end) =
  on b r acc ++ if decide (route_of ackViaSocket (has b) pkt = r) then match ok with Ok _ => [pkt] | Err _ => [] end else [].
Proof.
  unfold on. rewrite filter_app. f_equal. destruct ok; [|by case_decide].
  case_decide; [by rewrite filter_cons_True|by rewrite filter_cons_False].
Qed.

Lemma on_has (b b' : FB) r acc : has b' = has b -> on b' r acc = on b r acc.
Proof. intros Hh. unfold on. by rewrite Hh. Qed.

Lemma raw_msgs_app l k : raw_msgs (l ++ k) = raw_msgs l ++ raw_msgs k.
Proof. apply map_app. Qed.

Lemma fwd_add_raw b acc a pkt r s : fwd_inv b acc -> fwd_op_ok (OpForward a pkt None) ->
  route_of ackViaSocket (has b) pkt = RRaw -> SocketBatch_Add (fb_sock b) a pkt = Some (r, s) ->
  fwd_inv (Build_ForwardBatch (fb_xdp b) (fb_alt b) s (fb_pump b)) (acc ++ match r with Ok _ => [pkt] | Err _ => [] end).
Proof.
  intros [H1 H2 H3 H4 H5 H6] [Hv Hl] Hr Ha.
  destruct (SocketBatch_Add_held _ _ _ _ _ H2 Hv Hl Ha) as (A1 & A2 & A3).
  constructor; cbn [fb_xdp fb_alt fb_sock fb_pump]; try done.
  - rewrite (on_has b) by done. rewrite on_accept, Hr. by rewrite app_nil_r.
  - destruct (fb_alt b) eqn:Ea; [|done]. rewrite (on_has b) by (unfold has; cbn; by rewrite Ea).
    rewrite on_accept, Hr. by rewrite app_nil_r.
  - rewrite (on_has b) by done. by rewrite on_accept, Hr, raw_msgs_app, A2, A3, app_assoc, H6.
Qed.

Lemma fwd_add_alt b acc e pkt mac : fwd_inv b acc -> fb_alt b = Some e ->
  route_of ackViaSocket true pkt = RAlt ->
  let '(r, e') := eg_Add e pkt mac in
  fwd_inv (Build_ForwardBatch (fb_xdp b) (Some e') (fb_sock b) (fb_pump b)) (acc ++ match r with Ok _ => [pkt] | Err _ => [] end).
Proof.
  intros [H1 H2 H3 H4 H5 H6] Ea Hr. pose proof (eg_Add_law e pkt mac (H3 e Ea)) as L.
  destruct (eg_Add e pkt mac) as [r e']. destruct L as [L1 L2].
  assert (Hh : has b = true) by (unfold has; by rewrite Ea). rewrite Ea in H5.
  constructor; cbn [fb_xdp fb_alt fb_sock fb_pump]; try done.
  - by intros ? [= <-].
  - rewrite (on_has b) by (by rewrite Hh). rewrite on_accept, Hh, Hr. by rewrite app_nil_r.
  - rewrite (on_has b) by (by rewrite Hh). by rewrite on_accept, Hh, Hr, L2, H5.
  - rewrite (on_has b) by (by rewrite Hh). rewrite on_accept, Hh, Hr. by rewrite app_nil_r.
Qed.

Lemma fwd_add_xdp b acc pkt mac : fwd_inv b acc -> fb_alt b = None ->
  route_of ackViaSocket false pkt = RXdp ->
  let '(r, x) := XDPBatch_Add (fb_xdp b) pkt mac in
  fwd_inv (Build_ForwardBatch x (fb_alt b) (fb_sock b) (fb_pump b)) (acc ++ match r with Ok _ => [pkt] | Err _ => [] end).
Proof.
  intros [H1 H2 H3 H4 H5 H6] Ea Hr. pose proof (XDPBatch_Add_held (fb_xdp b) pkt mac H1) as L.
  destruct (XDPBatch_Add (fb_xdp b) pkt mac) as [r x]. destruct L as [L1 L2].
  assert (Hh : has b = false) by (unfold has; by rewrite Ea).
  constructor; cbn [fb_xdp fb_alt fb_sock fb_pump]; try done.
  - rewrite (on_has b) by done. by rewrite on_accept, Hh, Hr, L2, app_assoc, H4.
  - by rewrite Ea.
  - rewrite (on_has b) by done. rewrite on_accept, Hh, Hr. by rewrite app_nil_r.
Qed.

Lemma fwd_add_inv b acc a pkt mac r b' : fwd_inv b acc -> fwd_op_ok (OpForward a pkt mac) ->
  ForwardBatch_Add ackViaSocket b a pkt mac = Some (r, b') ->
  fwd_inv b' (acc ++ match r with Ok _ => [pkt] | Err _ => [] end) /\ has b' = has b.
Proof.
  intros Hi Ho Ha. unfold ForwardBatch_Add in Ha. cbv zeta in Ha.
  assert (Hraw : route_of ackViaSocket (has b) pkt = RRaw -> forall s,
    SocketBatch_Add (fb_sock b) a pkt = Some s ->
    fwd_inv (Build_ForwardBatch (fb_xdp b) (fb_alt b) s.2 (fb_pump b)) (acc ++ match s.1 with Ok _ => [pkt] | Err _ => [] end)).
  { intros Hr [r0 s] Hs. by eapply fwd_add_raw. }
  unfold route_of in Hraw. destruct (isXDPEligible pkt) eqn:Ex; cbn in Hraw.
  - destruct (ackViaSocket && _) eqn:Es.
    + destruct (SocketBatch_Add _ _ _) as [[r0 s]|] eqn:Eb; [|done]. injection Ha as <- <-. split; [exact (Hraw eq_refl (r0, s) eq_refl)|done].
    + destruct (fb_alt b) as [e|] eqn:Ea.
      * pose proof (fwd_add_alt b acc e pkt mac Hi Ea) as L. destruct (eg_Add e pkt mac) as [r0 e']. injection Ha as <- <-.
        split; [apply L; unfold route_of; by rewrite Ex, Es|unfold has; by rewrite Ea].
      * pose proof (fwd_add_xdp b acc pkt mac Hi Ea) as L. destruct (XDPBatch_Add _ pkt mac) as [r0 x]. injection Ha as <- <-.
        rewrite Ea in L. split; [apply L; unfold route_of; by rewrite Ex, Es|unfold has; by rewrite Ea].
  - destruct (SocketBatch_Add _ _ _) as [[r0 s]|] eqn:Eb; [|done]. injection Ha as <- <-. split; [exact (Hraw eq_refl (r0, s) eq_refl)|done].
Qed.

(** A flushed batch: its own two parts hold nothing, its egress has room. *)
Definition fb_flushed (b : FB) : Prop :=
  XDPBatch_Empty (fb_xdp b) = true /\ SocketBatch_Empty (fb_sock b) = true /\ forall e, fb_alt b = Some e -> eg_Full e = false.

Lemma empty_flushed b : (forall e, fb_alt b = Some e -> eg_ok e) -> ForwardBatch_Empty b = true -> fb_flushed b.
Proof.
  unfold ForwardBatch_Empty. intros Ho He. destruct (fb_alt b) as [e|] eqn:Ea.
  - destruct (eg_Empty e) eqn:Ee; [|done]. cbn [negb] in He. bool_hyps. split; [done|]. split; [done|]. rewrite Ea. intros ? [= <-].
    apply eg_Full_law; [by apply Ho|done].
  - bool_hyps. split; [done|]. split; [done|]. by rewrite Ea.
Qed.
Lemma flushed_room b : fb_flushed b -> ForwardBatch_Full b = false.
Proof.
  intros (H1 & H2 & H3). unfold ForwardBatch_Full. destruct (fb_alt b) as [e|]; [rewrite (H3 e eq_refl)|];
    unfold XDPBatch_Empty, SocketBatch_Empty, XDPBatch_Full, SocketBatch_Full in *; bool_hyps; by rewrite H1, H2.
Qed.

Lemma fwd_flush_inv b acc heap : fwd_inv b acc ->
  let b' := (ForwardBatch_Flush errno heap b).2 in
  fwd_inv b' acc /\ has b' = has b /\ fb_flushed b'.
Proof.
  intros [H1 H2 H3 H4 H5 H6]. unfold ForwardBatch_Flush.
  pose proof (XDPBatch_Flush_held (fb_xdp b) (fb_pump b) true H1) as X.
  destruct (XDPBatch_Flush (fb_xdp b) (fb_pump b) true) as [x pump] eqn:Ex. destruct X as (X1 & X2 & X3).
  assert (Xe : XDPBatch_Empty x = true).
  { unfold XDPBatch_Flush in Ex. destruct (_ =? _)%nat eqn:E0; by injection Ex as <- <-. }
  pose proof (SocketBatch_Flush_held errno heap (fb_sock b) true H2) as S.
  destruct (SocketBatch_Flush errno heap (fb_sock b) true) as [e2 s]. destruct S as (S1 & S2 & S3). cbn [snd] in *.
  assert (Hhave : forall alt, has (Build_ForwardBatch x alt s pump) = has b -> match alt with Some e => eg_ok e /\ eg_log e = on b RAlt acc | None => True end ->
    fwd_inv (Build_ForwardBatch x alt s pump) acc).
  { intros alt Hh Ha. constructor; cbn [fb_xdp fb_alt fb_sock fb_pump]; rewrite ?(on_has b) by done; try done.
    - intros e ->. apply Ha. - by rewrite X2, app_nil_r, X3. - destruct alt; [apply Ha|done]. - by rewrite S3, app_nil_r, S2. }
  destruct (fb_alt b) as [e|] eqn:Ea.
  - pose proof (eg_Flush_law e (H3 e eq_refl)) as L. destruct (eg_Flush e) as [e3 e']. cbn [snd] in *. destruct L as (L1 & L2 & L3).
    assert (Hh : has (Build_ForwardBatch x (Some e') s pump) = has b) by (unfold has; by rewrite Ea).
    split; [apply Hhave; [done|by rewrite L2]|]. split; [done|]. split; [done|]. split; [by apply SocketBatch_Empty_held|by intros ? [= <-]].
  - assert (Hh : has (Build_ForwardBatch x (@None E) s pump) = has b) by (unfold has; by rewrite Ea).
    split; [by apply Hhave|]. split; [done|]. split; [done|]. split; [by apply SocketBatch_Empty_held|done].
Qed.

Lemma fwd_run_inv ops b acc b' acc' : fwd_inv b acc -> Forall fwd_op_ok ops -> fwd_run ops b acc = Some (b', acc') ->
  fwd_inv b' acc' /\ has b' = has b.
Proof.
  revert b acc. induction ops as [|[a pkt mac|heap] ops IH]; intros b acc Hi Ho Hr; inversion Ho as [|? ? Ho1 Ho2]; subst; cbn in Hr.
  - by injection Hr as <- <-.
  - destruct (ForwardBatch_Add _ b a pkt mac) as [[r b1]|] eqn:Ea; [|done]. cbn in Hr.
    destruct (fwd_add_inv _ _ _ _ _ _ _ Hi Ho1 Ea) as [Hi' Hh]. destruct (IH _ _ Hi' Ho2 Hr) as [? ->]. done.
  - destruct (fwd_flush_inv b acc heap Hi) as (Hi' & Hh & _). destruct (IH _ _ Hi' Ho2 Hr) as [? ->]. done.
Qed.

Lemma fwd_init srcMAC dstMAC alt : (forall e, alt = Some e -> eg_ok e /\ eg_log e = []) ->
  fwd_inv (NewForwardBatch [] srcMAC dstMAC alt) [].
Proof.
  intros Ha. constructor; cbn; [by intros i b Hb| | |done| |done].
  - constructor; cbn; [by intros i b Hb|done|constructor].
  - intros e He. by apply Ha.
  - destruct alt as [e|]; [|done]. by destruct (Ha e eq_refl) as (_ & ->).
Qed.
End ForwardProps.

(** C27.  The forward router, against any egress that keeps a log: whatever
    IPv4 packets are added (with whatever MACs) and whenever the batch is
    flushed, the packets accepted are partitioned over the three paths by
    [route_of], and each path has exactly the accepted ones in order, byte for
    byte: those handed on, then those still held, of the AF_XDP frames and of the
    raw messages, and the log of the egress - nothing is lost, duplicated,
    reordered or changed by a later write to a caller's buffer; each raw message
    is addressed to its packet's destination; and a flush, whatever error it
    answers, empties the first two and makes room in the egress. *)
Theorem ForwardBatch_partition {E} `{EgressLog E} ackViaSocket errno srcMAC dstMAC alt ops b acc :
  (forall e, alt = Some e -> eg_ok e /\ eg_log e = []) ->
  Forall fwd_op_ok ops ->
  fwd_run ackViaSocket errno ops (NewForwardBatch [] srcMAC dstMAC alt) [] = Some (b, acc) ->
  let on r := filter (fun p => route_of ackViaSocket (match alt with Some _ => true | None => false end) p = r) acc in
  map (drop 14) (fb_pump b) ++ xdp_held (fb_xdp b) = on RXdp /\
  match fb_alt b with Some e => eg_log e = on RAlt | None => on RAlt = [] end /\
  sb_sent (fb_sock b) ++ sock_held (fb_sock b) = raw_msgs (on RRaw) /\
  forall heap, fb_flushed (ForwardBatch_Flush errno heap b).2.
Proof.
  intros Ha Ho Hr. destruct (fwd_run_inv _ _ _ _ _ _ _ (fwd_init _ _ _ _ Ha) Ho Hr) as [Hi Hh].
  change (has (NewForwardBatch [] srcMAC dstMAC alt)) with (match alt with Some _ => true | None => false end) in Hh.
  cbv zeta. rewrite <- Hh. split; [apply Hi|]. split; [|split; [apply Hi|]].
  - destruct (fb_alt b) as [e|] eqn:Ea; [pose proof (fi_alt_out _ _ _ Hi) as X; by rewrite Ea in X|].
    unfold has. rewrite Ea. clear. induction acc as [|p acc IH]; [done|]. rewrite filter_cons_False; [done|].
    unfold route_of. by destruct (_ || _).
  - intros heap. by apply (fwd_flush_inv _ _ b acc heap Hi).
Qed.

(** ** The TX pump *)

Lemma sublist_length_eq {A} (l k : list A) : sublist l k -> length k = length l -> l = k.
Proof.
  induction 1 as [|x l k _ IH|x l k Hs IH]; cbn; intros Hl; [done|f_equal; apply IH; lia|].
  apply sublist_length in Hs. lia.
Qed.

Definition pump_inv (s : list bytes * txPump) : Prop :=
  let '(sub, p) := s in
  Z.of_nat (length (ch p)) <= txPumpQueueLen /\ (length (pbatch p) <= txPumpBatch)%nat /\
  sublist (transmitted p ++ map (take txPumpFrameCap) (pbatch p ++ ch p)) (map (take txPumpFrameCap) sub) /\
  drops p + Z.of_nat (length (transmitted p ++ pbatch p ++ ch p)) = Z.of_nat (length sub).

Arguments txPumpFrameCap : simpl never.
Arguments txPumpBatch : simpl never.
Arguments txPumpQueueLen : simpl never.

Lemma pump_submit_inv sub p f : pump_inv (sub, p) -> pump_inv (sub ++ [f], txPump_Submit p f).
Proof.
  intros (H1 & H2 & H3 & H4). unfold txPump_Submit. destruct (_ <? _) eqn:E; bool_hyps; cbn.
  - rewrite !length_app in *. cbn [length]. split; [unfold txPumpQueueLen in *; lia|]. split; [done|]. split; [|lia].
    rewrite !map_app, !app_assoc. rewrite map_app, app_assoc in H3. by apply sublist_app.
  - rewrite !length_app in *. cbn [length]. split; [done|]. split; [done|]. split; [|lia].
    rewrite (map_app _ sub). by apply sublist_inserts_r.
Qed.

Lemma pump_recv_inv sub p p' : pump_inv (sub, p) -> txPump_recv p = Some p' -> pump_inv (sub, p').
Proof.
  intros (H1 & H2 & H3 & H4) Hr. unfold txPump_recv in Hr. destruct (ch p) as [|m rest] eqn:Ec; [done|].
  destruct (_ <? _)%nat eqn:E; [|done]. bool_hyps. injection Hr as <-. cbn. cbn [length] in H1.
  rewrite !length_app in *. cbn [length] in *. split; [lia|]. split; [lia|].
  rewrite <- !app_assoc. split; [done|lia].
Qed.

Lemma pump_send_inv sub p got : pump_inv (sub, p) -> (got <= length (pbatch p))%nat -> pump_inv (sub, txPump_send p got).
Proof.
  intros (H1 & H2 & H3 & H4) Hg. unfold txPump_send, pump_inv. cbn [ch pbatch transmitted drops app length]. split; [done|]. split; [lia|]. split.
  - etransitivity; [|exact H3]. rewrite <- app_assoc. apply sublist_app; [done|]. rewrite map_app.
    apply sublist_app; [|done]. apply fmap_sublist. apply sublist_take.
  - rewrite !length_app in *. rewrite length_map, length_take. destruct (got <? length (pbatch p))%nat eqn:E; bool_hyps; lia.
Qed.

(** The TX pump: under any interleaving of the producers and the pump,
    and whatever number of descriptors the ring answers, the frames transmitted,
    then those in its batch, then those queued are a subsequence of the
    submitted frames - never reordered, duplicated or invented, so each
    producer's order is kept - the drop counter is exactly what is missing, and
    the queue and batch stay within their sizes; with no drop counted they are
    the submitted frames themselves. *)
Theorem txPump_fifo sub p :
  reach pump_step ([], newTxPump) (sub, p) ->
  let all := transmitted p ++ map (take txPumpFrameCap) (pbatch p ++ ch p) in
  sublist all (map (take txPumpFrameCap) sub) /\
  drops p + Z.of_nat (length all) = Z.of_nat (length sub) /\
  (drops p = 0 -> all = map (take txPumpFrameCap) sub) /\
  Z.of_nat (length (ch p)) <= txPumpQueueLen /\ (length (pbatch p) <= txPumpBatch)%nat.
Proof.
  intros Hr. assert (Hi : pump_inv (sub, p)).
  { revert Hr. apply (reach_invariant pump_step pump_inv); [cbn; unfold txPumpQueueLen; repeat split; done || lia|].
    intros s s' Hi Hs. destruct Hs as [sub0 p0 f|sub0 p0 p' Hp|sub0 p0 got Hb Hc Hg];
      [by apply pump_submit_inv|by eapply pump_recv_inv|by apply pump_send_inv]. }
  destruct Hi as (H1 & H2 & H3 & H4). cbv zeta. split; [done|]. rewrite !length_app, !length_map, ?length_app in *.
  split; [lia|]. split; [|done]. intros Hd. apply sublist_length_eq; [done|].
  rewrite !length_app, !length_map, length_app. lia.
Qed.

Lemma txPump_fifo_witness :
  exists p, reach pump_step ([], newTxPump) ([[1]; [2]], p) /\ drops p = 1 /\ transmitted p = [[1]] /\
    drops p + Z.of_nat (length (transmitted p ++ map (take txPumpFrameCap) (pbatch p ++ ch p))) = 2.
Proof.
  set (p1 := txPump_Submit (txPump_Submit newTxPump [1]) [2]).
  set (p2 := {| ch := [[2]]; pbatch := [[1]]; transmitted := []; drops := 0 |}).
  set (p3 := {| ch := []; pbatch := [[1]; [2]]; transmitted := []; drops := 0 |}).
  assert (R : reach pump_step ([], newTxPump) ([[1]; [2]], txPump_send p3 1)).
  { apply reach_step with (s := ([[1]; [2]], p3)); [|apply ps_send; [done|by left|cbn; lia]].
    apply reach_step with (s := ([[1]; [2]], p2)); [|by apply ps_recv].
    apply reach_step with (s := ([[1]; [2]], p1)); [|by apply ps_recv].
    apply reach_step with (s := ([[1]], txPump_Submit newTxPump [1])); [|apply (ps_submit [[1]])].
    apply reach_step with (s := ([], newTxPump)); [apply reach_refl|apply (ps_submit [])]. }
  exists (txPump_send p3 1). split; [exact R|]. split; [reflexivity|]. split; [reflexivity|].
  exact (proj1 (proj2 (txPump_fifo _ _ R))).
Defined.

(** Three packets: an ICMP one, a long UDP one and a short TCP one. *)
Definition icmp_example : bytes := [69;0;0;20;0;0;0;0;64;1;0;0;10;0;0;2;8;8;8;8].
Definition udp_example : bytes := [69;0;0;140;0;0;0;0;64;17;0;0;10;0;0;2;8;8;4;4] ++ replicate 120 7.
Definition tcp_example : bytes := [69;0;0;40;0;0;0;0;64;6;0;0;10;0;0;2;1;1;1;1] ++ replicate 20 9.
Definition fwd_example : list fwd_op :=
  [OpForward 1 icmp_example None; OpForward 2 udp_example (Some [2;0;0;0;0;1]);
   OpForward 3 tcp_example (Some [2;0;0;0;0;1]); OpFlushAll ∅].

Lemma ForwardBatch_partition_witness :
  let run := @fwd_run PacketBatch (PacketBatch_egress (fun _ => 0)) true (fun _ => 0) fwd_example
               (NewForwardBatch [] [2;0;0;0;0;9] [2;0;0;0;0;1] (Some (NewPacketBatch [2;0;0;0;0;9]))) [] in
  exists b, run = Some (b, [icmp_example; udp_example; tcp_example]) /\
    sb_sent (fb_sock b) ++ sock_held (fb_sock b) = raw_msgs [icmp_example; tcp_example].
Proof.
  intros run.
  assert (Ea : option_map snd run = Some [icmp_example; udp_example; tcp_example]) by (vm_compute; reflexivity).
  destruct run as [[b acc]|] eqn:Er; [|discriminate Ea]. cbn in Ea. injection Ea as ->.
  destruct (@ForwardBatch_partition PacketBatch (PacketBatch_egress (fun _ => 0)) (PacketBatch_log (fun _ => 0))
    true (fun _ => 0) [2;0;0;0;0;9] [2;0;0;0;0;1] (Some (NewPacketBatch [2;0;0;0;0;9])) fwd_example
    b [icmp_example; udp_example; tcp_example]) as (_ & _ & H & _).
  - intros e [= <-]. split; [by intros i c Hc|done].
  - repeat (apply List.Forall_cons; [first [exact I | apply fwd_op_ok_intro; vm_compute; reflexivity]|]). apply List.Forall_nil.
  - exact Er.
  - exists b. split; [reflexivity|]. exact H.
Defined.
