(* ===== verification/GsoEgress.v ===== *)
(** * The TUN GSO batch as an egress (utility/tun_gso.go, forward_batch.go)

    The default egress of the forward batch.  It merges packets, so what it holds
    is not a list of packets; it satisfies the part of the interface the forward
    batch and the writer rely on, with the history of its calls as the log.  The
    frames it writes carry that log: [gso_stream_fidelity].  The device takes every
    write: a failed one would lose its frame, which the code counts in
    [tunGsoDrops]. *)
From S2P Require Import Prelude Words TcpParse Egress EgressProps Gso GsoProps.
Local Open Scope Z_scope.
Local Open Scope masqued_scope.

(** The batch with the history of its calls; [clock n] is [time.Now()] of the
    [n]-th. *)
Record GsoEgress := { ge_batch : TunGSOBatch; ge_ops : list gso_op }.

Section GsoEgress.
Context (tunMaxSegs : nat) (tunNoCoalesce : bool) (flushIdle : Z) (range : gmap bytes gsoSlot -> list (bytes * gsoSlot)) (clock : nat -> Z).

Definition NewGsoEgress (tunFd : Z) : option GsoEgress := b ← NewTunGSOBatch tunFd; Some {| ge_batch := b; ge_ops := [] |}.
Definition ge_now (e : GsoEgress) : Z := clock (length (ge_ops e)).
Definition GsoEgress_Add (e : GsoEgress) (pkt : bytes) (mac : option bytes) : result addError unit * GsoEgress :=
  (Ok tt, {| ge_batch := Add tunMaxSegs tunNoCoalesce range (ge_now e) (ge_batch e) pkt; ge_ops := ge_ops e ++ [OpAdd (ge_now e) pkt] |}).
Definition GsoEgress_Flush (e : GsoEgress) : option Z * GsoEgress :=
  (None, {| ge_batch := Flush flushIdle range (ge_now e) (ge_batch e); ge_ops := ge_ops e ++ [OpFlush (ge_now e)] |}).
Definition GsoEgress_Full (e : GsoEgress) : bool := false.
Definition GsoEgress_Empty (e : GsoEgress) : bool := Empty (ge_batch e).
(** [Close]: the frames on the device afterwards. *)
Definition GsoEgress_Close (e : GsoEgress) : list bytes := frames (Close range (ge_batch e)).

#[export] Instance GsoEgress_egress : fwdEgress GsoEgress := {|
  eg_Add := GsoEgress_Add; eg_Flush := GsoEgress_Flush; eg_Full := GsoEgress_Full; eg_Empty := GsoEgress_Empty |}.

Definition gso_start : TunGSOBatch := {| slots := ∅; free := []; open := 0; frames := [] |}.
Definition ge_ok (e : GsoEgress) : Prop := ge_batch e = gso_run tunMaxSegs tunNoCoalesce flushIdle range (ge_ops e) gso_start.
Definition ge_log (e : GsoEgress) : list bytes := op_pkts (ge_ops e).

Lemma op_pkts_app l k : op_pkts (l ++ k) = op_pkts l ++ op_pkts k.
Proof. unfold op_pkts. by rewrite map_app, concat_app. Qed.
Lemma gso_run_snoc ops o b : gso_run tunMaxSegs tunNoCoalesce flushIdle range (ops ++ [o]) b =
  gso_apply tunMaxSegs tunNoCoalesce flushIdle range (gso_run tunMaxSegs tunNoCoalesce flushIdle range ops b) o.
Proof. unfold gso_run. by rewrite foldl_app. Qed.

Lemma ge_Add_law e pkt mac : ge_ok e -> let '(r, e') := GsoEgress_Add e pkt mac in
  ge_ok e' /\ ge_log e' = ge_log e ++ (match r with Ok _ => [pkt] | Err _ => [] end).
Proof. unfold ge_ok, ge_log, GsoEgress_Add, GsoEgress_Flush. cbn [ge_ops ge_batch snd]. intros He. rewrite gso_run_snoc, <- He, op_pkts_app. done. Qed.
Lemma ge_Flush_law e : ge_ok e -> let e' := (GsoEgress_Flush e).2 in ge_ok e' /\ ge_log e' = ge_log e /\ GsoEgress_Full e' = false.
Proof. unfold ge_ok, ge_log, GsoEgress_Add, GsoEgress_Flush. cbn [ge_ops ge_batch snd]. intros He. rewrite gso_run_snoc, <- He, op_pkts_app. by rewrite app_nil_r. Qed.
Lemma ge_Full_law e : ge_ok e -> GsoEgress_Empty e = true -> GsoEgress_Full e = false.
Proof. done. Qed.

#[export] Instance GsoEgress_log : EgressLog GsoEgress := {|
  eg_ok := ge_ok; eg_log := ge_log; eg_Add_law := ge_Add_law; eg_Flush_law := ge_Flush_law; eg_Full_law := ge_Full_law |}.

Lemma NewGsoEgress_ok fd e : NewGsoEgress fd = Some e -> ge_ok e /\ ge_log e = [].
Proof. unfold NewGsoEgress, NewTunGSOBatch. destruct (fd <? 0); [done|]. intros [= <-]. done. Qed.

(** What the kernel cuts out of the frames on the device, once the batch is
    closed, are the data segments of the packets the egress accepted. *)
Lemma ge_close_fidelity e : (forall m, Permutation (range m) (map_to_list m)) -> ge_ok e -> Forall pkt_ok (ge_log e) ->
  forall k, concat (map (frame_pieces k) (GsoEgress_Close e)) = concat (map (pkt_pieces k) (ge_log e)).
Proof.
  intros Hr He Hl k. unfold GsoEgress_Close. rewrite He.
  assert (Hops : Forall op_ok (ge_ops e)).
  { unfold ge_log, op_pkts in Hl. rewrite List.Forall_concat, List.Forall_map in Hl. eapply List.Forall_impl; [|exact Hl].
    intros [now p|now] Hp; [by inversion Hp|exact I]. }
  destruct (gso_stream tunMaxSegs tunNoCoalesce flushIdle range Hr (ge_ops e) Hops) as [H _]. apply H.
Qed.
End GsoEgress.
