(* ===== verification/Vring.v ===== *)
(** * The vhost-net writer (utility/vhost.go, utility/tun_vhost.go)

    A split virtqueue in memory shared with the kernel's worker: the descriptor
    table, the available ring, the two index words and the buffer area, which is
    one byte list addressed from [bufBase].  Indices are machine words that wrap.
    The worker's [used] index is an argument of what reads it; the system calls
    of the set-up are left out. *)
From S2P Require Import Prelude Words Egress.
Local Open Scope Z_scope.
Local Open Scope masqued_scope.

(** ** Layout of the arena *)

Definition align (x a : Z) : Z := Z.ldiff (x + a - 1) (a - 1).

Record layout := { availOff : Z; usedOff : Z; bufOff : Z; total : Z }.
Definition layoutArena (n bufSize : Z) : layout :=
  let descBytes := 16 * n in
  let availBytes := 4 + 2 * n + 2 in
  let availOff := descBytes in
  let usedOff := align (availOff + availBytes) 4 in
  let usedBytes := 4 + 8 * n + 2 in
  let bufOff := align (usedOff + usedBytes) 16 in
  {| availOff := availOff; usedOff := usedOff; bufOff := bufOff; total := bufOff + n * bufSize |}.

(** The check of [newVhostNetWriter]. *)
Definition entries_ok (entries : Z) : bool := (Z.land entries (entries - 1) =? 0) && (0 <? entries).

(** ** The writer *)

Definition vnetHdrV1Len : nat := 12.

Record vringDesc := { d_addr : Z; d_len : Z; d_flags : Z; d_next : Z }.

Record vhostNetWriter := {
  vn : nat; bufSize : nat; bufBase : Z;
  vdesc : list vringDesc; availRing : list Z; area : bytes;
  availIdxMem : Z;
  availIdx : Z; lastUsed : Z; freeHead : Z;
  kicks : Z
}.

Definition newVhostNetWriter (entries bufSize : nat) (bufBase : Z) : option vhostNetWriter :=
  if entries_ok (Z.of_nat entries) then
    Some {| vn := entries; bufSize := bufSize; bufBase := bufBase;
            vdesc := replicate entries {| d_addr := 0; d_len := 0; d_flags := 0; d_next := 0 |};
            availRing := replicate entries 0; area := replicate (entries * bufSize) 0;
            availIdxMem := 0; availIdx := 0; lastUsed := 0; freeHead := 0; kicks := 0 |}
  else None.

Definition bufPtr (w : vhostNetWriter) (i : nat) : Z := bufBase w + Z.of_nat (i * bufSize w).

Definition Reclaim (used : Z) (w : vhostNetWriter) : vhostNetWriter :=
  {| vn := vn w; bufSize := bufSize w; bufBase := bufBase w; vdesc := vdesc w; availRing := availRing w; area := area w;
     availIdxMem := availIdxMem w; availIdx := availIdx w; lastUsed := used; freeHead := freeHead w; kicks := kicks w |}.

Definition vhost_Submit (used : Z) (w : vhostNetWriter) (pkt : bytes) : bool * vhostNetWriter :=
  let w := Reclaim used w in
  if u16 (Z.of_nat (vn w)) <=? u16 (availIdx w - lastUsed w) then (false, w)
  else
    let slot := Z.to_nat (Z.land (freeHead w) (Z.of_nat (vn w) - 1)) in
    if (bufSize w <? vnetHdrV1Len + length pkt)%nat then (true, w)
    else
      let off := (slot * bufSize w)%nat in
      let area' := splice (splice (area w) off (replicate vnetHdrV1Len 0)) (off + vnetHdrV1Len) pkt in
      let d := {| d_addr := bufPtr w slot; d_len := u32 (Z.of_nat (vnetHdrV1Len + length pkt)); d_flags := 0; d_next := 0 |} in
      let ring' := <[Z.to_nat (Z.land (availIdx w) (u16 (Z.of_nat (vn w) - 1))) := u16 (Z.of_nat slot)]> (availRing w) in
      (true, {| vn := vn w; bufSize := bufSize w; bufBase := bufBase w; vdesc := <[slot := d]> (vdesc w); availRing := ring';
                area := area'; availIdxMem := availIdxMem w; availIdx := u16 (availIdx w + 1); lastUsed := lastUsed w;
                freeHead := u32 (freeHead w + 1); kicks := kicks w |}).

Definition vhost_Flush (w : vhostNetWriter) : vhostNetWriter :=
  {| vn := vn w; bufSize := bufSize w; bufBase := bufBase w; vdesc := vdesc w; availRing := availRing w; area := area w;
     availIdxMem := availIdx w; availIdx := availIdx w; lastUsed := lastUsed w; freeHead := freeHead w; kicks := kicks w + 1 |}.

(** What a virtio device reads at ring position [i]: the descriptor the ring
    names, and the bytes at its address. *)
Definition dev_read (w : vhostNetWriter) (i : Z) : option bytes :=
  head ← availRing w !! Z.to_nat (i mod Z.of_nat (vn w));
  d ← vdesc w !! Z.to_nat head;
  Some (take (Z.to_nat (d_len d)) (drop (Z.to_nat (d_addr d - bufBase w)) (area w))).

(** ** The batch in front of it *)

Record TunVhostBatch := { tv_w : vhostNetWriter; tv_queued : Z; tv_dstMAC : bytes; tunVhostWrites : Z; tunVhostDrops : Z; tunVhostFull : Z }.

Definition tv_scratch : nat := 14 + 4096.
Definition vhost_frame (dstMAC ip : bytes) : bytes :=
  take 6 dstMAC ++ [2; 0; 0; 0; 0; 1] ++ (if Z.shiftr ip.[0] 4 =? 6 then [134; 221] else [8; 0]) ++ ip.

(** [used1], [used2]: the worker's index at the two submissions.  [None]: the
    panic of [ip[0]] on an empty packet. *)
Definition TunVhost_Add (used1 used2 : Z) (b : TunVhostBatch) (ip : bytes) : option TunVhostBatch :=
  if (tv_scratch <? 14 + length ip)%nat then
    Some {| tv_w := tv_w b; tv_queued := tv_queued b; tv_dstMAC := tv_dstMAC b; tunVhostWrites := tunVhostWrites b;
            tunVhostDrops := tunVhostDrops b + 1; tunVhostFull := tunVhostFull b |}
  else if (length ip =? 0)%nat then None
  else
    let f := vhost_frame (tv_dstMAC b) ip in
    match vhost_Submit used1 (tv_w b) f with
    | (true, w) =>
        Some {| tv_w := w; tv_queued := tv_queued b + 1; tv_dstMAC := tv_dstMAC b; tunVhostWrites := tunVhostWrites b;
                tunVhostDrops := tunVhostDrops b; tunVhostFull := tunVhostFull b |}
    | (false, w) =>
        match vhost_Submit used2 (vhost_Flush w) f with
        | (true, w) =>
            Some {| tv_w := w; tv_queued := tv_queued b + 1; tv_dstMAC := tv_dstMAC b; tunVhostWrites := tunVhostWrites b;
                    tunVhostDrops := tunVhostDrops b; tunVhostFull := tunVhostFull b + 1 |}
        | (false, w) =>
            Some {| tv_w := w; tv_queued := tv_queued b; tv_dstMAC := tv_dstMAC b; tunVhostWrites := tunVhostWrites b;
                    tunVhostDrops := tunVhostDrops b + 1; tunVhostFull := tunVhostFull b + 1 |}
        end
    end.

Definition TunVhost_Flush (b : TunVhostBatch) : TunVhostBatch :=
  if tv_queued b =? 0 then b
  else {| tv_w := vhost_Flush (tv_w b); tv_queued := 0; tv_dstMAC := tv_dstMAC b;
          tunVhostWrites := tunVhostWrites b + tv_queued b; tunVhostDrops := tunVhostDrops b; tunVhostFull := tunVhostFull b |}.
Definition TunVhost_Full (b : TunVhostBatch) : bool := false.
Definition TunVhost_Empty (b : TunVhostBatch) : bool := tv_queued b =? 0.

(** ** The writer beside its worker *)

(** [v_used]: the worker's index word; [v_got]: the frames it has taken;
    [v_acc]: the packets [Submit] has put in the ring. *)
Record vstate := { v_w : vhostNetWriter; v_used : Z; v_got : list bytes; v_acc : list bytes }.

Inductive vstep : vstate -> vstate -> Prop :=
  | vs_submit s pkt r w : vhost_Submit (v_used s) (v_w s) pkt = (r, w) ->
      vstep s {| v_w := w; v_used := v_used s; v_got := v_got s;
                 v_acc := v_acc s ++ (if r && (vnetHdrV1Len + length pkt <=? bufSize w)%nat then [pkt] else []) |}
  | vs_flush s : vstep s {| v_w := vhost_Flush (v_w s); v_used := v_used s; v_got := v_got s; v_acc := v_acc s |}
  (* the worker takes the next published entry and counts it as used *)
  | vs_worker s f : v_used s <> availIdxMem (v_w s) -> dev_read (v_w s) (v_used s) = Some f ->
      vstep s {| v_w := v_w s; v_used := u16 (v_used s + 1); v_got := v_got s ++ [f]; v_acc := v_acc s |}.

Definition vinit (w : vhostNetWriter) : vstate := {| v_w := w; v_used := 0; v_got := []; v_acc := [] |}.
