(* ===== verification/VringProps.v ===== *)
(** * Properties of the vhost-net writer *)
From S2P Require Import Prelude Words Egress Vring.
Local Open Scope Z_scope.
Local Open Scope masqued_scope.

(** ** Layout *)

Lemma align_spec x k : 0 <= k -> x <= align x (2 ^ k) < x + 2 ^ k /\ (2 ^ k | align x (2 ^ k)).
Proof.
  intros Hk. unfold align. replace (2 ^ k - 1) with (Z.ones k) by (rewrite Z.ones_equiv; lia).
  rewrite Z.ldiff_ones_r, Z.shiftl_mul_pow2, Z.shiftr_div_pow2 by lia.
  assert (Hp : 0 < 2 ^ k) by (by apply Z.pow_pos_nonneg; lia). set (y := x + 2 ^ k - 1).
  pose proof (Z.div_mod y (2 ^ k)). pose proof (Z.mod_pos_bound y (2 ^ k) Hp). split; [lia|]. by exists (y / 2 ^ k).
Qed.

(** The arena's regions do not overlap and are aligned as a split
    virtqueue requires, for every ring size and buffer size: descriptors, the
    available ring, the used ring, then the packet buffers, each buffer inside
    the mapping. *)
Theorem layoutArena_disjoint n bufSize : 0 < n -> 0 <= bufSize ->
  let l := layoutArena n bufSize in
  16 * n <= availOff l /\ availOff l + (4 + 2 * n + 2) <= usedOff l /\ usedOff l + (4 + 8 * n + 2) <= bufOff l /\
  (2 | availOff l) /\ (4 | usedOff l) /\ (16 | bufOff l) /\
  (forall i, 0 <= i < n -> bufOff l <= bufOff l + i * bufSize /\ bufOff l + (i + 1) * bufSize <= total l) /\
  total l < 26 * n + n * bufSize + 32.
Proof.
  intros Hn Hb l. unfold l, layoutArena. cbn [availOff usedOff bufOff total].
  pose proof (align_spec (16 * n + (4 + 2 * n + 2)) 2 ltac:(lia)) as [Hu Du].
  change (2 ^ 2) with 4 in Hu, Du. set (u := align _ 4) in *.
  pose proof (align_spec (u + (4 + 8 * n + 2)) 4 ltac:(lia)) as [Hf Df].
  change (2 ^ 4) with 16 in Hf, Df. set (f := align _ 16) in *.
  split; [lia|]. split; [lia|]. split; [lia|]. split; [exists (8 * n); lia|]. split; [done|]. split; [done|].
  split; [intros i Hi; nia|lia].
Qed.
Lemma layoutArena_disjoint_witness :
  availOff (layoutArena 256 4096) = 4096 /\ usedOff (layoutArena 256 4096) = 4616 /\
  16 * 256 <= availOff (layoutArena 256 4096) /\ (16 | bufOff (layoutArena 256 4096)).
Proof.
  destruct (layoutArena_disjoint 256 4096 ltac:(lia) ltac:(lia)) as (H1 & _ & _ & _ & _ & H2 & _).
  split; [reflexivity|]. split; [reflexivity|]. split; [exact H1|exact H2].
Defined.

(** ** Wrapping indices *)

Section Ring.
Variable k : nat.
Hypothesis Hk : (k <= 15)%nat.
Let n : nat := (2 ^ k)%nat.

Lemma n_pow : Z.of_nat n = 2 ^ Z.of_nat k.
Proof. unfold n. by rewrite Nat2Z.inj_pow. Qed.
Lemma n_range : 0 < Z.of_nat n <= 32768.
Proof.
  rewrite n_pow. split; [apply Z.pow_pos_nonneg; lia|]. change 32768 with (2 ^ 15). apply Z.pow_le_mono_r; lia.
Qed.

Lemma land_n x : 0 <= x -> Z.land x (Z.of_nat n - 1) = x mod Z.of_nat n.
Proof.
  intros Hx. rewrite n_pow. replace (2 ^ Z.of_nat k - 1) with (Z.ones (Z.of_nat k)) by (rewrite Z.ones_equiv; lia).
  apply Z.land_ones. lia.
Qed.
Lemma mod_mod_pow x j : Z.of_nat k <= j -> (x mod 2 ^ j) mod Z.of_nat n = x mod Z.of_nat n.
Proof.
  intros Hj. rewrite n_pow. replace (2 ^ j) with (2 ^ Z.of_nat k * 2 ^ (j - Z.of_nat k)).
  - rewrite Z.rem_mul_r by (try apply Z.pow_nonzero; try apply Z.pow_pos_nonneg; lia).
    rewrite Z.mul_comm, Z_mod_plus_full. apply Z.mod_mod, Z.pow_nonzero; lia.
  - rewrite <- Z.pow_add_r by lia. f_equal. lia.
Qed.
Lemma mod16 x : u16 x mod Z.of_nat n = x mod Z.of_nat n.
Proof. apply (mod_mod_pow x 16). lia. Qed.
Lemma mod32 x : u32 x mod Z.of_nat n = x mod Z.of_nat n.
Proof. apply (mod_mod_pow x 32). lia. Qed.

(** Two positions less than [n] apart use different slots. *)
Lemma slots_differ a b : 0 <= a < b -> b - a < Z.of_nat n -> a mod Z.of_nat n <> b mod Z.of_nat n.
Proof.
  intros Hab Hd E. pose proof n_range. 
  assert (Hm : (b - a) mod Z.of_nat n = 0) by (rewrite Zminus_mod, E, Z.sub_diag; apply Z.mod_0_l; lia).
  rewrite Z.mod_small in Hm by lia. lia.
Qed.

Definition slot (i : Z) : nat := Z.to_nat (i mod Z.of_nat n).
Lemma slot_lt i : (slot i < n)%nat.
Proof. unfold slot. pose proof n_range. pose proof (Z.mod_pos_bound i (Z.of_nat n)). lia. Qed.
Lemma slot_ne a b : 0 <= a < b -> b - a < Z.of_nat n -> slot a <> slot b.
Proof.
  intros H1 H2 E. apply (slots_differ a b H1 H2). unfold slot in E. pose proof n_range.
  pose proof (Z.mod_pos_bound a (Z.of_nat n)). pose proof (Z.mod_pos_bound b (Z.of_nat n)). lia.
Qed.

(** ** The ring as a queue *)

Definition wire (pkt : bytes) : bytes := replicate vnetHdrV1Len 0 ++ pkt.

(** The entry at ring position [i] is complete and holds frame [f]. *)
Definition entry (w : vhostNetWriter) (i : Z) (f : bytes) : Prop :=
  availRing w !! slot i = Some (Z.of_nat (slot i)) /\
  (exists d, vdesc w !! slot i = Some d /\ d_addr d = bufPtr w (slot i) /\ d_len d = Z.of_nat (length f)) /\
  (length f <= bufSize w)%nat /\ take (length f) (drop (slot i * bufSize w) (area w)) = f.

(** [U], [P], [A]: entries used, published and filled since the start; [q]: the
    packets in the ring. *)
Record ring_ok (w : vhostNetWriter) (U P A : Z) (q : list bytes) : Prop := {
  ro_n : vn w = n; ro_big : Z.of_nat (bufSize w) < 4294967296;
  ro_desc : length (vdesc w) = n; ro_ring : length (availRing w) = n; ro_area : length (area w) = (n * bufSize w)%nat;
  ro_order : 0 <= U <= P /\ P <= A; ro_len : Z.of_nat (length q) = A - U; ro_cap : A - U <= Z.of_nat n;
  ro_mem : availIdxMem w = u16 P; ro_idx : availIdx w = u16 A; ro_free : freeHead w = u32 A;
  ro_entries j p : q !! j = Some p -> entry w (U + Z.of_nat j) (wire p)
}.

Lemma dev_read_entry w i f : vn w = n -> entry w i f -> dev_read w i = Some f.
Proof.
  intros Hn (Hr & (d & Hd & Ha & Hl) & _ & Hf). unfold dev_read. rewrite Hn. change (Z.to_nat (i mod Z.of_nat n)) with (slot i).
  rewrite Hr. cbn [mbind option_bind]. rewrite Nat2Z.id, Hd. cbn [mbind option_bind]. f_equal. rewrite Ha, Hl.
  unfold bufPtr. rewrite Nat2Z.id. by replace (Z.to_nat (bufBase w + Z.of_nat (slot i * bufSize w) - bufBase w)) with (slot i * bufSize w)%nat by lia.
Qed.
Lemma dev_read_wrap w i : vn w = n -> dev_read w (u16 i) = dev_read w i.
Proof. intros Hn. unfold dev_read. by rewrite Hn, mod16. Qed.

(** The full test on wrapped indices is the one on the counters. *)
Lemma in_flight U A : 0 <= A - U <= Z.of_nat n -> u16 (u16 A - u16 U) = A - U.
Proof. intros H. pose proof n_range. unfold u16. rewrite <- Zminus_mod. apply Z.mod_small. lia. Qed.

(** Writing the slot of position [A] touches no entry in flight. *)
Lemma slot_bound i bs : (slot i * bs + bs <= n * bs)%nat.
Proof. pose proof (slot_lt i). nia. Qed.

Lemma Submit_queue w U P A q pkt : ring_ok w U P A q ->
  let '(r, w') := vhost_Submit (u16 U) w pkt in
  (r = false <-> Z.of_nat (length q) = Z.of_nat n) /\
  (if r && (vnetHdrV1Len + length pkt <=? bufSize w)%nat
   then ring_ok w' U P (A + 1) (q ++ [pkt]) else ring_ok w' U P A q).
Proof.
  intros [H1 Hbig H2 H3 H4 H5 H6 H7 H8 H9 H10 H11]. unfold vhost_Submit.
  cbn [vn Reclaim availIdx lastUsed freeHead bufSize bufBase vdesc availRing area availIdxMem kicks].
  pose proof n_range as Hr. rewrite H9, H10, H1, in_flight by lia. rewrite (u16_small (Z.of_nat n)) by lia.
  destruct (Z.of_nat n <=? A - U) eqn:Efull; bool_hyps.
  { cbn [andb]. split; [split; [lia|done]|]. by constructor. }
  rewrite land_n by apply u32_range. rewrite mod32. fold (slot A).
  destruct (bufSize w <? vnetHdrV1Len + length pkt)%nat eqn:Ebig; bool_hyps.
  { rewrite (proj2 (Nat.leb_gt _ _)) by lia. cbn [andb]. split; [split; [done|lia]|]. by constructor. }
  rewrite (proj2 (Nat.leb_le _ _)) by lia. cbn [andb]. split; [split; [done|lia]|].
  rewrite (u16_small (Z.of_nat n - 1)) by lia. rewrite land_n by apply u16_range. rewrite mod16. fold (slot A).
  pose proof (slot_lt A) as Hs. pose proof (slot_bound A (bufSize w)) as Hsb.
  rewrite (u16_small (Z.of_nat (slot A))) by lia.
  assert (Hz : length (replicate vnetHdrV1Len 0) = vnetHdrV1Len) by apply length_replicate.
  set (mid := splice (area w) (slot A * bufSize w) (replicate vnetHdrV1Len 0)).
  assert (Hmid : length mid = length (area w)) by (apply splice_length; rewrite H4; lia).
  assert (Hput : forall o l, (o + l <= slot A * bufSize w \/ slot A * bufSize w + bufSize w <= o)%nat ->
    take l (drop o (splice mid (slot A * bufSize w + vnetHdrV1Len) pkt)) = take l (drop o (area w))).
  { intros o l Ho. rewrite read_splice_ne by (rewrite ?Hmid, ?H4; lia). apply read_splice_ne; rewrite ?Hz, ?H4; lia. }
  constructor; cbn [vn bufSize vdesc availRing area availIdxMem availIdx freeHead Reclaim]; rewrite ?length_insert; try done.
  - rewrite splice_length by (rewrite Hmid, H4; lia). by rewrite Hmid.
  - lia.
  - rewrite length_app. cbn. lia.
  - lia.
  - unfold u16. rewrite Zplus_mod_idemp_l. done.
  - unfold u32. rewrite Zplus_mod_idemp_l. done.
  - intros j p Hj. apply lookup_app_Some in Hj as [Hj|[Hlen Hj]].
    + destruct (H11 j p Hj) as (E1 & (d & E2 & E3 & E4) & E5 & E6). apply lookup_lt_Some in Hj.
      assert (Hne : slot (U + Z.of_nat j) <> slot A) by (apply slot_ne; lia).
      pose proof (slot_lt (U + Z.of_nat j)) as Hlt. unfold entry. cbn [availRing vdesc bufSize area].
      split; [by rewrite list_lookup_insert_ne|]. split; [exists d; split; [by rewrite list_lookup_insert_ne|done]|].
      split; [done|]. rewrite Hput; [done|]. nia.
    + apply list_lookup_singleton_Some in Hj as [Hj <-]. replace (U + Z.of_nat j) with A by lia.
      unfold entry. cbn [availRing vdesc bufSize area].
      split; [by apply list_lookup_insert_eq; rewrite H3|].
      assert (Hw : length (wire pkt) = (vnetHdrV1Len + length pkt)%nat) by (unfold wire; by rewrite length_app, Hz).
      split; [eexists; split; [by apply list_lookup_insert_eq; rewrite H2|]; cbn [d_addr d_len]; split; [done|rewrite Hw, u32_small; lia]|].
      split; [by rewrite Hw|]. rewrite Hw.
      apply list_eq. intros i. unfold wire. destruct (decide (i < vnetHdrV1Len + length pkt)%nat) as [Hi|Hi].
      * rewrite lookup_take_lt, lookup_drop, lookup_splice by (rewrite ?Hmid, ?H4; lia). case_decide as Hd.
        -- rewrite lookup_app_r by (rewrite Hz; lia). rewrite Hz. f_equal. lia.
        -- unfold mid. rewrite lookup_splice by (rewrite ?Hz, ?H4; lia). rewrite Hz. rewrite decide_True by lia.
           rewrite lookup_app_l by (rewrite Hz; lia). f_equal. lia.
      * rewrite lookup_take_ge by lia. symmetry. apply lookup_ge_None. rewrite length_app, Hz. lia.
Qed.

Lemma Flush_queue w U P A q : ring_ok w U P A q -> ring_ok (vhost_Flush w) U A A q.
Proof. intros []. constructor; cbn; try done; lia. Qed.

Lemma worker_queue w U P A q : ring_ok w U P A q -> u16 U <> u16 P ->
  exists p q', q = p :: q' /\ dev_read w (u16 U) = Some (wire p) /\ ring_ok w (U + 1) P A q'.
Proof.
  intros H Hne. pose proof H as [H1 Hbig H2 H3 H4 H5 H6 H7 H8 H9 H10 H11].
  assert (U < P) by (destruct (decide (U = P)) as [->|]; [done|lia]).
  destruct q as [|p q]; [cbn in H6; lia|]. exists p, q. split; [done|]. split.
  - rewrite dev_read_wrap by done. apply dev_read_entry; [done|]. pose proof (H11 0%nat p eq_refl) as He.
    by rewrite Nat2Z.inj_0, Z.add_0_r in He.
  - cbn [length] in H6. constructor; try done; try lia. intros j p' Hj. pose proof (H11 (S j) p' Hj) as He.
    by replace (U + 1 + Z.of_nat j) with (U + Z.of_nat (S j)) by lia.
Qed.

Lemma bufSize_Submit u w pkt : bufSize (vhost_Submit u w pkt).2 = bufSize w.
Proof. unfold vhost_Submit. cbv zeta. destruct (Z.leb _ _); [done|]. by destruct (Nat.ltb _ _). Qed.

Definition vinv (s : vstate) : Prop := exists U P A q,
  ring_ok (v_w s) U P A q /\ v_used s = u16 U /\ (wire <$> v_acc s) = v_got s ++ (wire <$> q).

Lemma vstep_inv s s' : vinv s -> vstep s s' -> vinv s'.
Proof.
  intros (U & P & A & q & Hr & Hu & Hq) Hs. destruct Hs as [s pkt r w E|s|s f Hne Ef]; unfold vinv; cbn [v_w v_used v_got v_acc].
  - pose proof (Submit_queue _ _ _ _ _ pkt Hr) as Hsub. rewrite <- Hu, E in Hsub. destruct Hsub as [_ Hsub].
    pose proof (bufSize_Submit (v_used s) (v_w s) pkt) as Hb. rewrite E in Hb. cbn [snd] in Hb. rewrite Hb.
    destruct (r && _).
    + exists U, P, (A + 1), (q ++ [pkt]). split; [done|]. split; [done|]. by rewrite !fmap_app, Hq, app_assoc.
    + exists U, P, A, q. by rewrite app_nil_r.
  - exists U, A, A, q. split; [by eapply Flush_queue|done].
  - rewrite Hu, (ro_mem _ _ _ _ _ Hr) in Hne. destruct (worker_queue _ _ _ _ _ Hr Hne) as (p & q' & -> & Ed & Hr').
    rewrite Hu, Ed in Ef. injection Ef as <-. exists (U + 1), P, A, q'. split; [done|]. cbn [v_used v_got v_acc].
    split; [rewrite Hu; unfold u16; by rewrite Zplus_mod_idemp_l|]. rewrite Hq, <- app_assoc. done.
Qed.
End Ring.

Lemma vinit_inv k bs base w : (k <= 15)%nat -> Z.of_nat bs < 4294967296 -> newVhostNetWriter (2 ^ k) bs base = Some w -> vinv k (vinit w).
Proof.
  intros Hk Hbs. unfold newVhostNetWriter. destruct (entries_ok _); [|done]. intros [= <-].
  exists 0, 0, 0, []. split; [|by split]. pose proof (n_range k Hk).
  constructor; cbn; rewrite ?length_replicate; try done; try lia.
Qed.

(** C10.  The vhost ring is a bounded first-in first-out queue.  For every ring of
    [2 ^ k] entries ([k <= 15]) and under any interleaving of submissions,
    flushes and worker steps, with all index words wrapping: the worker takes
    exactly the accepted packets, in order, each behind its zeroed header and
    intact; [Submit] refuses exactly when the ring holds [2 ^ k] packets; whatever
    is published can be taken; and a flush publishes everything accepted. *)
Theorem vring_fifo k bs base w s :
  (k <= 15)%nat -> Z.of_nat bs < 4294967296 -> newVhostNetWriter (2 ^ k) bs base = Some w -> reach vstep (vinit w) s ->
  exists pending,
    wire <$> v_acc s = v_got s ++ (wire <$> pending) /\ Z.of_nat (length pending) <= Z.of_nat (2 ^ k) /\
    (forall pkt, (vhost_Submit (v_used s) (v_w s) pkt).1 = false <-> Z.of_nat (length pending) = Z.of_nat (2 ^ k)) /\
    (v_used s <> availIdxMem (v_w s) -> exists p rest, pending = p :: rest /\ dev_read (v_w s) (v_used s) = Some (wire p)) /\
    availIdxMem (vhost_Flush (v_w s)) = u16 (v_used s + Z.of_nat (length pending)).
Proof.
  intros Hk Hbs Hw Hr. assert (Hi : vinv k s).
  { eapply (reach_invariant vstep (vinv k)); [by eapply vinit_inv| |exact Hr]. intros s1 s2. by apply vstep_inv. }
  destruct Hi as (U & P & A & q & Hok & Hu & Hq). exists q. split; [done|].
  split; [rewrite (ro_len _ _ _ _ _ _ Hok); by apply (ro_cap _ _ _ _ _ _ Hok)|]. split; [|split].
  - intros pkt. rewrite Hu. pose proof (Submit_queue k Hk _ _ _ _ _ pkt Hok) as Hs.
    destruct (vhost_Submit (u16 U) (v_w s) pkt) as [r w']. cbn [fst]. exact (proj1 Hs).
  - intros Hne. rewrite Hu, (ro_mem _ _ _ _ _ _ Hok) in Hne.
    destruct (worker_queue k Hk _ _ _ _ _ Hok Hne) as (p & q' & -> & Ed & _). exists p, q'. split; [done|]. by rewrite Hu.
  - cbn [availIdxMem vhost_Flush]. rewrite (ro_idx _ _ _ _ _ _ Hok), Hu, (ro_len _ _ _ _ _ _ Hok).
    unfold u16. rewrite Zplus_mod_idemp_l. f_equal. lia.
Qed.

Lemma vring_fifo_witness : exists w pending,
  newVhostNetWriter 2 32 4096 = Some w /\
  let s := {| v_w := vhost_Flush (vhost_Submit 0 w [1; 2; 3]).2; v_used := 0; v_got := []; v_acc := [[1; 2; 3]] |} in
  wire <$> v_acc s = v_got s ++ (wire <$> pending) /\ length pending = 1%nat.
Proof.
  destruct (newVhostNetWriter 2 32 4096) as [w|] eqn:Ew; [|discriminate Ew]. exists w.
  set (s := {| v_w := vhost_Flush (vhost_Submit 0 w [1; 2; 3]).2; v_used := 0; v_got := []; v_acc := [[1; 2; 3]] |}).
  destruct (vring_fifo 1 32 4096 w s) as (pending & H & _).
  - lia.
  - reflexivity.
  - exact Ew.
  - set (s1 := {| v_w := (vhost_Submit 0 w [1; 2; 3]).2; v_used := 0; v_got := []; v_acc := [[1; 2; 3]] |}).
    apply reach_step with s1; [|apply (vs_flush s1)]. apply reach_step with (vinit w); [apply reach_refl|].
    pose proof (vs_submit (vinit w) [1; 2; 3] _ _ (surjective_pairing _)) as Hst.
    vm_compute in Ew. injection Ew as <-. vm_compute in Hst |- *. exact Hst.
  - exists pending. split; [reflexivity|]. split; [exact H|]. destruct pending as [|p [|? ?]]; [discriminate H|reflexivity|discriminate H].
Defined.

(** A packet can be counted as written and never reach the ring: the batch
    takes packets up to 4096 bytes, but with its Ethernet and virtio headers one
    of more than 4070 does not fit the 4096-byte buffer, [Submit] drops it and
    answers true, and the next flush counts it in [tun_vhost_writes]. *)
Theorem vhost_oversize_counted used1 used2 b ip :
  bufSize (tv_w b) = 4096%nat -> (4070 <? length ip)%nat = true -> (length ip <=? 4096)%nat = true -> length (tv_dstMAC b) = 6%nat ->
  u16 (availIdx (tv_w b) - used1) < u16 (Z.of_nat (vn (tv_w b))) -> 0 <= tv_queued b ->
  exists b', TunVhost_Add used1 used2 b ip = Some b' /\ tv_w b' = Reclaim used1 (tv_w b) /\
    tunVhostDrops b' = tunVhostDrops b /\ tunVhostWrites (TunVhost_Flush b') = tunVhostWrites b + tv_queued b + 1.
Proof.
  intros Hbs Hbig Hle Hmac Hroom Hq. apply Nat.ltb_lt in Hbig. apply Nat.leb_le in Hle. unfold TunVhost_Add, tv_scratch.
  rewrite (proj2 (Nat.ltb_ge _ _)) by lia. rewrite (proj2 (Nat.eqb_neq _ _)) by lia.
  assert (Hl : length (vhost_frame (tv_dstMAC b) ip) = (14 + length ip)%nat).
  { unfold vhost_frame. rewrite !length_app, length_take, Hmac. destruct (_ =? 6); reflexivity. }
  unfold vhost_Submit. cbv zeta. cbn [Reclaim availIdx lastUsed vn bufSize].
  rewrite (proj2 (Z.leb_gt _ _)) by done. rewrite Hl, Hbs. rewrite (proj2 (Nat.ltb_lt _ _)) by (unfold vnetHdrV1Len; lia).
  eexists. split; [reflexivity|]. cbn [tv_w tunVhostDrops]. split; [done|]. split; [done|].
  unfold TunVhost_Flush. cbn [tv_queued]. rewrite (proj2 (Z.eqb_neq _ _)) by lia. cbn [tunVhostWrites]. lia.
Qed.

Lemma vhost_oversize_counted_witness : exists w b', newVhostNetWriter 1 4096 0 = Some w /\
  TunVhost_Add 0 0 {| tv_w := w; tv_queued := 0; tv_dstMAC := [2; 0; 0; 0; 171; 205]; tunVhostWrites := 0; tunVhostDrops := 0; tunVhostFull := 0 |}
    (replicate 4090 69) = Some b' /\ tunVhostWrites (TunVhost_Flush b') = 1.
Proof.
  destruct (newVhostNetWriter 1 4096 0) as [w|] eqn:Ew; [|vm_compute in Ew; discriminate Ew].
  assert (Hf : bufSize w = 4096%nat /\ u16 (availIdx w - 0) < u16 (Z.of_nat (vn w))).
  { unfold newVhostNetWriter in Ew. destruct (entries_ok _); [|discriminate Ew]. injection Ew as <-. split; vm_compute; reflexivity. }
  destruct Hf as [Hb Hr]. exists w.
  destruct (vhost_oversize_counted 0 0 {| tv_w := w; tv_queued := 0; tv_dstMAC := [2; 0; 0; 0; 171; 205]; tunVhostWrites := 0; tunVhostDrops := 0; tunVhostFull := 0 |}
    (replicate 4090 69) Hb ltac:(vm_compute; reflexivity) ltac:(vm_compute; reflexivity) eq_refl Hr ltac:(cbn; lia)) as (b' & E & _ & _ & Hw).
  exists b'. split; [reflexivity|]. split; [exact E|exact Hw].
Defined.
