(* ===== verification/Uring.v ===== *)
(** * The io_uring writer (utility/uring.go, utility/tun_uring.go, tun_napi.go)

    The submission and completion rings shared with the kernel, and the arena
    the entries point into.  The kernel is not code of the repository: what it
    does is an argument of every flush, within what io_uring documents.
    [io_uring_enter] fails and consumes nothing, or takes some number of the
    published entries from the head of the ring, possibly fewer than asked.  The
    requests it took are then carried out one at a time in any order, each
    reading the packet from the arena at that moment, and each completion is
    posted in the completion ring when that has room.  Between such events the
    reaping loop looks at the completion ring. *)
From S2P Require Import Prelude Words Egress.
Local Open Scope Z_scope.

Record ioUringSQE := { sq_fd : Z; sq_addr : nat; sq_len : Z; sq_userData : Z }.

Record uringWriter := {
  entries : nat; maxFrame : nat;
  sqes : list ioUringSQE; sqArray : list Z; arena : bytes;
  sqTailMem : Z; cqHeadMem : Z; utail : Z; uqueued : Z
}.

(** The kernel's side: the head of the submission ring, the requests in flight,
    the completion ring (the results by slot, and its tail), and the writes
    carried out, in the order in which they were, with their results.  A device
    takes a packet whole (a result that is not negative) or not at all. *)
Record kernel := {
  k_head : Z; k_inflight : list ioUringSQE; k_cqes : list Z; k_cqTail : Z; k_done : list (Z * bytes * Z)
}.
Definition kernel_init (cq : nat) : kernel :=
  {| k_head := 0; k_inflight := []; k_cqes := replicate cq 0; k_cqTail := 0; k_done := [] |}.

(** [io_uring_setup] leaves the heads and tails at zero. *)
Definition newUringWriter (n mf : nat) : uringWriter :=
  {| entries := n; maxFrame := mf; sqes := replicate n {| sq_fd := 0; sq_addr := 0; sq_len := 0; sq_userData := 0 |};
     sqArray := replicate n 0; arena := replicate (n * mf) 0; sqTailMem := 0; cqHeadMem := 0; utail := 0; uqueued := 0 |}.

Definition uring_Submit (w : uringWriter) (targetFd : Z) (pkt : bytes) : uringWriter :=
  let idx := Z.to_nat (Z.land (utail w) (Z.of_nat (entries w) - 1)) in
  let off := (idx * maxFrame w)%nat in
  let n := Nat.min (length (arena w) - off) (length pkt) in
  {| entries := entries w; maxFrame := maxFrame w;
     sqes := <[idx := {| sq_fd := targetFd; sq_addr := off; sq_len := Z.of_nat n; sq_userData := Z.of_nat idx |}]> (sqes w);
     sqArray := <[idx := Z.of_nat idx]> (sqArray w); arena := splice (arena w) off pkt;
     sqTailMem := sqTailMem w; cqHeadMem := cqHeadMem w; utail := u32 (utail w + 1); uqueued := u32 (uqueued w + 1) |}.

Definition uring_Full (w : uringWriter) : bool := Z.of_nat (entries w) <=? uqueued w.

(** ** The kernel *)

(** The entry at ring position [i], as the kernel reads it. *)
Definition sq_read (w : uringWriter) (i : Z) : option ioUringSQE :=
  idx ← sqArray w !! Z.to_nat (i mod Z.of_nat (entries w)); sqes w !! Z.to_nat idx.
Definition sqe_data (w : uringWriter) (e : ioUringSQE) : Z * bytes :=
  (sq_fd e, take (Z.to_nat (sq_len e)) (drop (sq_addr e) (arena w))).

(** A successful [io_uring_enter] for [n] entries that takes [m] of them, if
    that many are asked for and published. *)
Definition enter (w : uringWriter) (n m : Z) (k : kernel) : kernel :=
  let m := Z.max 0 (Z.min m (Z.min n (u32 (sqTailMem w - k_head k)))) in
  {| k_head := u32 (k_head k + m);
     k_inflight := k_inflight k ++ omap (fun i => sq_read w (k_head k + Z.of_nat i)) (seq 0 (Z.to_nat m));
     k_cqes := k_cqes k; k_cqTail := k_cqTail k; k_done := k_done k |}.

(** The [i]-th request in flight is carried out with result [res]. *)
Definition complete (w : uringWriter) (i : nat) (res : Z) (k : kernel) : kernel :=
  if u32 (k_cqTail k - cqHeadMem w) <? Z.of_nat (length (k_cqes k)) then
    match k_inflight k !! i with
    | None => k
    | Some e => {| k_head := k_head k; k_inflight := delete i (k_inflight k);
                   k_cqes := <[Z.to_nat (k_cqTail k mod Z.of_nat (length (k_cqes k))) := res]> (k_cqes k);
                   k_cqTail := u32 (k_cqTail k + 1); k_done := k_done k ++ [(sqe_data w e, res)] |}
    end
  else k.

(** What happens while a flush waits: a completion, or a turn of the loop. *)
Inductive uringEvent := KComplete (i : nat) (res : Z) | KLook.
Inductive enterAns := EnterFails | EnterTakes (m : Z) (evs : list uringEvent).

(** ** Flush *)

Definition store_cqHead (w : uringWriter) (head : Z) : uringWriter :=
  {| entries := entries w; maxFrame := maxFrame w; sqes := sqes w; sqArray := sqArray w; arena := arena w;
     sqTailMem := sqTailMem w; cqHeadMem := head; utail := utail w; uqueued := uqueued w |}.
Definition publish (w : uringWriter) : uringWriter :=
  {| entries := entries w; maxFrame := maxFrame w; sqes := sqes w; sqArray := sqArray w; arena := arena w;
     sqTailMem := utail w; cqHeadMem := cqHeadMem w; utail := utail w; uqueued := uqueued w |}.
Definition reset_queued (w : uringWriter) : uringWriter :=
  {| entries := entries w; maxFrame := maxFrame w; sqes := sqes w; sqArray := sqArray w; arena := arena w;
     sqTailMem := sqTailMem w; cqHeadMem := cqHeadMem w; utail := utail w; uqueued := 0 |}.

(** The results between the two indices the loop loaded. *)
Definition cq_results (k : kernel) (head tail : Z) : list Z :=
  omap (fun i => k_cqes k !! Z.to_nat (Z.land (u32 (head + Z.of_nat i)) (Z.of_nat (length (k_cqes k)) - 1)))
       (seq 0 (Z.to_nat (u32 (tail - head)))).
Definition negatives (l : list Z) : Z := Z.of_nat (length (List.filter (fun x => x <? 0) l)).

(** The reaping loop.  [None]: the events are used up and it still waits. *)
Fixpoint reap (n got fails : Z) (evs : list uringEvent) (k : kernel) (w : uringWriter) : option (Z * kernel * uringWriter) :=
  if got <? n then
    match evs with
    | [] => None
    | KComplete i res :: evs => reap n got fails evs (complete w i res k) w
    | KLook :: evs =>
        let head := cqHeadMem w in
        let tail := k_cqTail k in
        if head =? tail then reap n got fails evs k w
        else
          let rs := cq_results k head tail in
          reap n (u32 (got + Z.of_nat (length rs))) (fails + negatives rs) evs k (store_cqHead w tail)
    end
  else Some (fails, k, w).

Definition uring_Flush (ans : enterAns) (k : kernel) (w : uringWriter) : option (Z * kernel * uringWriter) :=
  if uqueued w =? 0 then Some (0, k, w)
  else
    let n := uqueued w in
    let w := publish w in
    match ans with
    | EnterFails => Some (n, k, reset_queued w)
    | EnterTakes m evs =>
        '(fails, k, w) ← reap n 0 0 evs (enter w n m k) w;
        Some (fails, k, reset_queued w)
    end.

(** ** TunUringBatch *)

Record TunUringBatch := { tu_fd : Z; tu_w : uringWriter; tu_maxFrame : nat; tu_queued : Z; tunUringWrites : Z; tunUringFails : Z; tunUringDrops : Z }.

Definition TunUring_Flush (ans : enterAns) (k : kernel) (b : TunUringBatch) : option (kernel * TunUringBatch) :=
  if tu_queued b =? 0 then Some (k, b)
  else
    let n := tu_queued b in
    '(fails, k, w) ← uring_Flush ans k (tu_w b);
    Some (k, {| tu_fd := tu_fd b; tu_w := w; tu_maxFrame := tu_maxFrame b; tu_queued := 0;
                tunUringWrites := tunUringWrites b + (n - fails);
                tunUringFails := (if 0 <? fails then tunUringFails b + fails else tunUringFails b); tunUringDrops := tunUringDrops b |}).

Definition TunUring_Add (ans : enterAns) (k : kernel) (b : TunUringBatch) (pkt : bytes) : option (kernel * TunUringBatch) :=
  if (tu_maxFrame b <? length pkt)%nat then
    Some (k, {| tu_fd := tu_fd b; tu_w := tu_w b; tu_maxFrame := tu_maxFrame b; tu_queued := tu_queued b;
                tunUringWrites := tunUringWrites b; tunUringFails := tunUringFails b; tunUringDrops := tunUringDrops b + 1 |})
  else
    '(k, b) ← (if uring_Full (tu_w b) then TunUring_Flush ans k b else Some (k, b));
    Some (k, {| tu_fd := tu_fd b; tu_w := uring_Submit (tu_w b) (tu_fd b) pkt; tu_maxFrame := tu_maxFrame b; tu_queued := tu_queued b + 1;
                tunUringWrites := tunUringWrites b; tunUringFails := tunUringFails b; tunUringDrops := tunUringDrops b |}).
Definition TunUring_Full (b : TunUringBatch) : bool := uring_Full (tu_w b).
Definition TunUring_Empty (b : TunUringBatch) : bool := tu_queued b =? 0.

Definition NewTunUringBatch (fd : Z) (n mf : nat) : TunUringBatch :=
  {| tu_fd := fd; tu_w := newUringWriter n mf; tu_maxFrame := mf; tu_queued := 0; tunUringWrites := 0; tunUringFails := 0; tunUringDrops := 0 |}.

(** The batch's callers: packets and flushes, with the kernel's answer to a
    flush each may need. *)
Inductive uringOp := UAdd (pkt : bytes) (ans : enterAns) | UFlush (ans : enterAns).
Definition uring_op (s : kernel * TunUringBatch) (o : uringOp) : option (kernel * TunUringBatch) :=
  match o with UAdd pkt ans => TunUring_Add ans s.1 s.2 pkt | UFlush ans => TunUring_Flush ans s.1 s.2 end.
Fixpoint uring_run (s : kernel * TunUringBatch) (ops : list uringOp) : option (kernel * TunUringBatch) :=
  match ops with [] => Some s | o :: ops => s ← uring_op s o; uring_run s ops end.

(** ** TunNapiBatch: one write per packet *)

(** [writes]: the packets the device took; [ok]: whether this write succeeds. *)
Record TunNapiBatch := { tn_wrote : Z; tn_writes : list bytes; tunNapiWrites : Z; tunNapiDrops : Z }.
Definition TunNapi_Add (ok : bool) (b : TunNapiBatch) (pkt : bytes) : bool * TunNapiBatch :=
  if ok then (true, {| tn_wrote := tn_wrote b + 1; tn_writes := tn_writes b ++ [pkt]; tunNapiWrites := tunNapiWrites b + 1; tunNapiDrops := tunNapiDrops b |})
  else (false, {| tn_wrote := tn_wrote b; tn_writes := tn_writes b; tunNapiWrites := tunNapiWrites b; tunNapiDrops := tunNapiDrops b + 1 |}).
Definition TunNapi_Flush (b : TunNapiBatch) : TunNapiBatch :=
  {| tn_wrote := 0; tn_writes := tn_writes b; tunNapiWrites := tunNapiWrites b; tunNapiDrops := tunNapiDrops b |}.
Definition TunNapi_Full (b : TunNapiBatch) : bool := false.
Definition TunNapi_Empty (b : TunNapiBatch) : bool := true.
