(* ===== verification/UringProps.v ===== *)
(** * Properties of the io_uring writer *)
From S2P Require Import Prelude Words Egress Vring VringProps Uring.
Local Open Scope Z_scope.

(** Completion order: in order of submission, or any. *)
Definition same {A} (ord : bool) (l l' : list A) : Prop := if ord then l = l' else l ≡ₚ l'.
Lemma same_perm {A} ord (l l' : list A) : same ord l l' -> l ≡ₚ l'.
Proof. destruct ord; [by intros ->|done]. Qed.
Lemma same_refl {A} ord (l : list A) : same ord l l.
Proof. by destruct ord. Qed.
Lemma same_app {A} ord (l1 l2 l1' l2' : list A) : same ord l1 l1' -> same ord l2 l2' -> same ord (l1 ++ l2) (l1' ++ l2').
Proof. destruct ord; cbn; [by intros -> ->|by intros -> ->]. Qed.

Lemma negatives_app l l' : negatives (l ++ l') = negatives l + negatives l'.
Proof. unfold negatives. rewrite List.filter_app, length_app. lia. Qed.
Lemma negatives_range l : 0 <= negatives l <= Z.of_nat (length l).
Proof. unfold negatives. pose proof (List.filter_length_le (fun x => x <? 0) l). lia. Qed.

Lemma omap_seq {A B} (f : nat -> option B) (g : A -> B) (q : list A) :
  (forall j p, q !! j = Some p -> f j = Some (g p)) -> omap f (seq 0 (length q)) = g <$> q.
Proof.
  induction q as [|p q IH] using rev_ind; intros Hf; [done|].
  rewrite length_app, Nat.add_1_r, seq_S, omap_app, IH.
  - rewrite fmap_app. cbn [Nat.add omap list_omap]. by rewrite (Hf (length q) p) by (by apply list_lookup_middle).
  - intros j p' Hj. apply Hf. by apply lookup_app_l_Some.
Qed.

(** ** The reaping loop *)

Section Reap.
Variables k kc : nat.
Hypothesis Hk : (k <= kc)%nat.
Hypothesis Hkc : (kc <= 15)%nat.
Let N : nat := (2 ^ kc)%nat.
Local Abbreviation cslot := (slot kc).

Lemma room_n : Z.of_nat (2 ^ k) <= Z.of_nat N <= 32768.
Proof. pose proof (n_range kc Hkc). fold N in H. split; [|lia]. unfold N. apply Nat2Z.inj_le, Nat.pow_le_mono_r; lia. Qed.

(** The completion ring holds the results [rs], from position [C] on. *)
Record cq_ok (kn : kernel) (w : uringWriter) (rs : list Z) (C : Z) : Prop := {
  co_len : length (k_cqes kn) = N; co_C : 0 <= C; co_cap : (length rs <= N)%nat;
  co_head : cqHeadMem w = u32 C; co_tail : k_cqTail kn = u32 (C + Z.of_nat (length rs));
  co_res j r : rs !! j = Some r -> k_cqes kn !! cslot (C + Z.of_nat j) = Some r
}.

Lemma cq_count kn w rs C : cq_ok kn w rs C -> u32 (k_cqTail kn - cqHeadMem w) = Z.of_nat (length rs).
Proof.
  intros [H1 H2 H3 H4 H5 H6]. pose proof room_n. rewrite H4, H5. unfold u32. rewrite <- Zminus_mod, Z.mod_small; lia.
Qed.

Lemma cq_results_ok kn w rs C : cq_ok kn w rs C -> cq_results kn (cqHeadMem w) (k_cqTail kn) = rs.
Proof.
  intros Hok. unfold cq_results. rewrite (cq_count _ _ _ _ Hok), Nat2Z.id. destruct Hok as [H1 H2 H3 H4 H5 H6].
  rewrite (omap_seq _ id rs); [by rewrite list_fmap_id|]. intros j r Hj. rewrite H1, H4, u32_idem_add.
  unfold N. rewrite (land_n kc Hkc) by apply u32_range. rewrite (mod32 kc Hkc). by apply H6.
Qed.

(** A flush of the packets [q], [got] completions into its loop: [D] carried
    out, [pk] in flight, [G] the results seen and [rs] those waiting. *)
Record midrec (ord : bool) (fd : Z) (q : list bytes) (base : list (Z * bytes * Z)) (w : uringWriter) (kn : kernel)
    (got fails : Z) (D : list (Z * bytes * Z)) (pk : list bytes) (G rs : list Z) (C : Z) : Prop := {
  md_done : k_done kn = base ++ D;
  md_fly : Forall2 (fun e p => sqe_data w e = (fd, p)) (k_inflight kn) pk;
  md_all : same ord ((fst <$> D) ++ (pair fd <$> pk)) (pair fd <$> q);
  md_res : snd <$> D = G ++ rs;
  md_got : got = Z.of_nat (length G); md_fails : fails = negatives G;
  md_q : (length q <= 2 ^ k)%nat;
  md_cq : cq_ok kn w rs C
}.
Definition mid ord fd q base w kn got fails : Prop :=
  exists D pk G rs C, midrec ord fd q base w kn got fails D pk G rs C.

Lemma mid_count ord fd q base w kn got fails D pk G rs C : midrec ord fd q base w kn got fails D pk G rs C ->
  length q = (length G + length rs + length pk)%nat.
Proof.
  intros [_ _ H3 H4 _ _ _ _]. apply same_perm, Permutation_length in H3. apply (f_equal length) in H4.
  rewrite length_app, !length_fmap in H3. rewrite length_fmap, length_app in H4. lia.
Qed.

Lemma complete_mid ord fd q base w kn got fails i res D pk G rs C : (ord = true -> i = 0%nat) ->
  midrec ord fd q base w kn got fails D pk G rs C ->
  exists D' pk' rs', midrec ord fd q base w (complete w i res kn) got fails D' pk' G rs' C /\
    (i = 0%nat -> pk' = tail pk) /\ k_head (complete w i res kn) = k_head kn.
Proof.
  intros Hord Hm. pose proof (mid_count _ _ _ _ _ _ _ _ _ _ _ _ _ Hm) as Hc. destruct Hm as [H1 H2 H3 H4 H5 H6 H7 H8].
  pose proof room_n as Hroom. unfold complete. rewrite (cq_count _ _ _ _ H8). pose proof (co_len _ _ _ _ H8) as Hlen. rewrite Hlen.
  destruct (k_inflight kn !! i) as [e|] eqn:Ei; cycle 1.
  { assert (i = 0%nat -> pk = []) as Hnil.
    { intros ->. apply Forall2_length in H2. apply lookup_ge_None in Ei. destruct pk; cbn in *; [done|lia]. }
    exists D, pk, rs. destruct (_ <? _); (split; [done|split; [intros E; by rewrite Hnil|done]]). }
  destruct (Forall2_lookup_l _ _ _ _ _ H2 Ei) as (p & Ep & Hp). pose proof (lookup_lt_Some _ _ _ Ep) as Hi.
  rewrite (proj2 (Z.ltb_lt _ _)) by lia.
  exists (D ++ [((fd, p), res)]), (delete i pk), (rs ++ [res]).
  split; [|split; [intros ->; by destruct pk|done]].
  constructor; cbn [k_done k_inflight]; try done.
  - by rewrite H1, Hp, app_assoc.
  - by apply Forall2_delete.
  - rewrite fmap_app. cbn [fmap list_fmap fst]. destruct ord.
    + rewrite (Hord eq_refl) in *. destruct pk; [done|]. injection Ep as ->. cbn. cbn in H3. by rewrite <- app_assoc.
    + cbn in H3 |- *. rewrite <- H3, <- app_assoc. apply Permutation_app_head. symmetry. exact (fmap_Permutation (pair fd) _ _ (delete_Permutation pk i p Ep)).
  - rewrite fmap_app. cbn. by rewrite H4, app_assoc.
  - destruct H8 as [E1 E2 E3 E4 E5 E6].
    constructor; cbn [k_cqes k_cqTail]; rewrite ?length_insert, ?length_app; cbn [length]; try done; try lia.
    + rewrite E5, u32_idem_add. f_equal. lia.
    + intros j r Hj. rewrite E5. unfold N. rewrite (mod32 kc Hkc). change (Z.to_nat _) with (cslot (C + Z.of_nat (length rs))) at 1.
      apply lookup_app_Some in Hj as [Hj|[Hj' Hj]].
      * pose proof (lookup_lt_Some _ _ _ Hj). rewrite list_lookup_insert_ne; [by apply E6|]. apply not_eq_sym, (slot_ne kc Hkc); fold N; lia.
      * apply list_lookup_singleton_Some in Hj as [Hj <-]. replace j with (length rs) by lia. apply list_lookup_insert_eq.
        rewrite E1. apply (slot_lt kc Hkc).
Qed.

Lemma look_mid ord fd q base w kn got fails D pk G rs C : midrec ord fd q base w kn got fails D pk G rs C ->
  midrec ord fd q base (store_cqHead w (k_cqTail kn)) kn (u32 (got + Z.of_nat (length rs))) (fails + negatives rs)
    D pk (G ++ rs) [] (C + Z.of_nat (length rs)).
Proof.
  intros Hm. pose proof (mid_count _ _ _ _ _ _ _ _ _ _ _ _ _ Hm) as Hc. destruct Hm as [H1 H2 H3 H4 H5 H6 H7 H8].
  pose proof room_n. constructor; try done.
  - by rewrite app_nil_r.
  - rewrite u32_small, length_app by lia. lia.
  - by rewrite negatives_app, H6.
  - destruct H8 as [E1 E2 E3 E4 E5 E6]. constructor; cbn [length cqHeadMem store_cqHead]; try done; try lia. by rewrite Z.add_0_r.
Qed.
Definition in_order (evs : list uringEvent) : bool := forallb (fun e => match e with KComplete i _ => (i =? 0)%nat | KLook => true end) evs.

(** The loop stays within the flush, and ends only with [n] results seen. *)
Lemma reap_mid ord fd q base n evs : (ord = true -> in_order evs = true) -> forall w kn got fails f kn' w',
  mid ord fd q base w kn got fails -> reap n got fails evs kn w = Some (f, kn', w') ->
  exists got', n <= got' /\ mid ord fd q base w' kn' got' f /\ k_head kn' = k_head kn /\ w' = store_cqHead w (cqHeadMem w').
Proof.
  induction evs as [|e evs IH]; intros Hord w kn got fails f kn' w' Hm E; cbn [reap] in E;
    destruct (got <? n) eqn:Eg; try discriminate E; bool_hyps.
  1, 3: injection E as <- <- <-; exists got; split; [done|]; split; [done|]; split; [done|by destruct w].
  assert (Hord' : ord = true -> in_order evs = true) by (intros Ho; specialize (Hord Ho); cbn in Hord; apply andb_true_iff in Hord as [_ Hord]; exact Hord).
  destruct Hm as (D & pk & G & rs & C & Hm). destruct e as [i res|].
  - assert (Hi : ord = true -> i = 0%nat).
    { intros Ho. specialize (Hord Ho). cbn in Hord. apply andb_true_iff in Hord as [H _]. by apply Nat.eqb_eq. }
    destruct (complete_mid _ _ _ _ _ _ _ _ i res _ _ _ _ _ Hi Hm) as (D' & pk' & rs' & Hm' & _ & Eh).
    rewrite <- Eh. apply (IH Hord' _ _ _ _ _ _ _ (ex_intro _ D' (ex_intro _ pk' (ex_intro _ G (ex_intro _ rs' (ex_intro _ C Hm'))))) E).
  - destruct (cqHeadMem w =? k_cqTail kn).
    { apply (IH Hord' _ _ _ _ _ _ _ (ex_intro _ D (ex_intro _ pk (ex_intro _ G (ex_intro _ rs (ex_intro _ C Hm))))) E). }
    rewrite (cq_results_ok _ _ _ _ (md_cq _ _ _ _ _ _ _ _ _ _ _ _ _ Hm)) in E. apply look_mid in Hm.
    destruct (IH Hord' _ _ _ _ _ _ _ (ex_intro _ D (ex_intro _ pk (ex_intro _ (G ++ rs) (ex_intro _ [] (ex_intro _ _ Hm))))) E)
      as (got' & H1 & H2 & H3 & H4). exists got'. split; [done|]. split; [done|]. split; [done|]. by rewrite H4.
Qed.

(** A flush of which the kernel took fewer entries never ends. *)
Lemma reap_hangs fd q base n evs w kn got fails : Z.of_nat (length q) < n ->
  mid false fd q base w kn got fails -> reap n got fails evs kn w = None.
Proof.
  intros Hn Hm. destruct (reap n got fails evs kn w) as [[[f kn'] w']|] eqn:E; [|done].
  destruct (reap_mid false _ _ _ _ evs ltac:(done) _ _ _ _ _ _ _ Hm E) as (got' & Hg & (D & pk & G & rs & C & Hm') & _).
  pose proof (mid_count _ _ _ _ _ _ _ _ _ _ _ _ _ Hm'). rewrite (md_got _ _ _ _ _ _ _ _ _ _ _ _ _ Hm') in Hg. lia.
Qed.

(** One that took them all ends, once those in flight are carried out. *)
Lemma reap_finish fd q base w got fails pk : forall kn D G rs C,
  midrec false fd q base w kn got fails D pk G rs C ->
  is_Some (reap (Z.of_nat (length q)) got fails (replicate (length pk) (KComplete 0 0) ++ [KLook]) kn w).
Proof.
  induction pk as [|p pk IH]; intros kn D G rs C Hm; cbn [length replicate app reap];
    (destruct (got <? Z.of_nat (length q)) eqn:Eg; [|by eexists]); bool_hyps.
  - pose proof (mid_count _ _ _ _ _ _ _ _ _ _ _ _ _ Hm) as Hc. pose proof (md_got _ _ _ _ _ _ _ _ _ _ _ _ _ Hm) as Hg.
    pose proof (md_cq _ _ _ _ _ _ _ _ _ _ _ _ _ Hm) as Hcq. pose proof (cq_count _ _ _ _ Hcq) as Hcount.
    destruct (cqHeadMem w =? k_cqTail kn) eqn:Eh; bool_hyps.
    { rewrite Eh, Z.sub_diag in Hcount. change (u32 0) with 0 in Hcount. cbn in Hc. lia. }
    rewrite (cq_results_ok _ _ _ _ Hcq). pose proof room_n. pose proof (md_q _ _ _ _ _ _ _ _ _ _ _ _ _ Hm).
    rewrite u32_small by lia. cbn in Hc. rewrite (proj2 (Z.ltb_ge _ _)) by lia. by eexists.
  - destruct (complete_mid _ _ _ _ _ _ _ _ 0 0 _ _ _ _ _ ltac:(done) Hm) as (D' & pk' & rs' & Hm' & Epk & _).
    rewrite (Epk eq_refl) in Hm'. exact (IH _ _ _ _ _ Hm').
Qed.

Lemma reap_app n evs evs' : forall got fails kn w r, reap n got fails evs kn w = Some r -> reap n got fails (evs ++ evs') kn w = Some r.
Proof.
  induction evs as [|e evs IH]; intros got fails kn w r E; cbn [reap app] in *.
  - destruct (got <? n) eqn:Eg; [done|]. destruct evs'; cbn [reap]; by rewrite Eg.
  - destruct (got <? n); [|done]. destruct e; [by apply IH|]. destruct (_ =? _); by apply IH.
Qed.

Lemma reap_progress fd q base evs : forall w kn got fails, mid false fd q base w kn got fails ->
  exists evs', (length evs' <= length q + 1)%nat /\ is_Some (reap (Z.of_nat (length q)) got fails (evs ++ evs') kn w).
Proof.
  induction evs as [|e evs IH]; intros w kn got fails (D & pk & G & rs & C & Hm).
  { exists (replicate (length pk) (KComplete 0 0) ++ [KLook]). pose proof (mid_count _ _ _ _ _ _ _ _ _ _ _ _ _ Hm).
    split; [rewrite length_app, length_replicate; cbn; lia|]. by apply (reap_finish _ _ _ _ _ _ _ _ _ _ _ _ Hm). }
  cbn [app reap]. destruct (got <? Z.of_nat (length q)); [|exists []; split; [cbn; lia|by eexists]]. destruct e as [i res|].
  - destruct (complete_mid false _ _ _ _ _ _ _ i res _ _ _ _ _ ltac:(done) Hm) as (D' & pk' & rs' & Hm' & _). apply IH. by exists D', pk', G, rs', C.
  - destruct (_ =? _); [apply IH; by exists D, pk, G, rs, C|].
    rewrite (cq_results_ok _ _ _ _ (md_cq _ _ _ _ _ _ _ _ _ _ _ _ _ Hm)). apply IH. eexists _, _, _, _, _. by apply look_mid.
Qed.
End Reap.

(** ** The batch *)

Section Uring.
Variables k kc : nat.
Hypothesis Hkk : (k <= kc)%nat.
Hypothesis Hkc : (kc <= 15)%nat.
Let Hk : (k <= 15)%nat := Nat.le_trans _ _ _ Hkk Hkc.
Let n : nat := (2 ^ k)%nat.
Local Abbreviation slot := (slot k).

(** The entry at ring position [i] is complete and writes [p] to [fd]. *)
Definition uentry (w : uringWriter) (fd i : Z) (p : bytes) : Prop :=
  sqArray w !! slot i = Some (Z.of_nat (slot i)) /\
  sqes w !! slot i = Some {| sq_fd := fd; sq_addr := (slot i * maxFrame w)%nat; sq_len := Z.of_nat (length p); sq_userData := Z.of_nat (slot i) |} /\
  (length p <= maxFrame w)%nat /\ take (length p) (drop (slot i * maxFrame w) (arena w)) = p.

(** The request the kernel reads there. *)
Definition urequest (w : uringWriter) (fd i : Z) (p : bytes) : ioUringSQE :=
  {| sq_fd := fd; sq_addr := (slot i * maxFrame w)%nat; sq_len := Z.of_nat (length p); sq_userData := Z.of_nat (slot i) |}.

Lemma sq_read_uentry w fd i p : entries w = n -> uentry w fd i p ->
  sq_read w i = Some (urequest w fd i p) /\ sqe_data w (urequest w fd i p) = (fd, p).
Proof.
  intros Hn (H1 & H2 & _ & H3). unfold sq_read, sqe_data. rewrite Hn. change (Z.to_nat (i mod Z.of_nat n)) with (slot i).
  rewrite H1. cbn [mbind option_bind urequest sq_fd sq_len sq_addr]. by rewrite !Nat2Z.id, H2, H3.
Qed.

(** Writes that succeeded. *)
Definition written (d : list (Z * bytes * Z)) : Z := Z.of_nat (length d) - negatives (snd <$> d).

(** [T]: the entries consumed so far; [q]: the packets queued since. *)
Record uring_ok (fd : Z) (kn : kernel) (b : TunUringBatch) (T : Z) (q : list bytes) : Prop := {
  uo_fd : tu_fd b = fd; uo_mf : tu_maxFrame b = maxFrame (tu_w b);
  uo_n : entries (tu_w b) = n; uo_sqes : length (sqes (tu_w b)) = n; uo_array : length (sqArray (tu_w b)) = n;
  uo_arena : length (arena (tu_w b)) = (n * maxFrame (tu_w b))%nat;
  uo_T : 0 <= T; uo_cap : Z.of_nat (length q) <= Z.of_nat n;
  uo_head : k_head kn = u32 T; uo_mem : sqTailMem (tu_w b) = u32 T; uo_tail : utail (tu_w b) = u32 (T + Z.of_nat (length q));
  uo_queued : uqueued (tu_w b) = Z.of_nat (length q); uo_count : tu_queued b = Z.of_nat (length q);
  uo_entries j p : q !! j = Some p -> uentry (tu_w b) fd (T + Z.of_nat j) p;
  uo_fly : k_inflight kn = []; uo_cq : exists C, cq_ok kc kn (tu_w b) [] C;
  uo_writes : tunUringWrites b = written (k_done kn); uo_fails : tunUringFails b = negatives (snd <$> k_done kn)
}.

Lemma slot_tail T : Z.to_nat (Z.land (u32 T) (Z.of_nat n - 1)) = slot T.
Proof. unfold n. rewrite (land_n k Hk) by apply u32_range. by rewrite (mod32 k Hk). Qed.

Lemma uring_Submit_ok fd kn b T q pkt : uring_ok fd kn b T q -> (length q < n)%nat -> (length pkt <= maxFrame (tu_w b))%nat ->
  uring_ok fd kn {| tu_fd := tu_fd b; tu_w := uring_Submit (tu_w b) (tu_fd b) pkt; tu_maxFrame := tu_maxFrame b; tu_queued := tu_queued b + 1;
    tunUringWrites := tunUringWrites b; tunUringFails := tunUringFails b; tunUringDrops := tunUringDrops b |} T (q ++ [pkt]).
Proof.
  intros [H1 H2 H3 H4 H5 H6 H7 H8 H9 H10 H11 H12 H13 H14 H15 (C & H16) H17 H18] Hroom Hlen.
  pose proof (n_range k Hk) as Hr. fold n in Hr. set (A := T + Z.of_nat (length q)). pose proof (slot_lt k Hk A) as Hs. fold n in Hs.
  assert (Hsub : uring_Submit (tu_w b) (tu_fd b) pkt = {| entries := n; maxFrame := maxFrame (tu_w b);
    sqes := <[slot A := urequest (tu_w b) fd A pkt]> (sqes (tu_w b));
    sqArray := <[slot A := Z.of_nat (slot A)]> (sqArray (tu_w b)); arena := splice (arena (tu_w b)) (slot A * maxFrame (tu_w b)) pkt;
    sqTailMem := sqTailMem (tu_w b); cqHeadMem := cqHeadMem (tu_w b); utail := u32 (A + 1); uqueued := Z.of_nat (length q) + 1 |}).
  { unfold uring_Submit, urequest. rewrite H3, H11, slot_tail, H12, H1, H6. fold A. rewrite Nat.min_r by nia.
    rewrite u32_idem_add, (u32_small (Z.of_nat (length q) + 1)) by lia. done. }
  rewrite Hsub. constructor; cbn [tu_fd tu_w tu_maxFrame tu_queued entries maxFrame sqes sqArray arena sqTailMem cqHeadMem utail uqueued tunUringWrites tunUringFails];
    rewrite ?length_insert, ?length_app, ?Nat2Z.inj_add; cbn [length]; try done; try lia.
  - by rewrite splice_length by (rewrite H6; nia).
  - unfold A. f_equal. lia.
  - intros j p Hj. apply lookup_app_Some in Hj as [Hj|[Hj' Hj]].
    + destruct (H14 j p Hj) as (E1 & E2 & E3 & E4). apply lookup_lt_Some in Hj.
      assert (Hne : slot (T + Z.of_nat j) <> slot A) by (apply (slot_ne k Hk); unfold A; lia).
      unfold uentry. cbn [sqArray sqes arena maxFrame].
      split; [by rewrite list_lookup_insert_ne|]. split; [by rewrite list_lookup_insert_ne|]. split; [done|].
      pose proof (slot_lt k Hk (T + Z.of_nat j)). rewrite read_splice_ne; [done|rewrite H6; nia|nia].
    + apply list_lookup_singleton_Some in Hj as [Hj <-]. replace (T + Z.of_nat j) with A by (unfold A; lia).
      unfold uentry. cbn [sqArray sqes arena maxFrame].
      split; [by apply list_lookup_insert_eq; rewrite H5|]. split; [by apply list_lookup_insert_eq; rewrite H4|]. split; [done|].
      apply read_splice_eq. rewrite H6. nia.
  - exists C. by destruct H16.
Qed.

Lemma sq_read_wrap w i : entries w = n -> sq_read w (u32 i) = sq_read w i.
Proof. intros Hn. unfold sq_read. rewrite Hn. unfold n. by rewrite (mod32 k Hk). Qed.

(** What [io_uring_enter] leaves: the first [m] requests in flight. *)
Lemma enter_mid fd kn b T q m : uring_ok fd kn b T q ->
  let w := publish (tu_w b) in
  let l := Z.to_nat (Z.max 0 (Z.min m (Z.of_nat (length q)))) in
  k_head (enter w (Z.of_nat (length q)) m kn) = u32 (T + Z.of_nat l) /\
  forall ord, mid k kc ord fd (take l q) (k_done kn) w (enter w (Z.of_nat (length q)) m kn) 0 0.
Proof.
  intros [H1 H2 H3 H4 H5 H6 H7 H8 H9 H10 H11 H12 H13 H14 H15 (C & H16) H17 H18] w l.
  pose proof (n_range k Hk) as Hn. fold n in Hn.
  assert (Hm : Z.max 0 (Z.min m (Z.min (Z.of_nat (length q)) (u32 (sqTailMem w - k_head kn)))) = Z.of_nat l).
  { unfold l, w. cbn [sqTailMem publish]. rewrite H11, H9. unfold u32. rewrite <- Zminus_mod, Z.mod_small; lia. }
  unfold enter. rewrite Hm, H9, u32_idem_add, Nat2Z.id, H15. split; [done|]. intros ord.
  exists [], (take l q), [], [], C. assert (Hl : length (take l q) = l) by (rewrite length_take; unfold l; lia).
  constructor; cbn [k_done k_inflight]; try done; try (rewrite Hl; unfold l, n in *; lia).
  - by rewrite app_nil_r.
  - cbn [app]. replace (seq 0 l) with (seq 0 (length (take l q))) by (by rewrite Hl).
    assert (Hread : forall j p, take l q !! j = Some p ->
        sq_read w (u32 T + Z.of_nat j) = Some (urequest w fd (T + Z.of_nat j) p) /\ sqe_data w (urequest w fd (T + Z.of_nat j) p) = (fd, p)).
    { intros j p Hj. apply lookup_take_Some in Hj as [Hj _]. rewrite <- (sq_read_wrap w) by done. rewrite u32_idem_add, sq_read_wrap by done.
      by apply sq_read_uentry, H14. }
    clear Hl Hm. revert Hread. generalize (take l q) as r. intros r. induction r as [|p r IH] using rev_ind; intros Hread; [constructor|].
    rewrite length_app, Nat.add_1_r, seq_S, omap_app. apply Forall2_app.
    + apply IH. intros j p' Hj. apply Hread. by apply lookup_app_l_Some.
    + destruct (Hread (length r) p (list_lookup_middle _ _ _ _ eq_refl)) as [E1 E2]. cbn [Nat.add omap list_omap]. rewrite E1.
      by constructor.
  - by apply same_refl.
  - destruct H16. by constructor.
Qed.

Lemma Flush_reap fd kn b T q m evs : uring_ok fd kn b T q -> q <> [] ->
  TunUring_Flush (EnterTakes m evs) kn b =
    '(fails, kn', w) ← reap (Z.of_nat (length q)) 0 0 evs (enter (publish (tu_w b)) (Z.of_nat (length q)) m kn) (publish (tu_w b));
    Some (kn', {| tu_fd := tu_fd b; tu_w := reset_queued w; tu_maxFrame := tu_maxFrame b; tu_queued := 0;
      tunUringWrites := tunUringWrites b + (Z.of_nat (length q) - fails);
      tunUringFails := (if 0 <? fails then tunUringFails b + fails else tunUringFails b); tunUringDrops := tunUringDrops b |}).
Proof.
  intros Hok Hq. unfold TunUring_Flush, uring_Flush. rewrite (uo_count _ _ _ _ _ Hok), (uo_queued _ _ _ _ _ Hok).
  rewrite (proj2 (Z.eqb_neq _ 0)) by (destruct q; cbn; [done|lia]). by destruct (reap _ _ _ _ _ _) as [[[f kn'] w']|].
Qed.

Lemma uring_short fd kn b T q m evs : uring_ok fd kn b T q -> m < Z.of_nat (length q) -> q <> [] ->
  TunUring_Flush (EnterTakes m evs) kn b = None.
Proof.
  intros Hok Hm Hq. rewrite (Flush_reap _ _ _ _ _ _ _ Hok Hq). destruct (enter_mid _ _ _ _ _ m Hok) as [_ Hmid].
  erewrite (reap_hangs k kc Hkk Hkc); [done| |exact (Hmid false)].
  assert (length q <> 0%nat) by by destruct q. rewrite length_take. lia.
Qed.

Lemma uring_Flush_ok ord fd kn b T q m evs kn' b' : uring_ok fd kn b T q -> (ord = true -> in_order evs = true) ->
  TunUring_Flush (EnterTakes m evs) kn b = Some (kn', b') ->
  exists T' D, uring_ok fd kn' b' T' [] /\ k_done kn' = k_done kn ++ D /\ same ord (fst <$> D) (pair fd <$> q) /\
    maxFrame (tu_w b') = maxFrame (tu_w b).
Proof.
  intros Hok Hord E. destruct (decide (q = [])) as [->|Hq].
  { unfold TunUring_Flush in E. rewrite (uo_count _ _ _ _ _ Hok) in E. injection E as <- <-. exists T, [].
    split; [done|]. split; [by rewrite app_nil_r|]. split; [by destruct ord|done]. }
  destruct (Z.lt_ge_cases m (Z.of_nat (length q))) as [Hm|Hm]; [by rewrite (uring_short _ _ _ _ _ _ _ Hok Hm Hq) in E|].
  rewrite (Flush_reap _ _ _ _ _ _ _ Hok Hq) in E. destruct (enter_mid _ _ _ _ _ m Hok) as [Eh Hmid]. specialize (Hmid ord).
  rewrite Z.min_r, Z.max_r, Nat2Z.id in Eh, Hmid by lia. rewrite firstn_all in Hmid.
  destruct (reap _ _ _ _ _ _) as [[[f kn1] w1]|] eqn:Er; [|done]. injection E as <- <-.
  destruct (reap_mid k kc Hkk Hkc ord fd q _ _ evs Hord _ _ _ _ _ _ _ Hmid Er) as (got & Hg & (D & pk & G & rs & C & Hmd) & Eh1 & Ew).
  pose proof Hmd as Hc. apply mid_count in Hc; [|done..]. destruct Hmd as [M1 M2 M3 M4 M5 M6 M7 M8].
  assert (pk = []) as -> by (destruct pk; cbn in *; [done|lia]). assert (rs = []) as -> by (destruct rs; cbn in *; [done|lia]).
  cbn [fmap list_fmap] in M3. rewrite app_nil_r in M3, M4. exists (T + Z.of_nat (length q)), D. split; [|split; [done|split; [done|by rewrite Ew]]].
  pose proof Hok as [H1 H2 H3 H4 H5 H6 H7 H8 H9 H10 H11 H12 H13 H14 H15 H16 H17 H18].
  assert (Hf : tunUringFails b + f = negatives (snd <$> k_done kn1)) by (rewrite M1, fmap_app, negatives_app, M4, <- M6; lia).
  assert (Hlen : length D = length q) by (apply (f_equal length) in M4; rewrite length_fmap in M4; lia).
  rewrite Ew. constructor; cbn [tu_fd tu_w tu_maxFrame tu_queued tunUringWrites tunUringFails length]; try done; try lia; try (by rewrite Eh1).
  - rewrite Z.add_0_r. exact H11.
  - inversion M2. done.
  - exists C. rewrite Ew in M8. by destruct M8.
  - rewrite H17. unfold written. rewrite <- Hf, H18, M1, length_app. lia.
  - rewrite <- Hf. destruct (0 <? f) eqn:Ef; [done|]. bool_hyps. pose proof (negatives_range G). lia.
Qed.

Lemma uring_Flush_progress fd kn b T q evs : uring_ok fd kn b T q ->
  exists evs' kn' b', (length evs' <= n + 1)%nat /\ TunUring_Flush (EnterTakes (tu_queued b) (evs ++ evs')) kn b = Some (kn', b') /\
    TunUring_Empty b' = true.
Proof.
  intros Hok. destruct (decide (q = [])) as [->|Hq].
  { exists [], kn, b. unfold TunUring_Flush, TunUring_Empty. rewrite (uo_count _ _ _ _ _ Hok). split; [cbn; lia|]. done. }
  rewrite (uo_count _ _ _ _ _ Hok). destruct (enter_mid _ _ _ _ _ (Z.of_nat (length q)) Hok) as [_ Hmid]. specialize (Hmid false).
  rewrite Z.min_id, Z.max_r, Nat2Z.id, firstn_all in Hmid by lia.
  destruct (reap_progress k kc Hkk Hkc _ _ _ evs _ _ _ _ Hmid) as (evs' & Hl & [[f kn1] w1] & Er).
  pose proof (uo_cap _ _ _ _ _ Hok). exists evs'. rewrite (Flush_reap _ _ _ _ _ _ _ Hok Hq), Er. eexists _, _. split; [lia|]. done.
Qed.

Definition op_enters (o : uringOp) : bool := match o with UAdd _ (EnterTakes _ _) | UFlush (EnterTakes _ _) => true | _ => false end.
Definition op_in_order (o : uringOp) : bool := match o with UAdd _ (EnterTakes _ evs) | UFlush (EnterTakes _ evs) => in_order evs | _ => true end.
Definition op_accepts (mf : nat) (o : uringOp) : list bytes :=
  match o with UAdd pkt _ => if (length pkt <=? mf)%nat then [pkt] else [] | UFlush _ => [] end.

(** Batches [bs] were carried out, one after the other, as [d] records. *)
Definition carried (ord : bool) (fd : Z) (bs : list (list bytes)) (d : list (Z * bytes * Z)) : Prop :=
  exists ds, d = mjoin ds /\ Forall2 (fun D q => same ord (fst <$> D) (pair fd <$> q) /\ (length q <= n)%nat) ds bs.
Lemma carried_snoc ord fd bs d q D : carried ord fd bs d -> same ord (fst <$> D) (pair fd <$> q) -> (length q <= n)%nat ->
  carried ord fd (bs ++ [q]) (d ++ D).
Proof.
  intros (ds & -> & H) HD Hq. exists (ds ++ [D]). split; [by rewrite join_app; cbn; rewrite app_nil_r|]. apply Forall2_app; [done|].
  by constructor.
Qed.

Lemma uring_op_ok ord fd kn b T q bs o kn' b' : uring_ok fd kn b T q -> carried ord fd bs (k_done kn) ->
  op_enters o = true -> (ord = true -> op_in_order o = true) -> uring_op (kn, b) o = Some (kn', b') ->
  exists T' q' bs', uring_ok fd kn' b' T' q' /\ carried ord fd bs' (k_done kn') /\ maxFrame (tu_w b') = maxFrame (tu_w b) /\
    mjoin bs' ++ q' = mjoin bs ++ q ++ op_accepts (maxFrame (tu_w b)) o.
Proof.
  intros Hok Hc He Hord E. pose proof (uo_cap _ _ _ _ _ Hok) as Hcap. destruct o as [pkt [|m evs]|[|m evs]]; try discriminate He; cbn [uring_op fst snd op_accepts op_in_order] in *.
  - unfold TunUring_Add in E. rewrite (uo_mf _ _ _ _ _ Hok) in E. destruct (maxFrame (tu_w b) <? length pkt)%nat eqn:Em; bool_hyps.
    { rewrite (proj2 (Nat.leb_gt _ _)) by done. injection E as <- <-. exists T, q, bs. rewrite app_nil_r. split; [by destruct Hok|done]. }
    rewrite (proj2 (Nat.leb_le _ _)) by done. unfold uring_Full in E. rewrite (uo_n _ _ _ _ _ Hok), (uo_queued _ _ _ _ _ Hok) in E.
    destruct (Z.of_nat n <=? Z.of_nat (length q)) eqn:Ef; bool_hyps.
    + destruct (TunUring_Flush _ kn b) as [[kn1 b1]|] eqn:EF; [|done]. cbn [mbind option_bind] in E. injection E as <- <-.
      destruct (uring_Flush_ok ord _ _ _ _ _ _ _ _ _ Hok Hord EF) as (T1 & D & Hok1 & Ed & HD & Emf).
      exists T1, [pkt], (bs ++ [q]). split; [apply (uring_Submit_ok _ _ _ _ []); [done|cbn; pose proof (n_range k Hk) as Hn; fold n in Hn; lia|by rewrite Emf]|].
      rewrite Ed. split; [by apply carried_snoc; [..|lia]|]. split; [done|]. rewrite join_app. cbn. by rewrite app_nil_r, <- app_assoc.
    + cbn [mbind option_bind] in E. injection E as <- <-. exists T, (q ++ [pkt]), bs.
      split; [apply uring_Submit_ok; [done|lia|done]|]. split; [done|]. split; [done|]. done.
  - destruct (uring_Flush_ok ord _ _ _ _ _ _ _ _ _ Hok Hord E) as (T1 & D & Hok1 & Ed & HD & Emf).
    exists T1, [], (bs ++ [q]). split; [done|]. rewrite Ed. split; [by apply carried_snoc; [..|lia]|]. split; [done|].
    rewrite join_app. cbn. by rewrite !app_nil_r.
Qed.

Lemma uring_run_ok ord fd ops : forall kn b T q bs kn' b', uring_ok fd kn b T q -> carried ord fd bs (k_done kn) ->
  forallb op_enters ops = true -> (ord = true -> forallb op_in_order ops = true) -> uring_run (kn, b) ops = Some (kn', b') ->
  exists T' q' bs', uring_ok fd kn' b' T' q' /\ carried ord fd bs' (k_done kn') /\
    mjoin bs' ++ q' = mjoin bs ++ q ++ mjoin (op_accepts (maxFrame (tu_w b)) <$> ops).
Proof.
  induction ops as [|o ops IH]; intros kn b T q bs kn' b' Hok Hc He Hord E; cbn [uring_run] in E.
  { injection E as <- <-. exists T, q, bs. cbn. by rewrite app_nil_r. }
  cbn [forallb] in He. apply andb_true_iff in He as [Ho He].
  assert (Hord1 : ord = true -> op_in_order o = true /\ forallb op_in_order ops = true).
  { intros Hw. specialize (Hord Hw). cbn [forallb] in Hord. by apply andb_true_iff in Hord. }
  destruct (uring_op _ o) as [[kn1 b1]|] eqn:E1; [|done]. cbn [mbind option_bind] in E.
  destruct (uring_op_ok ord _ _ _ _ _ bs _ _ _ Hok Hc Ho (fun w => proj1 (Hord1 w)) E1) as (T1 & q1 & bs1 & Hok1 & Hc1 & Emf & Eq).
  destruct (IH _ _ _ _ _ _ _ Hok1 Hc1 He (fun w => proj2 (Hord1 w)) E) as (T2 & q2 & bs2 & Hok2 & Hc2 & Eq2).
  exists T2, q2, bs2. split; [done|]. split; [done|]. rewrite Eq2, Emf, app_assoc, Eq. cbn [fmap list_fmap mjoin list_join]. by rewrite <- !app_assoc.
Qed.

Lemma uring_init fd mf : uring_ok fd (kernel_init (2 ^ kc)) (NewTunUringBatch fd (2 ^ k) mf) 0 [].
Proof.
  pose proof (n_range k Hk). pose proof (n_range kc Hkc). constructor; cbn; rewrite ?length_replicate; try done; try lia.
  exists 0. constructor; cbn; rewrite ?length_replicate; try done; lia.
Qed.
End Uring.

Lemma Add_of_Flush ans kn b pkt : is_Some (TunUring_Flush ans kn b) -> is_Some (TunUring_Add ans kn b pkt).
Proof.
  intros [[kn' b'] E]. unfold TunUring_Add. destruct (_ <? _)%nat; [by eexists|]. destruct (uring_Full _); [rewrite E|]; by eexists.
Qed.

(** C11.  The io_uring batch, for rings of up to 2^15 entries and whatever
    completions the kernel delivers and when:
    if every [io_uring_enter] of a run succeeds and every flush returns, the
    packets of at most [maxFrame] bytes are in groups, one per flush and each
    within the ring, followed by those still queued; the kernel has carried out
    one group after the other, every packet of a group once and intact, in some
    order, and in the order they were added when it takes the requests in the
    order of submission; and the counters agree with the results.  A flush of
    which the kernel takes every entry cannot get stuck: whatever has happened
    since, at most one completion per queued packet and one turn of the loop
    bring it to its end, with nothing queued.  The indices of both rings wrap. *)
Theorem uring_batch_fifo k kc fd mf ops kn b : (k <= kc)%nat -> (kc <= 15)%nat -> forallb op_enters ops = true ->
  uring_run (kernel_init (2 ^ kc), NewTunUringBatch fd (2 ^ k) mf) ops = Some (kn, b) ->
  exists groups dones queued,
    mjoin groups ++ queued = mjoin (op_accepts mf <$> ops) /\
    k_done kn = mjoin dones /\
    Forall2 (fun D q => (fst <$> D) ≡ₚ (pair fd <$> q) /\ (length q <= 2 ^ k)%nat) dones groups /\
    (forallb op_in_order ops = true -> fst <$> k_done kn = pair fd <$> mjoin groups) /\
    tunUringFails b = negatives (snd <$> k_done kn) /\ tunUringWrites b = Z.of_nat (length (k_done kn)) - tunUringFails b /\
    tu_queued b = Z.of_nat (length queued) /\ (length queued <= 2 ^ k)%nat /\
    (forall evs, exists evs' kn' b', (length evs' <= 2 ^ k + 1)%nat /\
       TunUring_Flush (EnterTakes (tu_queued b) (evs ++ evs')) kn b = Some (kn', b') /\ TunUring_Empty b' = true /\
       (forall pkt, is_Some (TunUring_Add (EnterTakes (tu_queued b) (evs ++ evs')) kn b pkt))).
Proof.
  intros Hkk Hkc He E. set (ord := forallb op_in_order ops).
  destruct (uring_run_ok k kc Hkk Hkc ord fd ops _ _ 0 [] [] kn b (uring_init k kc Hkk Hkc fd mf)) as (T & q & bs & Hok & (ds & Ed & Hds) & Eq);
    [by exists []|done|done|done|]. cbn [app mjoin list_join tu_w NewTunUringBatch newUringWriter maxFrame] in Eq.
  exists bs, ds, q. split; [exact Eq|]. split; [exact Ed|]. split; [|split].
  - eapply Forall2_impl; [exact Hds|]. intros D p [H1 H2]. by split; [apply (same_perm ord)|].
  - intros Hord. fold ord in Hord. rewrite Hord in Hds. rewrite Ed. clear -Hds.
    induction Hds as [|D p ds bs [H1 _] _ IH]; [done|]. cbn in H1. change (mjoin (D :: ds)) with (D ++ mjoin ds).
    change (mjoin (p :: bs)) with (p ++ mjoin bs). by rewrite !fmap_app, H1, IH.
  - pose proof (uo_cap _ _ _ _ _ _ _ Hok). split; [by apply (uo_fails _ _ _ _ _ _ _ Hok)|].
    rewrite (uo_fails _ _ _ _ _ _ _ Hok). split; [by apply (uo_writes _ _ _ _ _ _ _ Hok)|].
    split; [by apply (uo_count _ _ _ _ _ _ _ Hok)|]. split; [lia|]. intros evs.
    destruct (uring_Flush_progress k kc Hkk Hkc _ _ _ _ _ evs Hok) as (evs' & kn' & b' & Hl & EF & Hempty).
    exists evs', kn', b'. split; [done|]. split; [done|]. split; [done|]. intros pkt. apply Add_of_Flush. by rewrite EF.
Qed.

Lemma uring_batch_fifo_witness :
  let look := [KLook; KComplete 1 2; KLook; KComplete 0 1; KLook] in
  let ops := [UAdd [1] (EnterTakes 0 []); UAdd [2; 2] (EnterTakes 0 []); UAdd [3] (EnterTakes 2 look); UAdd [1; 2; 3; 4; 5] (EnterTakes 0 [])] in
  exists kn b, uring_run (kernel_init 4, NewTunUringBatch 7 2 4) ops = Some (kn, b) /\
    k_done kn = [(7, [2; 2], 2); (7, [1], 1)] /\ tunUringWrites b = 2 /\ tu_queued b = 1.
Proof.
  intros look ops. destruct (uring_run (kernel_init 4, NewTunUringBatch 7 2 4) ops) as [[kn b]|] eqn:E; [|vm_compute in E; discriminate E].
  destruct (uring_batch_fifo 1 2 7 4 ops kn b ltac:(lia) ltac:(lia) eq_refl E) as (gs & ds & q & _).
  exists kn, b. split; [reflexivity|]. vm_compute in E. injection E as <- <-. repeat split.
Defined.

(** A submission may be short: [io_uring_enter] then reports fewer entries
    than it was asked for.  [Flush] ignores the count and waits for one
    completion per queued packet, so it never returns, whatever the kernel
    completes. *)
Theorem uring_short_submit_hangs k kc fd mf ops kn b m evs : (k <= kc)%nat -> (kc <= 15)%nat -> forallb op_enters ops = true ->
  uring_run (kernel_init (2 ^ kc), NewTunUringBatch fd (2 ^ k) mf) ops = Some (kn, b) ->
  0 < tu_queued b -> m < tu_queued b -> TunUring_Flush (EnterTakes m evs) kn b = None.
Proof.
  intros Hkk Hkc He E Hq Hm.
  destruct (uring_run_ok k kc Hkk Hkc false fd ops _ _ 0 [] [] kn b (uring_init k kc Hkk Hkc fd mf)) as (T & q & bs & Hok & _);
    [by exists []|done|done|done|]. rewrite (uo_count _ _ _ _ _ _ _ Hok) in Hq, Hm.
  apply (uring_short k kc Hkk Hkc _ _ _ _ _ _ _ Hok Hm). by destruct q.
Qed.

(** Nothing in the entries links them, so the order in which packets reach the
    device is the kernel's: two packets of a batch can be exchanged. *)
Theorem uring_batch_reorders :
  exists kn b, uring_run (kernel_init 4, NewTunUringBatch 7 2 4)
      [UAdd [1] EnterFails; UAdd [2] EnterFails; UFlush (EnterTakes 2 [KComplete 1 1; KComplete 0 1; KLook])] = Some (kn, b) /\
    (fst <$> k_done kn) = [(7, [2]); (7, [1])] /\ tunUringWrites b = 2.
Proof. eexists _, _. split; [vm_compute; reflexivity|]. done. Qed.

(** After a failed [io_uring_enter] the batch is out of step.  [Flush]
    publishes the tail before the call and forgets the queue when it fails,
    counting all of it as failed; but the entries stay in the ring, so the next
    successful flush sends a packet already counted as lost, counts the new one
    as written, and leaves that one behind. *)
Theorem uring_failed_enter_lag :
  exists kn b, uring_run (kernel_init 8, NewTunUringBatch 7 4 8)
      [UAdd [1] EnterFails; UAdd [2] EnterFails; UFlush EnterFails; UAdd [3] EnterFails;
       UFlush (EnterTakes 1 [KComplete 0 1; KLook])] = Some (kn, b) /\
    tunUringFails b = 2 /\ tunUringWrites b = 1 /\ tu_queued b = 0 /\ k_done kn = [(7, [1], 1)].
Proof. eexists _, _. split; [vm_compute; reflexivity|]. repeat split. Qed.
