(* ===== verification/Device.v ===== *)
(** * Making and closing the egress devices (utility/vhost.go, tun_vhost.go,
    uring.go, tun_uring.go, tun_napi.go, packet_tx.go, socket.go, forward_batch.go)

    The system calls of the constructors, in order, with the clean-up of every
    error path.  The process is the set of open descriptors and mappings and the
    package's globals; [ans] says which calls succeed.  Contents of the rings
    are in Vring and Uring. *)
From S2P Require Import Prelude Words Vring Egress.
Local Open Scope Z_scope.
Local Open Scope masqued_scope.

(** ** The process *)

Inductive kernelReq :=
  | SetOwner | GetFeatures | SetFeatures (f : Z) | SetMemTable (gpa size uaddr : Z)
  | SetVringNum (n : Z) | SetVringBase (b : Z) | SetVringAddr (desc avail used : Z)
  | SetVringKick (fd : nat) | SetVringCall (fd : nat) | SetBackend (fd : Z)
  | TunSetIff (name : string) (flags : Z) | TunSetVnetHdrSz (n : Z) | SetHwAddr (name : string) (mac : list Z)
  | SetFlagsUp (name : string).

Inductive syscall :=
  | COpen (path : string) | CEventfd | CSocket | CBind (fd : nat) | CSetsockopt (fd : nat)
  | CIoctl (fd : nat) (r : kernelReq) | CMmap (size : Z) | CUringSetup (entries : Z)
  | CWriteProc (path val : string).

(** The vhost writer's descriptors; [vf_arena] is its mapping. *)
Record vhostFds := { vf_vhost : nat; vf_tun : Z; vf_kick : nat; vf_call : nat; vf_arena : option nat }.

(** A [sync.Once] with what it produced: the outer [None] is not run yet. *)
Record world := {
  w_fds : gset nat; w_maps : gset nat; w_next : nat;
  w_trace : list syscall;
  vhostTun : option nat;                       (* vhostTunFd, None for -1 *)
  vhostOnce : option (option vhostFds);        (* vhostWriter, None for vhostErr *)
  napiOnce : option (option nat)               (* napiTunFd, None for napiTunErr *)
}.

Definition Sys (A : Type) := world -> option A * world.
Definition sret {A} (a : A) : Sys A := fun w => (Some a, w).
Definition sfail {A} : Sys A := fun w => (None, w).
Global Instance sys_bind : MBind Sys := fun A B k m w =>
  match m w with (Some a, w) => k a w | (None, w) => (None, w) end.
(** [cleanup] runs when [m] fails. *)
Definition on_error {A} (m : Sys A) (cleanup : Sys unit) : Sys A :=
  fun w => match m w with (Some a, w) => (Some a, w) | (None, w) => (None, (cleanup w).2) end.
(** [defer]: [cleanup] runs in any case. *)
Definition deferring {A} (m : Sys A) (cleanup : Sys unit) : Sys A :=
  fun w => let '(r, w) := m w in (r, (cleanup w).2).
Section Calls.
(** The answer to the [n]-th call of the process. *)
Context (ans : nat -> bool).

Definition upd (w : world) fds maps next c : world :=
  Build_world fds maps next (w_trace w ++ [c]) (vhostTun w) (vhostOnce w) (napiOnce w).
Definition answer (w : world) : bool := ans (length (w_trace w)).

Definition sys_call (c : syscall) : Sys unit := fun w =>
  (if answer w then Some tt else None, upd w (w_fds w) (w_maps w) (w_next w) c).
Definition sys_open (c : syscall) : Sys nat := fun w =>
  if answer w then (Some (w_next w), upd w ({[w_next w]} ∪ w_fds w) (w_maps w) (S (w_next w)) c)
  else (None, upd w (w_fds w) (w_maps w) (w_next w) c).
Definition sys_mmap (size : Z) : Sys nat := fun w =>
  if answer w then (Some (w_next w), upd w (w_fds w) ({[w_next w]} ∪ w_maps w) (S (w_next w)) (CMmap size))
  else (None, upd w (w_fds w) (w_maps w) (w_next w) (CMmap size)).
Definition set_fds (f : gset nat -> gset nat) : Sys unit := fun w =>
  (Some tt, Build_world (f (w_fds w)) (w_maps w) (w_next w) (w_trace w) (vhostTun w) (vhostOnce w) (napiOnce w)).
Definition sys_close (fd : nat) : Sys unit := set_fds (fun fds => fds ∖ {[fd]}).
Definition sys_munmap (m : nat) : Sys unit := fun w =>
  (Some tt, Build_world (w_fds w) (w_maps w ∖ {[m]}) (w_next w) (w_trace w) (vhostTun w) (vhostOnce w) (napiOnce w)).
Definition ioctl (fd : nat) (r : kernelReq) : Sys unit := sys_call (CIoctl fd r).
(** A call whose result is ignored. *)
Definition ignoring (m : Sys unit) : Sys unit := fun w => (Some tt, (m w).2).

(** ** Sockets *)

Definition NewSocketBatch_fd : Sys nat :=
  fd ← sys_open CSocket;
  on_error (sys_call (CSetsockopt fd)) (sys_close fd) ;;
  sret fd.

Definition NewPacketBatch_fd : Sys nat :=
  fd ← sys_open CSocket;
  on_error (sys_call (CBind fd)) (sys_close fd) ;;
  ignoring (sys_call (CSetsockopt fd)) ;;
  sret fd.

Definition setIfaceUp (name : string) : Sys unit :=
  s ← sys_open CSocket; deferring (ioctl s (SetFlagsUp name)) (sys_close s).
Definition setIfaceMAC (name : string) (mac : list Z) : Sys unit :=
  s ← sys_open CSocket; deferring (ioctl s (SetHwAddr name mac)) (sys_close s).

Definition writeProc (path val : string) : Sys unit := ignoring (sys_call (CWriteProc path val)).
(** The four settings both devices make. *)
Definition writeProcs (name : string) : Sys unit :=
  writeProc "/proc/sys/net/ipv4/ip_forward" "1" ;;
  writeProc ("/proc/sys/net/ipv4/conf/" +:+ name +:+ "/accept_local") "1" ;;
  writeProc ("/proc/sys/net/ipv4/conf/" +:+ name +:+ "/rp_filter") "0" ;;
  writeProc "/proc/sys/net/ipv4/conf/all/accept_local" "1".

(** ** The TUN and TAP devices *)

Definition IFF_TUN : Z := 1.
Definition IFF_TAP : Z := 2.
Definition iffNapi : Z := 16.
Definition IFF_NO_PI : Z := 4096.
Definition iffVnetHdr : Z := 16384.

Definition napiTunName : string := "tmnapi0".
Definition vhostTunName : string := "tmvhost0".
Definition vhostTunMAC : list Z := [2; 0; 0; 0; 171; 205].

Definition set_napi (r : option nat) : Sys unit := fun w =>
  (Some tt, Build_world (w_fds w) (w_maps w) (w_next w) (w_trace w) (vhostTun w) (vhostOnce w) (Some r)).
Definition set_vhostTun (fd : nat) : Sys unit := fun w =>
  (Some tt, Build_world (w_fds w) (w_maps w) (w_next w) (w_trace w) (Some fd) (vhostOnce w) (napiOnce w)).
Definition set_vhost (r : option vhostFds) : Sys unit := fun w =>
  (Some tt, Build_world (w_fds w) (w_maps w) (w_next w) (w_trace w) (vhostTun w) (Some r) (napiOnce w)).

Definition createNapiTun : Sys nat :=
  fd ← sys_open (COpen "/dev/net/tun");
  on_error (ioctl fd (TunSetIff napiTunName (Z.lor (Z.lor IFF_TUN IFF_NO_PI) iffNapi))) (sys_close fd) ;;
  on_error (setIfaceUp napiTunName) (sys_close fd) ;;
  writeProcs napiTunName ;;
  sret fd.
Definition napi_once : Sys nat := fun w =>
  match napiOnce w with
  | Some r => (r, w)
  | None => match createNapiTun w with (r, w) => (r, (set_napi r w).2) end
  end.

Definition createVhostTun : Sys nat :=
  fd ← sys_open (COpen "/dev/net/tun");
  on_error (ioctl fd (TunSetIff vhostTunName (Z.lor (Z.lor (Z.lor IFF_TAP IFF_NO_PI) iffVnetHdr) iffNapi))) (sys_close fd) ;;
  on_error (ioctl fd (TunSetVnetHdrSz (Z.of_nat vnetHdrV1Len))) (sys_close fd) ;;
  on_error (setIfaceMAC vhostTunName vhostTunMAC) (sys_close fd) ;;
  on_error (setIfaceUp vhostTunName) (sys_close fd) ;;
  writeProcs vhostTunName ;;
  set_vhostTun fd ;;
  sret fd.

(** ** The vhost writer *)

(** The features the kernel offers, and the address of a mapping. *)
Context (offered : Z) (addr_of : nat -> Z).

Definition wanted : Z := Z.lor (Z.shiftl 1 32) (Z.shiftl 1 27).
Definition setup_requests (w : vhostFds) (arena : nat) (n bufSize : Z) : list kernelReq :=
  let l := layoutArena n bufSize in
  let base := addr_of arena in
  [SetOwner; GetFeatures; SetFeatures (Z.land offered wanted); SetMemTable base (total l) base;
   SetVringNum n; SetVringBase 0; SetVringAddr base (base + availOff l) (base + usedOff l);
   SetVringKick (vf_kick w); SetVringCall (vf_call w); SetBackend (vf_tun w)].
Fixpoint ioctls (fd : nat) (rs : list kernelReq) : Sys unit :=
  match rs with
  | [] => sret tt
  | r :: rs => ioctl fd r ;; ioctls fd rs
  end.

Definition vhost_Close (w : vhostFds) : Sys unit :=
  (if 0 <=? vf_tun w then ignoring (ioctl (vf_vhost w) (SetBackend (-1))) else sret tt) ;;
  (match vf_arena w with Some a => sys_munmap a | None => sret tt end) ;;
  (if (0 <? vf_kick w)%nat then sys_close (vf_kick w) else sret tt) ;;
  (if (0 <? vf_call w)%nat then sys_close (vf_call w) else sret tt) ;;
  sys_close (vf_vhost w).

Definition newVhostWriter (tunFd : Z) (entries bufSize : Z) : Sys vhostFds :=
  if negb (entries_ok entries) then sfail
  else
    vfd ← sys_open (COpen "/dev/vhost-net");
    kfd ← on_error (sys_open CEventfd) (sys_close vfd);
    cfd ← on_error (sys_open CEventfd) (sys_close vfd ;; sys_close kfd);
    let w := {| vf_vhost := vfd; vf_tun := tunFd; vf_kick := kfd; vf_call := cfd; vf_arena := None |} in
    arena ← on_error (sys_mmap (total (layoutArena entries bufSize))) (vhost_Close w);
    let w := {| vf_vhost := vfd; vf_tun := tunFd; vf_kick := kfd; vf_call := cfd; vf_arena := Some arena |} in
    on_error (ioctls vfd (setup_requests w arena entries bufSize)) (vhost_Close w) ;;
    sret w.

Definition initVhost : Sys vhostFds :=
  fd ← createVhostTun; newVhostWriter (Z.of_nat fd) 256 4096.
Definition vhost_once : Sys vhostFds := fun w =>
  match vhostOnce w with
  | Some r => (r, w)
  | None => match initVhost w with (r, w) => (r, (set_vhost r w).2) end
  end.

(** ** The io_uring writer *)

Record uringParams := {
  up_sqEntries : Z; up_cqEntries : Z; up_sqArray : Z; up_cqes : Z; up_singleMmap : bool
}.
Context (params : uringParams).

(** [uf_cq] is [None] when the completion ring is the submission ring's mapping. *)
Record uringFds := { uf_ring : nat; uf_sq : nat; uf_cq : option nat; uf_sqes : nat }.

Definition sq_size : Z := u32 (up_sqArray params + up_sqEntries params * 4).
Definition cq_size : Z := u32 (up_cqes params + up_cqEntries params * 16).
Definition uringDepth : Z := 512.
Definition newUringFds (entries : Z) : Sys uringFds :=
  ring ← sys_open (CUringSetup entries);
  sq ← on_error (sys_mmap (if up_singleMmap params then Z.max sq_size cq_size else sq_size)) (sys_close ring);
  cq ← (if up_singleMmap params then sret None
            else m ← on_error (sys_mmap cq_size) (sys_close ring); sret (Some m));
  sqes ← on_error (sys_mmap (up_sqEntries params * 64)) (sys_close ring);
  sret {| uf_ring := ring; uf_sq := sq; uf_cq := cq; uf_sqes := sqes |}.
Definition uring_Close (u : uringFds) : Sys unit :=
  sys_munmap (uf_sqes u) ;;
  (match uf_cq u with Some m => sys_munmap m | None => sret tt end) ;;
  sys_munmap (uf_sq u) ;;
  sys_close (uf_ring u).

(** ** A forward batch's own resources *)

Inductive altRes := AVhost | AUring (u : uringFds) | ATunGSO | ANapi | APacket (fd : nat).
Record batchRes := { br_sock : nat; br_alt : option altRes }.

Definition newAlt (kind : egressKind) (gsoTunFd : Z) : Sys altRes :=
  match kind with
  | EgVhost => _v ← vhost_once; sret AVhost
  | EgUring => _fd ← napi_once; u ← newUringFds uringDepth; sret (AUring u)
  | EgTunGSO => if gsoTunFd <? 0 then sfail else sret ATunGSO
  | EgNapiTun => _fd ← napi_once; sret ANapi
  | EgPacket => fd ← NewPacketBatch_fd; sret (APacket fd)
  end.
Definition newForwardRes (kind : option egressKind) (gsoTunFd : Z) : Sys batchRes :=
  sock ← NewSocketBatch_fd;
  match kind with
  | None => sret {| br_sock := sock; br_alt := None |}
  | Some k => a ← on_error (newAlt k gsoTunFd) (sys_close sock); sret {| br_sock := sock; br_alt := Some a |}
  end.
Definition closeForwardRes (b : batchRes) : Sys unit :=
  sys_close (br_sock b) ;;
  match br_alt b with
  | Some (AUring u) => uring_Close u
  | Some (APacket fd) => sys_close fd
  | _ => sret tt
  end.
End Calls.

Definition start_world : world := Build_world ∅ ∅ 3 [] None None None.
