(* ===== verification/DeviceProps.v ===== *)
(** * Properties of the egress devices' construction: no descriptor is lost *)
From S2P Require Import Prelude Words Vring VringProps Egress Device.
Local Open Scope Z_scope.
Local Open Scope masqued_scope.

(** ** A small program logic for the constructors

    [owns w0 F M g w]: since [w0] the process has gained exactly the descriptors
    [F] and the mappings [M], all new, and the globals are [g]. *)
Definition globals (w : world) := (vhostTun w, vhostOnce w, napiOnce w).
Definition bounded (w : world) : Prop := (0 < w_next w)%nat /\ forall x, x ∈ w_fds w \/ x ∈ w_maps w -> (x < w_next w)%nat.

Record owns (w0 : world) (F M : gset nat) g (w : world) : Prop := {
  ow_fds : w_fds w = w_fds w0 ∪ F;
  ow_maps : w_maps w = w_maps w0 ∪ M;
  ow_new : forall x, x ∈ F \/ x ∈ M -> (w_next w0 <= x < w_next w)%nat;
  ow_next : (w_next w0 <= w_next w)%nat;
  ow_globals : globals w = g
}.

(** [Q] holds after success, [X] after failure. *)
Definition hoare {A} (P : world -> Prop) (m : Sys A) (Q : A -> world -> Prop) (X : world -> Prop) : Prop :=
  forall w, P w -> match m w with (Some a, w') => Q a w' | (None, w') => X w' end.

Lemma hoare_bind {A B} P (m : Sys A) (k : A -> Sys B) Q R X :
  hoare P m Q X -> (forall a, hoare (Q a) (k a) R X) -> hoare P (m ≫= k) R X.
Proof.
  intros Hm Hk w Hw. specialize (Hm w Hw). unfold mbind, sys_bind. destruct (m w) as [[a|] w1]; [|done]. by apply Hk.
Qed.
Lemma hoare_ret {A} (a : A) (P : world -> Prop) (Q : A -> world -> Prop) X : (forall w, P w -> Q a w) -> hoare P (sret a) Q X.
Proof. intros HQ w Hw. by apply HQ. Qed.
Lemma hoare_skip P X : hoare P (sret tt) (fun _ => P) X.
Proof. by intros w Hw. Qed.
Lemma hoare_conseq {A} (P P' : world -> Prop) (m : Sys A) (Q Q' : A -> world -> Prop) (X X' : world -> Prop) :
  hoare P' m Q' X' -> (forall w, P w -> P' w) -> (forall a w, Q' a w -> Q a w) -> (forall w, X' w -> X w) -> hoare P m Q X.
Proof. intros Hm HP HQ HX w Hw. specialize (Hm w (HP w Hw)). destruct (m w) as [[a|] w1]; auto. Qed.
Lemma hoare_on_error {A} P (m : Sys A) c Q (X X' : world -> Prop) :
  hoare P m Q X' -> hoare X' c (fun _ => X) X -> hoare P (on_error m c) Q X.
Proof.
  intros Hm Hc w Hw. specialize (Hm w Hw). unfold on_error. destruct (m w) as [[a|] w1]; [done|].
  specialize (Hc w1 Hm). by destruct (c w1) as [[u|] w2].
Qed.
Lemma hoare_deferring {A} P (m : Sys A) c Q Q' (X X' : world -> Prop) :
  hoare P m Q' X' -> (forall a, hoare (Q' a) c (fun _ => Q a) (Q a)) -> hoare X' c (fun _ => X) X -> hoare P (deferring m c) Q X.
Proof.
  intros Hm Hq Hc w Hw. specialize (Hm w Hw). unfold deferring. destruct (m w) as [[a|] w1].
  - specialize (Hq a w1 Hm). by destruct (c w1) as [[u|] w2].
  - specialize (Hc w1 Hm). by destruct (c w1) as [[u|] w2].
Qed.
Lemma hoare_ignoring P m (Q : world -> Prop) X : hoare P m (fun _ => Q) Q -> hoare P (ignoring m) (fun _ => Q) X.
Proof. intros Hm w Hw. specialize (Hm w Hw). unfold ignoring. by destruct (m w) as [[u|] w1]. Qed.

Section Rules.
Context (ans : nat -> bool) (w0 : world) (Hb : bounded w0).

Lemma hoare_call F M g c : hoare (owns w0 F M g) (sys_call ans c) (fun _ => owns w0 F M g) (owns w0 F M g).
Proof. intros w [H1 H2 H3 H4 H5]. unfold sys_call. destruct (answer ans w); by split. Qed.
Lemma hoare_ioctl F M g fd r : hoare (owns w0 F M g) (ioctl ans fd r) (fun _ => owns w0 F M g) (owns w0 F M g).
Proof. apply hoare_call. Qed.
Lemma hoare_open F M g c : hoare (owns w0 F M g) (sys_open ans c)
  (fun n w => ((n ∉ F) /\ (n ∉ M) /\ (0 < n)%nat) /\ owns w0 ({[n]} ∪ F) M g w) (owns w0 F M g).
Proof.
  intros w [H1 H2 H3 H4 H5]. unfold sys_open. destruct (answer ans w); [|by split]. split.
  - split; [|split]; [intros Hx; specialize (H3 (w_next w) (or_introl Hx)); lia|intros Hx; specialize (H3 (w_next w) (or_intror Hx)); lia|destruct Hb; lia].
  - split; cbn; [rewrite H1; set_solver|done| |lia|done].
    intros x Hx. destruct (decide (x = w_next w)) as [->|Hne]; [lia|].
    assert (Hy : x ∈ F \/ x ∈ M) by set_solver. specialize (H3 x Hy). lia.
Qed.
Lemma hoare_mmap F M g size : hoare (owns w0 F M g) (sys_mmap ans size)
  (fun n w => ((n ∉ F) /\ (n ∉ M)) /\ owns w0 F ({[n]} ∪ M) g w) (owns w0 F M g).
Proof.
  intros w [H1 H2 H3 H4 H5]. unfold sys_mmap. destruct (answer ans w); [|by split]. split.
  - split; [intros Hx; specialize (H3 (w_next w) (or_introl Hx)); lia|intros Hx; specialize (H3 (w_next w) (or_intror Hx)); lia].
  - split; cbn; [done|rewrite H2; set_solver| |lia|done].
    intros x Hx. destruct (decide (x = w_next w)) as [->|Hne]; [lia|].
    assert (Hy : x ∈ F \/ x ∈ M) by set_solver. specialize (H3 x Hy). lia.
Qed.
End Rules.

Section Releases.
Context (w0 : world) (Hb : bounded w0).

Lemma hoare_close F M g fd X : fd ∈ F -> hoare (owns w0 F M g) (sys_close fd) (fun _ => owns w0 (F ∖ {[fd]}) M g) X.
Proof using Hb w0.
  intros Hfd w [H1 H2 H3 H4 H5]. cbn. assert (fd ∉ w_fds w0).
  { intros Hx. destruct Hb as [_ Hb']. specialize (Hb' fd (or_introl Hx)). specialize (H3 fd (or_introl Hfd)). lia. }
  split; cbn; [rewrite H1; set_solver|done| |done|done]. intros x [Hx|Hx]; apply H3; set_solver.
Qed.
Lemma hoare_munmap F M g m X : m ∈ M -> hoare (owns w0 F M g) (sys_munmap m) (fun _ => owns w0 F (M ∖ {[m]}) g) X.
Proof using Hb w0.
  intros Hm w [H1 H2 H3 H4 H5]. cbn. assert (m ∉ w_maps w0).
  { intros Hx. destruct Hb as [_ Hb']. specialize (Hb' m (or_intror Hx)). specialize (H3 m (or_intror Hm)). lia. }
  split; cbn; [done|rewrite H2; set_solver| |done|done]. intros x [Hx|Hx]; apply H3; set_solver.
Qed.
(** Giving back what was acquired last. *)
Lemma hoare_close_last F M g fd X : fd ∉ F -> hoare (owns w0 ({[fd]} ∪ F) M g) (sys_close fd) (fun _ => owns w0 F M g) X.
Proof using Hb w0.
  intros Hf. eapply hoare_conseq; [apply (hoare_close ({[fd]} ∪ F) M g fd X); set_solver|done| |done].
  intros a w. by replace (({[fd]} ∪ F) ∖ {[fd]}) with F by set_solver.
Qed.
Lemma hoare_munmap_last F M g m X : m ∉ M -> hoare (owns w0 F ({[m]} ∪ M) g) (sys_munmap m) (fun _ => owns w0 F M g) X.
Proof using Hb w0.
  intros Hf. eapply hoare_conseq; [apply (hoare_munmap F ({[m]} ∪ M) g m X); set_solver|done| |done].
  intros a w. by replace (({[m]} ∪ M) ∖ {[m]}) with M by set_solver.
Qed.
End Releases.

(** ** What each constructor leaves behind *)

Section Constructors.
Context (ans : nat -> bool) (w0 : world) (Hb : bounded w0).
Implicit Types (F M : gset nat).

(** Pull a pure fact out of a precondition. *)
Lemma hoare_pure {A} (p : Prop) P (m : Sys A) Q X : (p -> hoare P m Q X) -> hoare (fun w => p /\ P w) m Q X.
Proof using. intros Hm w [Hp Hw]. by apply (Hm Hp). Qed.

(** Closing what was just opened, on the error path of [m]. *)
Lemma hoare_or_close {A} F M g fd (m : Sys A) Q :
  fd ∉ F -> hoare (owns w0 ({[fd]} ∪ F) M g) m Q (owns w0 ({[fd]} ∪ F) M g) ->
  hoare (owns w0 ({[fd]} ∪ F) M g) (on_error m (sys_close fd)) Q (owns w0 F M g).
Proof using Hb.
  intros Hf Hm. eapply hoare_on_error; [exact Hm|]. by apply (hoare_close_last w0 Hb).
Qed.

Lemma NewSocketBatch_fd_spec F M g : hoare (owns w0 F M g) (NewSocketBatch_fd ans)
  (fun fd w => fd ∉ F /\ owns w0 ({[fd]} ∪ F) M g w) (owns w0 F M g).
Proof using Hb.
  unfold NewSocketBatch_fd. eapply hoare_bind; [apply (hoare_open ans w0 Hb)|]. intros fd. apply hoare_pure. intros (Hf & _ & _).
  eapply hoare_bind; [apply hoare_or_close; [exact Hf|apply hoare_call]|]. intros ?.
  by apply hoare_ret.
Qed.

Lemma NewPacketBatch_fd_spec F M g : hoare (owns w0 F M g) (NewPacketBatch_fd ans)
  (fun fd w => fd ∉ F /\ owns w0 ({[fd]} ∪ F) M g w) (owns w0 F M g).
Proof using Hb.
  unfold NewPacketBatch_fd. eapply hoare_bind; [apply (hoare_open ans w0 Hb)|]. intros fd. apply hoare_pure. intros (Hf & _ & _).
  eapply hoare_bind; [apply hoare_or_close; [exact Hf|apply hoare_call]|]. intros ?.
  eapply hoare_bind; [apply hoare_ignoring, hoare_call|]. intros ?.
  by apply hoare_ret.
Qed.

(** The two interface calls open a socket of their own and close it. *)
Lemma iface_call_spec F M g r : hoare (owns w0 F M g) (s ← sys_open ans CSocket; deferring (ioctl ans s r) (sys_close s))
  (fun _ => owns w0 F M g) (owns w0 F M g).
Proof using Hb.
  eapply hoare_bind; [apply (hoare_open ans w0 Hb)|]. intros s. apply hoare_pure. intros (Hf & _ & _).
  eapply hoare_deferring; [apply hoare_ioctl|intros ?|]; by apply (hoare_close_last w0 Hb).
Qed.
Lemma writeProcs_spec F M g name X : hoare (owns w0 F M g) (writeProcs ans name) (fun _ => owns w0 F M g) X.
Proof using. unfold writeProcs, writeProc. repeat (eapply hoare_bind; [apply hoare_ignoring, hoare_call|intros ?]). apply hoare_ignoring, hoare_call. Qed.

Lemma createNapiTun_spec F M g : hoare (owns w0 F M g) (createNapiTun ans)
  (fun fd w => fd ∉ F /\ owns w0 ({[fd]} ∪ F) M g w) (owns w0 F M g).
Proof using Hb.
  unfold createNapiTun. eapply hoare_bind; [apply (hoare_open ans w0 Hb)|]. intros fd. apply hoare_pure. intros (Hf & _ & _).
  eapply hoare_bind; [apply hoare_or_close; [exact Hf|apply hoare_ioctl]|]. intros ?.
  eapply hoare_bind; [apply hoare_or_close; [exact Hf|apply iface_call_spec]|]. intros ?.
  eapply hoare_bind; [apply writeProcs_spec|]. intros ?.
  by apply hoare_ret.
Qed.

Lemma createVhostTun_spec F M g : hoare (owns w0 F M g) (createVhostTun ans)
  (fun fd w => fd ∉ F /\ owns w0 ({[fd]} ∪ F) M (Some fd, g.1.2, g.2) w) (owns w0 F M g).
Proof using Hb.
  unfold createVhostTun. eapply hoare_bind; [apply (hoare_open ans w0 Hb)|]. intros fd. apply hoare_pure. intros (Hf & _ & _).
  do 2 (eapply hoare_bind; [apply hoare_or_close; [exact Hf|apply hoare_ioctl]|]; intros ?).
  do 2 (eapply hoare_bind; [apply hoare_or_close; [exact Hf|apply iface_call_spec]|]; intros ?).
  eapply hoare_bind; [apply writeProcs_spec|]. intros ?.
  eapply (hoare_bind _ (set_vhostTun fd) _ (fun _ => owns w0 ({[fd]} ∪ F) M (Some fd, g.1.2, g.2))).
  - intros w [H1 H2 H3 H4 H5]. split; cbn; [done|done|done|done|]. unfold globals in *. cbn. by rewrite <- H5.
  - intros ?. by apply hoare_ret.
Qed.
(** Closing the vhost writer gives back exactly what it owns. *)
Lemma vhost_Close_spec F M g X v (c k n : nat) t (arena : option nat) :
  n ∉ F -> k ∉ ({[n]} ∪ F : gset nat) -> c ∉ ({[k]} ∪ ({[n]} ∪ F) : gset nat) -> (0 < k)%nat -> (0 < c)%nat ->
  (forall a, arena = Some a -> a ∉ M) ->
  v = {| vf_vhost := n; vf_tun := t; vf_kick := k; vf_call := c; vf_arena := arena |} ->
  hoare (owns w0 ({[c]} ∪ ({[k]} ∪ ({[n]} ∪ F))) (match arena with Some a => {[a]} ∪ M | None => M end) g) (vhost_Close ans v)
    (fun _ => owns w0 F M g) X.
Proof using Hb.
  intros Hn Hk Hc Hk0 Hc0 Ha ->. unfold vhost_Close. cbn [vf_vhost vf_tun vf_kick vf_call vf_arena].
  destruct (Nat.ltb_spec 0 k); [|lia]. destruct (Nat.ltb_spec 0 c); [|lia].
  set (G := {[c]} ∪ ({[k]} ∪ ({[n]} ∪ F))). set (N := match arena with Some a => {[a]} ∪ M | None => M end).
  apply (hoare_bind _ _ _ (fun _ => owns w0 G N g)).
  { destruct (0 <=? t); [eapply hoare_ignoring, hoare_ioctl|apply hoare_skip]. }
  intros _. apply (hoare_bind _ _ _ (fun _ => owns w0 G M g)).
  { subst N. destruct arena as [m|]; [apply (hoare_munmap_last w0 Hb); by apply Ha|apply hoare_skip]. }
  intros _. apply (hoare_bind _ _ _ (fun _ => owns w0 (G ∖ {[k]}) M g)); [apply (hoare_close w0 Hb); set_solver|].
  intros _. apply (hoare_bind _ _ _ (fun _ => owns w0 (G ∖ {[k]} ∖ {[c]}) M g)); [apply (hoare_close w0 Hb); set_solver|].
  intros _. replace F with (G ∖ {[k]} ∖ {[c]} ∖ {[n]}) by set_solver. apply (hoare_close w0 Hb). set_solver.
Qed.
Lemma ioctls_spec F M g fd rs : hoare (owns w0 F M g) (ioctls ans fd rs) (fun _ => owns w0 F M g) (owns w0 F M g).
Proof using.
  induction rs as [|r rs IH]; cbn [ioctls]; [apply hoare_skip|].
  apply (hoare_bind _ _ _ (fun _ => owns w0 F M g)); [apply hoare_ioctl|intros ?; exact IH].
Qed.

(** The descriptors and the mapping of a vhost writer. *)
Definition vhost_held (v : vhostFds) : gset nat := {[vf_call v; vf_kick v; vf_vhost v]}.
Definition vhost_arena (v : vhostFds) : gset nat := match vf_arena v with Some a => {[a]} | None => ∅ end.

Context (offered : Z) (addr_of : nat -> Z).
Lemma newVhostWriter_spec F M g tunFd n bufSize : hoare (owns w0 F M g) (newVhostWriter ans offered addr_of tunFd n bufSize)
  (fun v w => (vhost_held v ## F /\ vhost_arena v ## M) /\ owns w0 (vhost_held v ∪ F) (vhost_arena v ∪ M) g w) (owns w0 F M g).
Proof using Hb.
  unfold newVhostWriter. destruct (negb _); [by intros w Hw|].
  eapply hoare_bind; [apply (hoare_open ans w0 Hb)|]. intros n0. apply hoare_pure. intros (Hn & _ & _).
  eapply hoare_bind; [apply hoare_or_close; [done|apply (hoare_open ans w0 Hb)]|]. intros k. apply hoare_pure. intros (Hk & _ & Hk0).
  set (F' := {[n0]} ∪ F). set (G := {[k]} ∪ F').
  apply (hoare_bind _ _ _ (fun c w => ((c ∉ G) /\ (c ∉ M) /\ (0 < c)%nat) /\ owns w0 ({[c]} ∪ G) M g w)).
  { eapply hoare_on_error; [apply (hoare_open ans w0 Hb)|].
    apply (hoare_bind _ _ _ (fun _ => owns w0 (G ∖ {[n0]}) M g)); [apply (hoare_close w0 Hb); set_solver|].
    intros _. replace F with (G ∖ {[n0]} ∖ {[k]}) by set_solver. apply (hoare_close w0 Hb). set_solver. }
  intros c. apply hoare_pure. intros (Hc & _ & Hc0). subst G F'.
  eapply hoare_bind.
  { eapply hoare_on_error; [apply (hoare_mmap ans w0 Hb)|]. by apply (vhost_Close_spec F M g (owns w0 F M g) _ c k n0 tunFd None). }
  intros arena. apply hoare_pure. intros [_ Ha].
  eapply hoare_bind.
  { eapply hoare_on_error; [apply ioctls_spec|].
    apply (vhost_Close_spec F M g (owns w0 F M g) _ c k n0 tunFd (Some arena)); [done..| |done]. by intros a [= <-]. }
  intros ?. apply hoare_ret. intros w Hw. unfold vhost_held, vhost_arena. cbn. split; [split; set_solver|].
  by replace ({[c; k; n0]} ∪ F) with ({[c]} ∪ ({[k]} ∪ ({[n0]} ∪ F))) by set_solver.
Qed.
End Constructors.

(** What the package's globals keep open for later connections. *)
Definition held_fds (g : option nat * option (option vhostFds) * option (option nat)) : gset nat :=
  (match g.1.1 with Some fd => {[fd]} | None => ∅ end)
  ∪ (match g.1.2 with Some (Some v) => vhost_held v | _ => ∅ end)
  ∪ (match g.2 with Some (Some fd) => {[fd]} | _ => ∅ end).
Definition held_maps (g : option nat * option (option vhostFds) * option (option nat)) : gset nat :=
  match g.1.2 with Some (Some v) => vhost_arena v | _ => ∅ end.

(** A process between two constructors: the globals' descriptors are open, and
    the vhost device exists only once its [sync.Once] has run. *)
Definition once_ok (g : option nat * option (option vhostFds) * option (option nat)) : Prop := g.1.2 = None -> g.1.1 = None.
Record good (w : world) : Prop := {
  gd_bounded : bounded w;
  gd_fds : held_fds (globals w) ⊆ w_fds w;
  gd_maps : held_maps (globals w) ⊆ w_maps w;
  gd_once : once_ok (globals w)
}.

(** Since [w0], exactly [F] and [M] beyond what the globals keep. *)
Definition gained (w0 : world) (F M : gset nat) (w : world) : Prop :=
  exists (D DM : gset nat), owns w0 (D ∪ F) (DM ∪ M) (globals w) w /\ D ## F /\ DM ## M /\
    held_fds (globals w) = held_fds (globals w0) ∪ D /\ held_maps (globals w) = held_maps (globals w0) ∪ DM /\ once_ok (globals w).
Definition private_fds (w : world) : gset nat := w_fds w ∖ held_fds (globals w).
Definition private_maps (w : world) : gset nat := w_maps w ∖ held_maps (globals w).

Lemma owns_fresh w0 F M g w : bounded w0 -> owns w0 F M g w -> F ## w_fds w0 /\ M ## w_maps w0.
Proof.
  intros [_ Hb] [_ _ Hn _ _]. split; intros x Hx H0.
  - specialize (Hb x (or_introl H0)). specialize (Hn x (or_introl Hx)). lia.
  - specialize (Hb x (or_intror H0)). specialize (Hn x (or_intror Hx)). lia.
Qed.
Lemma gained_private w0 F M w : good w0 -> gained w0 F M w ->
  private_fds w = private_fds w0 ∪ F /\ private_maps w = private_maps w0 ∪ M.
Proof.
  intros [Hb Hf Hm _] (D & DM & Ho & HD & HDM & Hhf & Hhm & _). pose proof (owns_fresh _ _ _ _ _ Hb Ho) as [Hfr Hmr].
  destruct Ho as [H1 H2 _ _ _]. unfold private_fds, private_maps. rewrite H1, H2, Hhf, Hhm. clear -Hf Hm Hfr Hmr HD HDM.
  split; apply set_eq; intros x; split; set_solver.
Qed.
Lemma gained_good w0 F M w : good w0 -> gained w0 F M w -> good w.
Proof.
  intros [[Hb0 Hb] Hf Hm _] (D & DM & [H1 H2 H3 H4 _] & _ & _ & Hhf & Hhm & Ho). split; [split; [lia|]|set_solver|set_solver|done].
  intros x Hx. rewrite H1, H2 in Hx.
  assert (Hc : (x ∈ w_fds w0 \/ x ∈ w_maps w0) \/ (x ∈ D ∪ F \/ x ∈ DM ∪ M)) by (clear -Hx; set_solver).
  destruct Hc as [Hc|Hc]; [specialize (Hb x Hc); lia|specialize (H3 x Hc); lia].
Qed.

Section Devices.
Context (ans : nat -> bool) (offered : Z) (addr_of : nat -> Z) (params : uringParams) (w0 : world) (Hg : good w0).
Let Hb : bounded w0 := gd_bounded w0 Hg.
Implicit Types (F M : gset nat).

Lemma owns_gained F M w : owns w0 F M (globals w0) w -> gained w0 F M w.
Proof using Hg.
  intros [H1 H2 H3 H4 H5]. exists ∅, ∅. rewrite H5, !(left_id_L ∅ union), !(right_id_L ∅ union).
  split; [by split|]. split; [set_solver|]. split; [set_solver|]. split; [done|]. split; [done|]. apply (gd_once w0 Hg).
Qed.
(** An operation that leaves the globals alone, after some of them were set. *)
Lemma hoare_gained {A} F M (m : Sys A) (Q : A -> world -> Prop) X :
  (forall D DM g, hoare (fun w => owns w0 (D ∪ F) (DM ∪ M) g w /\ D ## F /\ DM ## M /\
       held_fds g = held_fds (globals w0) ∪ D /\ held_maps g = held_maps (globals w0) ∪ DM /\ once_ok g) m Q X) ->
  hoare (gained w0 F M) m Q X.
Proof using. intros Hm w (D & DM & Hw). exact (Hm D DM (globals w) w Hw). Qed.
Lemma gained_intro D DM F M g w : owns w0 (D ∪ F) (DM ∪ M) g w -> D ## F -> DM ## M ->
  held_fds g = held_fds (globals w0) ∪ D -> held_maps g = held_maps (globals w0) ∪ DM -> once_ok g -> gained w0 F M w.
Proof using. intros Ho. pose proof (ow_globals _ _ _ _ _ Ho) as <-. intros. by exists D, DM. Qed.

Lemma set_napi_owns F M g r w : owns w0 F M g w -> owns w0 F M (g.1, Some r) (set_napi r w).2.
Proof using. intros [H1 H2 H3 H4 <-]. by split. Qed.
Lemma set_vhost_owns F M g r w : owns w0 F M g w -> owns w0 F M (g.1.1, Some r, g.2) (set_vhost r w).2.
Proof using. intros [H1 H2 H3 H4 <-]. by split. Qed.

Lemma napi_once_spec F M : hoare (owns w0 F M (globals w0)) (napi_once ans) (fun _ => gained w0 F M) (gained w0 F M).
Proof using Hg Hb.
  clear offered addr_of params. intros w Ho. pose proof (ow_globals _ _ _ _ _ Ho) as E. unfold napi_once. destruct (napiOnce w) as [r|] eqn:En.
  { destruct r; by apply owns_gained. }
  assert (E2 : (globals w0).2 = None) by by rewrite <- E.
  pose proof (createNapiTun_spec ans w0 Hb F M (globals w0) w Ho) as H. pose proof (gd_once w0 Hg) as Hok.
  destruct (globals w0) as [[vt vo] np] eqn:Eg. cbn in E2. subst np.
  destruct (createNapiTun ans w) as [[fd|] w1].
  - destruct H as [Hf H]. apply (set_napi_owns _ _ _ (Some fd)) in H.
    eapply (gained_intro {[fd]} ∅); [rewrite (left_id_L ∅ union); exact H|set_solver|set_solver| | |exact Hok];
      rewrite Eg; unfold held_fds, held_maps; cbn; set_solver.
  - apply (set_napi_owns _ _ _ None) in H.
    eapply (gained_intro ∅ ∅); [rewrite !(left_id_L ∅ union); exact H|set_solver|set_solver| | |exact Hok];
      rewrite Eg; unfold held_fds, held_maps; cbn; set_solver.
Qed.

Lemma vhost_once_spec F M : hoare (owns w0 F M (globals w0)) (vhost_once ans offered addr_of) (fun _ => gained w0 F M) (gained w0 F M).
Proof using Hg Hb.
  clear params. intros w Ho. pose proof (ow_globals _ _ _ _ _ Ho) as E. unfold vhost_once. destruct (vhostOnce w) as [r|] eqn:En.
  { destruct r; by apply owns_gained. }
  assert (E2 : (globals w0).1.2 = None) by by rewrite <- E.
  pose proof (gd_once w0 Hg E2) as E1. pose proof (createVhostTun_spec ans w0 Hb F M (globals w0) w Ho) as H.
  destruct (globals w0) as [[vt vo] np] eqn:Eg. cbn in E1, E2. subst vt vo. unfold initVhost, mbind, sys_bind.
  destruct (createVhostTun ans w) as [[fd|] w1]; [destruct H as [Hf H]|].
  - pose proof (newVhostWriter_spec ans w0 Hb offered addr_of _ _ _ (Z.of_nat fd) 256 4096 w1 H) as Hv.
    destruct (newVhostWriter _ _ _ _ _ _ w1) as [[v|] w2].
    + destruct Hv as [[Hvf Hvm] Hv]. apply (set_vhost_owns _ _ _ (Some v)) in Hv. apply (gained_intro (vhost_held v ∪ {[fd]}) (vhost_arena v) _ _ (Some fd, Some (Some v), np)); [|set_solver|set_solver| | |done].
      * by rewrite <- (assoc_L union).
      * rewrite Eg. unfold held_fds. cbn. clear. set_solver.
      * rewrite Eg. unfold held_maps. cbn. clear. set_solver.
    + apply (set_vhost_owns _ _ _ None) in Hv. apply (gained_intro {[fd]} ∅ _ _ (Some fd, Some None, np)); [by rewrite (left_id_L ∅ union)|set_solver|set_solver| | |done];
        rewrite Eg; unfold held_fds, held_maps; cbn; set_solver.
  - apply (set_vhost_owns _ _ _ None) in H. apply (gained_intro ∅ ∅ _ _ (None, Some None, np)); [by rewrite !(left_id_L ∅ union)|set_solver|set_solver| | |done];
      rewrite Eg; unfold held_fds, held_maps; cbn; set_solver.
Qed.
(** Acquiring and releasing one's own, whatever the globals keep. *)
Lemma gained_close F M fd X : fd ∈ F -> hoare (gained w0 F M) (sys_close fd) (fun _ => gained w0 (F ∖ {[fd]}) M) X.
Proof using Hb Hg.
  clear ans offered addr_of params. intros Hf w (D & DM & Ho & HD & Hrest). cbn. exists D, DM. split; [|split; [set_solver|exact Hrest]].
  assert (fd ∈ D ∪ F) as HF by set_solver. pose proof (hoare_close w0 Hb _ _ _ fd X HF w Ho) as H. cbn in H.
  by replace ((D ∪ F) ∖ {[fd]}) with (D ∪ F ∖ {[fd]}) in H by set_solver.
Qed.
Lemma gained_munmap F M m X : m ∈ M -> hoare (gained w0 F M) (sys_munmap m) (fun _ => gained w0 F (M ∖ {[m]})) X.
Proof using Hb Hg.
  clear ans offered addr_of params. intros Hf w (D & DM & Ho & HD & HDM & Hrest). cbn. exists D, DM. split; [|split; [done|split; [set_solver|exact Hrest]]].
  assert (m ∈ DM ∪ M) as HF by set_solver. pose proof (hoare_munmap w0 Hb _ _ _ m X HF w Ho) as H. cbn in H.
  by replace ((DM ∪ M) ∖ {[m]}) with (DM ∪ M ∖ {[m]}) in H by set_solver.
Qed.
Lemma gained_more D DM F M (f m : gset nat) g w : owns w0 (f ∪ (D ∪ F)) (m ∪ (DM ∪ M)) g w -> f ## D ∪ F -> m ## DM ∪ M ->
  D ## F /\ DM ## M /\ held_fds g = held_fds (globals w0) ∪ D /\ held_maps g = held_maps (globals w0) ∪ DM /\ once_ok g ->
  gained w0 (f ∪ F) (m ∪ M) w.
Proof using.
  clear ans offered addr_of params Hb Hg. intros Ho Hf Hm (HD & HDM & H1 & H2 & H3). apply (gained_intro D DM _ _ g); [|set_solver|set_solver|done|done|done].
  replace (D ∪ (f ∪ F)) with (f ∪ (D ∪ F)) by set_solver. by replace (DM ∪ (m ∪ M)) with (m ∪ (DM ∪ M)) by set_solver.
Qed.

(** The descriptor and the mappings of an io_uring writer; without the
    completion ring's, the mappings a failing constructor may leave. *)
Definition cq_maps (u : uringFds) : gset nat := match uf_cq u with Some m => {[m]} | None => ∅ end.
Definition uring_maps (u : uringFds) : gset nat := {[uf_sqes u]} ∪ (cq_maps u ∪ {[uf_sq u]}).
Definition uring_ok (u : uringFds) : Prop := uf_sqes u ∉ cq_maps u ∪ {[uf_sq u]} /\ uf_sq u ∉ cq_maps u.

Lemma newUringFds_spec n F M g : hoare (owns w0 F M g) (newUringFds ans params n)
  (fun u w => (uf_ring u ∉ F /\ uring_maps u ## M /\ uring_ok u) /\ owns w0 ({[uf_ring u]} ∪ F) (uring_maps u ∪ M) g w)
  (fun w => exists L, L ## M /\ owns w0 F (L ∪ M) g w).
Proof using Hb.
  clear offered addr_of. unfold newUringFds. set (X := fun w => exists L, L ## M /\ owns w0 F (L ∪ M) g w).
  assert (HX : forall L w, L ## M -> owns w0 F (L ∪ M) g w -> X w) by (intros L w; exists L; done).
  assert (HX0 : forall w, owns w0 F M g w -> X w) by (intros w Hw; apply (HX ∅); [set_solver|by rewrite (left_id_L ∅ union)]).
  eapply hoare_bind; [eapply hoare_conseq; [apply (hoare_open ans w0 Hb)|done|by intros ? ? H|exact HX0]|].
  intros ring. apply hoare_pure. intros (Hr & _ & _).
  assert (Hor : forall N (m : Sys nat) Q, N ## M -> hoare (owns w0 ({[ring]} ∪ F) (N ∪ M) g) m Q (owns w0 ({[ring]} ∪ F) (N ∪ M) g) ->
      hoare (owns w0 ({[ring]} ∪ F) (N ∪ M) g) (on_error m (sys_close ring)) Q X).
  { intros N m Q HN Hm. eapply hoare_conseq; [by apply (hoare_or_close w0 Hb)|done|by intros ? ? H|]. intros w. by apply HX. }
  eapply hoare_bind.
  { eapply hoare_conseq; [apply (Hor ∅); [set_solver|apply (hoare_mmap ans w0 Hb)]|by rewrite (left_id_L ∅ union)|by intros ? ? H|done]. }
  intros sq. apply hoare_pure. intros [_ Hsq]. rewrite (left_id_L ∅ union) in Hsq |- *.
  apply (hoare_bind _ _ _ (fun cq w => let N := (match cq with Some m => {[m]} | None => ∅ end : gset nat) in
      (sq ∉ N /\ N ## M) /\ owns w0 ({[ring]} ∪ F) ((N ∪ {[sq]}) ∪ M) g w)).
  { destruct (up_singleMmap params).
    - apply hoare_ret. intros w Hw. cbn. split; [set_solver|]. by replace (∅ ∪ {[sq]} ∪ M) with ({[sq]} ∪ M) by set_solver.
    - eapply hoare_bind; [apply (Hor {[sq]}); [set_solver|apply (hoare_mmap ans w0 Hb)]|].
      intros m. apply hoare_pure. intros [_ Hm]. apply hoare_ret. intros w Hw. cbn. split; [set_solver|].
      by replace ({[m]} ∪ {[sq]} ∪ M) with ({[m]} ∪ ({[sq]} ∪ M)) by set_solver. }
  intros cq. apply hoare_pure. intros [Hc1 Hc2]. set (N := match cq with Some m => {[m]} | None => ∅ end) in *.
  eapply hoare_bind; [apply (Hor (N ∪ {[sq]})); [set_solver|apply (hoare_mmap ans w0 Hb)]|].
  intros sqes. apply hoare_pure. intros [_ Hs]. apply hoare_ret. intros w Hw.
  unfold uring_maps, uring_ok, cq_maps. cbn. fold N. split; [split; [done|split; [set_solver|set_solver]]|].
  by rewrite <- (assoc_L union).
Qed.
(** ** A forward batch's resources *)
Definition alt_fds (a : altRes) : gset nat :=
  match a with AUring u => {[uf_ring u]} | APacket fd => {[fd]} | _ => ∅ end.
Definition alt_maps (a : altRes) : gset nat := match a with AUring u => uring_maps u | _ => ∅ end.
Definition alt_ok (a : altRes) : Prop := match a with AUring u => uring_ok u | _ => True end.

(** What a constructor may leave mapped when it fails. *)
Definition leaves (leaky : Prop) F M (w : world) : Prop :=
  exists L, L ## M /\ (leaky \/ L = ∅) /\ gained w0 F (L ∪ M) w.
Lemma leaves_none leaky F M w : gained w0 F M w -> leaves leaky F M w.
Proof using.
  clear Hg Hb. intros H. exists ∅. rewrite (left_id_L ∅ union). split; [set_solver|]. split; [by right|done].
Qed.

Lemma newAlt_spec kind gso F M : hoare (owns w0 F M (globals w0)) (newAlt ans offered addr_of params kind gso)
  (fun a w => (alt_ok a /\ alt_fds a ## F /\ alt_maps a ## M) /\ gained w0 (alt_fds a ∪ F) (alt_maps a ∪ M) w)
  (leaves (kind = EgUring) F M).
Proof using Hg Hb.
  assert (Hret : forall a, alt_ok a -> alt_fds a = ∅ -> alt_maps a = ∅ -> forall w, gained w0 F M w ->
      (alt_ok a /\ alt_fds a ## F /\ alt_maps a ## M) /\ gained w0 (alt_fds a ∪ F) (alt_maps a ∪ M) w).
  { intros a Ha E1 E2 w Hw. rewrite E1, E2, !(left_id_L ∅ union). split; [split; [done|split; set_solver]|done]. }
  destruct kind; unfold newAlt.
  - eapply hoare_bind; [eapply hoare_conseq; [apply vhost_once_spec|done|by intros ? ? H|intros w; apply leaves_none]|].
    intros ?. apply hoare_ret. intros w. by apply (Hret AVhost).
  - eapply hoare_bind; [eapply hoare_conseq; [apply napi_once_spec|done|by intros ? ? H|intros w; apply leaves_none]|].
    intros ?. apply hoare_gained. intros D DM g. eapply hoare_bind.
    { intros w (Ho & Hrest). pose proof (newUringFds_spec uringDepth (D ∪ F) (DM ∪ M) g w Ho) as H.
      destruct (newUringFds ans params uringDepth w) as [[u|] w1].
      - destruct H as [(H1 & H2 & H3) H]. instantiate (1 := fun u w1 => (uring_ok u /\ uf_ring u ∉ F /\ uring_maps u ## M) /\ gained w0 ({[uf_ring u]} ∪ F) (uring_maps u ∪ M) w1).
        split; [split; [done|split; set_solver]|]. eapply gained_more; [exact H|set_solver|done|exact Hrest].
      - destruct H as (L & HL & H). exists L. split; [set_solver|]. split; [by left|].
        replace F with (∅ ∪ F) by set_solver. eapply gained_more; [by rewrite (left_id_L ∅ union)|set_solver|done|exact Hrest]. }
    intros u. apply hoare_pure. intros (H1 & H2 & H3). apply hoare_ret. intros w Hw. cbn. split; [split; [done|split; [set_solver|done]]|done].
  - destruct (gso <? 0).
    + intros w Ho. by apply leaves_none, owns_gained.
    + apply hoare_ret. intros w Ho. apply (Hret ATunGSO); [done|done|done|]. by apply owns_gained.
  - eapply hoare_bind; [eapply hoare_conseq; [apply napi_once_spec|done|by intros ? ? H|intros w; apply leaves_none]|].
    intros ?. apply hoare_ret. intros w. by apply (Hret ANapi).
  - eapply hoare_bind; [eapply hoare_conseq; [apply (NewPacketBatch_fd_spec ans w0 Hb)|done|by intros ? ? H|]|].
    + intros w Hw. by apply leaves_none, owns_gained.
    + intros fd. apply hoare_pure. intros Hfd. apply hoare_ret. intros w Hw. cbn. split; [split; [done|split; [set_solver|set_solver]]|].
      rewrite (left_id_L ∅ union). by apply owns_gained.
Qed.

Lemma gained_close_last F M fd X : fd ∉ F -> hoare (gained w0 ({[fd]} ∪ F) M) (sys_close fd) (fun _ => gained w0 F M) X.
Proof using Hg Hb.
  clear ans offered addr_of params. intros Hf w Hw. assert (Hin : fd ∈ {[fd]} ∪ F) by set_solver.
  pose proof (gained_close ({[fd]} ∪ F) M fd X Hin w Hw) as H. cbn in *. by replace (({[fd]} ∪ F) ∖ {[fd]}) with F in H by set_solver.
Qed.
Lemma gained_munmap_last F M m X : m ∉ M -> hoare (gained w0 F ({[m]} ∪ M)) (sys_munmap m) (fun _ => gained w0 F M) X.
Proof using Hg Hb.
  clear ans offered addr_of params. intros Hf w Hw. assert (Hin : m ∈ {[m]} ∪ M) by set_solver.
  pose proof (gained_munmap F ({[m]} ∪ M) m X Hin w Hw) as H. cbn in *. by replace (({[m]} ∪ M) ∖ {[m]}) with M in H by set_solver.
Qed.
Lemma closeAlt_spec a F M X : alt_ok a -> alt_fds a ## F -> alt_maps a ## M -> hoare (gained w0 (alt_fds a ∪ F) (alt_maps a ∪ M))
  (match a with AUring u => uring_Close u | APacket fd => sys_close fd | _ => sret tt end) (fun _ => gained w0 F M) X.
Proof using Hg Hb.
  clear ans offered addr_of params. intros Ha Hf Hm. destruct a as [|u| | |fd]; cbn in *;
    [rewrite !(left_id_L ∅ union); apply hoare_skip| |rewrite !(left_id_L ∅ union); apply hoare_skip..|].
  - unfold uring_Close. destruct Ha as [Ha1 Ha2]. unfold uring_maps in *. rewrite <- !(assoc_L union).
    apply (hoare_bind _ _ _ (fun _ => gained w0 ({[uf_ring u]} ∪ F) (cq_maps u ∪ ({[uf_sq u]} ∪ M)))); [apply gained_munmap_last; set_solver|].
    intros _. apply (hoare_bind _ _ _ (fun _ => gained w0 ({[uf_ring u]} ∪ F) ({[uf_sq u]} ∪ M))).
    { unfold cq_maps in *. destruct (uf_cq u) as [m|]; cbn match in *; [apply gained_munmap_last; set_solver|rewrite (left_id_L ∅ union); apply hoare_skip]. }
    intros _. apply (hoare_bind _ _ _ (fun _ => gained w0 ({[uf_ring u]} ∪ F) M)); [apply gained_munmap_last; set_solver|].
    intros _. apply gained_close_last. set_solver.
  - rewrite (left_id_L ∅ union). apply gained_close_last. set_solver.
Qed.

Lemma closeForwardRes_spec b F M X : alt_ok (default ANapi (br_alt b)) ->
  br_sock b ∉ alt_fds (default ANapi (br_alt b)) ∪ F -> alt_fds (default ANapi (br_alt b)) ## F -> alt_maps (default ANapi (br_alt b)) ## M ->
  hoare (gained w0 ({[br_sock b]} ∪ (alt_fds (default ANapi (br_alt b)) ∪ F)) (alt_maps (default ANapi (br_alt b)) ∪ M))
    (closeForwardRes b) (fun _ => gained w0 F M) X.
Proof using Hg Hb.
  intros Ha Hs Hf Hm. unfold closeForwardRes. eapply hoare_bind; [by apply gained_close_last|]. intros ?.
  pose proof (closeAlt_spec (default ANapi (br_alt b)) F M X Ha Hf Hm) as H. destruct (br_alt b) as [[]|]; exact H.
Qed.

Lemma newForwardRes_spec kind gso : hoare (owns w0 ∅ ∅ (globals w0)) (newForwardRes ans offered addr_of params kind gso)
  (fun b w => let a := default ANapi (br_alt b) in
     (alt_ok a /\ br_sock b ∉ alt_fds a ∪ ∅) /\ gained w0 ({[br_sock b]} ∪ (alt_fds a ∪ ∅)) (alt_maps a ∪ ∅) w)
  (leaves (kind = Some EgUring) ∅ ∅).
Proof using Hg Hb.
  unfold newForwardRes. eapply hoare_bind.
  { eapply hoare_conseq; [apply (NewSocketBatch_fd_spec ans w0 Hb)|done|by intros ? ? H|]. intros w Hw. by apply leaves_none, owns_gained. }
  intros sock. apply hoare_pure. intros Hs. destruct kind as [k|].
  - eapply hoare_bind.
    + eapply hoare_on_error; [apply newAlt_spec|]. intros w (L & HL & Hk & Hw). cbn.
      exists L. split; [done|]. split; [destruct Hk as [->|Hk]; [by left|by right]|].
      by apply (gained_close_last ∅ (L ∪ ∅) sock (gained w0 ∅ (L ∪ ∅))) in Hw.
    + intros a. apply hoare_pure. intros (H1 & H2 & H3). apply hoare_ret. intros w Hw. cbn. split; [split; [done|set_solver]|].
      by replace ({[sock]} ∪ (alt_fds a ∪ ∅)) with (alt_fds a ∪ ({[sock]} ∪ ∅)) by set_solver.
  - apply hoare_ret. intros w Hw. cbn. split; [split; [done|set_solver]|]. rewrite !(left_id_L ∅ union).
    by apply owns_gained.
Qed.
End Devices.

(** C23.  When a connection's forward batch cannot be made, every descriptor it opened
    is closed again, and without io_uring every mapping too: whichever system
    call fails, the process owns what it owned before, beyond what the
    package-wide devices keep.  When it can be made, closing it gives back
    exactly its own descriptors and mappings, never a shared device.  The
    process is well-formed again in both cases, so this repeats. *)
Theorem batch_balanced ans offered addr_of params kind gso w0 : good w0 ->
  match newForwardRes ans offered addr_of params kind gso w0 with
  | (None, w) => good w /\ private_fds w = private_fds w0 /\ (kind <> Some EgUring -> private_maps w = private_maps w0)
  | (Some b, w) => br_sock b ∈ private_fds w /\
      let w' := (closeForwardRes b w).2 in good w' /\ private_fds w' = private_fds w0 /\ private_maps w' = private_maps w0
  end.
Proof.
  intros Hg. assert (Ho : owns w0 ∅ ∅ (globals w0) w0).
  { split; [set_solver|set_solver|set_solver|done|done]. }
  pose proof (newForwardRes_spec ans offered addr_of params w0 Hg kind gso w0 Ho) as H.
  destruct (newForwardRes _ _ _ _ _ _ w0) as [[b|] w].
  - destruct H as [[Ha Hs] H]. pose proof (gained_private _ _ _ _ Hg H) as [Hp _]. split; [rewrite Hp; set_solver|].
    pose proof (closeForwardRes_spec w0 Hg b ∅ ∅ (gained w0 ∅ ∅) Ha Hs (disjoint_empty_r _) (disjoint_empty_r _) w H) as Hc.
    assert (Hw : gained w0 ∅ ∅ (closeForwardRes b w).2) by by destruct (closeForwardRes b w) as [[?|] ?].
    pose proof (gained_private _ _ _ _ Hg Hw) as [E1 E2]. rewrite !(right_id_L ∅ union) in E1, E2. cbn.
    split; [by apply (gained_good _ _ _ _ Hg Hw)|done].
  - destruct H as (L & _ & Hk & H). pose proof (gained_private _ _ _ _ Hg H) as [E1 E2]. split; [by apply (gained_good _ _ _ _ Hg H)|].
    split; [by rewrite E1, (right_id_L ∅ union)|]. intros Hne. rewrite E2. destruct Hk as [Hk| ->]; [done|set_solver].
Qed.

(** The premise holds of a fresh process; with every call answered the batch over
    io_uring owns its socket, its ring and three mappings, and closing it leaves
    the process with the shared TUN alone. *)
Lemma batch_balanced_witness :
  good start_world /\
  let pr := {| up_sqEntries := 512; up_cqEntries := 1024; up_sqArray := 64; up_cqes := 128; up_singleMmap := false |} in
  match newForwardRes (fun _ => true) 0 (fun _ => 0) pr (Some EgUring) (-1) start_world with
  | (Some b, w) => size (w_fds w) = 3%nat /\ size (w_maps w) = 3%nat /\ br_sock b ∈ private_fds w /\
      private_fds (closeForwardRes b w).2 = ∅ /\ size (w_fds (closeForwardRes b w).2) = 1%nat
  | _ => False
  end.
Proof.
  assert (Hg : good start_world).
  { split; [split; [cbn; lia|]| | |done]; cbn; [intros x [Hx|Hx]; by apply elem_of_empty in Hx|done|done]. }
  split; [exact Hg|]. intros pr.
  pose proof (batch_balanced (fun _ => true) 0 (fun _ => 0) pr (Some EgUring) (-1) start_world Hg) as H.
  destruct (newForwardRes _ _ _ _ _ _ start_world) as [[b|] w] eqn:E; [|vm_compute in E; congruence].
  destruct H as (Hs & _ & Hp & _). split; [|split; [|split; [exact Hs|split; [rewrite Hp; by vm_compute|]]]]; clear -E.
  - vm_compute in E. by injection E as <- <-.
  - vm_compute in E. by injection E as <- <-.
  - vm_compute in E. by injection E as <- <-.
Defined.

(** On its error paths [newUringWriter] closes the ring but never unmaps: when
    the mapping of the submission entries fails, the two ring mappings made
    before stay in the process, although nothing refers to them. *)
Theorem uring_error_leaks params n w k : bounded w -> up_singleMmap params = false -> k = length (w_trace w) ->
  let '(r, w') := newUringFds (fun i => (i <? k + 3)%nat) params n w in
  r = None /\ w_fds w' = w_fds w /\ w_maps w' = {[S (S (w_next w)); S (w_next w)]} ∪ w_maps w /\
  S (w_next w) ∉ w_maps w /\ S (S (w_next w)) ∉ w_maps w.
Proof.
  intros [_ Hb] Hs ->.
  assert (Hn : forall x, (w_next w <= x)%nat -> x ∉ w_fds w /\ x ∉ w_maps w).
  { intros x Hx. split; intros Hi; [specialize (Hb x (or_introl Hi))|specialize (Hb x (or_intror Hi))]; lia. }
  unfold newUringFds, mbind, sys_bind, sys_open, on_error, sys_mmap, answer, sret. rewrite Hs. cbn -[Nat.ltb].
  repeat (match goal with |- context [(?a <? ?b)%nat] => destruct (Nat.ltb_spec a b); try lia end; cbn -[Nat.ltb]; rewrite ?length_app; cbn -[Nat.ltb]).
  pose proof (Hn (w_next w) ltac:(lia)) as [Hfree _]. split; [done|]. split; [set_solver|]. split; [set_solver|].
  split; apply Hn; lia.
Qed.
Lemma uring_error_leaks_witness :
  let pr := {| up_sqEntries := 512; up_cqEntries := 1024; up_sqArray := 64; up_cqes := 128; up_singleMmap := false |} in
  bounded start_world /\ (newUringFds (fun i => (i <? 0 + 3)%nat) pr 512 start_world).1 = None.
Proof.
  intros pr. assert (Hb : bounded start_world) by (split; [cbn; lia|intros x [Hx|Hx]; by apply elem_of_empty in Hx]).
  split; [exact Hb|]. pose proof (uring_error_leaks pr 512 start_world 0 Hb eq_refl eq_refl) as H.
  destruct (newUringFds _ _ _ _) as [r w]. exact (proj1 H).
Defined.

(** ** The order of the set-up *)
Lemma bind_ok {A B} (m : Sys A) (k : A -> Sys B) w b w' : (m ≫= k) w = (Some b, w') ->
  exists a w1, m w = (Some a, w1) /\ k a w1 = (Some b, w').
Proof. unfold mbind, sys_bind. destruct (m w) as [[a|] w1]; [by exists a, w1|done]. Qed.
Lemma on_error_ok {A} (m : Sys A) c w a w' : on_error m c w = (Some a, w') -> m w = (Some a, w').
Proof. unfold on_error. by destruct (m w) as [[x|] w1]. Qed.
Lemma sys_open_ok ans c w a w' : sys_open ans c w = (Some a, w') -> w_trace w' = w_trace w ++ [c].
Proof. unfold sys_open. by destruct (answer ans w); [intros [= _ <-]|]. Qed.
Lemma sys_mmap_ok ans size w a w' : sys_mmap ans size w = (Some a, w') -> w_trace w' = w_trace w ++ [CMmap size].
Proof. unfold sys_mmap. by destruct (answer ans w); [intros [= _ <-]|]. Qed.
Lemma ioctls_ok ans fd rs w u w' : ioctls ans fd rs w = (Some u, w') -> w_trace w' = w_trace w ++ map (CIoctl fd) rs.
Proof.
  revert w. induction rs as [|r rs IH]; intros w; cbn [ioctls map]; [intros [= _ <-]; by rewrite app_nil_r|].
  intros (a & w1 & H1 & H2)%bind_ok. rewrite (IH _ H2). unfold ioctl, sys_call in H1. destruct (answer ans w); [|done].
  injection H1 as <- <-. cbn. by rewrite <- app_assoc.
Qed.

(** A vhost writer that was made has spoken to the kernel in exactly this order:
    the device, the two event descriptors, the arena, and the ten requests, the
    backend last, when the ring is described completely.  The one memory region
    of the table is the whole arena, every ring address lies in it with its
    table, and the number of entries is a power of two. *)
Theorem vhost_setup_order ans offered addr_of tunFd n bufSize w v w' : 0 <= bufSize ->
  newVhostWriter ans offered addr_of tunFd n bufSize w = (Some v, w') ->
  exists arena, vf_arena v = Some arena /\ entries_ok n = true /\
  let l := layoutArena n bufSize in let base := addr_of arena in
  w_trace w' = w_trace w ++ [COpen "/dev/vhost-net"; CEventfd; CEventfd; CMmap (total l)] ++
    map (CIoctl (vf_vhost v))
      [SetOwner; GetFeatures; SetFeatures (Z.land offered wanted); SetMemTable base (total l) base;
       SetVringNum n; SetVringBase 0; SetVringAddr base (base + availOff l) (base + usedOff l);
       SetVringKick (vf_kick v); SetVringCall (vf_call v); SetBackend tunFd] /\
  base + 16 * n <= base + availOff l /\ base + availOff l + (6 + 2 * n) <= base + usedOff l /\
  base + usedOff l + (6 + 8 * n) <= base + total l.
Proof.
  intros Hbuf. unfold newVhostWriter. destruct (entries_ok n) eqn:Hn; [|done]. cbn [negb].
  intros (vfd & w1 & H1 & H)%bind_ok. apply bind_ok in H as (k & w2 & H2 & H). apply bind_ok in H as (c & w3 & H3 & H).
  apply bind_ok in H as (arena & w4 & H4 & H). apply bind_ok in H as (u & w5 & H5 & H). injection H as <- <-.
  apply on_error_ok in H2, H3, H4, H5. apply sys_open_ok in H1, H2, H3. apply sys_mmap_ok in H4. apply ioctls_ok in H5.
  exists arena. split; [done|]. split; [done|]. cbn [vf_vhost vf_kick vf_call] in *.
  split; [rewrite H5, H4, H3, H2, H1, <- !app_assoc; reflexivity|].
  unfold entries_ok in Hn. apply andb_true_iff in Hn as [_ Hpos]. apply Z.ltb_lt in Hpos.
  destruct (layoutArena_disjoint n bufSize Hpos Hbuf) as (L1 & L2 & L3 & _ & _ & _ & L4 & _).
  specialize (L4 0 ltac:(lia)). split; [lia|]. split; [lia|]. nia.
Qed.
Lemma vhost_setup_order_witness :
  0 <= 4096 /\
  match newVhostWriter (fun _ => true) (2 ^ 32) (fun _ => 65536) 7 256 4096 start_world with
  | (Some v, w') => length (w_trace w') = 14%nat /\ last (w_trace w') = Some (CIoctl (vf_vhost v) (SetBackend 7)) /\ entries_ok 256 = true
  | _ => False
  end.
Proof.
  split; [lia|].
  destruct (newVhostWriter (fun _ => true) (2 ^ 32) (fun _ => 65536) 7 256 4096 start_world) as [[v|] w'] eqn:E; [|vm_compute in E; congruence].
  destruct (vhost_setup_order _ _ _ _ _ 4096 _ _ _ ltac:(lia) E) as (arena & _ & Hn & Ht & _).
  rewrite Ht. split; [reflexivity|]. split; [reflexivity|exact Hn].
Defined.
