(* ===== verification/Router.v ===== *)
(** * The forward router and the tunnel registry (main.go)

    [pickTunnel], the per-client channel registry [ipToTunChan], [forwardOne]
    with its four destinations, [handlePkt] and one round of the forward writer,
    and the reader of the TUN device.  A panic is [None].  The batches of one
    writer are a list with the WAN batch first: the primary NIC's LAN batch is
    the same object. *)
From S2P Require Import Prelude Words Nat Snat TcpParse Reseq Session Conn Egress.
Local Open Scope Z_scope.
Local Open Scope masqued_scope.

(** ** Prefixes of IPv4 addresses ([netip.Prefix.Contains]) *)

Record prefix := { p_addr : Z; p_bits : Z }.
Definition Contains (p : prefix) (ip : Z) : bool :=
  Z.shiftr ip (32 - p_bits p) =? Z.shiftr (p_addr p) (32 - p_bits p).

(** ** Tunnel channels and their registry *)

Definition tunChanCap : nat := 4096.
Record tunChan := { tq : list bytes; tclosed : bool }.

Abbreviation registry := (gmap Z (list (option nat))).

(** [pickTunnel]: from the hashed slot on, the first channel that is not nil. *)
Definition pickTunnel (chans : list (option nat)) (ip : bytes) : option nat :=
  match length chans with
  | O => None
  | n => let start := Z.to_nat (u32 (FlowHash ip) mod Z.of_nat n) in
         head (omap (fun i => mjoin (chans !! ((start + i) mod n)%nat)) (seq 0 n))
  end.

(** The registration in [handleConn]. *)
Definition register_chan (t : registry) (key : Z) (tunIdx tunCount : Z) (c : nat) : registry :=
  let chans := default [] (t !! key) in
  let n := Z.to_nat tunCount in
  let chans := if negb (length chans =? n)%nat
               then take n chans ++ replicate (n - length chans) None else chans in
  let chans := if (0 <=? tunIdx) && (tunIdx <? tunCount) then <[Z.to_nat tunIdx := Some c]> chans else chans in
  <[key := chans]> t.

(** The deregistration when [handleConn] exits. *)
Definition unregister_chan (t : registry) (key : Z) (tunIdx : Z) : registry :=
  let chans := default [] (t !! key) in
  let chans := if (0 <=? tunIdx) && (tunIdx <? Z.of_nat (length chans))
               then <[Z.to_nat tunIdx := None]> chans else chans in
  let live := existsb (fun c => match c with Some _ => true | None => false end) chans in
  (* with a live channel the entry keeps the slice, in which the slot is cleared *)
  if live then <[key := chans]> t else delete key t.

(** The tunnel coordinates taken from the request's headers. *)
Definition tunnel_coords (idx count : Z) : Z * Z :=
  let count := if count <? 1 then 1 else count in
  (if (idx <? 0) || (count <=? idx) then 0 else idx, count).

(** ** State of a forward writer *)

Inductive counter := C2cSends | C2cNoPeer | TunChanDrops | SnatFailDrops | FwdAddDrops | LanForwards | TunLoopSends.
Global Instance counter_eq_dec : EqDecision counter.
Proof. solve_decision. Defined.

Record RState (E P : Type) := {
  r_chans : gmap nat tunChan;
  ipToTunChan : registry;
  r_tun : list bytes;                        (* written to the TUN device *)
  r_nat : NatTable;
  r_batches : list (ForwardBatch E P);
  r_neigh : list (neighTable * gset bytes);  (* per egress NIC *)
  r_obs : OrderObserver;
  r_reseq : option ForwardReseq;
  r_count : counter -> Z
}.
Arguments r_chans {E P}. Arguments ipToTunChan {E P}. Arguments r_tun {E P}. Arguments r_nat {E P}.
Arguments r_batches {E P}. Arguments r_neigh {E P}. Arguments r_obs {E P}. Arguments r_reseq {E P}.
Arguments r_count {E P}. Arguments Build_RState {E P}.

(** What [handleConn] and the startup fix for a writer. *)
Record RConfig := {
  wanAddr : Z; serverTunIP : Z; virtPrefix : prefix;
  lanRoutes : list (prefix * option nat);  (* prefix, owning egress NIC *)
  lanXDP : bool; lanEgressNeedsMAC : bool;
  egAddrs : list Z;                        (* address of each egress NIC *)
  primaryNIC : nat; primaryGW : bytes;
  lanBatch : list (option nat)             (* per egress NIC: its batch, 0 = [batch] *)
}.

Section Router.
Context {E P : Type} `{fwdEgress E} `{FrameSubmitter P}.
Context (cfg : RConfig) (ackViaSocket : bool) (errno : list (bytes * bytes) -> Z).
Context (mapPut : gmap NatRevKey NatRevVal -> NatRevKey -> NatRevVal -> option (gmap NatRevKey NatRevVal)).
Context (arp : nat -> bytes -> option bytes).

Local Abbreviation St := (RState E P).

Definition set_chans (s : St) c : St := Build_RState c (ipToTunChan s) (r_tun s) (r_nat s) (r_batches s) (r_neigh s) (r_obs s) (r_reseq s) (r_count s).
Definition tun_write (s : St) (ip : bytes) : St := Build_RState (r_chans s) (ipToTunChan s) (r_tun s ++ [ip]) (r_nat s) (r_batches s) (r_neigh s) (r_obs s) (r_reseq s) (r_count s).
Definition set_nat (s : St) t : St := Build_RState (r_chans s) (ipToTunChan s) (r_tun s) t (r_batches s) (r_neigh s) (r_obs s) (r_reseq s) (r_count s).
Definition set_batches (s : St) b : St := Build_RState (r_chans s) (ipToTunChan s) (r_tun s) (r_nat s) b (r_neigh s) (r_obs s) (r_reseq s) (r_count s).
Definition set_neigh (s : St) n : St := Build_RState (r_chans s) (ipToTunChan s) (r_tun s) (r_nat s) (r_batches s) n (r_obs s) (r_reseq s) (r_count s).
Definition set_obs (s : St) o : St := Build_RState (r_chans s) (ipToTunChan s) (r_tun s) (r_nat s) (r_batches s) (r_neigh s) o (r_reseq s) (r_count s).
Definition set_reseq (s : St) r : St := Build_RState (r_chans s) (ipToTunChan s) (r_tun s) (r_nat s) (r_batches s) (r_neigh s) (r_obs s) r (r_count s).
Definition bump (c : counter) (s : St) : St := Build_RState (r_chans s) (ipToTunChan s) (r_tun s) (r_nat s) (r_batches s) (r_neigh s) (r_obs s) (r_reseq s)
  (fun k => if decide (k = c) then r_count s k + 1 else r_count s k).

(** The non-blocking send [select { case c <- p: default: }]: the answer is
    whether it was sent; sending on a closed channel panics. *)
Definition chan_send (s : St) (c : nat) (p : bytes) : option (bool * St) :=
  ch ← r_chans s !! c;
  if tclosed ch then None
  else if (length (tq ch) <? tunChanCap)%nat
  then Some (true, set_chans s (<[c := {| tq := tq ch ++ [p]; tclosed := false |}]> (r_chans s)))
  else Some (false, s).

(** [lanBatch[bi].Add(ip, mac)] and the count of its refusal. *)
Definition batch_add (s : St) (bi : nat) (a : nat) (ip : bytes) (mac : option bytes) : option St :=
  fb ← r_batches s !! bi;
  '(r, fb) ← ForwardBatch_Add ackViaSocket fb a ip mac;
  let s := set_batches s (<[bi := fb]> (r_batches s)) in
  Some (match r with Ok _ => s | Err _ => bump FwdAddDrops s end).

Definition forward_peer (s : St) (dst : Z) (ip : bytes) : option St :=
  match pickTunnel (default [] (ipToTunChan s !! dst)) ip with
  | None => Some (bump C2cNoPeer s)
  | Some c =>
      '(sent, s) ← chan_send s c (take packetBufSize ip);
      Some (bump (if (sent : bool) then C2cSends else TunChanDrops) s)
  end.

(** The NIC and batch of a LAN route; [None] is the kernel bridge. *)
Definition lan_target (eg : option nat) : option (nat * nat) :=
  if negb (lanXDP cfg) then None
  else i ← eg; b ← mjoin (lanBatch cfg !! i); Some (i, b).

Definition forward_lan (s : St) (now : Z) (eg : option nat) (a : nat) (ip : bytes) : option St :=
  match lan_target eg with
  | None => Some (bump LanForwards (tun_write s ip))
  | Some (i, bi) =>
      match ApplySNAT mapPut now ip (default 0 (egAddrs cfg !! i)) (r_nat s) with
      | (Err _, t) => Some (bump LanForwards (bump SnatFailDrops (set_nat s t)))
      | (Ok ip, t) =>
          let s := set_nat s t in
          if lanEgressNeedsMAC cfg then
            let '(nt, pend) := default (None, ∅) (r_neigh s !! i) in
            let '(mac, nt, pend) := LanNextHopMAC (arp i) nt pend (slice ip 16 20) in
            let s := set_neigh s (<[i := (nt, pend)]> (r_neigh s)) in
            match mac with
            | None => Some (bump LanForwards (tun_write s ip))
            | Some mac => s ← batch_add s bi a ip (Some mac); Some (bump LanForwards s)
            end
          else s ← batch_add s bi a ip None; Some (bump LanForwards s)
      end
  end.

Definition forward_wan (s : St) (now : Z) (a : nat) (ip : bytes) : option St :=
  let s := set_obs s (UploadOrder_Observe (r_obs s) ip) in
  match ApplySNAT mapPut now ip (wanAddr cfg) (r_nat s) with
  | (Err _, t) => Some (bump SnatFailDrops (set_nat s t))
  | (Ok ip, t) =>
      let s := set_nat s t in
      let nt := (default (None, ∅) (r_neigh s !! primaryNIC cfg)).1 in
      batch_add s 0 a ip (Some (NextHopMACForIP nt (primaryGW cfg) (slice ip 16 20)))
  end.

(** [forwardOne] of the packet [ip] held at address [a].  A packet of fewer than
    20 bytes is outside the model and [None] as well: [ip[16:20]] then takes in
    what the pooled buffer held before (the slice's capacity allows it). *)
Definition forwardOne (s : St) (now : Z) (a : nat) (ip : bytes) : option St :=
  if (length ip <? 20)%nat then None
  else
    let dst := be32 ip 16 in
    if (dst =? wanAddr cfg) || (dst =? serverTunIP cfg) then Some (tun_write s ip)
    else if Contains (virtPrefix cfg) dst then forward_peer s dst ip
    else match List.find (fun lr => Contains lr.1 dst) (lanRoutes cfg) with
         | Some lr => forward_lan s now lr.2 a ip
         | None => forward_wan s now a ip
         end.

Fixpoint forward_all (s : St) (now : Z) (a : nat) (pkts : list bytes) : option St :=
  match pkts with
  | [] => Some s
  | ip :: pkts => s ← forwardOne s now a ip; forward_all s now a pkts
  end.

(** [handlePkt]; the packets the resequencer emits besides the new one are its
    own copies of TCP segments, never an alias of the pooled buffer [a]. *)
Definition handlePkt (s : St) (now : Z) (a : nat) (ip : bytes) : option St :=
  match r_reseq s with
  | Some r => let '(out, r) := Push r ip now [] in forward_all (set_reseq s (Some r)) now a out
  | None => forwardOne s now a ip
  end.

Definition batch_full (s : St) : bool := match r_batches s with b :: _ => ForwardBatch_Full b | [] => false end.
Definition lanFull (s : St) : bool := existsb ForwardBatch_Full (tail (r_batches s)).

(** The inner loop of a round over the packets waiting in [pktChan] (with
    their buffers' addresses); what it leaves stays in the channel. *)
Fixpoint drain_round (s : St) (now : Z) (pkts : list (nat * bytes)) : option (St * list (nat * bytes)) :=
  match pkts with
  | [] => Some (s, [])
  | (a, ip) :: rest =>
      if batch_full s || lanFull s then Some (s, pkts)
      else s ← handlePkt s now a ip; drain_round s now rest
  end.

Definition flush_expired (s : St) (now : Z) (iter : list bytes) : option St :=
  match r_reseq s with
  | Some r => let '(out, r) := FlushExpired iter r now [] in forward_all (set_reseq s (Some r)) now 0 out
  | None => Some s
  end.

(** [batch.Flush] when it is not empty, then [flushLAN]. *)
Definition flush_batches (s : St) (heap : gmap nat bytes) : St :=
  set_batches s (map (fun b => if ForwardBatch_Empty b then b else (ForwardBatch_Flush errno heap b).2) (r_batches s)).

(** One wake-up of the forward writer on packet [ip], with [rest] waiting. *)
Definition writer_round (s : St) (now : Z) (a : nat) (ip : bytes) (rest : list (nat * bytes))
    (iter : list bytes) (heap : gmap nat bytes) : option (St * list (nat * bytes)) :=
  s ← handlePkt s now a ip;
  '(s, rest) ← drain_round s now rest;
  s ← flush_expired s now iter;
  Some (flush_batches s heap, rest).

(** One packet read from the TUN device: [buf] is the pooled buffer, [n] the
    length read. *)
Definition tun_read (s : St) (buf : bytes) (n : nat) : option St :=
  let pkt := take n buf in
  match pickTunnel (default [] (ipToTunChan s !! be32 buf 16)) pkt with
  | None => Some s
  | Some c => '(sent, s) ← chan_send s c pkt;
              Some (bump (if (sent : bool) then TunLoopSends else TunChanDrops) s)
  end.
End Router.
