(* ===== verification/RouterProps.v ===== *)
(** * Properties of the forward router and the tunnel registry *)
From S2P Require Import Prelude Words Nat Snat TcpParse Reseq Session Conn Egress EgressProps Router.
Local Open Scope Z_scope.
Local Open Scope masqued_scope.

Arguments tunChanCap : simpl never.
Arguments MaxSocketBatchSize : simpl never.
Arguments MaxXDPBatchSize : simpl never.

(** ** pickTunnel *)

Lemma head_omap_Some {A B} (f : A -> option B) l y : head (omap f l) = Some y -> exists x, x ∈ l /\ f x = Some y.
Proof.
  intros H. assert (Hy : y ∈ omap f l) by (destruct (omap f l) as [|z k]; [done|]; injection H as ->; by left).
  by apply list_elem_of_omap in Hy.
Qed.
Lemma head_omap_None {A B} (f : A -> option B) l : head (omap f l) = None -> forall x, x ∈ l -> f x = None.
Proof.
  intros H x Hx. destruct (f x) as [y|] eqn:E; [|done]. exfalso.
  assert (Hy : y ∈ omap f l) by (apply list_elem_of_omap; by exists x).
  destruct (omap f l); [by apply not_elem_of_nil in Hy|done].
Qed.

Lemma pickTunnel_Some chans ip c : pickTunnel chans ip = Some c -> exists i, chans !! i = Some (Some c).
Proof.
  unfold pickTunnel. destruct (length chans) as [|n] eqn:El; [done|]. intros H.
  apply head_omap_Some in H as (i & _ & Hi). exists ((Z.to_nat (u32 (FlowHash ip) mod Z.of_nat (S n)) + i) mod S n)%nat.
  by destruct (chans !! _) as [[d|]|]; cbn in Hi; [injection Hi as ->| |].
Qed.

Lemma rotation_covers n start j : (j < S n)%nat -> exists i, (i < S n)%nat /\ ((start + i) mod S n = j)%nat.
Proof.
  intros Hj. exists ((j + (S n - start mod S n)) mod S n)%nat. split; [apply Nat.mod_upper_bound; lia|].
  rewrite Nat.Div0.add_mod_idemp_r. pose proof (Nat.mod_upper_bound start (S n)).
  rewrite <- (Nat.Div0.add_mod_idemp_l start). 
  replace (start mod S n + (j + (S n - start mod S n)))%nat with (j + 1 * S n)%nat by lia.
  rewrite Nat.Div0.mod_add. by apply Nat.mod_small.
Qed.

Lemma pickTunnel_None chans ip : pickTunnel chans ip = None -> forall i c, chans !! i <> Some (Some c).
Proof.
  unfold pickTunnel. destruct (length chans) as [|n] eqn:El.
  - intros _ i c Hi. apply lookup_lt_Some in Hi. lia.
  - intros H j c Hj. assert (Hl : (j < S n)%nat) by (rewrite <- El; by eapply lookup_lt_Some).
    destruct (rotation_covers n (Z.to_nat (u32 (FlowHash ip) mod Z.of_nat (S n))) j Hl) as (i & Hi & Ei).
    pose proof (head_omap_None _ _ H i) as X. cbv beta in X. rewrite Ei, Hj in X.
    assert (i ∈ seq 0 (S n)) by (apply elem_of_seq; lia). by specialize (X ltac:(done)).
Qed.

(** ** The registry's history *)

Inductive reg_op := RegOp (key tunIdx tunCount : Z) (c : nat) | UnregOp (key tunIdx : Z).
Definition reg_step (t : registry) (o : reg_op) : registry :=
  match o with
  | RegOp key i n c => register_chan t key i n c
  | UnregOp key i => unregister_chan t key i
  end.
Definition reg_run (ops : list reg_op) : registry := foldl reg_step ∅ ops.

(** [c] was registered for slot [i] of [key], and the slot neither registered
    again nor cleared since. *)
Definition owner (ops : list reg_op) (key : Z) (i : nat) (c : nat) : Prop :=
  exists before after n, ops = before ++ RegOp key (Z.of_nat i) n c :: after /\
    Forall (fun o => match o with RegOp k j m _ => (k, j) <> (key, Z.of_nat i) \/ m <= j | UnregOp k j => (k, j) <> (key, Z.of_nat i) end) after.

Lemma owner_extend ops key i c o : owner ops key i c ->
  match o with RegOp k j m _ => (k, j) <> (key, Z.of_nat i) \/ m <= j | UnregOp k j => (k, j) <> (key, Z.of_nat i) end ->
  owner (ops ++ [o]) key i c.
Proof.
  intros (b & af & n & -> & Ha) Ho. exists b, (af ++ [o]), n. split; [by rewrite <- app_assoc|].
  apply Forall_app. by repeat constructor.
Qed.

Definition reg_slot (t : registry) (key : Z) (i : nat) : option nat := chans ← t !! key; mjoin (chans !! i).

Lemma register_slot t key i n c k j d : reg_slot (register_chan t key i n c) k j = Some d ->
  (k = key /\ Z.of_nat j = i /\ d = c) \/
  (reg_slot t k j = Some d /\ ((key, i) <> (k, Z.of_nat j) \/ n <= i)).
Proof.
  unfold reg_slot, register_chan. cbv zeta. destruct (decide (k = key)) as [->|Hk].
  2:{ rewrite lookup_insert_ne by done. intros H. right. split; [done|left; congruence]. }
  rewrite lookup_insert_eq. cbn [mbind option_bind].
  set (old := default [] (t !! key)). set (g := if negb _ then _ else old).
  assert (Hg : forall x, mjoin (g !! j) = Some x -> reg_slot t key j = Some x).
  { intros x Hx. assert (Ho : mjoin (old !! j) = Some x).
    { unfold g in Hx. destruct (negb _); [|done]. destruct ((take _ old ++ _) !! j) as [y|] eqn:Ey; [|done].
      apply lookup_app_Some in Ey as [Ey|[_ Ey]]; [by apply lookup_take_Some in Ey as [-> _]|].
      by apply lookup_replicate in Ey as [-> _]. }
    unfold reg_slot, old in *. by destruct (t !! key). }
  destruct ((0 <=? i) && (i <? n)) eqn:Ei; intros Hs.
  - bool_hyps. destruct (decide (j = Z.to_nat i)) as [->|Hj].
    + destruct (<[_ := _]> g !! _) as [y|] eqn:Ey; [|done].
      apply list_lookup_insert_Some in Ey as [(_ & <- & _)|[? _]]; [|done]. injection Hs as <-. left. split; [done|]. by split; [lia|].
    + rewrite list_lookup_insert_ne in Hs by done. right. split; [by apply Hg|left]. intros [= ->]. lia.
  - right. split; [by apply Hg|]. apply andb_false_iff in Ei. destruct Ei; bool_hyps; [|by right].
    left. intros [= ->]. lia.
Qed.

Lemma unregister_slot t key i k j d : reg_slot (unregister_chan t key i) k j = Some d ->
  reg_slot t k j = Some d /\ (key, i) <> (k, Z.of_nat j).
Proof.
  unfold reg_slot, unregister_chan. cbv zeta. set (old := default [] (t !! key)).
  set (g := if _ && _ then _ else old). intros Hs.
  assert (Hk : k <> key -> t !! k ≫= (fun chans => mjoin (chans !! j)) = Some d).
  { intros Hk. destruct (existsb _ g) in Hs; [by rewrite lookup_insert_ne in Hs|by rewrite lookup_delete_ne in Hs]. }
  destruct (decide (k = key)) as [->|Hne]; [|split; [by apply Hk|congruence]]. clear Hk.
  destruct (existsb _ g) in Hs; [rewrite lookup_insert_eq in Hs|by rewrite lookup_delete_eq in Hs].
  cbn [mbind option_bind] in Hs. unfold g in Hs. destruct (_ && _) eqn:Ei.
  - bool_hyps. destruct (decide (j = Z.to_nat i)) as [->|Hj].
    + destruct (<[_ := _]> old !! _) as [y|] eqn:Ey; [|done].
      by apply list_lookup_insert_Some in Ey as [(_ & <- & _)|[? _]].
    + rewrite list_lookup_insert_ne in Hs by done. split; [unfold old in Hs; by destruct (t !! key)|].
      intros [= ->]. lia.
  - split; [unfold old in Hs; by destruct (t !! key)|]. intros [= ->].
    destruct (old !! j) eqn:Ej; [|done]. apply lookup_lt_Some in Ej. apply andb_false_iff in Ei. destruct Ei; bool_hyps; lia.
Qed.

Lemma reg_owner ops key i c : reg_slot (reg_run ops) key i = Some c -> owner ops key i c.
Proof.
  revert key i c. induction ops as [|o ops IH] using rev_ind; intros key i c Hs.
  - unfold reg_slot in Hs. cbn in Hs. by rewrite lookup_empty in Hs.
  - unfold reg_run in Hs. rewrite foldl_app in Hs. cbn [foldl] in Hs. fold (reg_run ops) in Hs. destruct o as [k j n d|k j].
    + apply register_slot in Hs as [(-> & <- & ->)|[Hs Hne]]; [by exists ops, [], n|by apply owner_extend; [apply IH|]].
    + apply unregister_slot in Hs as [Hs Hne]. by apply owner_extend; [apply IH|].
Qed.

(** Tunnel choice for an inner address, after any history of tunnels
    opening and closing: the channel chosen is one that was registered for
    exactly that address, in a slot neither taken over nor cleared since - so a
    packet never enters another client's tunnel; none is chosen only when the
    address has no such channel left in the registry; and packets with the same
    flow hash take the same tunnel. *)
Theorem pickTunnel_owner ops dst p q :
  let chans := default [] (reg_run ops !! dst) in
  match pickTunnel chans p with
  | Some c => exists i, owner ops dst i c
  | None => forall i, reg_slot (reg_run ops) dst i = None
  end /\ (FlowHash p = FlowHash q -> pickTunnel chans q = pickTunnel chans p).
Proof.
  intros chans. split; [|intros E; unfold pickTunnel; by rewrite E].
  assert (Hc : forall i c, chans !! i = Some (Some c) -> reg_slot (reg_run ops) dst i = Some c).
  { intros i c Hi. unfold reg_slot, chans in *. destruct (reg_run ops !! dst); cbn in *; [by rewrite Hi|done]. }
  destruct (pickTunnel chans p) as [c|] eqn:Ep.
  - apply pickTunnel_Some in Ep as [i Hi]. exists i. by apply reg_owner, Hc.
  - intros i. destruct (reg_slot (reg_run ops) dst i) as [c|] eqn:Es; [|done]. exfalso.
    apply (pickTunnel_None _ _ Ep i c). unfold reg_slot, chans in *. destruct (reg_run ops !! dst) as [l|]; [|done].
    cbn in *. by destruct (l !! i) as [[d|]|]; cbn in Es; [injection Es as ->| |].
Qed.

(** A reconnect can lose its tunnel: a client's new connection registers
    its channel in the slot of the old one, and when the old connection's
    handler exits afterwards it clears the slot without looking whose it is; the
    registry then has no channel for the live connection. *)
Theorem exit_clobbers_successor :
  let before := [RegOp 10 0 1 100; RegOp 10 0 1 200] in
  let after := before ++ [UnregOp 10 0] in
  (reg_slot (reg_run before) 10 0 = Some 200%nat) /\
  (reg_run after !! 10 = None) /\ (forall p, pickTunnel (default [] (reg_run after !! 10)) p = None).
Proof. split; [reflexivity|]. split; [reflexivity|]. intros p. reflexivity. Qed.

(** ** Accounting *)

Definition chan_total (m : gmap nat tunChan) : nat := sum_list (map (fun kv => length (tq kv.2)) (map_to_list m)).

Lemma sum_list_perm l k : Permutation l k -> sum_list l = sum_list k.
Proof. induction 1; cbn; lia. Qed.

Lemma sum_list_insert {A} (f : A -> nat) (l : list A) i x y : l !! i = Some x ->
  (sum_list (map f (<[i := y]> l)) + f x = sum_list (map f l) + f y)%nat.
Proof.
  revert i. induction l as [|z l IH]; intros [|i] Hi; [done|done| |].
  - injection Hi as ->. change (<[0%nat := y]> (x :: l)) with (y :: l). cbn [map sum_list_with id]. unfold id. lia.
  - change (<[S i := y]> (z :: l)) with (z :: <[i := y]> l). cbn [map sum_list_with id].
    specialize (IH i Hi). unfold id in *. lia.
Qed.

Lemma chan_total_insert m c ch ch' : m !! c = Some ch ->
  (chan_total (<[c := ch']> m) + length (tq ch) = chan_total m + length (tq ch'))%nat.
Proof.
  intros Hc. unfold chan_total.
  assert (E : forall x, sum_list (map (fun kv => length (tq kv.2)) (map_to_list (<[c := x]> m))) =
    (length (tq x) + sum_list (map (fun kv => length (tq kv.2)) (map_to_list (delete c m))))%nat).
  { intros x. rewrite <- insert_delete_eq.
    rewrite (sum_list_perm _ _ (Permutation_map _ (map_to_list_insert (delete c m) c x (lookup_delete_eq _ _)))). done. }
  rewrite (E ch'). pose proof (E ch) as E'. rewrite insert_id in E' by done. rewrite E'. lia.
Qed.

Section Accounting.
Context {E : Type} `{EgressLog E} (cfg : RConfig) (ack : bool) (errno : list (bytes * bytes) -> Z).
Context (mapPut : gmap NatRevKey NatRevVal -> NatRevKey -> NatRevVal -> option (gmap NatRevKey NatRevVal)).
Context (arp : nat -> bytes -> option bytes).
Local Abbreviation St := (RState E (list bytes)).
Local Abbreviation FB := (ForwardBatch E (list bytes)).

(** Packets a batch has accepted so far. *)
Definition fb_total (b : FB) : nat :=
  length (fb_pump b) + xb_count (fb_xdp b) +
  match fb_alt b with Some e => length (eg_log e) | None => 0 end +
  length (sb_sent (fb_sock b)) + length (sb_msgs (fb_sock b)).
Definition fb_ok (b : FB) : Prop := forall e, fb_alt b = Some e -> eg_ok e.

(** Everything that was ever done with a packet: written to the TUN device,
    queued to a tunnel, accepted by a batch, or dropped and counted. *)
Definition total (s : St) : Z :=
  Z.of_nat (length (r_tun s) + chan_total (r_chans s) + sum_list (map fb_total (r_batches s))) +
  r_count s C2cNoPeer + r_count s TunChanDrops + r_count s SnatFailDrops + r_count s FwdAddDrops.

Definition dropped (c : counter) : Z :=
  match c with C2cNoPeer | TunChanDrops | SnatFailDrops | FwdAddDrops => 1 | _ => 0 end.

Lemma total_bump c s : total (bump c s) = total s + dropped c.
Proof. destruct c; unfold total; cbn [bump r_tun r_chans r_batches r_count]; repeat case_decide; try congruence; cbn [dropped]; lia. Qed.

Definition batches_ok (s : St) : Prop := Forall fb_ok (r_batches s).

Lemma ForwardBatch_Add_total (b b' : FB) a pkt mac r : fb_ok b -> ForwardBatch_Add ack b a pkt mac = Some (r, b') ->
  fb_ok b' /\ fb_total b' = (fb_total b + match r with Ok _ => 1 | Err _ => 0 end)%nat.
Proof.
  intros Hb Ha. unfold ForwardBatch_Add in Ha. cbv zeta in Ha.
  assert (Hraw : forall r s, SocketBatch_Add (fb_sock b) a pkt = Some (r, s) ->
    sb_sent s = sb_sent (fb_sock b) /\ length (sb_msgs s) = (length (sb_msgs (fb_sock b)) + match r with Ok _ => 1 | Err _ => 0 end)%nat).
  { intros r0 s Hs. unfold SocketBatch_Add in Hs. destruct (_ <=? _)%nat; [done|]. cbv zeta in Hs.
    destruct (IPVersion pkt =? 4); [destruct (length pkt <? 20)%nat|destruct (IPVersion pkt =? 6); [destruct (length pkt <? 40)%nat|]];
      injection Hs as <- <-; cbn; rewrite ?length_app; cbn; (split; [done|lia]). }
  assert (Hx : (SocketBatch_Add (fb_sock b) a pkt ≫= (fun '(r, s) => Some (r, Build_ForwardBatch (fb_xdp b) (fb_alt b) s (fb_pump b)))) = Some (r, b') ->
    fb_ok b' /\ fb_total b' = (fb_total b + match r with Ok _ => 1 | Err _ => 0 end)%nat).
  { intros Hs. destruct (SocketBatch_Add _ _ _) as [[r0 s]|] eqn:Es; [|done]. injection Hs as <- <-.
    destruct (Hraw r0 s eq_refl) as [H1 H2]. split; [done|]. unfold fb_total. cbn. rewrite H1, H2. lia. }
  destruct (isXDPEligible pkt); [|by apply Hx]. destruct (ack && _); [by apply Hx|]. clear Hx Hraw.
  destruct (fb_alt b) as [e|] eqn:Ea.
  - pose proof (eg_Add_law e pkt mac (Hb e Ea)) as L. destruct (eg_Add e pkt mac) as [r0 e']. injection Ha as <- <-.
    destruct L as [L1 L2]. split; [by intros ? [= <-]|]. unfold fb_total. cbn. rewrite Ea, L2, length_app.
    destruct r0; cbn; lia.
  - destruct (XDPBatch_Add _ _ _) as [r0 x] eqn:Ex. injection Ha as <- <-. split; [intros e; cbn; congruence|].
    unfold fb_total. cbn. rewrite Ea. unfold XDPBatch_Add in Ex. destruct (_ <=? _)%nat; [injection Ex as <- <-; lia|].
    destruct (ethertype_of pkt); [|injection Ex as <- <-; lia]. cbv zeta in Ex.
    destruct (_ <? _)%nat; injection Ex as <- <-; cbn; lia.
Qed.

Lemma batch_add_total (s s' : St) bi a ip mac : batches_ok s -> batch_add ack s bi a ip mac = Some s' ->
  batches_ok s' /\ total s' = total s + 1 /\ r_chans s' = r_chans s /\ r_tun s' = r_tun s /\ ipToTunChan s' = ipToTunChan s.
Proof.
  intros Hok Hs. unfold batch_add in Hs. destruct (r_batches s !! bi) as [fb|] eqn:Eb; [|done]. cbn in Hs.
  destruct (ForwardBatch_Add ack fb a ip mac) as [[r fb']|] eqn:Ea; [|done]. cbn in Hs. injection Hs as <-.
  assert (Hfb : fb_ok fb) by (unfold batches_ok in Hok; rewrite Forall_lookup in Hok; by eapply Hok).
  destruct (ForwardBatch_Add_total _ _ _ _ _ _ Hfb Ea) as [H1 H2].
  assert (Hsum : (sum_list (map fb_total (<[bi := fb']> (r_batches s))) + fb_total fb =
                  sum_list (map fb_total (r_batches s)) + fb_total fb')%nat).
  { by apply sum_list_insert. }
  assert (Hok' : Forall fb_ok (<[bi := fb']> (r_batches s))) by (by apply Forall_insert).
  set (s1 := set_batches s (<[bi := fb']> (r_batches s))).
  assert (Ht : total s1 = total s + match r with Ok _ => 1 | Err _ => 0 end)
    by (unfold total, s1; cbn [set_batches r_tun r_chans r_batches r_count]; destruct r; lia).
  destruct r; (split; [exact Hok'|]); (split; [|done]); rewrite ?total_bump, Ht; cbn [dropped]; lia.
Qed.

(** What happens to a packet that leaves towards a LAN or the WAN. *)
Inductive egress_effect (now : Z) (a : nat) (ip : bytes) (s s' : St) : Prop :=
  | ee_snat_failed addr e t : ApplySNAT mapPut now ip addr (r_nat s) = (Err e, t) ->
      r_tun s' = r_tun s -> r_batches s' = r_batches s -> r_count s' SnatFailDrops = r_count s SnatFailDrops + 1 ->
      egress_effect now a ip s s'
  | ee_bridged ip' : (ip' = ip \/ exists addr t, ApplySNAT mapPut now ip addr (r_nat s) = (Ok ip', t)) ->
      List.find (fun lr => Contains lr.1 (be32 ip 16)) (lanRoutes cfg) <> None ->
      r_tun s' = r_tun s ++ [ip'] -> r_batches s' = r_batches s -> egress_effect now a ip s s'
  | ee_batch addr ip' t bi fb mac r fb' : ApplySNAT mapPut now ip addr (r_nat s) = (Ok ip', t) ->
      r_batches s !! bi = Some fb -> ForwardBatch_Add ack fb a ip' mac = Some (r, fb') ->
      r_tun s' = r_tun s -> r_batches s' = <[bi := fb']> (r_batches s) -> egress_effect now a ip s s'.

Definition same_tunnels (s s' : St) : Prop := r_chans s' = r_chans s /\ ipToTunChan s' = ipToTunChan s.

(** A state that differs in the NAT table, neighbours and observer only. *)
Definition same_traffic (s s' : St) : Prop :=
  r_chans s' = r_chans s /\ ipToTunChan s' = ipToTunChan s /\ r_tun s' = r_tun s /\ r_batches s' = r_batches s /\ r_count s' = r_count s.

Lemma same_traffic_total s s' : same_traffic s s' -> total s' = total s.
Proof. intros (H1 & H2 & H3 & H4 & H5). unfold total. by rewrite H1, H3, H4, H5. Qed.

Lemma total_tun_write s ip : total (tun_write s ip) = total s + 1.
Proof. unfold total. cbn [tun_write r_tun r_chans r_batches r_count]. rewrite length_app. cbn [length]. lia. Qed.

Lemma batch_add_effect now a ip s s1 s' addr ip' t bi mac : batches_ok s -> same_traffic s s1 ->
  ApplySNAT mapPut now ip addr (r_nat s) = (Ok ip', t) -> batch_add ack s1 bi a ip' mac = Some s' ->
  total s' = total s + 1 /\ batches_ok s' /\ same_tunnels s s' /\ egress_effect now a ip s s'.
Proof.
  intros Hok Ht Hsnat Hs. pose proof (same_traffic_total _ _ Ht) as Etot. destruct Ht as (H1 & H2 & H3 & H4 & H5).
  assert (Hok1 : batches_ok s1) by (unfold batches_ok; by rewrite H4).
  destruct (batch_add_total _ _ _ _ _ _ Hok1 Hs) as (B1 & B2 & B3 & B4 & B5).
  split; [lia|]. split; [done|]. split; [split; congruence|].
  unfold batch_add in Hs. rewrite H4 in Hs. destruct (r_batches s !! bi) as [fb|] eqn:Eb; [|done]. cbn in Hs.
  destruct (ForwardBatch_Add ack fb a ip' mac) as [[r fb']|] eqn:Ea; [|done]. cbn in Hs. injection Hs as Hs.
  eapply ee_batch; [exact Hsnat|exact Eb|exact Ea|congruence|]. by destruct r; subst s'.
Qed.

Lemma forward_wan_effect s now a ip s' : batches_ok s -> forward_wan cfg ack mapPut s now a ip = Some s' ->
  total s' = total s + 1 /\ batches_ok s' /\ same_tunnels s s' /\ egress_effect now a ip s s'.
Proof.
  intros Hok Hs. unfold forward_wan in Hs. cbv zeta in Hs. cbn [set_obs r_nat] in Hs.
  destruct (ApplySNAT mapPut now ip (wanAddr cfg) (r_nat s)) as [[ip'|e] t] eqn:Es.
  - eapply batch_add_effect; [done| |exact Es|exact Hs]. done.
  - injection Hs as <-. rewrite total_bump. split; [done|]. split; [done|]. split; [done|].
    by eapply ee_snat_failed.
Qed.

Lemma forward_lan_effect s now eg a ip s' : batches_ok s ->
  List.find (fun lr => Contains lr.1 (be32 ip 16)) (lanRoutes cfg) <> None ->
  forward_lan cfg ack mapPut arp s now eg a ip = Some s' ->
  total s' = total s + 1 /\ batches_ok s' /\ same_tunnels s s' /\ egress_effect now a ip s s'.
Proof.
  intros Hok Hlan Hs. unfold forward_lan in Hs.
  assert (Hlift : forall r : option St, r ≫= (fun s => Some (bump LanForwards s)) = Some s' ->
    exists s2, r = Some s2 /\ s' = bump LanForwards s2).
  { intros [s2|] Hr; [|done]. injection Hr as <-. by exists s2. }
  assert (Hbump : forall s2, (total s2 = total s + 1 /\ batches_ok s2 /\ same_tunnels s s2 /\ egress_effect now a ip s s2) ->
    total (bump LanForwards s2) = total s + 1 /\ batches_ok (bump LanForwards s2) /\ same_tunnels s (bump LanForwards s2) /\
    egress_effect now a ip s (bump LanForwards s2)).
  { intros s2 (X1 & X2 & X3 & X4). rewrite total_bump. cbn [dropped]. split; [lia|]. split; [done|]. split; [done|].
    destruct X4; [eapply ee_snat_failed|eapply ee_bridged|eapply ee_batch]; done. }
  destruct (lan_target cfg eg) as [[i bi]|].
  2:{ injection Hs as <-. apply Hbump. split; [apply total_tun_write|]. split; [done|]. split; [done|].
      eapply ee_bridged; [by left|done..]. }
  destruct (ApplySNAT mapPut now ip (default 0 (egAddrs cfg !! i)) (r_nat s)) as [[ip'|e] t] eqn:Es.
  2:{ injection Hs as <-. apply Hbump. rewrite total_bump. split; [done|]. split; [done|]. split; [done|].
      by eapply ee_snat_failed. }
  cbv zeta in Hs. destruct (lanEgressNeedsMAC cfg).
  - destruct (default (None, ∅) _) as [nt pend]. destruct (LanNextHopMAC _ _ _ _) as [[mac nt'] pend'].
    destruct mac as [mac|].
    + apply Hlift in Hs as (s2 & Hs & ->). apply Hbump. by eapply batch_add_effect; [| |exact Es|exact Hs].
    + injection Hs as <-. apply Hbump. split; [rewrite total_tun_write; done|]. split; [done|]. split; [done|].
      eapply ee_bridged; [right; by eexists _, _|done..].
  - apply Hlift in Hs as (s2 & Hs & ->). apply Hbump. by eapply batch_add_effect; [| |exact Es|exact Hs].
Qed.

Lemma chan_send_effect (s : St) c p sent s' : chan_send s c p = Some (sent, s') ->
  exists ch, r_chans s !! c = Some ch /\ tclosed ch = false /\
    s' = if sent then set_chans s (<[c := {| tq := tq ch ++ [p]; tclosed := false |}]> (r_chans s)) else s.
Proof.
  unfold chan_send. destruct (r_chans s !! c) as [ch|]; [|done]. cbn [mbind option_bind].
  destruct (tclosed ch) eqn:Ec; [done|]. destruct (length (tq ch) <? tunChanCap)%nat; intros [= <- <-]; by exists ch.
Qed.

Lemma forward_peer_effect (s : St) dst ip s' : batches_ok s -> forward_peer s dst ip = Some s' ->
  total s' = total s + 1 /\ batches_ok s' /\ r_tun s' = r_tun s /\ r_batches s' = r_batches s /\ r_nat s' = r_nat s /\
  (r_chans s' = r_chans s \/
   exists c ch, pickTunnel (default [] (ipToTunChan s !! dst)) ip = Some c /\ r_chans s !! c = Some ch /\
     r_chans s' = <[c := {| tq := tq ch ++ [take packetBufSize ip]; tclosed := false |}]> (r_chans s)).
Proof.
  intros Hok Hs. unfold forward_peer in Hs. destruct (pickTunnel _ ip) as [c|] eqn:Ep.
  2:{ injection Hs as <-. rewrite total_bump. repeat (split; [done|]). by left. }
  destruct (chan_send s c _) as [[sent s1]|] eqn:Ec; [|done]. cbn [mbind option_bind] in Hs. injection Hs as <-.
  apply chan_send_effect in Ec as (ch & Hch & _ & ->). rewrite total_bump. destruct sent.
  - assert (Et : total (set_chans s (<[c := {| tq := tq ch ++ [take packetBufSize ip]; tclosed := false |}]> (r_chans s))) = total s + 1).
    { unfold total. cbn [set_chans r_tun r_chans r_batches r_count].
      pose proof (chan_total_insert (r_chans s) c ch {| tq := tq ch ++ [take packetBufSize ip]; tclosed := false |} Hch) as X.
      cbn [tq] in X. rewrite length_app in X. cbn [length] in X. lia. }
    cbn [dropped]. split; [lia|]. repeat (split; [done|]). right. by exists c, ch.
  - cbn [dropped]. split; [lia|]. repeat (split; [done|]). by left.
Qed.
End Accounting.

(** C9.  The forward router, whatever the packet and the egress: every packet
    is accounted for exactly once (written to the TUN device, queued to one
    tunnel, accepted by one batch, or dropped and counted); a packet for the
    server itself only goes to the TUN device, unchanged; a packet for a client's
    virtual address never leaves through the NAT, the TUN device or a batch, and
    enters only a tunnel of that address, unchanged up to the buffer size; any
    other packet touches no tunnel, and reaches a batch only after its source
    address was translated successfully. *)
Theorem forwardOne_routes {E} `{EgressLog E} cfg ack mapPut arp (s : RState E (list bytes)) now a ip s' :
  batches_ok s -> forwardOne cfg ack mapPut arp s now a ip = Some s' ->
  let dst := be32 ip 16 in
  total s' = total s + 1 /\ batches_ok s' /\
  if (dst =? wanAddr cfg) || (dst =? serverTunIP cfg) then s' = tun_write s ip
  else if Contains (virtPrefix cfg) dst then
    r_tun s' = r_tun s /\ r_batches s' = r_batches s /\ r_nat s' = r_nat s /\
    (r_chans s' = r_chans s \/
     exists c ch, pickTunnel (default [] (ipToTunChan s !! dst)) ip = Some c /\ r_chans s !! c = Some ch /\
       r_chans s' = <[c := {| tq := tq ch ++ [take packetBufSize ip]; tclosed := false |}]> (r_chans s))
  else same_tunnels s s' /\ egress_effect cfg ack mapPut now a ip s s'.
Proof.
  intros Hok Hs dst. unfold forwardOne in Hs. destruct (length ip <? 20)%nat; [done|]. cbv zeta in Hs. fold dst in Hs.
  destruct ((dst =? wanAddr cfg) || (dst =? serverTunIP cfg)).
  { injection Hs as <-. split; [apply total_tun_write|done]. }
  destruct (Contains (virtPrefix cfg) dst); [by apply forward_peer_effect|].
  destruct (List.find _ _) as [lr|] eqn:Ef.
  - eapply forward_lan_effect; [done| |exact Hs]. unfold dst in Ef. by rewrite Ef.
  - by eapply forward_wan_effect.
Qed.

(** ** A round of the forward writer *)

Section Rounds.
Context {E : Type} `{EgressLog E} (cfg : RConfig) (ack : bool) (errno : list (bytes * bytes) -> Z).
Context (mapPut : gmap NatRevKey NatRevVal -> NatRevKey -> NatRevVal -> option (gmap NatRevKey NatRevVal)).
Context (arp : nat -> bytes -> option bytes).
Local Abbreviation St := (RState E (list bytes)).
Local Abbreviation FB := (ForwardBatch E (list bytes)).

(** Every registered channel exists and is open. *)
Definition chans_open (s : St) : Prop :=
  forall key chans i c, ipToTunChan s !! key = Some chans -> chans !! i = Some (Some c) ->
    exists ch, r_chans s !! c = Some ch /\ tclosed ch = false.
Record writer_ok (s : St) : Prop := {
  wo_open : chans_open s;
  wo_ok : batches_ok s;
  wo_wan : (0 < length (r_batches s))%nat;
  wo_lan i b : lanBatch cfg !! i = Some (Some b) -> (b < length (r_batches s))%nat
}.
Definition room (s : St) : Prop := Forall (fun b => ForwardBatch_Full b = false) (r_batches s).

(** What one packet leaves as it was. *)
Definition kept (s s' : St) : Prop :=
  ipToTunChan s' = ipToTunChan s /\ r_reseq s' = r_reseq s /\ length (r_batches s') = length (r_batches s) /\
  (chans_open s -> chans_open s').

Lemma ForwardBatch_Add_total_fn (b : FB) a ip mac : ForwardBatch_Full b = false ->
  exists r b', ForwardBatch_Add ack b a ip mac = Some (r, b').
Proof.
  intros Hf. unfold ForwardBatch_Full in Hf. destruct (match fb_alt b with Some e => eg_Full e | None => false end); [done|].
  apply orb_false_iff in Hf as [_ Hf]. unfold SocketBatch_Full in Hf.
  assert (Hraw : exists r s, SocketBatch_Add (fb_sock b) a ip = Some (r, s)).
  { unfold SocketBatch_Add. rewrite Hf. cbv zeta. destruct (IPVersion ip =? 4); [destruct (length ip <? 20)%nat; by eexists _, _|].
    destruct (IPVersion ip =? 6); [destruct (length ip <? 40)%nat|]; by eexists _, _. }
  destruct Hraw as (r & sk & Hraw). unfold ForwardBatch_Add. cbv zeta.
  destruct (isXDPEligible ip); [|rewrite Hraw; by eexists _, _].
  destruct (ack && _); [rewrite Hraw; by eexists _, _|].
  destruct (fb_alt b) as [e|]; [destruct (eg_Add e ip mac)|destruct (XDPBatch_Add _ _ _)]; by eexists _, _.
Qed.

Lemma batch_add_ok (s : St) bi a ip mac : room s -> (bi < length (r_batches s))%nat ->
  exists s', batch_add ack s bi a ip mac = Some s' /\ kept s s'.
Proof.
  intros Hr Hb. unfold batch_add. destruct (lookup_lt_is_Some_2 _ _ Hb) as [fb Hfb]. rewrite Hfb. cbn [mbind option_bind].
  unfold room in Hr. rewrite Forall_lookup in Hr.
  destruct (ForwardBatch_Add_total_fn fb a ip mac (Hr _ _ Hfb)) as (r & fb' & ->). cbn [mbind option_bind].
  eexists. split; [done|]. unfold kept. destruct r; cbn; by rewrite length_insert.
Qed.

Lemma kept_trans s1 s2 s3 : kept s1 s2 -> kept s2 s3 -> kept s1 s3.
Proof. intros (A1 & A2 & A3 & A4) (B1 & B2 & B3 & B4). split; [congruence|]. split; [congruence|]. split; [lia|auto]. Qed.

Lemma chan_send_ok (s : St) key i c p : chans_open s -> (default [] (ipToTunChan s !! key)) !! i = Some (Some c) ->
  exists sent s', chan_send s c p = Some (sent, s') /\ kept s s'.
Proof.
  intros Ho Hi. destruct (ipToTunChan s !! key) as [chans|] eqn:Ek; [|done].
  destruct (Ho _ _ _ _ Ek Hi) as (ch & Hch & Hc). unfold chan_send. rewrite Hch. cbn [mbind option_bind]. rewrite Hc.
  destruct (_ <? _)%nat; eexists _, _; (split; [done|]); [|done]. unfold kept. cbn. repeat (split; [done|]).
  intros _ k l j d Hk Hj. cbn in *. destruct (Ho _ _ _ _ Hk Hj) as (ch' & Hch' & Hc').
  destruct (decide (c = d)) as [->|Hne]; [rewrite lookup_insert_eq; by eexists|rewrite lookup_insert_ne by done; by exists ch'].
Qed.

Lemma forward_peer_ok (s : St) dst ip : chans_open s -> exists s', forward_peer s dst ip = Some s' /\ kept s s'.
Proof.
  intros Ho. unfold forward_peer. destruct (pickTunnel _ ip) as [c|] eqn:Ep; [|by eexists].
  apply pickTunnel_Some in Ep as [i Hi]. destruct (chan_send_ok s _ _ _ (take packetBufSize ip) Ho Hi) as (sent & s1 & -> & Hk).
  by eexists.
Qed.

Lemma forward_lan_ok (s : St) now eg a ip : writer_ok s -> room s ->
  exists s', forward_lan cfg ack mapPut arp s now eg a ip = Some s' /\ kept s s'.
Proof.
  intros Hw Hr. unfold forward_lan. destruct (lan_target cfg eg) as [[i bi]|] eqn:El; [|by eexists].
  assert (Hbi : (bi < length (r_batches s))%nat).
  { unfold lan_target in El. destruct (negb _); [done|]. destruct eg as [j|]; [|done]. cbn [mbind option_bind] in El.
    destruct (lanBatch cfg !! j) as [[b|]|] eqn:Ej; cbn in El; [|done..]. injection El as <- <-. by eapply wo_lan. }
  destruct (ApplySNAT _ _ _ _ _) as [[ip'|e] t]; [|by eexists]. cbv zeta.
  assert (Hadd : forall s1 ip mac, r_batches s1 = r_batches s -> kept s s1 ->
    exists s', (batch_add ack s1 bi a ip mac ≫= (fun s => Some (bump LanForwards s))) = Some s' /\ kept s s').
  { intros s1 ip1 mac Hb Hk. destruct (batch_add_ok s1 bi a ip1 mac) as (s2 & -> & Hk2);
      [unfold room; by rewrite Hb|by rewrite Hb|]. cbn. eexists. split; [done|]. by eapply kept_trans. }
  destruct (lanEgressNeedsMAC cfg); [|by apply Hadd].
  destruct (default (None, ∅) _) as [nt pend]. destruct (LanNextHopMAC _ _ _ _) as [[[mac|] nt'] pend']; [by apply Hadd|by eexists].
Qed.

Lemma forwardOne_ok (s : St) now a ip : writer_ok s -> room s -> (20 <= length ip)%nat ->
  exists s', forwardOne cfg ack mapPut arp s now a ip = Some s' /\ kept s s'.
Proof.
  intros Hw Hr Hl. unfold forwardOne. replace (length ip <? 20)%nat with false by (symmetry; apply Nat.ltb_ge; lia). cbv zeta.
  destruct (_ || _); [by eexists|]. destruct (Contains _ _); [apply forward_peer_ok, Hw|].
  destruct (List.find _ _) as [lr|]; [by apply forward_lan_ok|]. unfold forward_wan. cbv zeta.
  destruct (ApplySNAT _ _ _ _ _) as [[ip'|e] t]; [|by eexists].
  set (s1 := set_nat _ t). destruct (batch_add_ok s1 0 a ip' (Some (NextHopMACForIP (default (None, ∅) (r_neigh s1 !! primaryNIC cfg)).1
    (primaryGW cfg) (slice ip' 16 20))) Hr (wo_wan _ Hw)) as (s2 & E2 & Hk). by exists s2.
Qed.

Lemma handlePkt_ok (s : St) now a ip : writer_ok s -> room s -> r_reseq s = None -> (20 <= length ip)%nat ->
  exists s', handlePkt cfg ack mapPut arp s now a ip = Some s' /\ writer_ok s' /\ r_reseq s' = None /\ total s' = total s + 1.
Proof.
  intros Hw Hr Hn Hl. unfold handlePkt. rewrite Hn. destruct (forwardOne_ok s now a ip Hw Hr Hl) as (s' & Hs & K1 & K2 & K3 & K4).
  exists s'. split; [done|].
  assert (Ht : total s' = total s + 1 /\ batches_ok s').
  { clear K1 K2 K3 K4. unfold forwardOne in Hs. destruct (length ip <? 20)%nat; [done|]. cbv zeta in Hs.
    destruct (_ || _); [injection Hs as <-; split; [apply total_tun_write|apply Hw]|].
    destruct (Contains _ _); [by destruct (forward_peer_effect _ _ _ _ (wo_ok _ Hw) Hs) as (? & ? & _)|].
    destruct (List.find _ _) eqn:Ef.
    - destruct (forward_lan_effect cfg ack mapPut arp _ _ _ _ _ _ (wo_ok _ Hw) ltac:(by rewrite Ef) Hs) as (? & ? & _). done.
    - by destruct (forward_wan_effect cfg ack mapPut _ _ _ _ _ (wo_ok _ Hw) Hs) as (? & ? & _). }
  destruct Ht as [Ht Hok]. split; [|split; [congruence|done]].
  constructor; [apply K4, Hw|done|rewrite K3; apply Hw|intros i b Hb; rewrite K3; by eapply wo_lan].
Qed.

Lemma not_full_room (s : St) : (0 < length (r_batches s))%nat -> batch_full s || lanFull s = false -> room s.
Proof.
  intros Hl Hf. apply orb_false_iff in Hf as [H1 H2]. unfold room, batch_full, lanFull in *.
  destruct (r_batches s) as [|b l]; [done|]. constructor; [done|]. apply List.Forall_forall. intros x Hx.
  destruct (ForwardBatch_Full x) eqn:Ex; [|done]. exfalso. rewrite <- not_true_iff_false in H2. apply H2, existsb_exists. by exists x.
Qed.

Lemma drain_round_ok now pkts : forall s : St, writer_ok s -> r_reseq s = None ->
  Forall (fun p => (20 <= length p.2)%nat) pkts ->
  exists s' done rest, drain_round cfg ack mapPut arp s now pkts = Some (s', rest) /\ pkts = done ++ rest /\
    writer_ok s' /\ r_reseq s' = None /\ total s' = total s + Z.of_nat (length done).
Proof.
  induction pkts as [|[a ip] pkts IH]; intros s Hw Hn Hl.
  - exists s, [], []. cbn. split; [done|]. repeat (split; [done|]). lia.
  - inversion Hl as [|? ? Hl1 Hl2]; subst. cbn [drain_round]. destruct (batch_full s || lanFull s) eqn:Ef.
    + exists s, [], ((a, ip) :: pkts). cbn [app length]. repeat (split; [done|]). lia.
    + destruct (handlePkt_ok s now a ip Hw (not_full_room s (wo_wan _ Hw) Ef) Hn Hl1) as (s1 & -> & Hw1 & Hn1 & Ht1).
      cbn [mbind option_bind]. destruct (IH s1 Hw1 Hn1 Hl2) as (s2 & d & rest & -> & -> & Hw2 & Hn2 & Ht2).
      exists s2, ((a, ip) :: d), rest. repeat (split; [done|]). rewrite Ht2, Ht1. cbn [length]. lia.
Qed.

Lemma ForwardBatch_Flush_total heap (b : FB) : fb_ok b ->
  let b' := (ForwardBatch_Flush errno heap b).2 in
  fb_ok b' /\ fb_total b' = fb_total b /\ fb_flushed b'.
Proof.
  intros Hb. unfold ForwardBatch_Flush.
  assert (Hx : let '(x, pump) := XDPBatch_Flush (fb_xdp b) (fb_pump b) true in
    (length pump + xb_count x = length (fb_pump b) + xb_count (fb_xdp b))%nat /\ XDPBatch_Empty x = true).
  { unfold XDPBatch_Flush. destruct (_ =? _)%nat eqn:E0; [done|]. rewrite log_fold, length_app, length_map, length_seq. cbn. split; [lia|done]. }
  destruct (XDPBatch_Flush (fb_xdp b) (fb_pump b) true) as [x pump]. destruct Hx as [X1 X2].
  assert (Hs : let sk := (SocketBatch_Flush errno heap (fb_sock b) true).2 in
    (length (sb_sent sk) + length (sb_msgs sk) = length (sb_sent (fb_sock b)) + length (sb_msgs (fb_sock b)))%nat /\ SocketBatch_Empty sk = true).
  { unfold SocketBatch_Flush. destruct (_ =? _)%nat eqn:E0; [done|]. cbn. rewrite length_app, length_map. split; [lia|done]. }
  destruct (SocketBatch_Flush errno heap (fb_sock b) true) as [e2 sk]. cbn [snd] in Hs. destruct Hs as [S1 S2].
  destruct (fb_alt b) as [e|] eqn:Ea.
  - pose proof (eg_Flush_law e (Hb e Ea)) as L. destruct (eg_Flush e) as [e3 e']. cbn [snd] in *. destruct L as (L1 & L2 & L3).
    split; [by intros ? [= <-]|]. unfold fb_total. cbn [fb_xdp fb_alt fb_sock fb_pump]. rewrite Ea, L2. split; [lia|].
    split; [done|]. split; [done|]. by intros ? [= <-].
  - cbn [snd]. split; [by intros ? [=]|]. unfold fb_total. cbn [fb_xdp fb_alt fb_sock fb_pump]. rewrite Ea. split; [lia|]. by split.
Qed.

Definition flushes (b b' : FB) : Prop := fb_ok b -> fb_ok b' /\ fb_total b' = fb_total b /\ fb_flushed b'.

Lemma flush_if_flushes heap (b : FB) : flushes b (if ForwardBatch_Empty b then b else (ForwardBatch_Flush errno heap b).2).
Proof. intros Hb. destruct (ForwardBatch_Empty b) eqn:Eb; [|by apply ForwardBatch_Flush_total]. split; [done|]. split; [done|]. by apply empty_flushed. Qed.

Lemma flushed_ok (s : St) bs : writer_ok s -> Forall2 flushes (r_batches s) bs ->
  writer_ok (set_batches s bs) /\ total (set_batches s bs) = total s /\ Forall fb_flushed bs.
Proof.
  intros [H1 H2 H3 H4] Hf. unfold batches_ok in H2. pose proof (Forall2_length _ _ _ Hf) as Hl.
  assert (Hbs : Forall fb_ok bs /\ sum_list (map fb_total bs) = sum_list (map fb_total (r_batches s)) /\ Forall fb_flushed bs).
  { clear - H2 Hf. induction Hf as [|b b' l l' Hb Hf IH]; [done|]. inversion H2 as [|? ? Hb0 Hl0]; subst.
    destruct (Hb Hb0) as (A1 & A2 & A3), (IH Hl0) as (B1 & B2 & B3). split; [by constructor|]. split; [|by constructor].
    cbn. unfold id in *. cbn in *. lia. }
  destruct Hbs as (B1 & B2 & B3). split; [constructor; cbn; [done|done|lia|intros i b Hb; rewrite <- Hl; by eapply H4]|]. split; [|done].
  unfold total. cbn [set_batches r_tun r_chans r_batches r_count]. by rewrite B2.
Qed.

Lemma flush_batches_ok (s : St) heap : writer_ok s ->
  writer_ok (flush_batches errno s heap) /\ total (flush_batches errno s heap) = total s /\
  Forall fb_flushed (r_batches (flush_batches errno s heap)).
Proof.
  intros Hw. unfold flush_batches. apply (flushed_ok s (map _ (r_batches s)) Hw).
  generalize (r_batches s). intros l. induction l; constructor; [apply flush_if_flushes|done].
Qed.

Lemma empty_room (s : St) : Forall fb_flushed (r_batches s) -> room s.
Proof. intros H1. eapply Forall_impl; [exact H1|]. intros b. apply flushed_room. Qed.
Lemma writer_round_ok (s : St) now a ip rest iter heap :
  writer_ok s -> Forall fb_flushed (r_batches s) -> r_reseq s = None ->
  Forall (fun p => (20 <= length p.2)%nat) ((a, ip) :: rest) ->
  exists s' done rest', writer_round cfg ack errno mapPut arp s now a ip rest iter heap = Some (s', rest') /\
    rest = done ++ rest' /\ writer_ok s' /\ Forall fb_flushed (r_batches s') /\
    r_reseq s' = None /\ total s' = total s + 1 + Z.of_nat (length done).
Proof.
  intros Hw He Hn Hl. inversion Hl as [|? ? Hl1 Hl2]; subst. cbn [snd] in Hl1. unfold writer_round.
  destruct (handlePkt_ok s now a ip Hw (empty_room s He) Hn Hl1) as (s1 & -> & Hw1 & Hn1 & Ht1).
  cbn [mbind option_bind].
  destruct (drain_round_ok now rest s1 Hw1 Hn1 Hl2) as (s2 & d & rest' & -> & -> & Hw2 & Hn2 & Ht2).
  cbn [mbind option_bind]. unfold flush_expired. rewrite Hn2. cbn [mbind option_bind].
  destruct (flush_batches_ok s2 heap Hw2) as (Hw3 & Ht3 & He3).
  eexists _, d, rest'. split; [done|]. split; [done|]. split; [done|]. split; [done|]. split; [done|]. lia.
Qed.
End Rounds.

(** Without the resequencer a round of the forward writer never fails:
    from flushed batches and open channels, whatever packets with a full header
    wait, the round ends without a panic, leaves every batch flushed and the
    state fit for the next round, processes a prefix of the waiting packets in
    order, and accounts for each of them exactly once. *)
Theorem writer_round_safe {E} `{EgressLog E} cfg ack errno mapPut arp (s : RState E (list bytes)) now a ip rest iter heap :
  writer_ok cfg s -> Forall fb_flushed (r_batches s) -> r_reseq s = None ->
  Forall (fun p => (20 <= length p.2)%nat) ((a, ip) :: rest) ->
  exists s' done rest', writer_round cfg ack errno mapPut arp s now a ip rest iter heap = Some (s', rest') /\
    rest = done ++ rest' /\ writer_ok cfg s' /\ Forall fb_flushed (r_batches s') /\
    r_reseq s' = None /\ total s' = total s + 1 + Z.of_nat (length done).
Proof. apply writer_round_ok. Qed.

(** ** Concrete writers *)

Definition cfg_router : RConfig := {|
  wanAddr := 16909060; serverTunIP := 167772161; virtPrefix := {| p_addr := 167772160; p_bits := 24 |};
  lanRoutes := []; lanXDP := true; lanEgressNeedsMAC := true; egAddrs := [16909060]; primaryNIC := 0;
  primaryGW := [2;0;0;0;0;1]; lanBatch := [Some 0%nat] |}.

Definition writer_example (rs : option ForwardReseq) : RState PacketBatch (list bytes) :=
  Build_RState {[5%nat := {| tq := []; tclosed := false |}]} {[167772169 := [Some 5%nat]]} [] (OpenNatTable ∅)
    [NewForwardBatch [] [2;0;0;0;0;9] [2;0;0;0;0;1] None] [(None, ∅)] NewOrderObserver rs (fun _ => 0).

(** A packet of one client to another, and a one-byte TCP segment to the WAN. *)
Definition peer_packet : bytes := [69;0;0;20;0;0;0;0;64;1;0;0;10;0;0;2;10;0;0;9].
Definition tiny_segment (seq : Z) : bytes :=
  [69;0;0;41;0;0;0;0;64;6;0;0;10;0;0;2;8;8;8;8; 156;64;1;187;0;0;0;seq;0;0;0;0;80;16;0;0;0;0;0;0; 65].

Local Abbreviation pb_eg := (PacketBatch_egress (fun _ => 0)).
Local Abbreviation pb_log := (PacketBatch_log (fun _ => 0)).
Local Abbreviation no_arp := (fun (_ : nat) (_ : bytes) => @None bytes).

Lemma writer_example_ok rs : @writer_ok PacketBatch pb_eg pb_log cfg_router (writer_example rs).
Proof.
  constructor.
  - intros key chans i c Hk Hi. cbn in Hk. apply lookup_singleton_Some in Hk as [<- <-]. destruct i as [|i]; [|done].
    injection Hi as <-. exists {| tq := []; tclosed := false |}. split; [apply lookup_singleton_eq|done].
  - constructor; [by intros e He|constructor].
  - cbn. lia.
  - intros [|i] b Hb; [injection Hb as <-; cbn; lia|done].
Qed.

Lemma writer_example_flushed rs : Forall (@fb_flushed PacketBatch pb_eg) (r_batches (writer_example rs)).
Proof. constructor; [|constructor]. split; [done|]. split; [done|]. by intros e He. Qed.

Lemma forwardOne_routes_witness :
  let s := writer_example None in
  exists s', @forwardOne PacketBatch (list bytes) pb_eg cfg_router true plain_put no_arp s 7 1 peer_packet = Some s' /\
    @total PacketBatch pb_eg pb_log s' = @total PacketBatch pb_eg pb_log s + 1 /\ r_batches s' = r_batches s.
Proof.
  intros s. destruct (@forwardOne _ _ pb_eg cfg_router true plain_put no_arp s 7 1 peer_packet) as [s'|] eqn:Es;
    [|vm_compute in Es; discriminate].
  destruct (@forwardOne_routes PacketBatch pb_eg pb_log cfg_router true plain_put no_arp s 7 1 peer_packet s') as (H1 & _ & H2).
  - exact (wo_ok _ _ (writer_example_ok None)).
  - exact Es.
  - exists s'. split; [reflexivity|]. split; [exact H1|]. exact (proj1 (proj2 H2)).
Defined.

Lemma writer_round_safe_witness :
  exists s' rest', @writer_round PacketBatch (list bytes) pb_eg log_submitter cfg_router true (fun _ => 0) plain_put no_arp
      (writer_example None) 7 1 (tiny_segment 100) [(2%nat, tiny_segment 102); (3%nat, peer_packet)] [] ∅ = Some (s', rest').
Proof.
  destruct (@writer_round_safe PacketBatch pb_eg pb_log cfg_router true (fun _ => 0) plain_put no_arp (writer_example None)
    7 1 (tiny_segment 100) [(2%nat, tiny_segment 102); (3%nat, peer_packet)] [] ∅) as (s' & d & rest' & H & _).
  - exact (writer_example_ok None).
  - exact (writer_example_flushed None).
  - reflexivity.
  - repeat (apply List.Forall_cons; [cbn; lia|]). apply List.Forall_nil.
  - exists s', rest'. exact H.
Defined.

(** Packets that fill the raw-socket batch up to its last two places, then two
    segments in the wrong order. *)
Definition overflow_rest : list (nat * bytes) :=
  repeat (2%nat, icmp_example) 1022 ++ [(3%nat, tiny_segment 102); (4%nat, tiny_segment 101)].

(** With the resequencer a round can overrun the raw-socket batch: the
    writer checks for room once per packet taken from its channel, but one
    packet can release several; here 1025 short packets, far fewer than the
    channel holds, make the last [Add] of the round index past the batch's 1024
    slots, which panics. *)
Theorem writer_round_overflow :
  let s := writer_example (Some (NewForwardReseq 64 2000000)) in
  @writer_ok PacketBatch pb_eg pb_log cfg_router s /\ Forall (@fb_flushed PacketBatch pb_eg) (r_batches s) /\
  Z.of_nat (length overflow_rest) < 8192 /\ Forall (fun p => (20 <= length p.2)%nat) overflow_rest /\
  @writer_round PacketBatch (list bytes) pb_eg log_submitter cfg_router true (fun _ => 0) plain_put no_arp
    s 7 1 (tiny_segment 100) overflow_rest [] ∅ = None.
Proof.
  intros s. split; [apply writer_example_ok|]. split; [apply writer_example_flushed|]. split; [reflexivity|]. split.
  - unfold overflow_rest. apply List.Forall_app. split; [apply List.Forall_forall; intros x Hx; apply repeat_spec in Hx as ->; cbn; lia|].
    repeat (apply List.Forall_cons; [cbn; lia|]). apply List.Forall_nil.
  - vm_compute. reflexivity.
Qed.
