(* ===== verification/Repo.v ===== *)
(** * The control plane's database (migration/1_create_tables.go, repository)

    The six tables with their constraints ([UNIQUE], foreign keys with
    [ON DELETE CASCADE], enforced because db.go opens the database with
    [_foreign_keys=on]), the SQL statements the repositories issue, and the
    repository functions as transactions: a function of the database that
    answers a value with the new database, or an error, on which the deferred
    rollback keeps the old one.  A table is a finite map from row ids; the row
    ids of the two link tables are read by nothing, so those are sets.  The
    driver itself ([Begin], [Prepare], [Commit]) is taken not to fail. *)
From S2P Require Import Prelude.
Local Open Scope Z_scope.

Record Client := { c_name : string; c_last_seen : Z; c_ip : option string }.
Record Resource := { r_name : string; r_value : string }.

Record database := {
  clients : gmap Z Client;
  resources : gmap Z Resource;
  roles : gmap Z string;
  clients_roles : gset (Z * Z);
  roles_resources : gset (Z * Z);
  dhcp : gmap Z (Z * Z)
}.

Inductive dbError := ErrNoRows | UniqueViolation | ForeignKeyViolation | ScanNull | BadAddress.
Global Instance dbError_eq_dec : EqDecision dbError.
Proof. solve_decision. Defined.

(** ** Transactions *)

Definition tx (A : Type) : Type := database -> result dbError (A * database).
Definition tx_ret {A} (a : A) : tx A := fun db => Ok (a, db).
Definition tx_err {A} (e : dbError) : tx A := fun _ => Err e.
Definition tx_bind {A B} (f : tx A) (k : A -> tx B) : tx B :=
  fun db => match f db with Ok (a, db) => k a db | Err e => Err e end.
Definition tx_get {A} (f : database -> A) : tx A := fun db => Ok (f db, db).
Definition tx_upd (f : database -> database) : tx unit := fun db => Ok (tt, f db).

Declare Scope tx_scope.
Delimit Scope tx_scope with tx.
Notation "'let*' x := f 'in' k" := (tx_bind f (fun x => k)) (at level 10, x pattern, f at level 100, k at level 200) : tx_scope.
Local Open Scope tx_scope.

Fixpoint tx_map {A B} (f : A -> tx B) (l : list A) : tx (list B) :=
  match l with
  | [] => tx_ret []
  | a :: l => let* b := f a in let* bs := tx_map f l in tx_ret (b :: bs)
  end.

(** A loop that extends an accumulated list. *)
Fixpoint tx_fold {A B} (f : B -> A -> tx B) (l : list A) (b : B) : tx B :=
  match l with
  | [] => tx_ret b
  | a :: l => let* b := f b a in tx_fold f l b
  end.

(** [Begin] ... [Commit] with the deferred [Rollback]. *)
Definition transact {A} (f : tx A) (db : database) : result dbError A * database :=
  match f db with Ok (a, db') => (Ok a, db') | Err e => (Err e, db) end.

(** ** Statements *)

Definition set_clients (db : database) c := Build_database c (resources db) (roles db) (clients_roles db) (roles_resources db) (dhcp db).
Definition set_resources (db : database) r := Build_database (clients db) r (roles db) (clients_roles db) (roles_resources db) (dhcp db).
Definition set_roles (db : database) r := Build_database (clients db) (resources db) r (clients_roles db) (roles_resources db) (dhcp db).
Definition set_clients_roles (db : database) l := Build_database (clients db) (resources db) (roles db) l (roles_resources db) (dhcp db).
Definition set_roles_resources (db : database) l := Build_database (clients db) (resources db) (roles db) (clients_roles db) l (dhcp db).
Definition set_dhcp (db : database) d := Build_database (clients db) (resources db) (roles db) (clients_roles db) (roles_resources db) d.

(** The row id SQLite gives an [integer PRIMARY KEY] that an INSERT leaves out:
    one more than the largest in the table. *)
Definition next_id {A} (t : gmap Z A) : Z := 1 + map_fold (fun id _ n => Z.max id n) 0 t.

(** A row that satisfies a [WHERE] clause (at most one does where the code reads
    one row: the columns are keys). *)
Definition find_row {A} (p : A -> bool) (t : gmap Z A) : option (Z * A) :=
  head (filter (fun kv => p kv.2 = true) (map_to_list t)).
Definition has_row {A} (p : A -> bool) (t : gmap Z A) : bool :=
  match find_row p t with Some _ => true | None => false end.

Definition insert_client (name : string) (ip : option string) : tx Z := fun db =>
  if has_row (fun c => String.eqb (c_name c) name) (clients db) then Err UniqueViolation
  else let id := next_id (clients db) in
       Ok (id, set_clients db (<[id := {| c_name := name; c_last_seen := 0; c_ip := ip |}]> (clients db))).
Definition insert_role (name : string) : tx Z := fun db =>
  if has_row (String.eqb name) (roles db) then Err UniqueViolation
  else let id := next_id (roles db) in Ok (id, set_roles db (<[id := name]> (roles db))).
Definition insert_resource (name value : string) : tx Z := fun db =>
  if has_row (fun r => String.eqb (r_name r) name) (resources db) then Err UniqueViolation
  else let id := next_id (resources db) in
       Ok (id, set_resources db (<[id := {| r_name := name; r_value := value |}]> (resources db))).

(** [INSERT INTO clients_roles] with [ON CONFLICT DO NOTHING]: the rows added. *)
Definition link_role (clientID roleID : Z) : tx Z := fun db =>
  if decide ((clientID, roleID) ∈ clients_roles db) then Ok (0, db)
  else if decide (is_Some (clients db !! clientID) /\ is_Some (roles db !! roleID))
  then Ok (1, set_clients_roles db ({[(clientID, roleID)]} ∪ clients_roles db))
  else Err ForeignKeyViolation.
(** The plain INSERT of the same table. *)
Definition insert_link (clientID roleID : Z) : tx unit :=
  let* n := link_role clientID roleID in if n =? 0 then tx_err UniqueViolation else tx_ret tt.
Definition unlink_role (clientID roleID : Z) : tx Z := fun db =>
  if decide ((clientID, roleID) ∈ clients_roles db)
  then Ok (1, set_clients_roles db (clients_roles db ∖ {[(clientID, roleID)]})) else Ok (0, db).
Definition link_resource (roleID resourceID : Z) : tx Z := fun db =>
  if decide ((roleID, resourceID) ∈ roles_resources db) then Ok (0, db)
  else if decide (is_Some (roles db !! roleID) /\ is_Some (resources db !! resourceID))
  then Ok (1, set_roles_resources db ({[(roleID, resourceID)]} ∪ roles_resources db))
  else Err ForeignKeyViolation.
Definition unlink_resource (roleID resourceID : Z) : tx Z := fun db =>
  if decide ((roleID, resourceID) ∈ roles_resources db)
  then Ok (1, set_roles_resources db (roles_resources db ∖ {[(roleID, resourceID)]})) else Ok (0, db).

(** [DELETE ... WHERE id = ?] with its cascades: the rows deleted. *)
Definition delete_client (id : Z) : tx Z := fun db =>
  match clients db !! id with
  | None => Ok (0, db)
  | Some _ => Ok (1, set_clients_roles (set_clients db (delete id (clients db))) (filter (fun l => l.1 <> id) (clients_roles db)))
  end.
Definition delete_role (id : Z) : tx Z := fun db =>
  match roles db !! id with
  | None => Ok (0, db)
  | Some _ => Ok (1, set_roles_resources (set_clients_roles (set_roles db (delete id (roles db)))
                       (filter (fun l => l.2 <> id) (clients_roles db))) (filter (fun l => l.1 <> id) (roles_resources db)))
  end.
Definition delete_resource (id : Z) : tx Z := fun db =>
  match resources db !! id with
  | None => Ok (0, db)
  | Some _ => Ok (1, set_roles_resources (set_resources db (delete id (resources db))) (filter (fun l => l.2 <> id) (roles_resources db)))
  end.
(** [DELETE FROM roles WHERE name = ?]. *)
Definition delete_role_named (name : string) : tx Z := fun db =>
  match find_row (String.eqb name) (roles db) with Some (id, _) => delete_role id db | None => Ok (0, db) end.

(** [UPDATE clients/roles/resources SET name = ? WHERE id = ?]. *)
Definition rename_client (id : Z) (name : string) : tx unit := fun db =>
  match clients db !! id with
  | None => Ok (tt, db)
  | Some c => if has_row (fun c => String.eqb (c_name c) name) (delete id (clients db)) then Err UniqueViolation
              else Ok (tt, set_clients db (<[id := {| c_name := name; c_last_seen := c_last_seen c; c_ip := c_ip c |}]> (clients db)))
  end.
Definition rename_role (id : Z) (name : string) : tx unit := fun db =>
  match roles db !! id with
  | None => Ok (tt, db)
  | Some _ => if has_row (String.eqb name) (delete id (roles db)) then Err UniqueViolation
              else Ok (tt, set_roles db (<[id := name]> (roles db)))
  end.
Definition rename_resource (id : Z) (name : string) : tx unit := fun db =>
  match resources db !! id with
  | None => Ok (tt, db)
  | Some r => if has_row (fun r => String.eqb (r_name r) name) (delete id (resources db)) then Err UniqueViolation
              else Ok (tt, set_resources db (<[id := {| r_name := name; r_value := r_value r |}]> (resources db)))
  end.
(** [UPDATE roles SET name = ? WHERE name = ?]. *)
Definition rename_role_named (new old : string) : tx unit := fun db =>
  match find_row (String.eqb old) (roles db) with Some (id, _) => rename_role id new db | None => Ok (tt, db) end.
Definition set_client_ip (id : Z) (ip : option string) : tx unit := fun db =>
  match clients db !! id with
  | None => Ok (tt, db)
  | Some c => Ok (tt, set_clients db (<[id := {| c_name := c_name c; c_last_seen := c_last_seen c; c_ip := ip |}]> (clients db)))
  end.

(** The [dhcp] table: both bounds are UNIQUE columns. *)
Definition dhcp_conflict (d : gmap Z (Z * Z)) (first last : Z) : bool :=
  has_row (fun r => (r.1 =? first) || (r.2 =? last)) d.
Definition insert_dhcp (first last : Z) : tx unit := fun db =>
  if dhcp_conflict (dhcp db) first last then Err UniqueViolation
  else Ok (tt, set_dhcp db (<[next_id (dhcp db) := (first, last)]> (dhcp db))).
Definition update_dhcp (id first last : Z) : tx unit := fun db =>
  match dhcp db !! id with
  | None => Ok (tt, db)
  | Some _ => if dhcp_conflict (delete id (dhcp db)) first last then Err UniqueViolation
              else Ok (tt, set_dhcp db (<[id := (first, last)]> (dhcp db)))
  end.
Definition delete_dhcp (id : Z) : tx unit := tx_upd (fun db => set_dhcp db (delete id (dhcp db))).

(** [SELECT id, first_ip, last_ip FROM dhcp ORDER BY first_ip ASC], first row. *)
Definition lowest_range (d : gmap Z (Z * Z)) : option (Z * (Z * Z)) :=
  foldl (fun best kv => match best with
    | None => Some kv
    | Some b => if kv.2.1 <? b.2.1 then Some kv else best
    end) None (map_to_list d).

(** The seeded database of [Migration1.Run]: [first] is already past the
    gateway. *)
Definition seeded (first last : Z) : database :=
  Build_database ∅ ∅ ∅ ∅ ∅ {[1 := (first, last)]}.

(** ** The repositories *)

Section Repository.
(** The text of an address ([IntToIPv4(n).String()]) and the number [ParseIP]
    answers for a text: [Ip.ip_text] and [Ip.ip_num] in every theorem. *)
Variable ip_text : Z -> string.
Variable ip_num : string -> option Z.

Definition client_id_by_name (name : string) : tx Z := fun db =>
  match find_row (fun c => String.eqb (c_name c) name) (clients db) with Some (id, _) => Ok (id, db) | None => Err ErrNoRows end.
Definition role_id_by_name (name : string) : tx Z := fun db =>
  match find_row (String.eqb name) (roles db) with Some (id, _) => Ok (id, db) | None => Err ErrNoRows end.
Definition resource_id_by_name (name : string) : tx Z := fun db =>
  match find_row (fun r => String.eqb (r_name r) name) (resources db) with Some (id, _) => Ok (id, db) | None => Err ErrNoRows end.

(** [rows.Scan] of a client into strings fails on a NULL address. *)
Definition scan_client (id : Z) (c : Client) : tx (Z * Client) :=
  match c_ip c with Some _ => tx_ret (id, c) | None => tx_err ScanNull end.
Definition GetAllClients : tx (list (Z * Client)) :=
  let* rows := tx_get (fun db => map_to_list (clients db)) in tx_map (fun kv => scan_client kv.1 kv.2) rows.
Definition GetClientByID (id : Z) : tx (Z * Client) :=
  let* c := tx_get (fun db => clients db !! id) in
  match c with Some c => scan_client id c | None => tx_err ErrNoRows end.

(** The allocation both client constructors start with: the lowest free
    address. *)
Definition alloc_ip : tx string :=
  let* row := tx_get (fun db => lowest_range (dhcp db)) in
  match row with
  | None => tx_err ErrNoRows
  | Some (id, (first, last)) =>
      let* _ := (if first =? last then delete_dhcp id else update_dhcp id (first + 1) last) in
      tx_ret (ip_text first)
  end.

Definition CreateClientsWithRoles (clientNames : list string) : tx (list Z) :=
  tx_map (fun name =>
    let* ip := alloc_ip in
    let* clientID := insert_client name (Some ip) in
    let* roleID := insert_role name in
    let* _ := insert_link clientID roleID in
    tx_ret clientID) clientNames.

Definition UpsertClients (clientNames : list string) : tx (list Z) :=
  tx_map (fun name => let* ip := alloc_ip in insert_client name (Some ip)) clientNames.

Definition AssignIPToClient (clientID : Z) : tx string :=
  let* c := tx_get (fun db => clients db !! clientID) in
  match c with
  | None => tx_err ErrNoRows
  | Some c =>
      match (ip ← c_ip c; if String.eqb ip "" then None else Some ip) with
      | Some ip => tx_ret ip
      | None =>
          let* row := tx_get (fun db => lowest_range (dhcp db)) in
          match row with
          | None => tx_err ErrNoRows
          | Some (id, (first, last)) =>
              let* _ := update_dhcp id (first + 1) last in
              let* _ := set_client_ip clientID (Some (ip_text first)) in
              tx_ret (ip_text first)
          end
      end
  end.

(** The part of [DeleteClients] that returns the address to the pool. *)
Definition release_ip (ip : Z) : tx unit :=
  let* r1 := tx_get (fun db => find_row (fun r => r.2 =? ip - 1) (dhcp db)) in
  let* r2 := tx_get (fun db => find_row (fun r => r.1 =? ip + 1) (dhcp db)) in
  match r1, r2 with
  | None, None => insert_dhcp ip ip
  | Some (id1, (f1, l1)), None => update_dhcp id1 f1 (l1 + 1)
  | None, Some (id2, (f2, l2)) => update_dhcp id2 (f2 - 1) l2
  | Some (id1, (f1, l1)), Some (id2, (f2, l2)) =>
      let* _ := delete_dhcp id1 in let* _ := delete_dhcp id2 in insert_dhcp f1 l2
  end.

Definition delete_one_client (deleted : list Z) (id : Z) : tx (list Z) :=
  let* row := GetClientByID id in
  match ip_num (default ""%string (c_ip row.2)) with
  | None => tx_err BadAddress
  | Some ip =>
      let* _ := release_ip ip in
      let* n := delete_client id in
      let* _ := delete_role_named (c_name row.2) in
      tx_ret (if 0 <? n then deleted ++ [id] else deleted)
  end.
Definition DeleteClients (clientIDs : list Z) : tx (list Z) := tx_fold delete_one_client clientIDs [].

(** The double loops of the link functions: [f a b] is the statement's row
    count, and an id is reported once ([seen]). *)
Definition link_loop (f : Z -> Z -> tx Z) (outer inner : list Z) : tx (list Z) :=
  tx_fold (fun acc a => tx_fold (fun acc b =>
    let* n := f a b in
    tx_ret (if (0 <? n) && negb (bool_decide (b ∈ acc)) then acc ++ [b] else acc)) inner acc) outer [].

Definition AssignRolesToClients (roleIDs clientIDs : list Z) : tx (list Z) := link_loop link_role clientIDs roleIDs.
Definition UnassignRolesToClients (roleIDs clientIDs : list Z) : tx (list Z) := link_loop unlink_role clientIDs roleIDs.
Definition AssignResourcesToRoles (resourceIDs roleIDs : list Z) : tx (list Z) := link_loop link_resource roleIDs resourceIDs.
Definition UnassignResourcesToRoles (resourceIDs roleIDs : list Z) : tx (list Z) := link_loop unlink_resource roleIDs resourceIDs.

(** The by-name variants: one left-hand entity, ids appended whenever a row
    changed. *)
Definition link_by_name (resolve : string -> tx Z) (f : Z -> Z -> tx Z) (id : Z) (names : list string) : tx (list Z) :=
  tx_fold (fun acc name =>
    let* other := resolve name in
    let* n := f id other in
    tx_ret (if 0 <? n then acc ++ [other] else acc)) names [].

Definition AssignRolesToClientByName (clientName : string) (roleNames : list string) : tx (list Z) :=
  let* id := client_id_by_name clientName in link_by_name role_id_by_name link_role id roleNames.
Definition UnassignRolesToClientByName (clientName : string) (roleNames : list string) : tx (list Z) :=
  let* id := client_id_by_name clientName in link_by_name role_id_by_name unlink_role id roleNames.
Definition AssignResourcesToRoleByName (roleName : string) (resourceNames : list string) : tx (list Z) :=
  let* id := role_id_by_name roleName in link_by_name resource_id_by_name link_resource id resourceNames.
Definition UnassignResourcesToRoleByName (roleName : string) (resourceNames : list string) : tx (list Z) :=
  let* id := role_id_by_name roleName in link_by_name resource_id_by_name unlink_resource id resourceNames.

Definition UpdateClientName (clientID : Z) (newName : string) : tx bool :=
  let* c := tx_get (fun db => clients db !! clientID) in
  match c with
  | None => tx_err ErrNoRows
  | Some c =>
      let* _ := rename_client clientID newName in
      let* _ := rename_role_named newName (c_name c) in
      tx_ret true
  end.
Definition UpdateRoleName (roleID : Z) (newName : string) : tx bool := let* _ := rename_role roleID newName in tx_ret true.
Definition UpdateResourceName (resourceID : Z) (newName : string) : tx bool := let* _ := rename_resource resourceID newName in tx_ret true.

Definition UpsertRoles (roleNames : list string) : tx (list Z) := tx_map insert_role roleNames.
Definition UpsertResources (rs : list (string * string)) : tx (list Z) := tx_map (fun r => insert_resource r.1 r.2) rs.

Definition delete_loop (f : Z -> tx Z) (ids : list Z) : tx (list Z) :=
  tx_fold (fun acc id => let* n := f id in tx_ret (if 0 <? n then acc ++ [id] else acc)) ids [].
Definition DeleteRoles (roleIDs : list Z) : tx (list Z) := delete_loop delete_role roleIDs.
Definition DeleteResources (resourceIDs : list Z) : tx (list Z) := delete_loop delete_resource resourceIDs.

Definition GetAllRoles : tx (list (Z * string)) := tx_get (fun db => map_to_list (roles db)).
Definition GetRoleByID (id : Z) : tx (Z * string) :=
  let* r := tx_get (fun db => roles db !! id) in match r with Some n => tx_ret (id, n) | None => tx_err ErrNoRows end.
Definition GetAllResources : tx (list (Z * Resource)) := tx_get (fun db => map_to_list (resources db)).
Definition GetResourceByID (id : Z) : tx (Z * Resource) :=
  let* r := tx_get (fun db => resources db !! id) in match r with Some n => tx_ret (id, n) | None => tx_err ErrNoRows end.

(** The joins, in some order of the rows. *)
Definition GetClientRoles (clientID : Z) : tx (list (Z * string)) := tx_get (fun db =>
  omap (fun cr => if cr.1 =? clientID then n ← roles db !! cr.2; Some (cr.2, n) else None) (elements (clients_roles db))).
Definition GetClientResources (clientID : Z) : tx (list (Z * Resource)) := tx_get (fun db =>
  mjoin (map (fun cr => if cr.1 =? clientID
    then omap (fun rr => if rr.1 =? cr.2 then r ← resources db !! rr.2; Some (rr.2, r) else None) (elements (roles_resources db))
    else []) (elements (clients_roles db)))).

Definition GetAllAvailableIPRanges : tx (list (Z * (Z * Z))) := tx_get (fun db => map_to_list (dhcp db)).
Definition ResetDHCP (firstIP lastIP : Z) : tx bool :=
  let* _ := tx_upd (fun db => set_dhcp db ∅) in
  let* _ := insert_dhcp firstIP lastIP in
  let* _ := tx_upd (fun db => set_clients db ((fun c => {| c_name := c_name c; c_last_seen := c_last_seen c; c_ip := None |}) <$> clients db)) in
  tx_ret true.

(** ** Every call of the management API and of a connecting client *)

Inductive repo_op :=
  | OpCreate (names : list string) | OpUpsertClients (names : list string) | OpAssignIP (id : Z)
  | OpDeleteClients (ids : list Z)
  | OpAssignRoles (roleIDs clientIDs : list Z) | OpUnassignRoles (roleIDs clientIDs : list Z)
  | OpAssignRolesByName (c : string) (rs : list string) | OpUnassignRolesByName (c : string) (rs : list string)
  | OpAssignResources (resIDs roleIDs : list Z) | OpUnassignResources (resIDs roleIDs : list Z)
  | OpAssignResourcesByName (r : string) (rs : list string) | OpUnassignResourcesByName (r : string) (rs : list string)
  | OpRenameClient (id : Z) (n : string) | OpRenameRole (id : Z) (n : string) | OpRenameResource (id : Z) (n : string)
  | OpUpsertRoles (names : list string) | OpUpsertResources (rs : list (string * string))
  | OpDeleteRoles (ids : list Z) | OpDeleteResources (ids : list Z)
  | OpResetDHCP (firstIP lastIP : Z).

Definition op_db {A} (f : tx A) (db : database) : database := (transact f db).2.

Definition repo_step (db : database) (o : repo_op) : database :=
  match o with
  | OpCreate names => op_db (CreateClientsWithRoles names) db
  | OpUpsertClients names => op_db (UpsertClients names) db
  | OpAssignIP id => op_db (AssignIPToClient id) db
  | OpDeleteClients ids => op_db (DeleteClients ids) db
  | OpAssignRoles r c => op_db (AssignRolesToClients r c) db
  | OpUnassignRoles r c => op_db (UnassignRolesToClients r c) db
  | OpAssignRolesByName c rs => op_db (AssignRolesToClientByName c rs) db
  | OpUnassignRolesByName c rs => op_db (UnassignRolesToClientByName c rs) db
  | OpAssignResources r c => op_db (AssignResourcesToRoles r c) db
  | OpUnassignResources r c => op_db (UnassignResourcesToRoles r c) db
  | OpAssignResourcesByName c rs => op_db (AssignResourcesToRoleByName c rs) db
  | OpUnassignResourcesByName c rs => op_db (UnassignResourcesToRoleByName c rs) db
  | OpRenameClient id n => op_db (UpdateClientName id n) db
  | OpRenameRole id n => op_db (UpdateRoleName id n) db
  | OpRenameResource id n => op_db (UpdateResourceName id n) db
  | OpUpsertRoles names => op_db (UpsertRoles names) db
  | OpUpsertResources rs => op_db (UpsertResources rs) db
  | OpDeleteRoles ids => op_db (DeleteRoles ids) db
  | OpDeleteResources ids => op_db (DeleteResources ids) db
  | OpResetDHCP a b => op_db (ResetDHCP a b) db
  end.
Definition repo_run (ops : list repo_op) (db : database) : database := foldl repo_step db ops.
End Repository.
