(* ===== verification/Mgmt.v ===== *)
(** * The management API (management.go, service, request, response)

    The routes of [RunManagementService] with their handlers, behind net/http's
    ServeMux, which redirects a path that is not clean.  A request has the segments
    of its escaped path and its body as a JSON value ([None]: the text is not
    JSON); decoding a value into a request's struct is modelled, the JSON scanner
    and printer are not, nor the requests the HTTP server refuses itself.  The services are one-line calls of the
    repositories. *)
From Stdlib Require Import Ascii.
From S2P Require Import Prelude Ip Repo.
Local Open Scope Z_scope.

(** ** JSON values and the structs of package request *)

#[warnings="-register-all"]
Inductive json :=
  | JNull | JBool (b : bool) | JInt (n : Z) | JFrac | JStr (s : string)
  | JArr (l : list json) | JObj (l : list (string * json)).

Definition lower (c : ascii) : ascii :=
  let n := nat_of_ascii c in if (65 <=? n)%nat && (n <=? 90)%nat then ascii_of_nat (n + 32) else c.
Fixpoint string_lower (s : string) : string :=
  match s with EmptyString => EmptyString | String c s => String (lower c) (string_lower s) end.

(** A field's value: keys match without regard to case (an object is taken to
    have each key once); absent and [null] leave the zero value. *)
Definition field (k : string) (o : list (string * json)) : json :=
  match List.find (fun kv => String.eqb (string_lower kv.1) k) o with Some kv => kv.2 | None => JNull end.

Definition int64_ok (n : Z) : bool := (-9223372036854775808 <=? n) && (n <=? 9223372036854775807).
Definition as_string (v : json) : option string :=
  match v with JNull => Some ""%string | JStr s => Some s | _ => None end.
Definition as_int64 (v : json) : option Z :=
  match v with JNull => Some 0 | JInt n => if int64_ok n then Some n else None | _ => None end.
Definition as_list {A} (f : json -> option A) (v : json) : option (list A) :=
  match v with JNull => Some [] | JArr l => mapM f l | _ => None end.
(** The fields of an object; a [null] document leaves the struct as it is. *)
Definition as_fields (v : option json) : option (list (string * json)) :=
  match v with Some (JObj o) => Some o | Some JNull => Some [] | _ => None end.

Definition decodeStrings (k : string) (v : option json) : option (list string) := o ← as_fields v; as_list as_string (field k o).
Definition decodeInts (k : string) (v : option json) : option (list Z) := o ← as_fields v; as_list as_int64 (field k o).
Definition decodeName (v : option json) : option string := o ← as_fields v; as_string (field "name" o).
Definition decodeResource (v : json) : option (string * string) :=
  o ← as_fields (Some v); n ← as_string (field "name" o); w ← as_string (field "value" o); Some (n, w).
Definition decodeResources (v : option json) : option (list (string * string)) := o ← as_fields v; as_list decodeResource (field "resources" o).
Definition decodeDHCP (v : option json) : option (Z * Z) :=
  o ← as_fields v; a ← as_int64 (field "first_ip" o); b ← as_int64 (field "last_ip" o); Some (a, b).

(** ** [strconv.ParseInt(s, 10, 64)] *)

Fixpoint parse_digits (s : string) (acc : Z) : option Z :=
  match s with
  | EmptyString => Some acc
  | String c s =>
      let n := Z.of_nat (nat_of_ascii c) - 48 in
      if (0 <=? n) && (n <=? 9) then parse_digits s (10 * acc + n) else None
  end.
Definition parse_uint (s : string) : option Z := match s with EmptyString => None | _ => parse_digits s 0 end.
Definition parse_sign (parse : string -> option Z) (s : string) : option Z :=
  match s with
  | String c t => if Ascii.eqb c "-" then n ← parse t; Some (- n) else if Ascii.eqb c "+" then parse t else parse s
  | EmptyString => None
  end.
Definition ParseInt (s : string) : option Z :=
  n ← parse_sign parse_uint s;
  if int64_ok n then Some n else None.

(** ** Requests, responses, routes *)

(** The request line's target: a path as the texts between its slashes, still
    escaped (the last one empty after a trailing slash); a URI or an authority
    without a path; the asterisk. *)
Inductive target := Path (segments : list string) | NoPath | Asterisk.
Record request := { rq_method : string; rq_path : target; rq_body : option json }.

Inductive payload :=
  | PNone | PIDs (ids : list Z)
  | PClients (l : list (Z * Client)) | PClient (c : Z * Client)
  | PRoles (l : list (Z * string)) | PRole (r : Z * string)
  | PResources (l : list (Z * Resource)) | PResource (r : Z * Resource)
  | PRanges (l : list (Z * (Z * Z))).
Record response := { rs_status : Z; rs_payload : payload }.

Definition StatusOK : Z := 200.
Definition StatusMovedPermanently : Z := 301.
Definition StatusBadRequest : Z := 400.
Definition StatusNotFound : Z := 404.
Definition StatusMethodNotAllowed : Z := 405.
Definition StatusInternalServerError : Z := 500.
Definition status (n : Z) : response := {| rs_status := n; rs_payload := PNone |}.
Definition writeJSON (p : payload) : response := {| rs_status := StatusOK; rs_payload := p |}.

Inductive endpoint :=
  | GetClients | PostClients | GetClient | PatchClient | DelClient
  | GetRolesOfClient | PostClientRoles | DelClientRoles | GetResourcesOfClient
  | PostClientRolesByName | DelClientRolesByName
  | GetRoles | PostRoles | GetRole | PatchRole | DelRole | PostRoleResources | DelRoleResources
  | PostRoleResourcesByName | DelRoleResourcesByName
  | GetResources | PostResources | GetResource | PatchResource | DelResource
  | GetDhcp | PutDhcp.
Global Instance endpoint_eq_dec : EqDecision endpoint.
Proof. solve_decision. Defined.

(** A segment of a pattern: a literal, or the wildcard. *)
Abbreviation wild := (@None string).
Abbreviation lit s := (Some s%string).
Definition routes : list (string * list (option string) * endpoint) :=
  [ (("GET", [lit "clients"]), GetClients);
    (("POST", [lit "clients"]), PostClients);
    (("GET", [lit "clients"; wild]), GetClient);
    (("PATCH", [lit "clients"; wild]), PatchClient);
    (("DELETE", [lit "clients"; wild]), DelClient);
    (("GET", [lit "clients"; wild; lit "roles"]), GetRolesOfClient);
    (("POST", [lit "clients"; wild; lit "roles"]), PostClientRoles);
    (("DELETE", [lit "clients"; wild; lit "roles"]), DelClientRoles);
    (("GET", [lit "clients"; wild; lit "resources"]), GetResourcesOfClient);
    (("POST", [lit "clients"; lit "by-name"; wild; lit "roles"]), PostClientRolesByName);
    (("DELETE", [lit "clients"; lit "by-name"; wild; lit "roles"]), DelClientRolesByName);
    (("GET", [lit "roles"]), GetRoles);
    (("POST", [lit "roles"]), PostRoles);
    (("GET", [lit "roles"; wild]), GetRole);
    (("PATCH", [lit "roles"; wild]), PatchRole);
    (("DELETE", [lit "roles"; wild]), DelRole);
    (("POST", [lit "roles"; wild; lit "resources"]), PostRoleResources);
    (("DELETE", [lit "roles"; wild; lit "resources"]), DelRoleResources);
    (("POST", [lit "roles"; lit "by-name"; wild; lit "resources"]), PostRoleResourcesByName);
    (("DELETE", [lit "roles"; lit "by-name"; wild; lit "resources"]), DelRoleResourcesByName);
    (("GET", [lit "resources"]), GetResources);
    (("POST", [lit "resources"]), PostResources);
    (("GET", [lit "resources"; wild]), GetResource);
    (("PATCH", [lit "resources"; wild]), PatchResource);
    (("DELETE", [lit "resources"; wild]), DelResource);
    (("GET", [lit "dhcp"]), GetDhcp);
    (("PUT", [lit "dhcp"]), PutDhcp) ]%string.

Fixpoint match_path (pat : list (option string)) (path : list string) : option (list string) :=
  match pat, path with
  | [], [] => Some []
  | Some l :: pat, s :: path => if String.eqb l s then match_path pat path else None
  | None :: pat, s :: path => if String.eqb s "/" then None else w ← match_path pat path; Some (s :: w)
  | _, _ => None
  end.
(** A GET pattern also serves HEAD. *)
Definition match_method (m method : string) : bool :=
  String.eqb m method || (String.eqb m "GET" && String.eqb method "HEAD").

(** ** ServeMux, before it matches (net/http of Go 1.25) *)

Definition hex_digit (c : ascii) : option Z :=
  let n := Z.of_nat (nat_of_ascii c) in
  if (48 <=? n) && (n <=? 57) then Some (n - 48)
  else if (97 <=? n) && (n <=? 102) then Some (n - 87)
  else if (65 <=? n) && (n <=? 70) then Some (n - 55) else None.
Fixpoint unescape (s : string) : option string :=
  match s with
  | EmptyString => Some EmptyString
  | String c t =>
      if Ascii.eqb c "%" then
        match t with
        | String a (String b t) =>
            x ← hex_digit a; y ← hex_digit b; u ← unescape t; Some (String (ascii_of_nat (Z.to_nat (16 * x + y))) u)
        | _ => None
        end
      else u ← unescape t; Some (String c u)
  end.
(** A text that is not a valid escape is used as it is. *)
Definition pathUnescape (s : string) : string := default s (unescape s).

(** [cleanPath]: [path.Clean] of a rooted path, with its trailing slash. *)
Definition clean_push (stack : list string) (s : string) : list string :=
  if String.eqb s "" || String.eqb s "." then stack else if String.eqb s ".." then tail stack else s :: stack.
Definition cleanPath (segments : list string) : list string :=
  match rev (foldl clean_push [] segments) with
  | [] => [""%string]
  | l => if String.eqb (List.last segments "") "" then l ++ [""%string] else l
  end.

(** The segments the routing tree sees ([firstSegment]); a trailing slash is the
    segment [/]. *)
Fixpoint path_segments (segments : list string) : list string :=
  match segments with
  | [] => []
  | [s] => [if String.eqb s "" then "/"%string else pathUnescape s]
  | s :: l => pathUnescape s :: path_segments l
  end.

(** The path to match, or the answer of the HTTP server and the mux: a redirect
    to the cleaned path, except for CONNECT. *)
Definition mux_path (r : request) : Z + list string :=
  let connect := String.eqb (rq_method r) "CONNECT" in
  match rq_path r with
  | Asterisk => inl (if String.eqb (rq_method r) "OPTIONS" then StatusOK else StatusBadRequest)
  | NoPath => if connect then inr [] else inl StatusMovedPermanently
  | Path l => if connect || bool_decide (cleanPath l = l) then inr (path_segments l) else inl StatusMovedPermanently
  end.

(** The routes a path matches; the handler of a request with its wildcard, or
    the status the mux answers itself. *)
Definition path_hits (path : list string) : list (string * endpoint * list string) :=
  omap (fun e => w ← match_path e.1.2 path; Some (e.1.1, e.2, w)) routes.
Definition find_handler (method : string) (path : list string) : Z + (endpoint * string) :=
  match List.find (fun h => match_method h.1.1 method) (path_hits path) with
  | Some (_, e, w) => inr (e, default ""%string (head w))
  | None => inl (match path_hits path with [] => StatusNotFound | _ => StatusMethodNotAllowed end)
  end.
Definition dispatch (r : request) : Z + (endpoint * string) :=
  match mux_path r with inl code => inl code | inr path => find_handler (rq_method r) path end.

(** ** Handlers *)

Create HintDb handlers.

Section Handlers.
Context `{IpLib}.

(** A repository call in its transaction. *)
Definition call {A} (f : tx A) (k : result dbError A -> response) (db : database) : response * database :=
  let '(r, db) := transact f db in (k r, db).

Definition writeData {A} (p : A -> payload) (r : result dbError A) : response :=
  match r with Ok a => writeJSON (p a) | Err _ => status StatusBadRequest end.
Definition writeIDs : result dbError (list Z) -> response := writeData PIDs.
Definition writeOK (r : result dbError bool) : response :=
  match r with Ok true => status StatusOK | _ => status StatusBadRequest end.
Definition writeCreated (r : result dbError (list Z)) : response :=
  match r with Ok ids => writeJSON (PIDs ids) | Err _ => status StatusInternalServerError end.

Definition withID (w : string) (k : Z -> database -> response * database) (db : database) : response * database :=
  match ParseInt w with Some id => k id db | None => (status StatusBadRequest, db) end.
Definition withBody {A} (b : option A) (k : A -> database -> response * database) (db : database) : response * database :=
  match b with Some a => k a db | None => (status StatusBadRequest, db) end.

(** One definition per route. *)
Definition h_GetClients : database -> response * database :=
  call GetAllClients (writeData PClients).
Definition h_PostClients (b : option json) : database -> response * database :=
  withBody (decodeStrings "names" b) (fun ns => call (CreateClientsWithRoles ip_text ns) writeCreated).
Definition h_GetClient (w : string) : database -> response * database :=
  withID w (fun id => call (GetClientByID id) (writeData PClient)).
Definition h_PatchClient (w : string) (b : option json) : database -> response * database :=
  withID w (fun id => withBody (decodeName b) (fun n => call (UpdateClientName id n) writeOK)).
Definition h_DelClient (w : string) : database -> response * database :=
  withID w (fun id => call (DeleteClients ip_num [id]) writeIDs).
Definition h_GetRolesOfClient (w : string) : database -> response * database :=
  withID w (fun id => call (GetClientRoles id) (writeData PRoles)).
Definition h_PostClientRoles (w : string) (b : option json) : database -> response * database :=
  withID w (fun id => withBody (decodeInts "role_ids" b) (fun l => call (AssignRolesToClients l [id]) writeIDs)).
Definition h_DelClientRoles (w : string) (b : option json) : database -> response * database :=
  withID w (fun id => withBody (decodeInts "role_ids" b) (fun l => call (UnassignRolesToClients l [id]) writeIDs)).
Definition h_GetResourcesOfClient (w : string) : database -> response * database :=
  withID w (fun id => call (GetClientResources id) (writeData PResources)).
Definition h_PostClientRolesByName (w : string) (b : option json) : database -> response * database :=
  withBody (decodeStrings "role_names" b) (fun l => call (AssignRolesToClientByName w l) writeIDs).
Definition h_DelClientRolesByName (w : string) (b : option json) : database -> response * database :=
  withBody (decodeStrings "role_names" b) (fun l => call (UnassignRolesToClientByName w l) writeIDs).
Definition h_GetRoles : database -> response * database :=
  call GetAllRoles (writeData PRoles).
Definition h_PostRoles (b : option json) : database -> response * database :=
  withBody (decodeStrings "names" b) (fun l => call (UpsertRoles l) writeIDs).
Definition h_GetRole (w : string) : database -> response * database :=
  withID w (fun id => call (GetRoleByID id) (writeData PRole)).
Definition h_PatchRole (w : string) (b : option json) : database -> response * database :=
  withID w (fun id => withBody (decodeName b) (fun n => call (UpdateRoleName id n) writeOK)).
Definition h_DelRole (w : string) : database -> response * database :=
  withID w (fun id => call (DeleteRoles [id]) writeIDs).
Definition h_PostRoleResources (w : string) (b : option json) : database -> response * database :=
  withID w (fun id => withBody (decodeInts "resource_ids" b) (fun l => call (AssignResourcesToRoles l [id]) writeIDs)).
Definition h_DelRoleResources (w : string) (b : option json) : database -> response * database :=
  withID w (fun id => withBody (decodeInts "resource_ids" b) (fun l => call (UnassignResourcesToRoles l [id]) writeIDs)).
Definition h_PostRoleResourcesByName (w : string) (b : option json) : database -> response * database :=
  withBody (decodeStrings "resource_names" b) (fun l => call (AssignResourcesToRoleByName w l) writeIDs).
Definition h_DelRoleResourcesByName (w : string) (b : option json) : database -> response * database :=
  withBody (decodeStrings "resource_names" b) (fun l => call (UnassignResourcesToRoleByName w l) writeIDs).
Definition h_GetResources : database -> response * database :=
  call GetAllResources (writeData PResources).
Definition h_PostResources (b : option json) : database -> response * database :=
  withBody (decodeResources b) (fun l => call (UpsertResources l) writeIDs).
Definition h_GetResource (w : string) : database -> response * database :=
  withID w (fun id => call (GetResourceByID id) (writeData PResource)).
Definition h_PatchResource (w : string) (b : option json) : database -> response * database :=
  withID w (fun id => withBody (decodeName b) (fun n => call (UpdateResourceName id n) writeOK)).
Definition h_DelResource (w : string) : database -> response * database :=
  withID w (fun id => call (DeleteResources [id]) writeIDs).
Definition h_GetDhcp : database -> response * database :=
  call GetAllAvailableIPRanges (writeData PRanges).
Definition h_PutDhcp (b : option json) : database -> response * database :=
  withBody (decodeDHCP b) (fun p => call (ResetDHCP p.1 p.2) writeOK).

Definition serve (e : endpoint) (w : string) (b : option json) : database -> response * database :=
  match e with
  | GetClients => h_GetClients
  | PostClients => h_PostClients b
  | GetClient => h_GetClient w
  | PatchClient => h_PatchClient w b
  | DelClient => h_DelClient w
  | GetRolesOfClient => h_GetRolesOfClient w
  | PostClientRoles => h_PostClientRoles w b
  | DelClientRoles => h_DelClientRoles w b
  | GetResourcesOfClient => h_GetResourcesOfClient w
  | PostClientRolesByName => h_PostClientRolesByName w b
  | DelClientRolesByName => h_DelClientRolesByName w b
  | GetRoles => h_GetRoles
  | PostRoles => h_PostRoles b
  | GetRole => h_GetRole w
  | PatchRole => h_PatchRole w b
  | DelRole => h_DelRole w
  | PostRoleResources => h_PostRoleResources w b
  | DelRoleResources => h_DelRoleResources w b
  | PostRoleResourcesByName => h_PostRoleResourcesByName w b
  | DelRoleResourcesByName => h_DelRoleResourcesByName w b
  | GetResources => h_GetResources
  | PostResources => h_PostResources b
  | GetResource => h_GetResource w
  | PatchResource => h_PatchResource w b
  | DelResource => h_DelResource w
  | GetDhcp => h_GetDhcp
  | PutDhcp => h_PutDhcp b
  end.

Definition handle (r : request) (db : database) : response * database :=
  match dispatch r with
  | inl code => (status code, db)
  | inr (e, w) => serve e w (rq_body r) db
  end.
End Handlers.
#[export] Hint Unfold h_GetClients h_PostClients h_GetClient h_PatchClient h_DelClient h_GetRolesOfClient h_PostClientRoles h_DelClientRoles h_GetResourcesOfClient h_PostClientRolesByName h_DelClientRolesByName h_GetRoles h_PostRoles h_GetRole h_PatchRole h_DelRole h_PostRoleResources h_DelRoleResources h_PostRoleResourcesByName h_DelRoleResourcesByName h_GetResources h_PostResources h_GetResource h_PatchResource h_DelResource h_GetDhcp h_PutDhcp : handlers.
