(* ===== verification/RepoProps.v ===== *)
(** * Properties of the control plane's database *)
From S2P Require Import Prelude Ip IpProps Repo.
Local Open Scope Z_scope.

(** ** Queries *)

Lemma find_row_Some {A} (p : A -> bool) t id r : find_row p t = Some (id, r) -> t !! id = Some r /\ p r = true.
Proof.
  unfold find_row. intros H. assert (Hi : (id, r) ∈ filter (fun kv : Z * A => p kv.2 = true) (map_to_list t)).
  { destruct (filter _ _); [done|]. injection H as ->. by left. }
  apply list_elem_of_filter in Hi as [Hp Hi]. split; [by apply elem_of_map_to_list|done].
Qed.
Lemma find_row_None {A} (p : A -> bool) t id r : find_row p t = None -> t !! id = Some r -> p r = false.
Proof.
  unfold find_row. intros H Hr. destruct (p r) eqn:Ep; [|done]. exfalso.
  assert (Hi : (id, r) ∈ filter (fun kv : Z * A => p kv.2 = true) (map_to_list t)).
  { apply list_elem_of_filter. split; [done|]. by apply elem_of_map_to_list. }
  destruct (filter _ _); [by apply not_elem_of_nil in Hi|done].
Qed.
Lemma has_row_false {A} (p : A -> bool) t : has_row p t = false -> forall id r, t !! id = Some r -> p r = false.
Proof. unfold has_row. destruct (find_row p t) eqn:E; [done|]. intros _ id r. by apply find_row_None. Qed.
Lemma has_row_true {A} (p : A -> bool) t : has_row p t = true -> exists id r, t !! id = Some r /\ p r = true.
Proof. unfold has_row. destruct (find_row p t) as [[id r]|] eqn:E; [|done]. intros _. exists id, r. by apply find_row_Some. Qed.

Lemma next_id_above {A} (t : gmap Z A) id : is_Some (t !! id) -> id < next_id t.
Proof.
  unfold next_id. revert id. apply (map_fold_weak_ind (fun n t => forall id, is_Some (t !! id) -> id < 1 + n)).
  - intros id [x Hx]. by rewrite lookup_empty in Hx.
  - intros i x m n Hi IH id Hid. destruct (decide (i = id)) as [->|Hne]; [lia|].
    rewrite lookup_insert_ne in Hid by done. specialize (IH id Hid). lia.
Qed.
Lemma next_id_fresh {A} (t : gmap Z A) : t !! next_id t = None.
Proof. destruct (t !! next_id t) eqn:E; [|done]. pose proof (next_id_above t (next_id t) ltac:(by rewrite E)). lia. Qed.

Lemma lowest_range_spec d :
  match lowest_range d with
  | Some (id, (a, b)) => d !! id = Some (a, b) /\ forall j c e, d !! j = Some (c, e) -> a <= c
  | None => d = ∅
  end.
Proof.
  unfold lowest_range. set (f := fun best kv => _).
  assert (H : forall l acc, match foldl f acc l with
    | Some (id, (a, b)) => ((id, (a, b)) ∈ l \/ acc = Some (id, (a, b))) /\
        (forall kv, kv ∈ l -> a <= kv.2.1) /\ (forall kv, acc = Some kv -> a <= kv.2.1)
    | None => l = [] /\ acc = None end).
  { induction l as [|[i [c e]] l IH]; intros acc.
    - cbn. destruct acc as [[id [a b]]|]; [|done]. split; [by right|]. split; [intros kv Hk; by apply not_elem_of_nil in Hk|].
      intros kv [= <-]. cbn. lia.
    - cbn [foldl]. specialize (IH (f acc (i, (c, e)))). destruct (foldl f (f acc (i, (c, e))) l) as [[id [a b]]|].
      + destruct IH as (I1 & I2 & I3). unfold f in I1, I3. destruct acc as [[i0 [c0 e0]]|]; cbn in I1, I3.
        * destruct (c <? c0) eqn:Ec; bool_hyps; (split; [|split]).
          -- destruct I1 as [I1|[= -> -> ->]]; left; [by right|by left].
          -- intros kv [->|Hk]%elem_of_cons; [by apply (I3 _ eq_refl)|by apply I2].
          -- intros kv [= <-]. specialize (I3 _ eq_refl). cbn in *. lia.
          -- destruct I1 as [I1|I1]; [left; by right|by right].
          -- intros kv [->|Hk]%elem_of_cons; [specialize (I3 _ eq_refl); cbn in *; lia|by apply I2].
          -- intros kv [= <-]. by apply (I3 _ eq_refl).
        * split; [|split]; [destruct I1 as [I1|[= -> -> ->]]; left; [by right|by left]| |done].
          intros kv [->|Hk]%elem_of_cons; [by apply (I3 _ eq_refl)|by apply I2].
      + destruct IH as [_ IH]. unfold f in IH. by destruct acc as [?|]; [destruct (_ <? _)|]. }
  specialize (H (map_to_list d) None). destruct (foldl f None (map_to_list d)) as [[id [a b]]|].
  - destruct H as ([H1|H1] & H2 & _); [|done]. apply elem_of_map_to_list in H1. split; [done|].
    intros j c e Hj. apply (H2 (j, (c, e))). by apply elem_of_map_to_list.
  - destruct H as [H _]. by apply map_to_list_empty_iff.
Qed.

(** ** Invariants kept by transactions *)

Definition keeps {A} (I : database -> Prop) (f : tx A) : Prop := forall db a db', I db -> f db = Ok (a, db') -> I db'.

Lemma keeps_ret {A} I (a : A) : keeps I (tx_ret a).
Proof. by intros db b db' Hi [= <- <-]. Qed.
Lemma keeps_err {A} I e : keeps I (@tx_err A e).
Proof. done. Qed.
Lemma keeps_get {A} I (f : database -> A) : keeps I (tx_get f).
Proof. by intros db b db' Hi [= <- <-]. Qed.
Lemma tx_bind_Ok {A B} (f : tx A) (k : A -> tx B) db b db' : tx_bind f k db = Ok (b, db') ->
  exists a db1, f db = Ok (a, db1) /\ k a db1 = Ok (b, db').
Proof. unfold tx_bind. destruct (f db) as [[a db1]|]; [|done]. intros H. by exists a, db1. Qed.
Lemma keeps_bind {A B} I (f : tx A) (k : A -> tx B) : keeps I f -> (forall a, keeps I (k a)) -> keeps I (tx_bind f k).
Proof. intros Hf Hk db b db' Hi (a & db1 & H1 & H2)%tx_bind_Ok. eapply Hk; [|exact H2]. by eapply Hf. Qed.
Lemma keeps_map {A B} I (f : A -> tx B) l : (forall a, keeps I (f a)) -> keeps I (tx_map f l).
Proof.
  intros Hf. induction l as [|a l IH]; [apply keeps_ret|]. apply keeps_bind; [done|]. intros b.
  apply keeps_bind; [done|]. intros bs. apply keeps_ret.
Qed.
Lemma keeps_fold {A B} I (f : B -> A -> tx B) l b : (forall b a, keeps I (f b a)) -> keeps I (tx_fold f l b).
Proof. intros Hf. revert b. induction l as [|a l IH]; intros b; [apply keeps_ret|]. by apply keeps_bind. Qed.
Lemma keeps_transact {A} I (f : tx A) db : keeps I f -> I db -> I (op_db f db).
Proof. intros Hf Hi. unfold op_db, transact. destruct (f db) as [[a db']|] eqn:E; [by eapply Hf|done]. Qed.
Lemma keeps_and {A} I J (f : tx A) : keeps I f -> keeps J f -> keeps (fun db => I db /\ J db) f.
Proof. intros H1 H2 db a db' [Hi Hj] H. split; [by eapply H1|by eapply H2]. Qed.

Create HintDb keeps.
#[export] Hint Resolve keeps_ret keeps_err keeps_get keeps_bind keeps_map keeps_fold : keeps.

(** ** Integrity of the schema *)

Record schema_ok (db : database) : Prop := {
  so_clients i j c d : clients db !! i = Some c -> clients db !! j = Some d -> c_name c = c_name d -> i = j;
  so_roles i j n : roles db !! i = Some n -> roles db !! j = Some n -> i = j;
  so_resources i j c d : resources db !! i = Some c -> resources db !! j = Some d -> r_name c = r_name d -> i = j;
  so_fk_cr c r : (c, r) ∈ clients_roles db -> is_Some (clients db !! c) /\ is_Some (roles db !! r);
  so_fk_rr r s : (r, s) ∈ roles_resources db -> is_Some (roles db !! r) /\ is_Some (resources db !! s)
}.

(** A keyed column stays one when a row gets a value no other row has. *)
Lemma key_insert {A} (key : A -> string) (t : gmap Z A) i x :
  (forall j y, delete i t !! j = Some y -> key y <> key x) ->
  (forall j k y z, t !! j = Some y -> t !! k = Some z -> key y = key z -> j = k) ->
  forall j k y z, <[i := x]> t !! j = Some y -> <[i := x]> t !! k = Some z -> key y = key z -> j = k.
Proof.
  intros Hx Ht j k y z Hj Hk E. apply lookup_insert_Some in Hj as [[<- <-]|[Hj Hj']]; apply lookup_insert_Some in Hk as [[<- <-]|[Hk Hk']].
  - done.
  - exfalso. apply (Hx k z); [by rewrite lookup_delete_ne|done].
  - exfalso. apply (Hx j y); [by rewrite lookup_delete_ne|done].
  - by eapply Ht.
Qed.
Lemma some_insert {A} (t : gmap Z A) i x j : is_Some (t !! j) -> is_Some (<[i := x]> t !! j).
Proof. intros H. destruct (decide (i = j)) as [->|]; [by rewrite lookup_insert_eq|by rewrite lookup_insert_ne]. Qed.
Lemma some_delete {A} (t : gmap Z A) i j : is_Some (t !! j) -> j <> i -> is_Some (delete i t !! j).
Proof. intros H Hne. by rewrite lookup_delete_ne. Qed.
Lemma key_delete {A} (key : A -> string) (t : gmap Z A) i :
  (forall j k y z, t !! j = Some y -> t !! k = Some z -> key y = key z -> j = k) ->
  forall j k y z, delete i t !! j = Some y -> delete i t !! k = Some z -> key y = key z -> j = k.
Proof. intros Ht j k y z [_ Hj]%lookup_delete_Some [_ Hk]%lookup_delete_Some. by eapply Ht. Qed.
#[export] Hint Resolve some_insert some_delete : keeps.

Section Schema.
Lemma schema_insert_client name ip : keeps schema_ok (insert_client name ip).
Proof.
  intros db a db' [H1 H2 H3 H4 H5] H. unfold insert_client in H. destruct (has_row _ _) eqn:Eh; [done|]. injection H as <- <-.
  constructor; cbn; try done.
  - apply (key_insert c_name); [|done]. intros j y [_ Hj]%lookup_delete_Some. pose proof (has_row_false _ _ Eh j y Hj) as X.
    cbn in *. intros E. rewrite E, String.eqb_refl in X. done.
  - intros c r Hcr. destruct (H4 c r Hcr). auto with keeps.
Qed.
Lemma schema_insert_role name : keeps schema_ok (insert_role name).
Proof.
  intros db a db' [H1 H2 H3 H4 H5] H. unfold insert_role in H. destruct (has_row _ _) eqn:Eh; [done|]. injection H as <- <-.
  constructor; cbn; try done.
  - intros i j n Hi Hj. apply (key_insert id (roles db) (next_id (roles db)) name) with n n; try done.
    + intros k y [_ Hk]%lookup_delete_Some E. pose proof (has_row_false _ _ Eh k y Hk) as X. cbn in *. unfold id in E. by rewrite E, String.eqb_refl in X.
    + intros k l y z Hk Hl E. unfold id in E. subst z. by eapply H2.
  - intros c r Hcr. destruct (H4 c r Hcr). auto with keeps.
  - intros c r Hcr. destruct (H5 c r Hcr). auto with keeps.
Qed.
Lemma schema_insert_resource name v : keeps schema_ok (insert_resource name v).
Proof.
  intros db a db' [H1 H2 H3 H4 H5] H. unfold insert_resource in H. destruct (has_row _ _) eqn:Eh; [done|]. injection H as <- <-.
  constructor; cbn; try done.
  - apply (key_insert r_name); [|done]. intros j y [_ Hj]%lookup_delete_Some. pose proof (has_row_false _ _ Eh j y Hj) as X.
    cbn in *. intros E. rewrite E, String.eqb_refl in X. done.
  - intros c r Hcr. destruct (H5 c r Hcr). auto with keeps.
Qed.
Lemma schema_link_role c r : keeps schema_ok (link_role c r).
Proof.
  intros db a db' Hi H. unfold link_role in H. case_decide as Hd; [by injection H as <- <-|]. case_decide as Hf; [|done].
  injection H as <- <-. destruct Hi as [H1 H2 H3 H4 H5]. constructor; cbn; try done.
  intros c' r' [E%elem_of_singleton|Hcr]%elem_of_union; [injection E as -> ->; done|by apply H4].
Qed.
Lemma schema_link_resource c r : keeps schema_ok (link_resource c r).
Proof.
  intros db a db' Hi H. unfold link_resource in H. case_decide as Hd; [by injection H as <- <-|]. case_decide as Hf; [|done].
  injection H as <- <-. destruct Hi as [H1 H2 H3 H4 H5]. constructor; cbn; try done.
  intros c' r' [E%elem_of_singleton|Hcr]%elem_of_union; [injection E as -> ->; done|by apply H5].
Qed.
Lemma schema_insert_link c r : keeps schema_ok (insert_link c r).
Proof. apply keeps_bind; [apply schema_link_role|]. intros n. destruct (n =? 0); auto with keeps. Qed.
Lemma schema_unlink_role c r : keeps schema_ok (unlink_role c r).
Proof.
  intros db a db' Hi H. unfold unlink_role in H. case_decide; injection H as <- <-; [|done].
  destruct Hi as [H1 H2 H3 H4 H5]. constructor; cbn; try done. intros c' r' [Hcr _]%elem_of_difference. by apply H4.
Qed.
Lemma schema_unlink_resource c r : keeps schema_ok (unlink_resource c r).
Proof.
  intros db a db' Hi H. unfold unlink_resource in H. case_decide; injection H as <- <-; [|done].
  destruct Hi as [H1 H2 H3 H4 H5]. constructor; cbn; try done. intros c' r' [Hcr _]%elem_of_difference. by apply H5.
Qed.
Lemma schema_delete_client id : keeps schema_ok (delete_client id).
Proof.
  intros db a db' Hi H. unfold delete_client in H. destruct (clients db !! id); injection H as <- <-; [|done].
  destruct Hi as [H1 H2 H3 H4 H5]. constructor; cbn; try done.
  - by apply (key_delete c_name).
  - intros c' r' [Hne Hcr]%elem_of_filter. destruct (H4 _ _ Hcr). auto with keeps.
Qed.
Lemma schema_delete_role id : keeps schema_ok (delete_role id).
Proof.
  intros db a db' Hi H. unfold delete_role in H. destruct (roles db !! id); injection H as <- <-; [|done].
  destruct Hi as [H1 H2 H3 H4 H5]. constructor; cbn; try done.
  - intros i j n [_ Hi]%lookup_delete_Some [_ Hj]%lookup_delete_Some. by eapply H2.
  - intros c' r' [Hne Hcr]%elem_of_filter. destruct (H4 _ _ Hcr). auto with keeps.
  - intros c' r' [Hne Hcr]%elem_of_filter. destruct (H5 _ _ Hcr). auto with keeps.
Qed.
Lemma schema_delete_resource id : keeps schema_ok (delete_resource id).
Proof.
  intros db a db' Hi H. unfold delete_resource in H. destruct (resources db !! id); injection H as <- <-; [|done].
  destruct Hi as [H1 H2 H3 H4 H5]. constructor; cbn; try done.
  - by apply (key_delete r_name).
  - intros c' r' [Hne Hcr]%elem_of_filter. destruct (H5 _ _ Hcr). auto with keeps.
Qed.
Lemma schema_delete_role_named n : keeps schema_ok (delete_role_named n).
Proof.
  intros db a db' Hi H. unfold delete_role_named in H. destruct (find_row _ _) as [[id x]|]; [by eapply schema_delete_role|by injection H as <- <-].
Qed.
Lemma schema_rename_client id n : keeps schema_ok (rename_client id n).
Proof.
  intros db a db' Hi H. unfold rename_client in H. destruct (clients db !! id) as [c|] eqn:Ec; [|by injection H as <- <-].
  destruct (has_row _ _) eqn:Eh; [done|]. injection H as <- <-. destruct Hi as [H1 H2 H3 H4 H5]. constructor; cbn; try done.
  - apply (key_insert c_name); [|done]. intros j y Hj. pose proof (has_row_false _ _ Eh j y Hj) as X.
    cbn in *. intros E. rewrite E, String.eqb_refl in X. done.
  - intros c' r' Hcr. destruct (H4 _ _ Hcr). auto with keeps.
Qed.
Lemma schema_rename_role id n : keeps schema_ok (rename_role id n).
Proof.
  intros db a db' Hi H. unfold rename_role in H. destruct (roles db !! id) as [c|] eqn:Ec; [|by injection H as <- <-].
  destruct (has_row _ _) eqn:Eh; [done|]. injection H as <- <-. destruct Hi as [H1 H2 H3 H4 H5]. constructor; cbn; try done.
  - intros i j m Hi Hj. apply (key_insert Datatypes.id (roles db) id n) with m m; try done.
    + intros k y Hk E. pose proof (has_row_false _ _ Eh k y Hk) as X. cbn in *. unfold Datatypes.id in E. by rewrite E, String.eqb_refl in X.
    + intros k l y z Hk Hl E. unfold Datatypes.id in E. subst z. by eapply H2.
  - intros c' r' Hcr. destruct (H4 _ _ Hcr). auto with keeps.
  - intros c' r' Hcr. destruct (H5 _ _ Hcr). auto with keeps.
Qed.
Lemma schema_rename_role_named n o : keeps schema_ok (rename_role_named n o).
Proof.
  intros db a db' Hi H. unfold rename_role_named in H. destruct (find_row _ _) as [[id x]|]; [by eapply schema_rename_role|by injection H as <- <-].
Qed.
Lemma schema_rename_resource id n : keeps schema_ok (rename_resource id n).
Proof.
  intros db a db' Hi H. unfold rename_resource in H. destruct (resources db !! id) as [c|] eqn:Ec; [|by injection H as <- <-].
  destruct (has_row _ _) eqn:Eh; [done|]. injection H as <- <-. destruct Hi as [H1 H2 H3 H4 H5]. constructor; cbn; try done.
  - apply (key_insert r_name); [|done]. intros j y Hj. pose proof (has_row_false _ _ Eh j y Hj) as X.
    cbn in *. intros E. rewrite E, String.eqb_refl in X. done.
  - intros c' r' Hcr. destruct (H5 _ _ Hcr). auto with keeps.
Qed.
Lemma schema_set_client_ip id ip : keeps schema_ok (set_client_ip id ip).
Proof.
  intros db a db' Hi H. unfold set_client_ip in H. destruct (clients db !! id) as [c|] eqn:Ec; injection H as <- <-; [|done].
  destruct Hi as [H1 H2 H3 H4 H5]. constructor; cbn; try done.
  - apply (key_insert c_name); [|done]. intros j y [Hne Hj]%lookup_delete_Some E. apply Hne. symmetry. by eapply H1.
  - intros c' r' Hcr. destruct (H4 _ _ Hcr). auto with keeps.
Qed.
Lemma schema_dhcp db d : schema_ok db -> schema_ok (set_dhcp db d).
Proof. by intros []. Qed.
Lemma schema_insert_dhcp a b : keeps schema_ok (insert_dhcp a b).
Proof. intros db x db' Hi H. unfold insert_dhcp in H. destruct (dhcp_conflict _ _ _); [done|]. injection H as <- <-. by apply schema_dhcp. Qed.
Lemma schema_update_dhcp i a b : keeps schema_ok (update_dhcp i a b).
Proof.
  intros db x db' Hi H. unfold update_dhcp in H. destruct (dhcp db !! i); [|by injection H as <- <-].
  destruct (dhcp_conflict _ _ _); [done|]. injection H as <- <-. by apply schema_dhcp.
Qed.
Lemma schema_delete_dhcp i : keeps schema_ok (delete_dhcp i).
Proof. intros db x db' Hi [= <- <-]. by apply schema_dhcp. Qed.
End Schema.

#[export] Hint Resolve schema_insert_client schema_insert_role schema_insert_resource schema_link_role schema_link_resource
  schema_insert_link schema_unlink_role schema_unlink_resource schema_delete_client schema_delete_role schema_delete_resource
  schema_delete_role_named schema_rename_client schema_rename_role schema_rename_role_named schema_rename_resource
  schema_set_client_ip schema_insert_dhcp schema_update_dhcp schema_delete_dhcp : keeps.

(** ** The address pool *)

Definition covered (d : gmap Z (Z * Z)) (x : Z) : Prop := exists id a b, d !! id = Some (a, b) /\ a <= x <= b.

Record pool_ok (d : gmap Z (Z * Z)) : Prop := {
  po_valid id a b : d !! id = Some (a, b) -> a <= b;
  po_disjoint i j a b c e x : d !! i = Some (a, b) -> d !! j = Some (c, e) -> a <= x <= b -> c <= x <= e -> i = j
}.

Lemma covered_insert d id a b x : covered (<[id := (a, b)]> d) x <-> a <= x <= b \/ covered (delete id d) x.
Proof.
  split.
  - intros (j & c & e & Hj & Hx). apply lookup_insert_Some in Hj as [[<- [= <- <-]]|[Hne Hj]]; [by left|].
    right. exists j, c, e. split; [by rewrite lookup_delete_ne|done].
  - intros [Hx|(j & c & e & [Hne Hj]%lookup_delete_Some & Hx)].
    + exists id, a, b. split; [by rewrite lookup_insert_eq|done].
    + exists j, c, e. split; [by rewrite lookup_insert_ne|done].
Qed.
Lemma covered_delete d id a b x : pool_ok d -> d !! id = Some (a, b) ->
  covered (delete id d) x <-> covered d x /\ ~ (a <= x <= b).
Proof.
  intros Hp Hd. split.
  - intros (j & c & e & [Hne Hj]%lookup_delete_Some & Hx). split; [by exists j, c, e|]. intros Hx'. apply Hne. by eapply (po_disjoint d Hp id j).
  - intros [(j & c & e & Hj & Hx) Hn]. exists j, c, e. split; [|done]. rewrite lookup_delete_ne; [done|]. intros <-.
    rewrite Hd in Hj. by injection Hj as <- <-.
Qed.

Lemma pool_delete d id : pool_ok d -> pool_ok (delete id d).
Proof.
  intros [H1 H2]. constructor.
  - intros i a b [_ Hi]%lookup_delete_Some. by eapply H1.
  - intros i j a b c e x [_ Hi]%lookup_delete_Some [_ Hj]%lookup_delete_Some. by eapply H2.
Qed.
Lemma pool_insert d id a b : pool_ok (delete id d) -> a <= b -> (forall x, a <= x <= b -> ~ covered (delete id d) x) -> pool_ok (<[id := (a, b)]> d).
Proof.
  intros [H1 H2] Hab Hn. rewrite <- insert_delete_eq. constructor.
  - intros i c e Hi. apply lookup_insert_Some in Hi as [[_ [= <- <-]]|[_ Hi]]; [done|by eapply H1].
  - intros i j c e c' e' x Hi Hj Hx Hx'. apply lookup_insert_Some in Hi as [[<- [= <- <-]]|[Hi0 Hi]];
      apply lookup_insert_Some in Hj as [[<- [= <- <-]]|[Hj0 Hj]].
    + done.
    + exfalso. apply (Hn x Hx). by exists j, c', e'.
    + exfalso. apply (Hn x Hx'). by exists i, c, e.
    + by eapply (H2 i j).
Qed.
Lemma delete_fresh {A} (d : gmap Z A) : delete (next_id d) d = d.
Proof. apply delete_id, next_id_fresh. Qed.

(** Taking the lowest address: it was covered, and is the only one that is not
    any more. *)
Lemma alloc_pool d id a b : pool_ok d -> lowest_range d = Some (id, (a, b)) ->
  let d' := if a =? b then delete id d else <[id := (a + 1, b)]> d in
  pool_ok d' /\ (forall x, covered d' x <-> covered d x /\ x <> a) /\ covered d a /\ (forall x, covered d x -> a <= x).
Proof.
  intros Hp Hl. pose proof (lowest_range_spec d) as Hs. rewrite Hl in Hs. destruct Hs as [Hd Hmin]. cbv zeta.
  pose proof (po_valid d Hp _ _ _ Hd) as Hab.
  assert (Ha : covered d a) by (exists id, a, b; split; [done|lia]).
  assert (Hm : forall x, covered d x -> a <= x) by (intros x (j & c & e & Hj & Hx); specialize (Hmin _ _ _ Hj); lia).
  destruct (a =? b) eqn:E; bool_hyps.
  - subst b. split; [by apply pool_delete|]. split; [|done]. intros x. rewrite (covered_delete d id a a) by done.
    split; intros [Hx Hn]; (split; [done|lia]).
  - split; [|split; [|done]].
    + apply pool_insert; [by apply pool_delete|lia|]. intros x Hx Hc. apply (covered_delete d id a b) in Hc as [_ Hc]; [lia|done..].
    + intros x. rewrite covered_insert, (covered_delete d id a b) by done. split.
      * intros [Hx|[Hx Hn]]; [split; [exists id, a, b; split; [done|lia]|lia]|split; [done|lia]].
      * intros [Hx Hne]. destruct (decide (a + 1 <= x <= b)); [by left|right]. split; [done|lia].
Qed.

Lemma update_dhcp_Ok id a b db db' x : dhcp db !! id = Some x -> update_dhcp id a b db = Ok (tt, db') ->
  db' = set_dhcp db (<[id := (a, b)]> (dhcp db)).
Proof. unfold update_dhcp. intros ->. destruct (dhcp_conflict _ _ _); [done|]. by intros [= <-]. Qed.

Lemma alloc_ip_Ok ip_text db t db' : pool_ok (dhcp db) -> alloc_ip ip_text db = Ok (t, db') ->
  exists a d', t = ip_text a /\ db' = set_dhcp db d' /\ pool_ok d' /\
    (forall x, covered d' x <-> covered (dhcp db) x /\ x <> a) /\ covered (dhcp db) a /\ (forall x, covered (dhcp db) x -> a <= x).
Proof.
  intros Hp H. unfold alloc_ip in H. apply tx_bind_Ok in H as (row & db1 & [= <- <-] & H).
  destruct (lowest_range (dhcp db)) as [[id [a b]]|] eqn:El; [|done].
  pose proof (alloc_pool _ _ _ _ Hp El) as Ha. pose proof (lowest_range_spec (dhcp db)) as Hs. rewrite El in Hs. destruct Hs as [Hd _].
  apply tx_bind_Ok in H as (u & db1 & H1 & [= <- <-]). destruct u. cbv zeta in Ha.
  destruct (a =? b); [injection H1 as <-|apply (update_dhcp_Ok _ _ _ _ _ _ Hd) in H1 as ->]; by eexists a, _.
Qed.

(** Returning an address: it becomes covered, nothing else changes, and the
    neighbouring ranges are merged without a conflict. *)
Lemma conflict_covered d f l : pool_ok d -> (forall x, f <= x <= l -> ~ covered d x) -> f <= l -> dhcp_conflict d f l = false.
Proof.
  intros Hp Hn Hl. destruct (dhcp_conflict d f l) eqn:E; [|done]. exfalso.
  apply has_row_true in E as (id & [a b] & Hd & Hc). cbn in Hc. pose proof (po_valid d Hp _ _ _ Hd).
  apply orb_true_iff in Hc as [Hc|Hc]; bool_hyps; subst; [apply (Hn f)|apply (Hn l)]; try lia; exists id; eexists _, _; (split; [exact Hd|lia]).
Qed.

Definition released (db : database) (ip : Z) (r : result dbError (unit * database)) : Prop :=
  exists d', r = Ok (tt, set_dhcp db d') /\ pool_ok d' /\ (forall x, covered d' x <-> covered (dhcp db) x \/ x = ip).

Lemma release_insert ip db d0 a b : pool_ok d0 -> a <= b ->
  (forall x, a <= x <= b -> ~ covered d0 x) -> (forall x, a <= x <= b \/ covered d0 x <-> covered (dhcp db) x \/ x = ip) ->
  released db ip (insert_dhcp a b (set_dhcp db d0)).
Proof.
  intros Hp Hab Hn Hx. unfold insert_dhcp. cbn [dhcp set_dhcp]. rewrite conflict_covered by done.
  eexists. split; [reflexivity|]. split; [apply pool_insert; by rewrite ?delete_fresh|].
  intros x. by rewrite covered_insert, delete_fresh.
Qed.

Lemma release_update ip db id f l f' l' : pool_ok (dhcp db) -> dhcp db !! id = Some (f, l) -> ~ covered (dhcp db) ip ->
  (forall x, f' <= x <= l' <-> f <= x <= l \/ x = ip) -> released db ip (update_dhcp id f' l' db).
Proof.
  intros Hp Hd Hn Hx. pose proof (po_valid _ Hp _ _ _ Hd) as Hv.
  assert (Hfree : forall x, f' <= x <= l' -> ~ covered (delete id (dhcp db)) x).
  { intros x Hr Hc. apply (covered_delete _ id f l) in Hc as [Hc Ho]; [|done..]. apply Hx in Hr as [Hr| ->]; done. }
  assert (Hle : f' <= l') by (destruct (Hx f) as [_ X]; specialize (X ltac:(left; lia)); lia).
  unfold update_dhcp. rewrite Hd, conflict_covered; [|by apply pool_delete|done|done].
  eexists. split; [reflexivity|]. split; [apply pool_insert; [by apply pool_delete|done|done]|].
  intros x. rewrite covered_insert, (covered_delete _ id f l), Hx by done. split.
  - intros [[Hr| ->]|[Hc _]]; [left; by exists id, f, l|by right|by left].
  - intros [Hc| ->]; [|by left; right]. destruct (decide (f <= x <= l)); [by left; left|by right].
Qed.

Lemma release_merge ip db id1 id2 f1 l2 : pool_ok (dhcp db) -> ~ covered (dhcp db) ip ->
  dhcp db !! id1 = Some (f1, ip - 1) -> dhcp db !! id2 = Some (ip + 1, l2) ->
  released db ip (insert_dhcp f1 l2 (set_dhcp db (delete id2 (delete id1 (dhcp db))))).
Proof.
  intros Hp Hn H1 H2. pose proof (po_valid _ Hp _ _ _ H1). pose proof (po_valid _ Hp _ _ _ H2).
  assert (Hne : id1 <> id2) by (intros ->; rewrite H1 in H2; injection H2; lia).
  assert (Hp1 : pool_ok (delete id1 (dhcp db))) by (by apply pool_delete).
  assert (Hc : forall x, covered (delete id2 (delete id1 (dhcp db))) x <-> covered (dhcp db) x /\ ~ (f1 <= x <= ip - 1) /\ ~ (ip + 1 <= x <= l2)).
  { intros x. rewrite (covered_delete _ id2 (ip + 1) l2) by (done || by rewrite lookup_delete_ne).
    rewrite (covered_delete _ id1 f1 (ip - 1)) by done. tauto. }
  apply release_insert; [by apply pool_delete|lia| |].
  - intros x Hx (Hcx & Ha & Hb)%Hc. apply Hn. by replace ip with x by lia.
  - intros x. rewrite Hc. split.
    + intros [Hx|[Hx _]]; [|by left]. destruct (decide (x = ip)); [by right|left].
      destruct (decide (x <= ip - 1)); [exists id1, f1, (ip - 1); split; [done|lia]|exists id2, (ip + 1), l2; split; [done|lia]].
    + intros [Hx| ->]; [|left; lia]. destruct (decide (f1 <= x <= l2)); [by left|right]. split; [done|lia].
Qed.

Lemma release_pool ip db : pool_ok (dhcp db) -> ~ covered (dhcp db) ip -> released db ip (release_ip ip db).
Proof.
  intros Hp Hn. unfold release_ip, tx_bind, tx_get.
  destruct (find_row (fun r => r.2 =? ip - 1) (dhcp db)) as [[id1 [f1 l1]]|] eqn:E1;
  destruct (find_row (fun r => r.1 =? ip + 1) (dhcp db)) as [[id2 [f2 l2]]|] eqn:E2;
  repeat match goal with H : find_row _ _ = Some _ |- _ => apply find_row_Some in H as [? H] end; cbn [fst snd] in *; bool_hyps; subst.
  - by refine (release_merge ip db id1 id2 f1 l2 Hp Hn _ _).
  - eapply release_update; [done|eassumption|done|]. intros x.
    match goal with H : _ !! id1 = _ |- _ => pose proof (po_valid _ Hp _ _ _ H) end. lia.
  - eapply release_update; [done|eassumption|done|]. intros x.
    match goal with H : _ !! id2 = _ |- _ => pose proof (po_valid _ Hp _ _ _ H) end. lia.
  - replace db with (set_dhcp db (dhcp db)) at 2 by (by destruct db). apply release_insert; [done|lia| |].
    + intros x Hx Hc. apply Hn. by replace ip with x by lia.
    + intros x. split; [intros [Hx|Hx]; [right; lia|by left]|intros [Hx| ->]; [by right|left; lia]].
Qed.

(** ** Who holds which address *)

Section Addresses.
Variable ip_text : Z -> string.
Variable ip_num : string -> option Z.
Variables lo hi : Z.
Hypothesis ip_round : forall n, lo <= n <= hi -> ip_num (ip_text n) = Some n.
Hypothesis ip_nonempty : forall n, ip_text n <> ""%string.

Definition owns (db : database) (id x : Z) : Prop := exists c, clients db !! id = Some c /\ c_ip c = Some (ip_text x).

(** Every address of the pool is free, held by exactly one client, or the one
    in flight [F] inside a transaction; and every client holds one. *)
Record addr_ok (F : option Z) (db : database) : Prop := {
  ao_pool : pool_ok (dhcp db);
  ao_has id c : clients db !! id = Some c -> exists x, c_ip c = Some (ip_text x) /\ lo <= x <= hi;
  ao_unique i j x : lo <= x <= hi -> owns db i x -> owns db j x -> i = j;
  ao_range x : lo <= x <= hi <-> covered (dhcp db) x \/ (exists id, lo <= x <= hi /\ owns db id x) \/ F = Some x;
  ao_free id x : lo <= x <= hi -> owns db id x -> ~ covered (dhcp db) x /\ F <> Some x;
  ao_flight x : F = Some x -> ~ covered (dhcp db) x
}.

Lemma ip_text_inj x y : lo <= x <= hi -> lo <= y <= hi -> ip_text x = ip_text y -> x = y.
Proof. intros Hx Hy E. pose proof (ip_round x Hx). rewrite E, (ip_round y Hy) in H. by injection H. Qed.

(** Statements that touch neither the pool nor the clients' addresses. *)
Definition same_addr (db db' : database) : Prop :=
  dhcp db' = dhcp db /\ forall id, c_ip <$> clients db' !! id = c_ip <$> clients db !! id.

Lemma same_addr_owns db db' id x : same_addr db db' -> owns db' id x <-> owns db id x.
Proof.
  intros [_ H]. specialize (H id). unfold owns. destruct (clients db !! id) as [c|], (clients db' !! id) as [c'|]; cbn in H; try done.
  - injection H as H. split; intros (y & [= <-] & Hy); eexists; (split; [done|congruence]).
Qed.

Lemma same_addr_ok F db db' : same_addr db db' -> addr_ok F db -> addr_ok F db'.
Proof.
  intros Hs [H1 H2 H3 H4 H5 H6]. pose proof Hs as [Hd Hc]. constructor; rewrite ?Hd; try done.
  - intros id c Hi. specialize (Hc id). rewrite Hi in Hc. cbn in Hc. destruct (clients db !! id) as [c0|] eqn:E; [|done].
    cbn in Hc. injection Hc as ->. by apply (H2 id).
  - intros i j x Hx Hi Hj. apply (same_addr_owns _ _ _ _ Hs) in Hi, Hj. by eapply H3.
  - intros x. rewrite H4. split; (intros [?|[(id & Hx & Ho)|?]]; [by left| |by right; right]); right; left; exists id;
      (split; [done|]); by apply (same_addr_owns _ _ _ _ Hs).
  - intros id x Hx Ho. apply (H5 id); [done|]. by apply (same_addr_owns _ _ _ _ Hs).
Qed.

Definition quiet {A} (f : tx A) : Prop := forall db a db', f db = Ok (a, db') -> same_addr db db'.
Lemma keeps_quiet {A} F (f : tx A) : quiet f -> keeps (addr_ok F) f.
Proof. intros Hq db a db' Hi H. eapply same_addr_ok; [by eapply Hq|done]. Qed.

Ltac quiet_tac := let db := fresh in let x := fresh in let db' := fresh in let H := fresh "H" in intros db x db' H; repeat (case_match || case_decide); try discriminate; simplify_eq/=; by split.
Lemma quiet_insert_role n : quiet (insert_role n).
Proof. unfold insert_role; quiet_tac. Qed.
Lemma quiet_insert_resource n v : quiet (insert_resource n v).
Proof. unfold insert_resource; quiet_tac. Qed.
Lemma quiet_link_role a b : quiet (link_role a b).
Proof. unfold link_role; quiet_tac. Qed.
Lemma quiet_unlink_role a b : quiet (unlink_role a b).
Proof. unfold unlink_role; quiet_tac. Qed.
Lemma quiet_link_resource a b : quiet (link_resource a b).
Proof. unfold link_resource; quiet_tac. Qed.
Lemma quiet_unlink_resource a b : quiet (unlink_resource a b).
Proof. unfold unlink_resource; quiet_tac. Qed.
Lemma quiet_delete_role i : quiet (delete_role i).
Proof. unfold delete_role; quiet_tac. Qed.
Lemma quiet_delete_resource i : quiet (delete_resource i).
Proof. unfold delete_resource; quiet_tac. Qed.
Lemma quiet_rename_role i n : quiet (rename_role i n).
Proof. unfold rename_role; quiet_tac. Qed.
Lemma quiet_rename_resource i n : quiet (rename_resource i n).
Proof. unfold rename_resource; quiet_tac. Qed.
Lemma quiet_delete_role_named n : quiet (delete_role_named n).
Proof. intros db a db' H. unfold delete_role_named in H. destruct (find_row _ _) as [[]|]; [by eapply quiet_delete_role|by simplify_eq]. Qed.
Lemma quiet_rename_role_named n o : quiet (rename_role_named n o).
Proof. intros db a db' H. unfold rename_role_named in H. destruct (find_row _ _) as [[]|]; [by eapply quiet_rename_role|by simplify_eq]. Qed.
Lemma quiet_rename_client i n : quiet (rename_client i n).
Proof.
  intros db a db' H. unfold rename_client in H. destruct (clients db !! i) as [c|] eqn:E; [|by simplify_eq].
  destruct (has_row _ _); [done|]. simplify_eq/=. split; [done|]. intros id. cbn.
  destruct (decide (i = id)) as [->|]; [by rewrite lookup_insert_eq, E|by rewrite lookup_insert_ne].
Qed.

Lemma addr_alloc db t db' : addr_ok None db -> alloc_ip ip_text db = Ok (t, db') ->
  exists a, t = ip_text a /\ lo <= a <= hi /\ addr_ok (Some a) db'.
Proof.
  intros [H1 H2 H3 H4 H5 H6] H. apply alloc_ip_Ok in H as (a & d' & -> & -> & Hp & Hc & Ha & _); [|done].
  assert (Hr : lo <= a <= hi) by (apply H4; by left).
  exists a. split; [done|]. split; [done|]. constructor; cbn [dhcp set_dhcp]; try done.
  - intros x. rewrite H4, Hc. split.
    + intros [Hx|[Hx|?]]; [|by right; left|done]. destruct (decide (x = a)) as [->|]; [by right; right|by left].
    + intros [[Hx _]|[Hx|[= <-]]]; [by left|by right; left|by left].
  - intros id x Hx Ho. destruct (H5 id x Hx Ho) as [Hn _]. rewrite Hc. split; [tauto|]. by intros [= ->].
  - intros x [= <-]. rewrite Hc. tauto.
Qed.

Lemma owns_insert db id c jd x : owns (set_clients db (<[id := c]> (clients db))) jd x <->
  (jd = id /\ c_ip c = Some (ip_text x)) \/ (jd <> id /\ owns db jd x).
Proof.
  unfold owns. cbn. destruct (decide (jd = id)) as [->|Hne].
  - rewrite lookup_insert_eq. split; [intros (y & [= <-] & Hy); by left|]. intros [[_ Hy]|[? _]]; [by eexists|done].
  - rewrite lookup_insert_ne by done. split; [by right|]. by intros [[? _]|[_ ?]].
Qed.

Lemma addr_insert_client db a n id db' : addr_ok (Some a) db -> lo <= a <= hi ->
  insert_client n (Some (ip_text a)) db = Ok (id, db') -> addr_ok None db'.
Proof.
  intros [H1 H2 H3 H4 H5 H6] Ha H. unfold insert_client in H. destruct (has_row _ _); [done|]. injection H as <- <-.
  set (new := {| c_name := n; c_last_seen := 0; c_ip := Some (ip_text a) |}).
  assert (Hnew : forall x, lo <= x <= hi -> c_ip new = Some (ip_text x) -> x = a).
  { intros x Hx [= E]. symmetry. by apply ip_text_inj. }
  constructor; cbn [dhcp set_clients]; try done.
  - intros id c Hi. cbn in Hi. apply lookup_insert_Some in Hi as [[_ <-]|[_ Hi]]; [by exists a|by eapply H2].
  - intros i j x Hx Hi Hj. apply owns_insert in Hi as [[-> Hi]|[Hi0 Hi]]; apply owns_insert in Hj as [[-> Hj]|[Hj0 Hj]]; [done| | |by eapply H3].
    + apply Hnew in Hi as ->; [|done]. by destruct (H5 _ _ Hx Hj).
    + apply Hnew in Hj as ->; [|done]. by destruct (H5 _ _ Hx Hi).
  - intros x. rewrite H4. split.
    + intros [Hx|[(id & Hx & Ho)|[= <-]]]; [by left| |].
      * right; left. exists id. split; [done|]. apply owns_insert. right. split; [|done].
        intros ->. destruct Ho as (c & Hc & _). by rewrite next_id_fresh in Hc.
      * right; left. exists (next_id (clients db)). split; [done|]. apply owns_insert. by left.
    + intros [Hx|[(id & Hx & Ho)|?]]; [by left| |done]. apply owns_insert in Ho as [[-> Ho]|[_ Ho]].
      * apply Hnew in Ho as ->; [by right; right|done].
      * right; left. by exists id.
  - intros id x Hx Ho. split; [|done]. apply owns_insert in Ho as [[-> Ho]|[_ Ho]].
    + apply Hnew in Ho as ->; [by apply H6|done].
    + by apply (H5 id).
Qed.

Lemma owns_delete db id jd x : owns (set_clients db (delete id (clients db))) jd x <-> jd <> id /\ owns db jd x.
Proof.
  unfold owns. cbn. split.
  - intros (c & [Hne Hc]%lookup_delete_Some & Hx). split; [congruence|]. by exists c.
  - intros [Hne (c & Hc & Hx)]. exists c. by rewrite lookup_delete_ne.
Qed.

Lemma addr_release db d' id x : addr_ok None db -> owns db id x -> lo <= x <= hi -> pool_ok d' ->
  (forall y, covered d' y <-> covered (dhcp db) y \/ y = x) ->
  addr_ok None (set_clients (set_dhcp db d') (delete id (clients db))).
Proof.
  intros [H1 H2 H3 H4 H5 H6] Ho Hx Hp Hc.
  assert (Hod : forall jd y, owns (set_clients (set_dhcp db d') (delete id (clients db))) jd y <-> jd <> id /\ owns db jd y).
  { intros jd y. by rewrite <- (owns_delete db id jd y). }
  constructor; cbn [dhcp set_clients set_dhcp]; try done.
  - intros jd c Hi. cbn in Hi. apply lookup_delete_Some in Hi as [_ Hi]. by eapply H2.
  - intros i j y Hy [_ Hi]%Hod [_ Hj]%Hod. by eapply H3.
  - intros y. rewrite H4, Hc. split.
    + intros [Hy|[(jd & Hy & Hoj)|?]]; [by left; left| |done].
      destruct (decide (y = x)) as [->|Hne]; [by left; right|]. right; left. exists jd. split; [done|]. apply Hod. split; [|done].
      intros ->. destruct Ho as (c & Hcc & E1), Hoj as (c' & Hc' & E2). rewrite Hcc in Hc'. injection Hc' as <-.
      rewrite E1 in E2. injection E2 as E2. apply Hne. symmetry. by apply ip_text_inj.
    + intros [[Hy| ->]|[(jd & Hy & [_ Hoj]%Hod)|?]]; [by left|right; left; by exists id|right; left; by exists jd|done].
  - intros jd y Hy [Hne Hoj]%Hod. split; [|done]. rewrite Hc. intros [Hcy| ->]; [exact (proj1 (H5 jd y Hy Hoj) Hcy)|].
    apply Hne. by apply (H3 jd id x).
Qed.

Lemma GetClientByID_Ok id db r db' : GetClientByID id db = Ok (r, db') ->
  db' = db /\ r.1 = id /\ clients db !! id = Some r.2 /\ is_Some (c_ip r.2).
Proof.
  intros H. unfold GetClientByID in H. apply tx_bind_Ok in H as (c & db1 & [= <- <-] & H).
  destruct (clients db !! id) as [c|]; [|done]. unfold scan_client in H. destruct (c_ip c) eqn:E; [|done].
  injection H as <- <-. cbn. by rewrite E.
Qed.

Lemma addr_delete_one acc id : keeps (addr_ok None) (delete_one_client ip_num acc id).
Proof.
  intros db r db' Hi H. unfold delete_one_client in H. apply tx_bind_Ok in H as (row & db1 & Hg & H).
  apply GetClientByID_Ok in Hg as (-> & _ & Hc & _). destruct (ao_has _ _ Hi _ _ Hc) as (x & Ex & Hx).
  rewrite Ex in H. cbn [default from_option Datatypes.id] in H. rewrite (ip_round x Hx) in H.
  assert (Ho : owns db id x) by (by exists row.2).
  destruct (ao_free _ _ Hi _ _ Hx Ho) as [Hn _].
  apply tx_bind_Ok in H as (u & db2 & Hr & H). destruct (release_pool x db (ao_pool _ _ Hi) Hn) as (d' & Er & Hp & Hcov).
  rewrite Er in Hr. injection Hr as <- <-.
  apply tx_bind_Ok in H as (n & db3 & Hd & H). apply tx_bind_Ok in H as (m & db4 & Hdr & [= <- <-]).
  eapply keeps_quiet; [apply quiet_delete_role_named| |exact Hdr].
  unfold delete_client in Hd. cbn [clients set_dhcp] in Hd. rewrite Hc in Hd. injection Hd as <- <-.
  eapply same_addr_ok; [|by apply (addr_release db d' id x)]. by split.
Qed.

Lemma addr_create name : keeps (addr_ok None) (let* ip := alloc_ip ip_text in
    let* clientID := insert_client name (Some ip) in let* roleID := insert_role name in
    let* _ := insert_link clientID roleID in tx_ret clientID)%tx.
Proof.
  intros db r db' Hi H. apply tx_bind_Ok in H as (ip & db1 & Ha & H). apply addr_alloc in Ha as (a & -> & Hr & Ha); [|done].
  apply tx_bind_Ok in H as (cid & db2 & Hc & H). apply addr_insert_client in Hc; [|done..]. clear Ha.
  revert Hc H. apply keeps_bind; [apply keeps_quiet, quiet_insert_role|]. intros rid.
  apply keeps_bind; [|intros ?; apply keeps_ret]. apply keeps_bind; [apply keeps_quiet, quiet_link_role|].
  intros n. destruct (n =? 0); auto with keeps.
Qed.

Lemma addr_upsert name : keeps (addr_ok None) (let* ip := alloc_ip ip_text in insert_client name (Some ip))%tx.
Proof.
  intros db r db' Hi H. apply tx_bind_Ok in H as (ip & db1 & Ha & H). apply addr_alloc in Ha as (a & -> & Hr & Ha); [|done].
  by eapply addr_insert_client.
Qed.

(** While every client has an address, a connecting client gets its own one and
    nothing changes. *)
Lemma assign_known db id t db' : addr_ok None db -> AssignIPToClient ip_text id db = Ok (t, db') ->
  db' = db /\ exists x, lo <= x <= hi /\ owns db id x /\ t = ip_text x.
Proof.
  intros Hi H. unfold AssignIPToClient in H. apply tx_bind_Ok in H as (c & db1 & [= <- <-] & H).
  destruct (clients db !! id) as [c|] eqn:Ec; [|done]. destruct (ao_has _ _ Hi _ _ Ec) as (x & Ex & Hx).
  rewrite Ex in H. cbn [mbind option_bind] in H. rewrite (proj2 (String.eqb_neq _ _) (ip_nonempty x)) in H.
  injection H as <- <-. split; [done|]. exists x. split; [done|]. split; [|done]. by exists c.
Qed.
End Addresses.

(** ** Every call keeps the invariant *)

Section Run.
Variable ip_text : Z -> string.
Variable ip_num : string -> option Z.
Variables lo hi : Z.
Hypothesis ip_round : forall n, lo <= n <= hi -> ip_num (ip_text n) = Some n.
Hypothesis ip_nonempty : forall n, ip_text n <> ""%string.

Definition db_ok (db : database) : Prop := schema_ok db /\ addr_ok ip_text lo hi None db.

Lemma ok_prim {A} (f : tx A) : keeps schema_ok f -> quiet f -> keeps db_ok f.
Proof. intros Hs Hq. apply keeps_and; [done|by apply keeps_quiet]. Qed.

Lemma ok_client_id n : keeps db_ok (client_id_by_name n).
Proof. intros db a db' Hi H. unfold client_id_by_name in H. destruct (find_row _ _) as [[]|]; [by simplify_eq|done]. Qed.
Lemma ok_role_id n : keeps db_ok (role_id_by_name n).
Proof. intros db a db' Hi H. unfold role_id_by_name in H. destruct (find_row _ _) as [[]|]; [by simplify_eq|done]. Qed.
Lemma ok_resource_id n : keeps db_ok (resource_id_by_name n).
Proof. intros db a db' Hi H. unfold resource_id_by_name in H. destruct (find_row _ _) as [[]|]; [by simplify_eq|done]. Qed.

Lemma schema_alloc : keeps schema_ok (alloc_ip ip_text).
Proof.
  unfold alloc_ip. apply keeps_bind; [apply keeps_get|]. intros [[id [a b]]|]; [|apply keeps_err].
  apply keeps_bind; [destruct (a =? b); auto with keeps|intros ?; apply keeps_ret].
Qed.
Lemma schema_release ip : keeps schema_ok (release_ip ip).
Proof.
  unfold release_ip. apply keeps_bind; [apply keeps_get|]. intros r1. apply keeps_bind; [apply keeps_get|]. intros r2.
  destruct r1 as [[id1 [f1 l1]]|], r2 as [[id2 [f2 l2]]|]; auto 10 with keeps.
Qed.

Lemma schema_assign id : keeps schema_ok (AssignIPToClient ip_text id).
Proof.
  unfold AssignIPToClient. apply keeps_bind; [apply keeps_get|]. intros [c|]; [|apply keeps_err].
  destruct (_ ≫= _); [apply keeps_ret|]. apply keeps_bind; [apply keeps_get|]. intros [[i [a b]]|]; [|apply keeps_err]. auto 10 with keeps.
Qed.
Lemma schema_create names : keeps schema_ok (CreateClientsWithRoles ip_text names).
Proof. apply keeps_map. intros name. apply keeps_bind; [apply schema_alloc|]. intros ip. auto 10 with keeps. Qed.
Lemma schema_upsert_clients names : keeps schema_ok (UpsertClients ip_text names).
Proof. apply keeps_map. intros name. apply keeps_bind; [apply schema_alloc|]. intros ip. auto with keeps. Qed.
Lemma schema_delete_clients ids : keeps schema_ok (DeleteClients ip_num ids).
Proof.
  apply keeps_fold. intros acc id. unfold delete_one_client. apply keeps_bind.
  - intros db a db' Hi H. by apply GetClientByID_Ok in H as [-> _].
  - intros row. destruct (ip_num _); [|apply keeps_err]. apply keeps_bind; [apply schema_release|]. intros u. auto 10 with keeps.
Qed.
Lemma schema_reset a b : keeps schema_ok (ResetDHCP a b).
Proof.
  unfold ResetDHCP. apply keeps_bind; [intros db u db' Hi [= _ <-]; by apply schema_dhcp|]. intros _.
  apply keeps_bind; [auto with keeps|]. intros _. apply keeps_bind; [|intros _; apply keeps_ret].
  intros db u db' [H1 H2 H3 H4 H5] [= _ <-]. constructor; cbn; try done.
  - intros i j c d. rewrite !lookup_fmap, !fmap_Some. intros (c' & Hc & ->) (d' & Hd & ->). by apply (H1 i j c' d').
  - intros c r Hcr. rewrite lookup_fmap, fmap_is_Some. by apply H4.
Qed.
Lemma schema_by_name_id :
  (forall n, keeps schema_ok (client_id_by_name n)) /\ (forall n, keeps schema_ok (role_id_by_name n)) /\ (forall n, keeps schema_ok (resource_id_by_name n)).
Proof.
  unfold client_id_by_name, role_id_by_name, resource_id_by_name.
  split; [|split]; intros n db a db' Hi H; destruct (find_row _ _) as [[]|]; (by simplify_eq) || done.
Qed.
Lemma schema_rename_client_role id n : keeps schema_ok (UpdateClientName id n).
Proof. unfold UpdateClientName. apply keeps_bind; [apply keeps_get|]. intros [c|]; auto 10 with keeps. Qed.

Lemma ok_create names : keeps db_ok (CreateClientsWithRoles ip_text names).
Proof. apply keeps_and; [apply schema_create|]. apply keeps_map. intros name. by apply (addr_create ip_text ip_num). Qed.
Lemma ok_upsert_clients names : keeps db_ok (UpsertClients ip_text names).
Proof. apply keeps_and; [apply schema_upsert_clients|]. apply keeps_map. intros name. by apply (addr_upsert ip_text ip_num). Qed.
Lemma ok_delete_clients ids : keeps db_ok (DeleteClients ip_num ids).
Proof. apply keeps_and; [apply schema_delete_clients|]. apply keeps_fold. intros acc id. by apply addr_delete_one. Qed.
Lemma ok_assign id : keeps db_ok (AssignIPToClient ip_text id).
Proof. intros db a db' [Hs Ha] H. by apply (assign_known ip_text lo hi ip_nonempty) in H as [-> _]. Qed.
Lemma keeps_link_loop I f outer inner : (forall a b, keeps I (f a b)) -> keeps I (link_loop f outer inner).
Proof. intros Hf. apply keeps_fold. intros acc a. apply keeps_fold. intros acc' b. apply keeps_bind; [done|]. intros n. apply keeps_ret. Qed.
Lemma keeps_by_name I r f id names : (forall n, keeps I (r n)) -> (forall a b, keeps I (f a b)) -> keeps I (link_by_name r f id names).
Proof. intros Hr Hf. apply keeps_fold. intros acc n. apply keeps_bind; [done|]. intros o. apply keeps_bind; [done|]. intros k. apply keeps_ret. Qed.
Lemma keeps_delete_loop I f ids : (forall a, keeps I (f a)) -> keeps I (delete_loop f ids).
Proof. intros Hf. apply keeps_fold. intros acc n. apply keeps_bind; [done|]. intros o. apply keeps_ret. Qed.
Lemma ok_rename_client id n : keeps db_ok (UpdateClientName id n).
Proof.
  unfold UpdateClientName. apply keeps_bind; [apply keeps_get|]. intros [c|]; [|apply keeps_err].
  apply keeps_bind; [apply ok_prim; [auto with keeps|apply quiet_rename_client]|]. intros _.
  apply keeps_bind; [apply ok_prim; [auto with keeps|apply quiet_rename_role_named]|]. intros _. apply keeps_ret.
Qed.

Hint Resolve ok_prim ok_client_id ok_role_id ok_resource_id ok_create ok_upsert_clients ok_delete_clients ok_assign
  keeps_link_loop keeps_by_name keeps_delete_loop ok_rename_client quiet_insert_role quiet_insert_resource quiet_link_role quiet_unlink_role
  quiet_link_resource quiet_unlink_resource quiet_delete_role quiet_delete_resource quiet_rename_role quiet_rename_resource : keeps.

(** The schema's integrity survives every call, the pool reset included. *)
Lemma schema_step db o : schema_ok db -> schema_ok (repo_step ip_text ip_num db o).
Proof.
  intros Hi. destruct schema_by_name_id as (N1 & N2 & N3). destruct o; cbn [repo_step]; (apply keeps_transact; [|exact Hi]);
    auto using schema_assign, schema_create, schema_upsert_clients, schema_delete_clients, schema_reset, schema_rename_client_role;
    unfold AssignRolesToClients, UnassignRolesToClients, AssignResourcesToRoles, UnassignResourcesToRoles,
      AssignRolesToClientByName, UnassignRolesToClientByName, AssignResourcesToRoleByName, UnassignResourcesToRoleByName,
      UpdateRoleName, UpdateResourceName, UpsertRoles, UpsertResources, DeleteRoles, DeleteResources; auto 8 with keeps.
Qed.
Lemma schema_run ops db : schema_ok db -> schema_ok (repo_run ip_text ip_num ops db).
Proof. revert db. induction ops as [|o ops IH]; intros db Hi; [done|]. apply IH. by apply schema_step. Qed.

(** The pool reset apart. *)
Definition no_reset (o : repo_op) : bool := match o with OpResetDHCP _ _ => false | _ => true end.

Lemma ok_step db o : no_reset o = true -> db_ok db -> db_ok (repo_step ip_text ip_num db o).
Proof.
  intros Hn Hi. destruct o; try discriminate Hn; cbn [repo_step]; (apply keeps_transact; [|exact Hi]); auto with keeps;
    unfold AssignRolesToClients, UnassignRolesToClients, AssignResourcesToRoles, UnassignResourcesToRoles,
      AssignRolesToClientByName, UnassignRolesToClientByName, AssignResourcesToRoleByName, UnassignResourcesToRoleByName,
      UpdateRoleName, UpdateResourceName, UpsertRoles, UpsertResources, DeleteRoles, DeleteResources; auto 8 with keeps.
Qed.

Lemma ok_seeded : lo <= hi -> db_ok (seeded lo hi).
Proof.
  intros Hl. assert (Hc : forall x, covered {[1 := (lo, hi)]} x <-> lo <= x <= hi).
  { intros x. split; [intros (id & a & b & [_ [= <- <-]]%lookup_singleton_Some & Hx); done|].
    intros Hx. exists 1, lo, hi. by rewrite lookup_singleton_eq. }
  assert (He : forall id x, ~ owns ip_text (seeded lo hi) id x) by (intros id x (c & Hcc & _); cbn in Hcc; by rewrite lookup_empty in Hcc).
  split; [by constructor; cbn; intros *; rewrite ?lookup_empty; try done; intros ?%not_elem_of_empty|].
  constructor; cbn [dhcp seeded]; try done.
  - constructor; [by intros id a b [_ [= <- <-]]%lookup_singleton_Some|].
    by intros i j a b c e x [<- _]%lookup_singleton_Some [<- _]%lookup_singleton_Some.
  - intros i j x Hx Hi. by apply He in Hi.
  - intros x. rewrite Hc. split; [by left|]. by intros [?|[(id & Hx & _)|?]].
  - intros id x Hx Ho. by apply He in Ho.
Qed.

Lemma ok_run ops db : forallb no_reset ops = true -> db_ok db -> db_ok (repo_run ip_text ip_num ops db).
Proof.
  revert db. induction ops as [|o ops IH]; intros db Hn Hi; [done|]. cbn [forallb] in Hn. apply andb_true_iff in Hn as [Hn Hns].
  apply IH; [done|]. by apply ok_step.
Qed.
End Run.

(** ** Creating one client, branch by branch *)

Lemma alloc_ip_fail ip_text db e : pool_ok (dhcp db) -> alloc_ip ip_text db = Err e -> e = ErrNoRows /\ forall y, ~ covered (dhcp db) y.
Proof.
  intros Hp H. unfold alloc_ip, tx_bind, tx_get in H. pose proof (lowest_range_spec (dhcp db)) as Hs.
  destruct (lowest_range (dhcp db)) as [[id [a b]]|] eqn:El.
  - exfalso. destruct Hs as [Hd _]. destruct (alloc_pool _ _ _ _ Hp El) as (_ & _ & _ & Hm). destruct (a =? b) eqn:E; [done|]. bool_hyps.
    unfold update_dhcp in H. rewrite Hd in H. rewrite conflict_covered in H; [done|by apply pool_delete| |].
    + intros x Hx Hc. apply (covered_delete _ id a b x Hp Hd) in Hc as [_ Hc]. lia.
    + pose proof (po_valid _ Hp _ _ _ Hd). lia.
  - injection H as <-. split; [done|]. rewrite Hs. intros y (id & a & b & Hd & _). by rewrite lookup_empty in Hd.
Qed.

Lemma insert_client_spec name ip db :
  match insert_client name ip db with
  | Ok (id, db') => id = next_id (clients db) /\ (forall i c, clients db !! i = Some c -> c_name c <> name) /\
      db' = set_clients db (<[id := {| c_name := name; c_last_seen := 0; c_ip := ip |}]> (clients db))
  | Err e => e = UniqueViolation /\ exists i c, clients db !! i = Some c /\ c_name c = name
  end.
Proof.
  unfold insert_client. destruct (has_row _ _) eqn:E.
  - split; [done|]. apply has_row_true in E as (i & c & Hc & En). exists i, c. split; [done|]. by apply String.eqb_eq.
  - split; [done|]. split; [|done]. intros i c Hc En. pose proof (has_row_false _ _ E i c Hc) as X. cbn in X.
    by rewrite En, String.eqb_refl in X.
Qed.

Lemma insert_role_spec name db :
  match insert_role name db with
  | Ok (id, db') => id = next_id (roles db) /\ (forall i, roles db !! i <> Some name) /\ db' = set_roles db (<[id := name]> (roles db))
  | Err e => e = UniqueViolation /\ exists i, roles db !! i = Some name
  end.
Proof.
  unfold insert_role. destruct (has_row _ _) eqn:E.
  - split; [done|]. apply has_row_true in E as (i & c & Hc & En). exists i. apply String.eqb_eq in En. by subst c.
  - split; [done|]. split; [|done]. intros i Hc. pose proof (has_row_false _ _ E i name Hc) as X. by rewrite String.eqb_refl in X.
Qed.

Lemma insert_link_spec c r db : is_Some (clients db !! c) -> is_Some (roles db !! r) -> (c, r) ∉ clients_roles db ->
  insert_link c r db = Ok (tt, set_clients_roles db ({[(c, r)]} ∪ clients_roles db)).
Proof. intros Hc Hr Hn. unfold insert_link, tx_bind, link_role. by rewrite decide_False, decide_True by done. Qed.

Definition created ip_text db name (r : result dbError (list Z * database)) : Prop :=
  match r with
  | Ok (ids, db') => exists id rid x,
      ids = [id] /\ clients db !! id = None /\ roles db !! rid = None /\
      (forall i c, clients db !! i = Some c -> c_name c <> name) /\ (forall i, roles db !! i <> Some name) /\
      covered (dhcp db) x /\ (forall y, covered (dhcp db) y -> x <= y) /\
      clients db' = <[id := {| c_name := name; c_last_seen := 0; c_ip := Some (ip_text x) |}]> (clients db) /\
      roles db' = <[rid := name]> (roles db) /\ clients_roles db' = {[(id, rid)]} ∪ clients_roles db /\
      roles_resources db' = roles_resources db /\ resources db' = resources db /\
      pool_ok (dhcp db') /\ (forall y, covered (dhcp db') y <-> covered (dhcp db) y /\ y <> x)
  | Err ErrNoRows => forall y, ~ covered (dhcp db) y
  | Err UniqueViolation => (exists i c, clients db !! i = Some c /\ c_name c = name) \/ (exists i, roles db !! i = Some name)
  | Err _ => False
  end.

Lemma created_one ip_text db name : schema_ok db -> pool_ok (dhcp db) ->
  created ip_text db name (CreateClientsWithRoles ip_text [name] db).
Proof.
  intros Hs Hp. unfold created, CreateClientsWithRoles. cbn [tx_map]. unfold tx_bind at 1 2.
  destruct (alloc_ip ip_text db) as [[t db1]|e] eqn:Ea.
  2:{ apply alloc_ip_fail in Ea as [-> Ea]; done. }
  apply alloc_ip_Ok in Ea as (x & d' & -> & -> & Hp' & Hc & Hx & Hm); [|done]. unfold tx_bind at 1.
  pose proof (insert_client_spec name (Some (ip_text x)) (set_dhcp db d')) as Hi.
  destruct (insert_client name (Some (ip_text x)) (set_dhcp db d')) as [[id db2]|e]; [|destruct Hi as [-> Hi]; by left].
  destruct Hi as (Eid & Hn & ->). cbn [clients set_dhcp] in Eid, Hn. unfold tx_bind at 1.
  set (db2 := set_clients _ _). pose proof (insert_role_spec name db2) as Hr.
  destruct (insert_role name db2) as [[rid db3]|e]; [|destruct Hr as [-> Hr]; by right].
  destruct Hr as (Erid & Hnr & ->). cbn [roles db2 set_clients set_dhcp] in Erid, Hnr. unfold tx_bind at 1.
  assert (Hfresh : clients db !! id = None) by (subst id; apply next_id_fresh).
  rewrite insert_link_spec.
  - exists id, rid, x. cbn. split; [done|]. split; [done|]. split; [subst rid; apply next_id_fresh|]. repeat (split; [done|]). done.
  - cbn. by rewrite lookup_insert_eq.
  - cbn. by rewrite lookup_insert_eq.
  - cbn. intros Hl. destruct (so_fk_cr _ Hs _ _ Hl) as [[c Hcc] _]. by rewrite Hfresh in Hcc.
Qed.

(** C38.  Creating a client, on every branch: it succeeds exactly when the name
    is new to clients and roles and an address is free; it then gives the client
    the lowest free address, creates its role and the link between them, and
    changes nothing else; otherwise it says which of the two was missing. *)
Theorem CreateClient_spec `{IpLib} db name :
  schema_ok db -> pool_ok (dhcp db) ->
  match CreateClientsWithRoles ip_text [name] db with
  | Ok (ids, db') => exists id rid x,
      ids = [id] /\ clients db !! id = None /\ roles db !! rid = None /\
      (forall i c, clients db !! i = Some c -> c_name c <> name) /\ (forall i, roles db !! i <> Some name) /\
      covered (dhcp db) x /\ (forall y, covered (dhcp db) y -> x <= y) /\
      clients db' = <[id := {| c_name := name; c_last_seen := 0; c_ip := Some (ip_text x) |}]> (clients db) /\
      roles db' = <[rid := name]> (roles db) /\ clients_roles db' = {[(id, rid)]} ∪ clients_roles db /\
      roles_resources db' = roles_resources db /\ resources db' = resources db /\
      pool_ok (dhcp db') /\ (forall y, covered (dhcp db') y <-> covered (dhcp db) y /\ y <> x)
  | Err ErrNoRows => forall y, ~ covered (dhcp db) y
  | Err UniqueViolation => (exists i c, clients db !! i = Some c /\ c_name c = name) \/ (exists i, roles db !! i = Some name)
  | Err _ => False
  end.
Proof. apply created_one. Qed.

Lemma CreateClient_spec_witness :
  exists ids db', CreateClientsWithRoles (@ip_text dotted) ["alice"%string] (seeded 5 9) = Ok (ids, db') /\
    forall y, covered (dhcp db') y <-> covered (dhcp (seeded 5 9)) y /\ y <> 5.
Proof.
  assert (Ho : db_ok (@ip_text dotted) 5 9 (seeded 5 9)) by (apply ok_seeded; lia).
  pose proof (@CreateClient_spec dotted (seeded 5 9) "alice"%string (proj1 Ho) (ao_pool _ _ _ _ _ (proj2 Ho))) as H.
  eexists _, _. split; [vm_compute; reflexivity|].
  destruct (CreateClientsWithRoles (@ip_text dotted) ["alice"%string] (seeded 5 9)) as [[ids db']|] eqn:E; vm_compute in E; [|discriminate E].
  injection E as <- <-. destruct H as (id & rid & x & _ & _ & _ & _ & _ & Hx & Hm & _ & _ & _ & _ & _ & _ & Hc).
  assert (x = 5) as ->; [|exact Hc]. assert (covered (dhcp (seeded 5 9)) 5) as H5 by (exists 1, 5, 9; split; [reflexivity|lia]).
  specialize (Hm 5 H5). destruct Hx as (j & a & b & Hj & Hx). cbn in Hj. apply lookup_singleton_Some in Hj as [_ [= <- <-]]. lia.
Defined.

(** ** Deleting what was created *)

Lemma filter_keep (P : Z * Z -> Prop) `{forall x, Decision (P x)} (X : gset (Z * Z)) : (forall x, x ∈ X -> P x) -> filter P X = X.
Proof. intros Hp. apply set_eq. intros x. rewrite elem_of_filter. split; [by intros [_ ?]|]. intros Hx. split; [by apply Hp|done]. Qed.
Lemma filter_drop (P : Z * Z -> Prop) `{forall x, Decision (P x)} (X : gset (Z * Z)) y : ~ P y -> (forall x, x ∈ X -> P x) ->
  filter P ({[y]} ∪ X) = X.
Proof.
  intros Hy Hp. apply set_eq. intros x. rewrite elem_of_filter, elem_of_union, elem_of_singleton. split.
  - by intros [Hx [->|?]].
  - intros Hx. split; [by apply Hp|by right].
Qed.

(** The three statements after the address is returned, on a database with the
    new client, role and link. *)
Lemma delete_created db db1 id rid name c : schema_ok db ->
  clients db !! id = None -> roles db !! rid = None -> (forall i, roles db !! i <> Some name) ->
  clients db1 = <[id := c]> (clients db) -> roles db1 = <[rid := name]> (roles db) ->
  clients_roles db1 = {[(id, rid)]} ∪ clients_roles db -> roles_resources db1 = roles_resources db ->
  exists db2, (let* n := delete_client id in let* _ := delete_role_named name in tx_ret n)%tx db1 = Ok (1, db2) /\
    clients db2 = clients db /\ roles db2 = roles db /\ clients_roles db2 = clients_roles db /\
    roles_resources db2 = roles_resources db /\ resources db2 = resources db1 /\ dhcp db2 = dhcp db1.
Proof.
  intros Hs Hc Hr Hn Ec Er El Ek. unfold tx_bind, delete_client. rewrite Ec, lookup_insert_eq.
  assert (El' : filter (fun l : Z * Z => l.1 <> id) (clients_roles db1) = clients_roles db).
  { rewrite El. apply filter_drop; [by intros []|]. intros [a b] Hab. cbn. intros ->.
    destruct (so_fk_cr _ Hs _ _ Hab) as [[y Hy] _]. by rewrite Hc in Hy. }
  rewrite El'. unfold delete_role_named. cbn [roles set_clients_roles set_clients]. rewrite Er.
  destruct (find_row (String.eqb name) (<[rid := name]> (roles db))) as [[j n]|] eqn:Ef.
  2:{ pose proof (find_row_None _ _ rid name Ef (lookup_insert_eq _ _ _)) as X. by rewrite String.eqb_refl in X. }
  apply find_row_Some in Ef as [Hj En]. apply String.eqb_eq in En as <-.
  apply lookup_insert_Some in Hj as [[<- _]|[_ Hj]]; [|by apply Hn in Hj].
  unfold delete_role. cbn. rewrite Er, lookup_insert_eq. eexists. split; [reflexivity|]. cbn.
  rewrite !delete_insert_id by done. rewrite Ek. split; [done|]. split; [done|]. split; [|split; [|done]]; apply filter_keep.
  - intros [a b] Hab. cbn. intros ->. destruct (so_fk_cr _ Hs _ _ Hab) as [_ [y Hy]]. by rewrite Hr in Hy.
  - intros [a b] Hab. cbn. intros ->. destruct (so_fk_rr _ Hs _ _ Hab) as [[y Hy] _]. by rewrite Hr in Hy.
Qed.

(** Round trip: deleting the client that [CreateClientsWithRoles] has just
    created succeeds and restores clients, roles, links and resources exactly,
    and the pool up to the way its free addresses are cut into ranges. *)
Theorem create_delete_roundtrip `{IpLaws} lo hi db name id db1 :
  0 <= lo -> hi < 2 ^ 32 -> db_ok ip_text lo hi db -> CreateClientsWithRoles ip_text [name] db = Ok ([id], db1) ->
  exists db2, DeleteClients ip_num [id] db1 = Ok ([id], db2) /\
    clients db2 = clients db /\ roles db2 = roles db /\ clients_roles db2 = clients_roles db /\
    roles_resources db2 = roles_resources db /\ resources db2 = resources db /\
    (forall y, covered (dhcp db2) y <-> covered (dhcp db) y).
Proof.
  intros Hlo Hhi [Hs Ha] Hcr. pose proof (created_one ip_text db name Hs (ao_pool _ _ _ _ _ Ha)) as Sp. rewrite Hcr in Sp. cbn in Sp.
  destruct Sp as (id' & rid & x & [= <-] & Hc & Hr & _ & Hnr & Hx & _ & Ec & Er & El & Ek & Es & Hp & Hcov).
  assert (Hrange : lo <= x <= hi) by (apply (ao_range _ _ _ _ _ Ha); by left).
  destruct (release_pool x db1 Hp) as (d' & Erel & Hp' & Hcov'); [rewrite Hcov; tauto|].
  destruct (delete_created db (set_dhcp db1 d') id rid name _ Hs Hc Hr Hnr Ec Er El Ek) as (db2 & Ed & E1 & E2 & E3 & E4 & E5 & E6).
  exists db2. split; [|cbn in E5, E6; rewrite E5, E6; repeat (split; [done|]); intros y; rewrite Hcov', Hcov;
    destruct (decide (y = x)) as [->|]; [split; [done|by right]|tauto]].
  unfold DeleteClients. cbn [tx_fold]. unfold tx_bind at 1. unfold delete_one_client, GetClientByID.
  unfold tx_bind at 1 2, tx_get. rewrite Ec, lookup_insert_eq. cbn [scan_client c_ip tx_ret snd default from_option Datatypes.id c_name].
  rewrite ip_num_text by lia. unfold tx_bind at 1. rewrite Erel.
  revert Ed. unfold tx_bind, tx_ret. destruct (delete_client id (set_dhcp db1 d')) as [[n db3]|]; [|done].
  destruct (delete_role_named name db3) as [[m db4]|]; [|done]. intros [= -> ->]. done.
Qed.

Lemma create_delete_roundtrip_witness :
  exists db1 db2, CreateClientsWithRoles (@ip_text dotted) ["alice"%string] (seeded 5 9) = Ok ([1], db1) /\
    DeleteClients (@ip_num dotted) [1] db1 = Ok ([1], db2) /\ clients db2 = ∅.
Proof.
  assert (Ho : db_ok (@ip_text dotted) 5 9 (seeded 5 9)) by (apply ok_seeded; lia).
  destruct (CreateClientsWithRoles (@ip_text dotted) ["alice"%string] (seeded 5 9)) as [[ids db1]|] eqn:E.
  2:{ vm_compute in E. discriminate E. }
  assert (ids = [1]) as -> by (vm_compute in E; injection E as <- _; reflexivity).
  destruct (@create_delete_roundtrip dotted dotted_laws 5 9 (seeded 5 9) "alice"%string 1 db1) as (db2 & Hd & Hc & _).
  - lia.
  - reflexivity.
  - exact Ho.
  - exact E.
  - exists db1, db2. split; [reflexivity|]. split; [exact Hd|exact Hc].
Defined.

(** ** After a pool reset *)

(** [AssignIPToClient] shares addresses after a pool reset.  It moves the
    range's first address past its last one instead of deleting an exhausted
    range, so the range [6,5] left behind hands out the next address again:
    clients 2 and 5 both hold address 6. *)
Theorem assign_ip_duplicate :
  let run {A} (f : tx A) db := (transact f db).2 in
  let assign := AssignIPToClient (@ip_text dotted) in
  let reset := run (ResetDHCP 5 9) (run (UpsertClients (@ip_text dotted) ["A"; "B"; "C"; "D"; "E"]%string) (seeded 5 20)) in
  let db := run (assign 5) (run (assign 4) (run (DeleteClients (@ip_num dotted) [1]) (run (assign 3) (run (assign 2) (run (assign 1) reset))))) in
  c_ip <$> clients db !! 2 = Some (Some ((@ip_text dotted) 6)) /\ c_ip <$> clients db !! 5 = Some (Some ((@ip_text dotted) 6)).
Proof. vm_compute. split; reflexivity. Qed.

Lemma client_resources_mem db clientID l db' rid r : GetClientResources clientID db = Ok (l, db') ->
  db' = db /\ ((rid, r) ∈ l <->
    resources db !! rid = Some r /\ exists role, (clientID, role) ∈ clients_roles db /\ (role, rid) ∈ roles_resources db).
Proof.
  intros E0. unfold GetClientResources, tx_get in E0. injection E0 as <- <-. split; [done|]. rewrite list_elem_of_join. split.
  - intros (l & Hin & Hl). apply list_elem_of_fmap in Hl as ([c role] & -> & Hcr). cbn in Hin.
    destruct (c =? clientID) eqn:Ec; [|by apply not_elem_of_nil in Hin]. bool_hyps. subst c.
    apply list_elem_of_omap in Hin as ([ro s] & Hrr & E). cbn in E. destruct (ro =? role) eqn:Er; [|done]. bool_hyps. subst ro.
    destruct (resources db !! s) as [r'|] eqn:Es; [|done]. injection E as -> ->. split; [done|]. exists role.
    apply elem_of_elements in Hcr, Hrr. done.
  - intros [Hs (role & Hcr & Hrr)]. eexists. split.
    2:{ apply list_elem_of_fmap. exists (clientID, role). split; [reflexivity|by apply elem_of_elements]. }
    cbn. rewrite Z.eqb_refl. apply list_elem_of_omap. exists (role, rid). split; [by apply elem_of_elements|].
    cbn. by rewrite Z.eqb_refl, Hs.
Qed.

(** A client's effective resources are exactly those granted to one of its
    roles; this is what the routes it is offered are made of. *)
Theorem GetClientResources_spec db clientID rid r :
  match GetClientResources clientID db with
  | Ok (l, db') => db' = db /\ ((rid, r) ∈ l <->
      resources db !! rid = Some r /\ exists role, (clientID, role) ∈ clients_roles db /\ (role, rid) ∈ roles_resources db)
  | Err _ => False
  end.
Proof.
  destruct (GetClientResources clientID db) as [[l db']|e] eqn:E; [|done]. by eapply client_resources_mem.
Qed.
