(* ===== verification/Migrate.v ===== *)
(** * Migrations (migration/migration.go, migration/1_create_tables.go)

    The runner with its [migrations] table, the one migration there is, and
    main.go's [ClearInternalDHCP].  A table that is not created yet is an empty
    one: every [CREATE] says [IF NOT EXISTS]. *)
From stdpp Require Import sorting.
From S2P Require Import Prelude Ip Repo.
Local Open Scope Z_scope.
Local Open Scope tx_scope.

(** ** The runner *)

Definition Succeeded : Z := 2.
Record Migration := { m_version : Z; m_run : tx unit }.

(** The domain tables and the rows version -> status of [migrations]. *)
Record store := { s_db : database; s_migrations : gmap Z Z }.

Definition applied (st : store) (version : Z) : bool := bool_decide (s_migrations st !! version = Some Succeeded).

(** One iteration of the loop: skip, or run (in a transaction of its own) and
    record. *)
Definition apply_migration (m : Migration) (st : store) : option dbError * store :=
  if applied st (m_version m) then (None, st)
  else match transact (m_run m) (s_db st) with
       | (Err e, db) => (Some e, Build_store db (s_migrations st))
       | (Ok _, db) => (None, Build_store db (<[m_version m := Succeeded]> (s_migrations st)))
       end.
Fixpoint run_migrations (ms : list Migration) (st : store) : option dbError * store :=
  match ms with
  | [] => (None, st)
  | m :: ms => match apply_migration m st with
               | (Some e, st) => (Some e, st)
               | (None, st) => run_migrations ms st
               end
  end.
Definition version_le (m n : Migration) : Prop := m_version m <= m_version n.
Global Instance version_le_dec : RelDecision version_le.
Proof. intros m n. unfold version_le. apply _. Defined.
Definition InvokeOn (ms : list Migration) (st : store) : option dbError * store := run_migrations (merge_sort version_le ms) st.

(** ** Migration 1 *)

Section Migration1.
Context `{IpLib}.

(** [_, n, _ := ParseIP(text)] with the errors of both calls dropped. *)
Definition text_num (s : result ipError string) : Z := default 0 (ip_num (match s with Ok s => s | Err _ => ""%string end)).

(** The pool of [VIRT_CIDR]: the gateway is skipped.  [None]: the conversion
    inside [LastIPAddr] panicked. *)
Definition pool_bounds (virtCIDR : string) : option (Z * Z) :=
  lastIP ← LastUsableIP virtCIDR; Some (text_num (FirstUsableIP virtCIDR) + 1, text_num lastIP).

(** [INSERT INTO dhcp(id, ...) VALUES(1, ?, ?) ON CONFLICT(id) DO NOTHING]. *)
Definition seed_dhcp (first last : Z) : tx unit := fun db =>
  match dhcp db !! 1 with
  | Some _ => Ok (tt, db)
  | None => if dhcp_conflict (dhcp db) first last then Err UniqueViolation
            else Ok (tt, set_dhcp db (<[1 := (first, last)]> (dhcp db)))
  end.

Definition GetMigration1 (bounds : Z * Z) : Migration := {| m_version := 1; m_run := seed_dhcp bounds.1 bounds.2 |}.
Definition Invoke (virtCIDR : string) (st : store) : option (option dbError * store) :=
  bounds ← pool_bounds virtCIDR; Some (InvokeOn [GetMigration1 bounds] st).

(** main.go, [ClearInternalDHCP]. *)
Definition ClearInternalDHCP (virtCIDR : string) (db : database) : option database :=
  bounds ← pool_bounds virtCIDR; Some (transact (ResetDHCP bounds.1 bounds.2) db).2.
End Migration1.

Definition empty_store : store := Build_store (Build_database ∅ ∅ ∅ ∅ ∅ ∅) ∅.
