(* ===== verification/MigrateProps.v ===== *)
(** * Properties of the migrations, and of the control plane from its first boot *)
From stdpp Require Import sorting.
From S2P Require Import Prelude Ip IpProps Repo RepoProps Migrate.
Local Open Scope Z_scope.

(** ** The runner *)

Lemma applied_true st v : applied st v = true <-> s_migrations st !! v = Some Succeeded.
Proof. unfold applied. apply bool_decide_eq_true. Qed.

Lemma apply_records m st st' : apply_migration m st = (None, st') -> applied st' (m_version m) = true.
Proof.
  unfold apply_migration. destruct (applied st (m_version m)) eqn:E; [by intros [= <-]|].
  destruct (transact _ _) as [[u|e] db]; [|done]. intros [= <-]. apply applied_true. cbn. apply lookup_insert_eq.
Qed.
Lemma apply_keeps m st r st' v : apply_migration m st = (r, st') -> applied st v = true -> applied st' v = true.
Proof.
  unfold apply_migration. intros H Hv. destruct (applied st (m_version m)) eqn:E; [by injection H as <- <-|].
  destruct (transact _ _) as [[u|e] db]; injection H as <- <-; apply applied_true; apply applied_true in Hv; [|done].
  cbn. destruct (decide (m_version m = v)) as [->|]; [apply lookup_insert_eq|by rewrite lookup_insert_ne].
Qed.
Lemma apply_fails m st e st' : apply_migration m st = (Some e, st') ->
  st' = st /\ applied st (m_version m) = false /\ m_run m (s_db st) = Err e.
Proof.
  unfold apply_migration. destruct (applied st (m_version m)) eqn:E; [done|]. unfold transact.
  destruct (m_run m (s_db st)) as [[u db]|e'] eqn:Er; [done|]. intros [= <- <-]. by destruct st.
Qed.

Lemma run_keeps ms st r st' v : run_migrations ms st = (r, st') -> applied st v = true -> applied st' v = true.
Proof.
  revert st. induction ms as [|m ms IH]; intros st; cbn; [by intros [= <- <-]|].
  destruct (apply_migration m st) as [[e|] st1] eqn:Ea; [intros [= <- <-]; by eapply apply_keeps|].
  intros Hr Hv. eapply IH; [done|]. by eapply apply_keeps.
Qed.

Lemma run_migrations_spec ms st r st' : run_migrations ms st = (r, st') ->
  match r with
  | None => forall m, m ∈ ms -> applied st' (m_version m) = true
  | Some e => exists pre m post, ms = pre ++ m :: post /\ run_migrations pre st = (None, st') /\
      applied st' (m_version m) = false /\ m_run m (s_db st') = Err e
  end.
Proof.
  revert st. induction ms as [|m ms IH]; intros st; cbn [run_migrations].
  - intros [= <- <-] m Hm. by apply not_elem_of_nil in Hm.
  - destruct (apply_migration m st) as [[e|] st1] eqn:Ea.
    + intros [= <- <-]. apply apply_fails in Ea as (-> & Hn & Hr). by exists [], m, ms.
    + intros Hr. specialize (IH _ Hr). destruct r as [e|].
      * destruct IH as (pre & m' & post & -> & Hp & Hn). exists (m :: pre), m', post. split; [done|]. split; [|done].
        cbn [run_migrations]. by rewrite Ea.
      * intros m' [->|Hm]%elem_of_cons; [|by apply IH]. eapply run_keeps; [done|]. by eapply apply_records.
Qed.

Lemma run_done ms st : (forall m, m ∈ ms -> applied st (m_version m) = true) -> run_migrations ms st = (None, st).
Proof.
  induction ms as [|m ms IH]; intros Hm; [done|]. cbn. unfold apply_migration. rewrite Hm by (by left).
  apply IH. intros m' Hm'. apply Hm. by right.
Qed.

(** The migration runner, for any list of migrations: it succeeds only with
    every migration recorded, and a further boot then changes nothing; when it
    fails, the store is the one the earlier migrations (in version order) left,
    in which the failing one is not recorded. *)
Theorem InvokeOn_spec ms st :
  match InvokeOn ms st with
  | (None, st') => (forall m, m ∈ ms -> applied st' (m_version m) = true) /\ InvokeOn ms st' = (None, st')
  | (Some e, st') => exists pre m post, pre ++ m :: post ≡ₚ ms /\ Sorted version_le (pre ++ m :: post) /\
      run_migrations pre st = (None, st') /\ applied st' (m_version m) = false /\ m_run m (s_db st') = Err e
  end.
Proof.
  unfold InvokeOn. destruct (run_migrations (merge_sort version_le ms) st) as [[e|] st'] eqn:Er;
    pose proof (run_migrations_spec _ _ _ _ Er) as Hs; cbn in Hs.
  - destruct Hs as (pre & m & post & E & Hp & Hn). exists pre, m, post. rewrite <- E. split; [apply merge_sort_Permutation|].
    split; [|done]. apply Sorted_merge_sort. intros a b. unfold version_le. lia.
  - split; [|by apply run_done]. intros m Hm. apply Hs. by rewrite merge_sort_Permutation.
Qed.

(** ** The pool of an IPv4 prefix *)

Section Pool.
Context `{IpLaws}.

Lemma text_num_show4 b : length b = 4%nat -> bytes_ok b -> text_num (Ok (show4 b)) = be_num b.
Proof. intros Hl Hb. unfold text_num, ip_num. by rewrite ParseIP_show4. Qed.

Lemma pool_bounds_v4 cidr p : ParsePrefix cidr = Some p -> length (pfx_addr p) = 4%nat -> pfx_bits p <= 31 ->
  let net := be_num (pfx_addr (Masked p)) in
  let k := if pfx_bits p =? 31 then 0 else 1 in
  pool_bounds cidr = Some (net + k + 1, net + 2 ^ (32 - pfx_bits p) - 1 - k).
Proof.
  intros Ep H4 H31 net k. destruct (usable_v4 cidr p Ep H4 H31) as (f & l & Ef & El & Hf & Hl & Hfb & Hlb & Nf & Nl).
  unfold pool_bounds. rewrite El, Ef. cbn [mbind option_bind]. rewrite !text_num_show4 by done. by rewrite Nf, Nl.
Qed.
End Pool.

(** ** From the first boot on *)

Lemma Invoke_seeds `{IpLaws} cidr lo hi : pool_bounds cidr = Some (lo, hi) ->
  exists st, Invoke cidr empty_store = Some (None, st) /\ s_db st = seeded lo hi /\ applied st 1 = true.
Proof. intros Hp. unfold Invoke. rewrite Hp. eexists. split; [reflexivity|]. by split; [|apply applied_true]. Qed.

(** What a start leaves of the store: a recorded migration is not run again. *)
Lemma Invoke_store `{IpLib} cidr lo hi st st' : pool_bounds cidr = Some (lo, hi) -> Invoke cidr st = Some (None, st') ->
  if applied st 1 then st' = st
  else applied st' 1 = true /\
       s_db st' = match dhcp (s_db st) !! 1 with
                  | Some _ => s_db st
                  | None => set_dhcp (s_db st) (<[1 := (lo, hi)]> (dhcp (s_db st)))
                  end.
Proof.
  intros Hb. unfold Invoke. rewrite Hb. cbn [mbind option_bind]. intros [= E]. change (InvokeOn _ st) with (run_migrations [GetMigration1 (lo, hi)] st) in E.
  cbn [run_migrations] in E. unfold apply_migration in E. cbn [m_version m_run GetMigration1 fst snd] in E. destruct (applied st 1); [by injection E|].
  unfold transact, seed_dhcp in E. destruct (dhcp (s_db st) !! 1); [|destruct (dhcp_conflict _ lo hi)]; simplify_eq; cbn [s_db];
    (split; [|done]); apply applied_true; cbn [s_migrations]; by rewrite lookup_insert_eq.
Qed.

Lemma v4_bounds `{IpLaws} cidr p : ParsePrefix cidr = Some p -> length (pfx_addr p) = 4%nat -> pfx_bits p <= 30 ->
  let net := be_num (pfx_addr (Masked p)) in
  0 <= net /\ net + 2 ^ (32 - pfx_bits p) <= 2 ^ 32 /\ 4 <= 2 ^ (32 - pfx_bits p).
Proof.
  intros Ep H4 H30 net. pose proof (law_ParsePrefix _ _ Ep) as Hv.
  destruct (Masked_num p Hv) as (Hml & Hmb & _). destruct (LastIPAddr_num p Hv) as (l & _ & Hll & Hlb & Hln).
  assert (Hh : hostBits p = 32 - pfx_bits p) by (unfold hostBits; rewrite H4; lia). rewrite Hh in Hln. fold net in Hln.
  pose proof (be_num_range l Hlb) as Hlr. rewrite Hll, H4 in Hlr. pose proof (be_num_range _ Hmb) as Hnr. fold net in Hnr.
  change (256 ^ Z.of_nat 4) with (2 ^ 32) in Hlr.
  assert (4 <= 2 ^ (32 - pfx_bits p)); [|lia].
  replace (32 - pfx_bits p) with (2 + (30 - pfx_bits p)) by lia. rewrite Z.pow_add_r by lia.
  pose proof (Z.pow_pos_nonneg 2 (30 - pfx_bits p)). lia.
Qed.

Lemma v4_contains `{IpLaws} cidr p x : ParsePrefix cidr = Some p -> length (pfx_addr p) = 4%nat -> 0 <= x < 2 ^ 32 ->
  be_num (pfx_addr (Masked p)) <= x <= be_num (pfx_addr (Masked p)) + 2 ^ (32 - pfx_bits p) - 1 ->
  Prefix_Contains p (be_bytes 4 x) = true.
Proof.
  intros Ep H4 Hx Hr. pose proof (law_ParsePrefix _ _ Ep) as Hv. pose proof (hostBits_range p Hv).
  destruct (Masked_num p Hv) as (_ & _ & Hn). rewrite Hn in Hr.
  assert (Hh : 32 - pfx_bits p = hostBits p) by (unfold hostBits; rewrite H4; lia). rewrite Hh in Hr.
  unfold Prefix_Contains. rewrite be_bytes_length, H4, be_num_bytes by done. cbn [Nat.eqb andb].
  rewrite !Z.shiftr_div_pow2 by lia. apply Z.eqb_eq. set (h := 2 ^ hostBits p) in *.
  symmetry. apply (Z.div_unique_pos _ _ _ (x - be_num (pfx_addr p) / h * h)); lia.
Qed.

(** C7.  The control plane is consistent from its first boot on: the migrations
    of an empty database succeed for every IPv4 [VIRT_CIDR] of at most 30 bits.
    After any calls of the management API and of connecting clients, whichever of
    them fail, names are unique in each table and every link joins existing rows.
    If none of the calls was the pool reset ([PUT /dhcp], after which clients have
    no address and one can be given out twice: [assign_ip_duplicate]), moreover
    every client holds an address of the prefix that is neither the network's, the
    gateway's nor the broadcast one; no two clients hold the same; and every such
    address is in exactly one free range or held by exactly one client. *)
Theorem control_plane_consistent `{IpLaws} cidr p ops :
  ParsePrefix cidr = Some p -> length (pfx_addr p) = 4%nat -> pfx_bits p <= 30 ->
  let net := be_num (pfx_addr (Masked p)) in
  let last := net + 2 ^ (32 - pfx_bits p) - 1 in
  exists st, Invoke cidr empty_store = Some (None, st) /\
  let db := repo_run ip_text ip_num ops (s_db st) in
  schema_ok db /\ (forallb no_reset ops = true ->
  (forall i c, clients db !! i = Some c -> exists x, c_ip c = Some (ip_text x) /\
     Prefix_Contains p (be_bytes 4 x) = true /\ net + 1 < x < last) /\
  (forall i j c d, clients db !! i = Some c -> clients db !! j = Some d -> c_ip c = c_ip d -> i = j) /\
  (forall x, net + 1 < x < last <->
     covered (dhcp db) x \/ exists i c, net + 1 < x < last /\ clients db !! i = Some c /\ c_ip c = Some (ip_text x)) /\
  (forall x i c, net + 1 < x < last -> clients db !! i = Some c -> c_ip c = Some (ip_text x) -> ~ covered (dhcp db) x) /\
  pool_ok (dhcp db)).
Proof.
  intros Ep H4 H30 net last. pose proof (v4_bounds cidr p Ep H4 H30) as Hb. cbv zeta in Hb. fold net in Hb.
  pose proof (pool_bounds_v4 cidr p Ep H4 ltac:(lia)) as Hpb. cbv zeta in Hpb. fold net in Hpb.
  rewrite (proj2 (Z.eqb_neq (pfx_bits p) 31)) in Hpb by lia.
  set (lo := net + 1 + 1) in Hpb. set (hi := net + 2 ^ (32 - pfx_bits p) - 1 - 1) in Hpb.
  destruct (Invoke_seeds cidr lo hi Hpb) as (st & Est & Edb & _). exists st. split; [done|]. rewrite Edb. intros db.
  assert (Hin : forall x, net + 1 < x < last <-> lo <= x <= hi) by (unfold lo, hi, last; lia).
  assert (Hround : forall n, lo <= n <= hi -> ip_num (ip_text n) = Some n) by (intros n Hn; apply ip_num_text; unfold lo, hi in Hn; lia).
  pose proof (ok_seeded ip_text lo hi ltac:(unfold lo, hi; lia)) as Hseed. split; [by apply schema_run; destruct Hseed|]. intros Hn.
  destruct (ok_run ip_text ip_num lo hi Hround ip_text_nonempty ops _ Hn Hseed) as [_ [H1 H2 H3 H5 H6 _]]. fold db in H1, H2, H3, H5, H6.
  split; [|split; [|split; [|split; [|done]]]].
  - intros i c Hc. destruct (H2 _ _ Hc) as (x & Ex & Hx). exists x. split; [done|]. split; [|by apply Hin].
    apply Hin in Hx. apply (v4_contains cidr p x Ep H4); fold net; lia.
  - intros i j c d Hi Hj E. destruct (H2 _ _ Hi) as (x & Ex & Hx). apply (H3 i j x Hx); [by exists c|]. exists d. by rewrite <- E.
  - intros x. rewrite Hin, H5. split.
    + intros [?|[(i & Hx & c & Hc)|?]]; [by left|right; exists i, c; by rewrite Hin|done].
    + intros [?|(i & c & Hx & Hc)]; [by left|right; left]. exists i. split; [by apply Hin|by exists c].
  - intros x i c Hx Hc Ec. apply (H6 i x); [by apply Hin|by exists c].
Qed.

Definition sample_ops : list repo_op :=
  [OpCreate ["alice"; "bob"]; OpUpsertResources [("lan", "10.0.0.0/8")]; OpCreate ["alice"]; OpAssignResources [1] [1; 2];
   OpDeleteClients [1]; OpAssignIP 2; OpCreate ["carol"]]%string.
Lemma control_plane_consistent_witness :
  exists st, @Invoke dotted "10.8.3.1/29" empty_store = Some (None, st) /\
  let db := repo_run (@ip_text dotted) (@ip_num dotted) sample_ops (s_db st) in
  size (clients db) = 2%nat /\ schema_ok db /\ pool_ok (dhcp db).
Proof.
  destruct (@control_plane_consistent dotted dotted_laws "10.8.3.1/29" {| pfx_addr := [10; 8; 3; 1]; pfx_bits := 29 |} sample_ops
    ltac:(vm_compute; reflexivity) eq_refl ltac:(cbn; lia)) as (st & Est & Hs & Ha).
  exists st. split; [exact Est|]. split; [|split; [exact Hs|]].
  - vm_compute in Est. injection Est as <-. vm_compute. reflexivity.
  - destruct (Ha eq_refl) as (_ & _ & _ & _ & Hp). exact Hp.
Defined.

(** Running migration 1 again on a pool that has handed out its last
    address, so that its row is gone, seeds the whole range anew: the next client
    gets an address that is already held.  (The [migrations] table prevents it on
    later boots, unless recording the first run failed.) *)
Theorem reseed_exhausted_pool :
  let run {A} (f : tx A) db := (transact f db).2 in
  let text := @ip_text dotted in
  let db := run (CreateClientsWithRoles text ["C"%string]) (run (seed_dhcp 5 6)
             (run (CreateClientsWithRoles text ["A"; "B"]%string) (run (seed_dhcp 5 6) (s_db empty_store)))) in
  c_ip <$> clients db !! 1 = Some (Some (text 5)) /\ c_ip <$> clients db !! 3 = Some (Some (text 5)).
Proof. vm_compute. split; reflexivity. Qed.
