(* ===== verification/MgmtProps.v ===== *)
(** * Properties of the management API *)
From Stdlib Require Import Ascii.
From S2P Require Import Prelude Ip IpProps Repo RepoProps Mgmt.
Local Open Scope Z_scope.

(** ** Handlers in general *)

Section Handlers.
Context `{IpLib}.

(** What every handler does with the database: nothing unless it answers 200. *)
Definition atomic (f : database -> response * database) : Prop := forall db,
  rs_status (f db).1 ∈ [StatusOK; StatusBadRequest; StatusInternalServerError] /\
  (rs_status (f db).1 <> StatusOK -> (f db).2 = db).
(** ... and when it leaves the database as it is in any case. *)
Definition readonly (f : database -> response * database) : Prop := forall db, (f db).2 = db.

Lemma call_atomic {A} (f : tx A) (k : result dbError A -> response) :
  (forall r, rs_status (k r) ∈ [StatusOK; StatusBadRequest; StatusInternalServerError]) ->
  (forall a db db', f db = Ok (a, db') -> rs_status (k (Ok a)) <> StatusOK -> db' = db) -> atomic (call f k).
Proof.
  intros Hs Hk db. unfold call, transact. destruct (f db) as [[a db']|e] eqn:E; cbn; (split; [apply Hs|]); [|done]. by eapply Hk.
Qed.
Lemma writeData_atomic {A} (f : tx A) p : atomic (call f (writeData p)).
Proof. apply call_atomic; [intros [a|e]; cbn; rewrite !elem_of_cons; auto|]. done. Qed.
Lemma writeCreated_atomic f : atomic (call f writeCreated).
Proof. apply call_atomic; [intros [a|e]; cbn; rewrite !elem_of_cons; auto|]. done. Qed.
(** The functions behind [writeOK] never answer [false]. *)
Lemma writeOK_atomic f : (forall db b db', f db = Ok (b, db') -> b = true) -> atomic (call f writeOK).
Proof. intros Hf. apply call_atomic; [intros [[]|e]; cbn; rewrite !elem_of_cons; auto|]. intros b db db' E. apply Hf in E as ->. done. Qed.
Lemma withID_atomic w k : (forall id, atomic (k id)) -> atomic (withID w k).
Proof. intros Hk db. unfold withID. destruct (ParseInt w); [apply Hk|]. cbn. split; [rewrite !elem_of_cons; auto|done]. Qed.
Lemma withBody_atomic {A} (b : option A) k : (forall a, atomic (k a)) -> atomic (withBody b k).
Proof. intros Hk db. unfold withBody. destruct b; [apply Hk|]. cbn. split; [rewrite !elem_of_cons; auto|done]. Qed.

Lemma rename_true {A} (f : tx A) db b db' : tx_bind f (fun _ => tx_ret true) db = Ok (b, db') -> b = true.
Proof. intros (a & db1 & _ & [= <- _])%tx_bind_Ok. done. Qed.
Lemma UpdateClientName_true id n db b db' : UpdateClientName id n db = Ok (b, db') -> b = true.
Proof.
  unfold UpdateClientName. intros (c & db1 & _ & E)%tx_bind_Ok. destruct c as [c|]; [|done].
  apply tx_bind_Ok in E as (u & db2 & _ & E). by apply rename_true in E.
Qed.
Lemma ResetDHCP_true a b db r db' : ResetDHCP a b db = Ok (r, db') -> r = true.
Proof. unfold ResetDHCP. intros (u & db1 & _ & E)%tx_bind_Ok. apply tx_bind_Ok in E as (v & db2 & _ & E). by apply rename_true in E. Qed.
End Handlers.

Create HintDb mgmt.
#[export] Hint Resolve writeData_atomic writeCreated_atomic withID_atomic withBody_atomic writeOK_atomic
  UpdateClientName_true ResetDHCP_true rename_true : mgmt.

Lemma serve_atomic `{IpLib} e w b : atomic (serve e w b).
Proof. destruct e; cbn [serve]; autounfold with handlers; unfold writeIDs, UpdateRoleName, UpdateResourceName; eauto 8 with mgmt. Qed.

Lemma get_readonly {A} (f : database -> A) p db : (call (tx_get f) (writeData p) db).2 = db.
Proof. done. Qed.
Lemma call_readonly {A} (f : tx A) k db : (forall a db', f db = Ok (a, db') -> db' = db) -> (call f k db).2 = db.
Proof. intros Hf. unfold call, transact. destruct (f db) as [[a db']|e] eqn:E; cbn; [by eapply Hf|done]. Qed.
Lemma withID_readonly w k : (forall id, readonly (k id)) -> readonly (withID w k).
Proof. intros Hk db. unfold withID. destruct (ParseInt w); [apply Hk|done]. Qed.

Lemma scan_map_same l db r db' : tx_map (fun kv : Z * Client => scan_client kv.1 kv.2) l db = Ok (r, db') -> db' = db.
Proof.
  revert r. induction l as [|[id c] l IH]; intros r; [by intros [= _ ->]|]. cbn [tx_map].
  intros (a & db1 & E1 & E)%tx_bind_Ok. apply tx_bind_Ok in E as (bs & db2 & E2 & [= _ <-]).
  unfold scan_client in E1. cbn in E1. destruct (c_ip c); [|done]. injection E1 as _ <-. by eapply IH.
Qed.

Definition is_get (e : endpoint) : bool :=
  match e with
  | GetClients | GetClient | GetRolesOfClient | GetResourcesOfClient | GetRoles | GetRole | GetResources | GetResource | GetDhcp => true
  | _ => false
  end.
Lemma serve_readonly `{IpLib} e w b : is_get e = true -> readonly (serve e w b).
Proof.
  destruct e; intros He; try discriminate He; cbn [serve]; autounfold with handlers; intros db; try apply get_readonly;
    try (apply withID_readonly; intros id db0; try apply get_readonly; apply call_readonly; intros a db').
  - apply call_readonly. intros a db' E. unfold GetAllClients in E. apply tx_bind_Ok in E as (rows & db1 & [= _ <-] & E).
    by eapply scan_map_same.
  - intros E. by apply GetClientByID_Ok in E as [-> _].
  - intros E. unfold GetRoleByID in E. apply tx_bind_Ok in E as (r & db1 & [= <- <-] & E). destruct (roles db0 !! id); [|done].
    by injection E as _ <-.
  - intros E. unfold GetResourceByID in E. apply tx_bind_Ok in E as (r & db1 & [= <- <-] & E). destruct (resources db0 !! id); [|done].
    by injection E as _ <-.
Qed.

(** ** Routing *)

(** The methods and endpoints of the table agree. *)
Lemma routes_get e : e ∈ routes -> is_get e.2 = String.eqb e.1.1 "GET".
Proof.
  intros He. assert (Hall : forallb (fun e => eqb (is_get e.2) (String.eqb e.1.1 "GET")) routes = true) by reflexivity.
  rewrite forallb_forall in Hall. apply Bool.eqb_prop, Hall. by apply list_elem_of_In.
Qed.
Lemma routes_methods e : e ∈ routes -> e.1.1 <> "HEAD"%string.
Proof.
  intros He. assert (Hall : forallb (fun e => negb (String.eqb e.1.1 "HEAD")) routes = true) by reflexivity.
  rewrite forallb_forall in Hall. apply String.eqb_neq, negb_true_iff, Hall. by apply list_elem_of_In.
Qed.

Lemma path_hits_elem path m e ws : (m, e, ws) ∈ path_hits path <->
  exists pat, (m, pat, e) ∈ routes /\ match_path pat path = Some ws.
Proof.
  unfold path_hits. rewrite list_elem_of_omap. split.
  - intros ([[m' pat] e'] & Hin & E). cbn in E. destruct (match_path pat path) as [ws'|] eqn:Ep; [|done].
    cbn in E. injection E as -> -> ->. by exists pat.
  - intros (pat & Hin & Ep). exists (m, pat, e). split; [done|]. cbn. by rewrite Ep.
Qed.

Lemma find_handler_inr m0 path e w : find_handler m0 path = inr (e, w) -> exists pat ws m,
  (m, pat, e) ∈ routes /\ match_path pat path = Some ws /\ match_method m m0 = true /\ w = default ""%string (head ws).
Proof.
  unfold find_handler. destruct (List.find _ (path_hits path)) as [[[m e'] ws]|] eqn:Ef; [|done]. intros [= <- <-].
  apply List.find_some in Ef as [Hin Hm]. apply list_elem_of_In, path_hits_elem in Hin as (pat & Hin & Ep).
  by exists pat, ws, m.
Qed.
Lemma find_handler_inl m0 path code : find_handler m0 path = inl code ->
  code = match path_hits path with [] => StatusNotFound | _ => StatusMethodNotAllowed end /\
  forall h, h ∈ path_hits path -> match_method h.1.1 m0 = false.
Proof.
  unfold find_handler. generalize (path_hits path). intros hits.
  destruct (List.find _ hits) as [[[m e'] ws]|] eqn:Ef; [done|]. intros E. split; [congruence|].
  intros h Hh. apply list_elem_of_In in Hh. apply (List.find_none _ _ Ef _ Hh).
Qed.
Lemma no_hits path : path_hits path = [] <-> forall m p e, (m, p, e) ∈ routes -> match_path p path = None.
Proof.
  split.
  - intros Eh m p e Hin. destruct (match_path p path) as [ws|] eqn:Ep; [|done]. exfalso.
    assert (Hh : (m, e, ws) ∈ path_hits path) by (apply path_hits_elem; by exists p). rewrite Eh in Hh. by apply not_elem_of_nil in Hh.
  - intros Hno. pose proof (path_hits_elem path) as Hel. destruct (path_hits path) as [|[[m e] ws] l]; [done|]. exfalso.
    destruct (proj1 (Hel m e ws) ltac:(by left)) as (p & Hin & Ep). by rewrite (Hno _ _ _ Hin) in Ep.
Qed.
Lemma find_handler_code m0 path code : find_handler m0 path = inl code -> code = StatusNotFound \/ code = StatusMethodNotAllowed.
Proof. intros [-> _]%find_handler_inl. destruct (path_hits path); auto. Qed.
Lemma dispatch_inr r e w : dispatch r = inr (e, w) -> exists m pat, (m, pat, e) ∈ routes /\ match_method m (rq_method r) = true.
Proof.
  unfold dispatch. destruct (mux_path r) as [c|path]; [done|]. intros (pat & ws & m & Hin & _ & Hm & _)%find_handler_inr. by exists m, pat.
Qed.

(** The mux redirects exactly the paths that are not clean, CONNECT apart. *)
Definition unclean (r : request) : Prop :=
  rq_method r <> "CONNECT"%string /\ match rq_path r with Path l => cleanPath l <> l | NoPath => True | Asterisk => False end.
Lemma mux_path_code r code : mux_path r = inl code ->
  (code = StatusMovedPermanently /\ unclean r) \/ (rq_path r = Asterisk /\ (code = StatusOK \/ code = StatusBadRequest)).
Proof.
  unfold mux_path, unclean. destruct (String.eqb_spec (rq_method r) "CONNECT") as [E|E], (rq_path r) as [l| |]; cbn [orb]; try done.
  - intros [= <-]. right. destruct (String.eqb (rq_method r) "OPTIONS"); auto.
  - case_bool_decide; [done|]. intros [= <-]. by left.
  - intros [= <-]. by left.
  - intros [= <-]. right. destruct (String.eqb (rq_method r) "OPTIONS"); auto.
Qed.
Lemma mux_path_clean r path : mux_path r = inr path -> ~ unclean r.
Proof.
  unfold mux_path, unclean. destruct (String.eqb_spec (rq_method r) "CONNECT") as [E|E], (rq_path r) as [l| |]; cbn [orb]; try (by intros ? [? ?]).
  case_bool_decide; [|done]. by intros _ [_ ?].
Qed.
Lemma dispatch_code r code : dispatch r = inl code ->
  code ∈ [StatusOK; StatusMovedPermanently; StatusBadRequest; StatusNotFound; StatusMethodNotAllowed] /\
  (code = StatusMovedPermanently <-> unclean r).
Proof.
  unfold dispatch. rewrite !elem_of_cons. destruct (mux_path r) as [c|path] eqn:Em.
  - intros [= <-]. destruct (mux_path_code _ _ Em) as [[-> Hu]|[Ha [-> | ->]]]; (split; [auto 10|]); (split; [done|]);
      try done; unfold unclean; rewrite Ha; by intros [? ?].
  - intros Hf. pose proof (mux_path_clean _ _ Em). destruct (find_handler_code _ _ _ Hf) as [-> | ->]; (split; [auto 10|]); by split.
Qed.
Lemma dispatch_clean r e w : dispatch r = inr (e, w) -> ~ unclean r.
Proof. unfold dispatch. destruct (mux_path r) as [c|path] eqn:Em; [done|]. intros _. by eapply mux_path_clean. Qed.

(** C37.  Whatever request the HTTP server hands on from the management socket:
    the answer is 200, 301, 400, 404, 405 or 500; it is 301, the mux's redirect,
    exactly when the path is not clean; unless it is 200 the database is
    unchanged; and a GET or HEAD request never changes it. *)
Theorem mgmt_atomic `{IpLib} r db :
  let '(rs, db') := handle r db in
  rs_status rs ∈ [StatusOK; StatusMovedPermanently; StatusBadRequest; StatusNotFound; StatusMethodNotAllowed; StatusInternalServerError] /\
  (rs_status rs = StatusMovedPermanently <-> unclean r) /\
  (rs_status rs <> StatusOK -> db' = db) /\
  (rq_method r = "GET"%string \/ rq_method r = "HEAD"%string -> db' = db).
Proof.
  unfold handle. destruct (dispatch r) as [code|[e w]] eqn:Ed.
  - destruct (dispatch_code _ _ Ed) as [Hc Hu]. cbn [rs_status status]. split; [|done].
    rewrite !elem_of_cons in Hc |- *. destruct Hc as [->|[->|[->|[->|[->|Hc]]]]]; auto 10. by apply elem_of_nil in Hc.
  - destruct (serve_atomic e w (rq_body r) db) as [H1 H2]. pose proof (serve_readonly e w (rq_body r)) as H3.
    destruct (serve e w (rq_body r) db) as [rs db'] eqn:Es. cbn [fst snd] in H1, H2. rewrite !elem_of_cons, elem_of_nil in H1.
    split; [rewrite !elem_of_cons; destruct H1 as [->|[->|[->|[]]]]; auto 10|]. split; [|split; [done|]].
    { split; [|by intros ?%(dispatch_clean _ _ _ Ed)]. intros Em. rewrite Em in H1. by destruct H1 as [?|[?|[?|?]]]. }
    intros Hm. apply dispatch_inr in Ed as (m & pat & Hin & Hmm).
    assert (m = "GET"%string) as ->.
    { pose proof (routes_methods _ Hin) as Hh. cbn in Hh. unfold match_method in Hmm. apply orb_true_iff in Hmm as [E|E].
      - apply String.eqb_eq in E. destruct Hm as [Hm|Hm]; congruence.
      - apply andb_true_iff in E as [E _]. by apply String.eqb_eq in E. }
    specialize (H3 (routes_get _ Hin) db). by rewrite Es in H3.
Qed.

(** Two patterns that can match one path. *)
Fixpoint overlap (p q : list (option string)) : bool :=
  match p, q with
  | [], [] => true
  | Some a :: p, Some b :: q => String.eqb a b && overlap p q
  | _ :: p, _ :: q => overlap p q
  | _, _ => false
  end.
Lemma match_overlap p q path u v : match_path p path = Some u -> match_path q path = Some v -> overlap p q = true.
Proof.
  revert q path u v. induction p as [|[a|] p IH]; intros [|[b|] q] [|s path] u v; cbn; try done.
  - destruct (String.eqb a s) eqn:Ea; [|done]. destruct (String.eqb b s) eqn:Eb; [|done].
    apply String.eqb_eq in Ea, Eb. subst. rewrite String.eqb_refl. by apply IH.
  - destruct (String.eqb a s) eqn:Ea; [|done]. destruct (String.eqb s "/") eqn:Es; [done|]. intros H1.
    destruct (match_path q path) eqn:Eq; [|done]. intros _. by eapply IH.
  - destruct (String.eqb s "/") eqn:Es; [done|]. destruct (String.eqb b s); [|done].
    destruct (match_path p path) eqn:Eq; [|done]. intros _ H2. by eapply IH.
  - destruct (String.eqb s "/") eqn:Es; [done|]. destruct (match_path p path) eqn:Ep; [|done].
    destruct (match_path q path) eqn:Eq; [|done]. intros _ _. by eapply IH.
Qed.

Lemma forallb_pairs {A} (P : A -> A -> bool) l a b :
  forallb (fun a => forallb (P a) l) l = true -> a ∈ l -> b ∈ l -> P a b = true.
Proof.
  rewrite forallb_forall. intros H Ha Hb. apply list_elem_of_In in Ha, Hb. specialize (H a Ha).
  rewrite forallb_forall in H. by apply H.
Qed.
Definition same_or_apart (a b : string * list (option string) * endpoint) : bool :=
  negb (String.eqb a.1.1 b.1.1 && overlap a.1.2 b.1.2) || bool_decide (a = b).
Lemma routes_apart a b : a ∈ routes -> b ∈ routes -> a.1.1 = b.1.1 -> overlap a.1.2 b.1.2 = true -> a = b.
Proof.
  intros Ha Hb Em Eo. pose proof (forallb_pairs same_or_apart routes a b ltac:(vm_compute; reflexivity) Ha Hb) as H.
  unfold same_or_apart in H. rewrite Em, String.eqb_refl, Eo in H. by apply bool_decide_eq_true in H.
Qed.

(** Routing is unambiguous: at most one registered pattern of a method
    matches a path, and the handler chosen is one whose pattern and method
    match; without one the answer is 404 when the path matches no pattern at
    all and 405 when only patterns of other methods do. *)
Theorem routes_unambiguous method path :
  (forall m p q d e u v, (m, p, d) ∈ routes -> (m, q, e) ∈ routes ->
     match_path p path = Some u -> match_path q path = Some v -> p = q /\ d = e) /\
  match find_handler method path with
  | inr (e, w) => exists m p ws, (m, p, e) ∈ routes /\ match_path p path = Some ws /\
      match_method m method = true /\ w = default ""%string (head ws)
  | inl code => (forall m p e ws, (m, p, e) ∈ routes -> match_path p path = Some ws -> match_method m method = false) /\
      (code = StatusNotFound <-> forall m p e, (m, p, e) ∈ routes -> match_path p path = None) /\
      (code = StatusNotFound \/ code = StatusMethodNotAllowed)
  end.
Proof.
  split.
  - intros m p q d e u v Hp Hq Hu Hv.
    pose proof (routes_apart _ _ Hp Hq eq_refl (match_overlap _ _ _ _ _ Hu Hv)) as E. by injection E as -> ->.
  - destruct (find_handler method path) as [code|[e w]] eqn:Ed.
    + pose proof (find_handler_code _ _ _ Ed) as Hc. apply find_handler_inl in Ed as [Ec Hnone]. split; [|split; [|done]].
      * intros m p e ws Hin Hm. apply (Hnone (m, e, ws)), path_hits_elem. by exists p.
      * rewrite <- no_hits, Ec. by destruct (path_hits path).
    + apply find_handler_inr in Ed as (p & ws & m & Hin & Hm & Hmm & Ew). by exists m, p, ws.
Qed.

(** The redirect goes to a clean path, so it is not redirected again. *)
Definition plain (s : string) : Prop := s <> ""%string /\ s <> "."%string /\ s <> ".."%string.
Lemma clean_push_plain st s : plain s -> clean_push st s = s :: st.
Proof.
  intros (H1 & H2 & H3). unfold clean_push. by rewrite (proj2 (String.eqb_neq s "")), (proj2 (String.eqb_neq s ".")), (proj2 (String.eqb_neq s "..")).
Qed.
Lemma clean_stack l st : Forall plain st -> Forall plain (foldl clean_push st l).
Proof.
  revert st. induction l as [|s l IH]; intros st Hst; [done|]. cbn [foldl]. apply IH. unfold clean_push.
  destruct (String.eqb_spec s ""), (String.eqb_spec s "."); cbn [orb]; try done.
  destruct (String.eqb_spec s ".."); [by destruct Hst|by repeat constructor].
Qed.
Lemma clean_plain l st : Forall plain l -> foldl clean_push st l = rev l ++ st.
Proof.
  revert st. induction l as [|s l IH]; intros st Hl; [done|]. inversion Hl as [|? ? Hs Hr]; subst. cbn [foldl rev].
  by rewrite clean_push_plain, IH, <- app_assoc.
Qed.
Theorem cleanPath_idem l : cleanPath (cleanPath l) = cleanPath l.
Proof.
  assert (Hp : Forall plain (rev (foldl clean_push [] l))).
  { apply List.Forall_rev. by apply clean_stack. }
  unfold cleanPath at 2 3. destruct (rev (foldl clean_push [] l)) as [|s k] eqn:Ek; [done|]. set (m := s :: k) in *.
  assert (Hm : rev (foldl clean_push [] m) = m) by (rewrite clean_plain, app_nil_r by done; apply rev_involutive).
  destruct (String.eqb (List.last l "") "").
  - unfold cleanPath. rewrite foldl_app. cbn [foldl]. unfold clean_push at 1. cbn [String.eqb orb]. rewrite Hm. unfold m.
    by rewrite last_last.
  - unfold cleanPath. rewrite Hm. unfold m. assert (Hl : plain (List.last m "")).
    { rewrite List.Forall_forall in Hp. apply Hp. destruct (exists_last (l := m)) as (m' & x & E); [done|]. rewrite E, last_last. apply in_or_app. right. by left. }
    destruct Hl as [Hl _]. fold m. by rewrite (proj2 (String.eqb_neq _ _) Hl).
Qed.

(** ** Handlers and the repositories *)

(** The specification of the API: the repository call a request stands for; a
    request that is refused, or only reads, stands for none. *)
Definition endpoint_op (e : endpoint) (w : string) (b : option json) : option repo_op :=
  match e with
  | PostClients => ns ← decodeStrings "names" b; Some (OpCreate ns)
  | PatchClient => id ← ParseInt w; n ← decodeName b; Some (OpRenameClient id n)
  | DelClient => id ← ParseInt w; Some (OpDeleteClients [id])
  | PostClientRoles => id ← ParseInt w; l ← decodeInts "role_ids" b; Some (OpAssignRoles l [id])
  | DelClientRoles => id ← ParseInt w; l ← decodeInts "role_ids" b; Some (OpUnassignRoles l [id])
  | PostClientRolesByName => l ← decodeStrings "role_names" b; Some (OpAssignRolesByName w l)
  | DelClientRolesByName => l ← decodeStrings "role_names" b; Some (OpUnassignRolesByName w l)
  | PostRoles => l ← decodeStrings "names" b; Some (OpUpsertRoles l)
  | PatchRole => id ← ParseInt w; n ← decodeName b; Some (OpRenameRole id n)
  | DelRole => id ← ParseInt w; Some (OpDeleteRoles [id])
  | PostRoleResources => id ← ParseInt w; l ← decodeInts "resource_ids" b; Some (OpAssignResources l [id])
  | DelRoleResources => id ← ParseInt w; l ← decodeInts "resource_ids" b; Some (OpUnassignResources l [id])
  | PostRoleResourcesByName => l ← decodeStrings "resource_names" b; Some (OpAssignResourcesByName w l)
  | DelRoleResourcesByName => l ← decodeStrings "resource_names" b; Some (OpUnassignResourcesByName w l)
  | PostResources => l ← decodeResources b; Some (OpUpsertResources l)
  | PatchResource => id ← ParseInt w; n ← decodeName b; Some (OpRenameResource id n)
  | DelResource => id ← ParseInt w; Some (OpDeleteResources [id])
  | PutDhcp => p ← decodeDHCP b; Some (OpResetDHCP p.1 p.2)
  | _ => None
  end.
Definition request_op (r : request) : option repo_op :=
  match dispatch r with inl _ => None | inr (e, w) => endpoint_op e w (rq_body r) end.

Section Steps.
Context `{IpLib}.

(** A handler acts on the database as the call [o] does. *)
Definition acts_as (f : database -> response * database) (o : option repo_op) : Prop :=
  forall db, (f db).2 = match o with Some o => repo_step ip_text ip_num db o | None => db end.

Lemma acts_call {A} (f : tx A) k o : (forall db, repo_step ip_text ip_num db o = op_db f db) -> acts_as (call f k) (Some o).
Proof. intros Hs db. rewrite Hs. unfold call, op_db. by destruct (transact f db). Qed.
Lemma acts_withID w k o : (forall id, acts_as (k id) (o id)) -> acts_as (withID w k) (id ← ParseInt w; o id).
Proof. intros Hk db. unfold withID. destruct (ParseInt w) as [id|]; [apply Hk|done]. Qed.
Lemma acts_withBody {A} (b : option A) k o : (forall a, acts_as (k a) (o a)) -> acts_as (withBody b k) (a ← b; o a).
Proof. intros Hk db. unfold withBody. destruct b as [a|]; [apply Hk|done]. Qed.
End Steps.

Lemma serve_acts `{IpLib} e w b : acts_as (serve e w b) (endpoint_op e w b).
Proof.
  destruct (is_get e) eqn:Eg.
  - intros db. rewrite (serve_readonly e w b Eg). by destruct e.
  - destruct e; try discriminate Eg; cbn [serve endpoint_op]; autounfold with handlers;
      repeat first [apply acts_withID; intros id | apply acts_withBody; intros a]; by apply acts_call.
Qed.
Lemma handle_acts `{IpLib} r : acts_as (handle r) (request_op r).
Proof. unfold handle, request_op. intros db. destruct (dispatch r) as [code|[e w]]; [done|]. apply serve_acts. Qed.

(** C36.  The management API refines the repositories: a sequence of requests
    acts on the database as the sequence of repository calls that the requests
    stand for, so it keeps every invariant those keep. *)
Theorem mgmt_refines_repo `{IpLib} rs db :
  foldl (fun db r => (handle r db).2) db rs = repo_run ip_text ip_num (omap request_op rs) db.
Proof.
  revert db. induction rs as [|r rs IH]; intros db; [done|]. cbn [foldl omap list_omap]. rewrite IH, handle_acts.
  by destruct (request_op r).
Qed.

Definition sample_requests : list request :=
  [ {| rq_method := "POST"; rq_path := Path ["clients"]; rq_body := Some (JObj [("names", JArr [JStr "alice"; JStr "bob"])]) |};
    {| rq_method := "POST"; rq_path := Path ["resources"];
       rq_body := Some (JObj [("Resources", JArr [JObj [("name", JStr "lan"); ("value", JStr "10.0.0.0/8")]])]) |};
    {| rq_method := "POST"; rq_path := Path ["roles"; "by-name"; "alice"; "resources"]; rq_body := Some (JObj [("resource_names", JArr [JStr "lan"])]) |};
    {| rq_method := "DELETE"; rq_path := Path ["clients"; "2"]; rq_body := None |};
    {| rq_method := "PATCH"; rq_path := Path ["clients"; "x1"]; rq_body := None |};
    {| rq_method := "GET"; rq_path := Path ["clients"; "1"; "resources"]; rq_body := None |};
    {| rq_method := "PUT"; rq_path := Path ["dhcp"]; rq_body := Some (JObj [("first_ip", JInt 5); ("last_ip", JInt 7)]) |};
    {| rq_method := "DELETE"; rq_path := Path [""; "clients"; "1"]; rq_body := None |} ]%string.
Definition sample_calls : list repo_op :=
  [ OpCreate ["alice"; "bob"]; OpUpsertResources [("lan", "10.0.0.0/8")]; OpAssignResourcesByName "alice" ["lan"]; OpDeleteClients [2]; OpResetDHCP 5 7 ]%string.
Lemma mgmt_refines_repo_witness :
  let db := foldl (fun db r => (@handle dotted r db).2) (seeded 5 9) sample_requests in
  db = repo_run (@ip_text dotted) (@ip_num dotted) sample_calls (seeded 5 9) /\
  size (clients db) = 1%nat /\ size (roles_resources db) = 1%nat.
Proof.
  split; [|vm_compute; split; reflexivity].
  assert (E : omap request_op sample_requests = sample_calls) by (vm_compute; reflexivity).
  rewrite <- E. apply (@mgmt_refines_repo dotted sample_requests (seeded 5 9)).
Defined.

(** ** Numbers in paths *)

Lemma digit_value d : 0 <= d <= 9 -> Z.of_nat (nat_of_ascii (digit d)) - 48 = d.
Proof. intros Hd. unfold digit. rewrite nat_ascii_embedding by lia. lia. Qed.
Lemma parse_digits_step d s acc : 0 <= d <= 9 -> parse_digits (String (digit d) s) acc = parse_digits s (10 * acc + d).
Proof. intros Hd. cbn [parse_digits]. rewrite digit_value by done. by rewrite (proj2 (Z.leb_le _ _)), (proj2 (Z.leb_le d 9)) by lia. Qed.

Lemma parse_digits_of k n acc : 0 <= n < 10 ^ Z.of_nat k -> (0 < k)%nat -> parse_digits (digits k n acc) 0 = parse_digits acc n.
Proof.
  revert n acc. induction k as [|k IH]; intros n acc Hn Hk; [lia|]. cbn [digits].
  pose proof (Z.div_mod n 10). pose proof (Z.mod_pos_bound n 10). destruct (n <? 10) eqn:E; bool_hyps.
  - rewrite parse_digits_step by lia. f_equal. rewrite Z.mod_small by lia. lia.
  - rewrite Nat2Z.inj_succ, Z.pow_succ_r in Hn by lia. destruct k as [|k]; [cbn in Hn; lia|].
    rewrite IH by (lia || (split; [apply Z.div_pos; lia|apply Z.div_lt_upper_bound; lia])).
    rewrite parse_digits_step by lia. f_equal. lia.
Qed.
Lemma digits_head k n acc : (0 < k)%nat -> exists d s, digits k n acc = String (digit d) s /\ 0 <= d <= 9.
Proof.
  revert n acc. induction k as [|k IH]; intros n acc Hk; [lia|]. cbn [digits]. pose proof (Z.mod_pos_bound n 10).
  destruct (n <? 10); [exists (n mod 10), acc; split; [done|lia]|].
  destruct k as [|k]; [exists (n mod 10), acc; split; [done|lia]|]. apply IH. lia.
Qed.
Lemma parse_uint_digits n : 0 <= n < 10 ^ 19 -> parse_uint (digits 19 n "") = Some n.
Proof.
  intros Hn. pose proof (digits_head 19 n "" ltac:(lia)) as (d & s & E & _). unfold parse_uint. rewrite E, <- E.
  rewrite parse_digits_of by (done || lia). done.
Qed.
Lemma ParseInt_itoa n : int64_ok n = true -> ParseInt (itoa n) = Some n.
Proof.
  intros Hn. pose proof Hn as Hr. unfold int64_ok in Hr. bool_hyps. unfold ParseInt, itoa, parse_sign. destruct (n <? 0) eqn:E; bool_hyps.
  - cbn [Ascii.eqb Bool.eqb]. change (Ascii.eqb "-" "-") with true. cbn [mbind option_bind].
    rewrite parse_uint_digits by lia. cbn [mbind option_bind]. by rewrite Z.opp_involutive, Hn.
  - pose proof (digits_head 19 n "" ltac:(lia)) as (d & s & Ed & Hd). pose proof (parse_uint_digits n ltac:(lia)) as Hp.
    rewrite Ed in Hp |- *. assert (Hm : Ascii.eqb (digit d) "-" = false /\ Ascii.eqb (digit d) "+" = false).
    { assert (Hc : d = 0 \/ d = 1 \/ d = 2 \/ d = 3 \/ d = 4 \/ d = 5 \/ d = 6 \/ d = 7 \/ d = 8 \/ d = 9) by lia.
      by destruct Hc as [->|[->|[->|[->|[->|[->|[->|[->|[->| ->]]]]]]]]]. }
    destruct Hm as [-> ->]. rewrite Hp. cbn [mbind option_bind]. by rewrite Hn.
Qed.

Lemma itoa_nonempty n : int64_ok n = true -> exists c s, itoa n = String c s.
Proof. intros Hn. pose proof (ParseInt_itoa n Hn) as Hp. destruct (itoa n) as [|c s]; [done|]. by exists c, s. Qed.

(** A number in a path is neither escaped nor cleaned away. *)
Lemma unescape_digits s acc n : parse_digits s acc = Some n -> unescape s = Some s.
Proof.
  revert acc. induction s as [|c s IH]; intros acc; [done|]. cbn [parse_digits unescape].
  destruct (Ascii.eqb_spec c "%") as [->|Hc]; [done|]. destruct (_ && _); [|done]. intros H. by rewrite (IH _ H).
Qed.
Lemma unescape_number s n : ParseInt s = Some n -> unescape s = Some s.
Proof.
  unfold ParseInt, parse_sign. destruct s as [|c s]; [done|].
  assert (Hu : forall t m, parse_uint t = Some m -> unescape t = Some t) by (intros [|a t] m; [done|]; apply unescape_digits).
  destruct (Ascii.eqb_spec c "-") as [->|_].
  - cbn [unescape Ascii.eqb Bool.eqb]. destruct (parse_uint s) as [m|] eqn:E; [|done]. by rewrite (Hu s m E).
  - destruct (Ascii.eqb_spec c "+") as [->|_].
    + cbn [unescape Ascii.eqb Bool.eqb]. destruct (parse_uint s) as [m|] eqn:E; [|done]. by rewrite (Hu s m E).
    + destruct (parse_uint (String c s)) as [m|] eqn:E; [|done]. intros _. by apply (Hu _ m).
Qed.
Lemma number_plain s n : ParseInt s = Some n -> plain s /\ s <> "/"%string.
Proof. intros H. repeat split; intros ->; vm_compute in H; discriminate H. Qed.

Lemma dispatch_get_client b id : int64_ok id = true ->
  dispatch {| rq_method := "GET"; rq_path := Path ["clients"%string; itoa id]; rq_body := b |} = inr (GetClient, itoa id).
Proof.
  intros Hid. pose proof (ParseInt_itoa id Hid) as Hp. destruct (number_plain _ _ Hp) as [Hpl Hs].
  unfold dispatch, mux_path. cbn [rq_path rq_method]. assert (Hc : cleanPath ["clients"%string; itoa id] = ["clients"%string; itoa id]).
  { unfold cleanPath. rewrite clean_plain, app_nil_r, rev_involutive by (constructor; [by split; [|split]|by constructor]). cbn [List.last].
    by rewrite (proj2 (String.eqb_neq _ _) (proj1 Hpl)). }
  rewrite bool_decide_true, orb_true_r by done. cbn [path_segments]. rewrite (proj2 (String.eqb_neq _ _) (proj1 Hpl)).
  unfold pathUnescape. rewrite (unescape_number _ _ Hp). change (unescape "clients") with (Some "clients"%string). cbn [default from_option].
  unfold find_handler, path_hits. set (w := itoa id) in *. cbn -[w]. by rewrite (proj2 (String.eqb_neq w "/") Hs).
Qed.
Lemma handle_get_client `{IpLib} id db : int64_ok id = true ->
  handle {| rq_method := "GET"; rq_path := Path ["clients"%string; itoa id]; rq_body := None |} db = call (GetClientByID id) (writeData PClient) db.
Proof.
  intros Hid. unfold handle. rewrite dispatch_get_client by done. cbn [serve rq_body]. unfold h_GetClient, withID. by rewrite ParseInt_itoa.
Qed.

(** A client created through the API is served back by it: when
    [POST /clients] with one name answers 200 with an id, [GET /clients/{id}]
    answers 200 with that name and an address that was free before, and
    [GET /clients/{id}/roles] lists a role of the same name. *)
Theorem mgmt_create_then_get `{IpLib} db body name id db1 :
  schema_ok db -> pool_ok (dhcp db) -> int64_ok id = true -> decodeStrings "names" body = Some [name] ->
  handle {| rq_method := "POST"; rq_path := Path ["clients"%string]; rq_body := body |} db = (writeJSON (PIDs [id]), db1) ->
  exists x role, covered (dhcp db) x /\
    handle {| rq_method := "GET"; rq_path := Path ["clients"%string; itoa id]; rq_body := None |} db1
      = (writeJSON (PClient (id, {| c_name := name; c_last_seen := 0; c_ip := Some (ip_text x) |})), db1) /\
    match GetClientRoles id db1 with Ok (l, _) => (role, name) ∈ l | Err _ => False end.
Proof.
  intros Hs Hp Hid Hb Hh.
  assert (Ed : forall b, dispatch {| rq_method := "POST"; rq_path := Path ["clients"%string]; rq_body := b |} = inr (PostClients, ""%string))
    by reflexivity.
  unfold handle in Hh. rewrite Ed in Hh. cbn [serve rq_body] in Hh. unfold h_PostClients, withBody in Hh. rewrite Hb in Hh.
  unfold call, transact in Hh. pose proof (created_one ip_text db name Hs Hp) as Sp.
  destruct (CreateClientsWithRoles ip_text [name] db) as [[ids db']|e] eqn:Ec; cbn [writeCreated] in Hh; [|done].
  cbn [created] in Sp. destruct Sp as (id' & rid & x & -> & _ & _ & _ & _ & Hx & _ & Ecl & Er & El & _).
  unfold writeJSON in Hh. injection Hh as -> ->. exists x, rid. split; [done|]. split.
  - rewrite handle_get_client by done. unfold call, transact, GetClientByID, tx_bind, tx_get.
    rewrite Ecl, lookup_insert_eq. reflexivity.
  - unfold GetClientRoles, tx_get. apply list_elem_of_omap. exists (id, rid). split.
    + rewrite El. apply elem_of_elements. apply elem_of_union_l, elem_of_singleton; reflexivity.
    + cbn. by rewrite Z.eqb_refl, Er, lookup_insert_eq.
Qed.

Lemma mgmt_create_then_get_witness :
  exists db1 x role, covered (dhcp (seeded 5 9)) x /\
    @handle dotted {| rq_method := "GET"; rq_path := Path ["clients"%string; itoa 1]; rq_body := None |} db1
      = (writeJSON (PClient (1, {| c_name := "alice"%string; c_last_seen := 0; c_ip := Some (@ip_text dotted x) |})), db1) /\
    match GetClientRoles 1 db1 with Ok (l, _) => (role, "alice"%string) ∈ l | Err _ => False end.
Proof.
  assert (Ho : db_ok (@ip_text dotted) 5 9 (seeded 5 9)) by (apply ok_seeded; lia).
  set (body := Some (JObj [("names"%string, JArr [JStr "alice"])])).
  exists (@handle dotted {| rq_method := "POST"; rq_path := Path ["clients"%string]; rq_body := body |} (seeded 5 9)).2.
  apply (@mgmt_create_then_get dotted (seeded 5 9) body "alice"%string 1 _ (proj1 Ho) (ao_pool _ _ _ _ _ (proj2 Ho))); vm_compute; reflexivity.
Defined.
