(* ===== verification/Setup.v ===== *)
(** * The life of a connection (main.go, the /vpn handler and [handleConn])

    What the server's parts do together: the control plane's database, the
    session table of the return path, the registry of tunnel channels, the TUN
    queues' readers, and any number of connections, each going through the stages of
    [handleConn].  A stage is one call or one critical section; the stages of
    different connections, requests of the management API and the two download
    paths interleave freely.  The calls into connect-ip (addresses, routes, the
    end of a tunnel) are answers of the environment. *)
From Stdlib Require Import Ascii.
From S2P Require Import Prelude Words Ip Repo Mgmt Session Router.
Local Open Scope Z_scope.
Local Open Scope masqued_scope.

(** ** The /vpn handler's parameters *)

(** [strconv.Atoi] with its error dropped: zero for a syntax error, the nearest
    int64 for a number out of range, met before any later bad character. *)
Fixpoint scan_digits (s : string) (acc : Z) : option Z :=
  match s with
  | EmptyString => Some acc
  | String c s =>
      let d := Z.of_nat (nat_of_ascii c) - 48 in
      if (0 <=? d) && (d <=? 9)
      then let n := 10 * acc + d in if 18446744073709551616 <=? n then Some n else scan_digits s n
      else None
  end.
Definition scan_uint (s : string) : option Z := match s with EmptyString => None | _ => scan_digits s 0 end.
Definition Atoi_value (s : string) : Z :=
  match parse_sign scan_uint s with
  | Some n => Z.max (-9223372036854775808) (Z.min n 9223372036854775807)
  | None => 0
  end.

(** The client id of the certificate's common name and the tunnel's coordinates;
    [None] is the answer 401. *)
Definition vpn_params (commonName idx count : string) : option (Z * Z * Z) :=
  clientId ← ParseInt commonName;
  let '(i, n) := tunnel_coords (Atoi_value idx) (Atoi_value count) in Some (clientId, i, n).

(** ** State *)

Inductive stage := Start | Assigned | SessionUp | ChanUp | Running | Unregistered | ChanClosed | Leaving | Done.
Global Instance stage_eq_dec : EqDecision stage.
Proof. solve_decision. Defined.

(** One call of [handleConn]; its number also names its channel and session. *)
Record conn := {
  cn_client : Z; cn_idx : Z; cn_count : Z;
  cn_addr : option Z; cn_routes : list (bytes * bytes);
  cn_stage : stage
}.

Record server := {
  sv_db : database;
  sv_sess : SessionTable;
  sv_reg : registry;
  sv_conns : gmap nat conn; sv_next : nat;
  sv_closed : gset nat;              (* closed channels *)
  sv_pick : gmap nat (nat * bytes);  (* the TUN queues whose reader is between choosing a channel and sending *)
  sv_out : list (nat * bytes)        (* packets put in a connection's channel *)
}.

Definition boot (db : database) : server :=
  {| sv_db := db; sv_sess := NewSessionTable; sv_reg := ∅; sv_conns := ∅; sv_next := 0; sv_closed := ∅; sv_pick := ∅; sv_out := [] |}.

Definition with_db (s : server) db := Build_server db (sv_sess s) (sv_reg s) (sv_conns s) (sv_next s) (sv_closed s) (sv_pick s) (sv_out s).
Definition with_sess (s : server) t := Build_server (sv_db s) t (sv_reg s) (sv_conns s) (sv_next s) (sv_closed s) (sv_pick s) (sv_out s).
Definition with_reg (s : server) t := Build_server (sv_db s) (sv_sess s) t (sv_conns s) (sv_next s) (sv_closed s) (sv_pick s) (sv_out s).
Definition with_conn (s : server) (tid : nat) (c : conn) :=
  Build_server (sv_db s) (sv_sess s) (sv_reg s) (<[tid := c]> (sv_conns s)) (sv_next s) (sv_closed s) (sv_pick s) (sv_out s).
Definition with_closed (s : server) x := Build_server (sv_db s) (sv_sess s) (sv_reg s) (sv_conns s) (sv_next s) x (sv_pick s) (sv_out s).
Definition with_pick (s : server) x := Build_server (sv_db s) (sv_sess s) (sv_reg s) (sv_conns s) (sv_next s) (sv_closed s) x (sv_out s).
Definition with_out (s : server) x := Build_server (sv_db s) (sv_sess s) (sv_reg s) (sv_conns s) (sv_next s) (sv_closed s) (sv_pick s) x.

Definition at_stage (c : conn) (g : stage) : conn :=
  {| cn_client := cn_client c; cn_idx := cn_idx c; cn_count := cn_count c; cn_addr := cn_addr c; cn_routes := cn_routes c; cn_stage := g |}.
Definition assigned (c : conn) (a : Z) : conn :=
  {| cn_client := cn_client c; cn_idx := cn_idx c; cn_count := cn_count c; cn_addr := Some a; cn_routes := cn_routes c; cn_stage := Assigned |}.
Definition routed (c : conn) (r : list (bytes * bytes)) : conn :=
  {| cn_client := cn_client c; cn_idx := cn_idx c; cn_count := cn_count c; cn_addr := cn_addr c; cn_routes := r; cn_stage := Running |}.

(** The session and the slot of a connection. *)
Definition session_of (tid : nat) (c : conn) (a : Z) : TunnelSession :=
  {| sid := Z.of_nat tid; InnerIP := a; TunnelIndex := Z.to_nat (cn_idx c) |}.

Section Setup.
Context `{IpLib}.
(** The forms of [netip.ParseAddr] other than dotted quads. *)
Variable parse6 : string -> option bytes.

Definition ParseAddr (s : string) : option bytes := match parse4 s with Some b => Some b | None => parse6 s end.
(** [addr.Unmap().As4()] as a number; [None] is its panic. *)
Definition innerAddr (text : string) : option Z := a ← ParseAddr text; b ← To4 a; Some (be_num b).

(** The routes advertised to a client: one range per resource whose value is a
    prefix.  [None] is the panic inside [LastIPAddr]. *)
Definition client_routes (clientResources : list (Z * Resource)) : option (list (bytes * bytes)) :=
  mapM (fun p => e ← LastIPAddr p; Some (pfx_addr p, e)) (omap (fun r => ParsePrefix (r_value r.2)) clientResources).

(** ** One stage of [handleConn] *)

(** The way out: deregistration, the close of the channel, and the deferred
    [RemoveSession], which is all that a failed set-up runs. *)
Definition conn_exit (s : server) (tid : nat) (c : conn) : option server :=
  match cn_stage c, cn_addr c with
  | Running, Some a =>
      Some (with_conn (with_reg s (unregister_chan (sv_reg s) a (cn_idx c))) tid (at_stage c Unregistered))
  | Unregistered, _ => Some (with_conn (with_closed s ({[tid]} ∪ sv_closed s)) tid (at_stage c ChanClosed))
  | (ChanClosed | Leaving), Some a =>
      Some (with_conn (with_sess s (RemoveSession (session_of tid c a) (sv_sess s))) tid (at_stage c Done))
  | _, _ => None
  end.

(** [ok]: whether the call that the stage waits for succeeds (the database
    before the set-up deadline, [AssignAddresses], [AdvertiseRoute]).  A stage
    that returns early leaves the deferred [RemoveSession]. *)
Definition conn_stage (s : server) (tid : nat) (ok : bool) : option server :=
  c ← sv_conns s !! tid;
  match cn_stage c, cn_addr c with
  | Start, _ =>
      if negb ok then Some (with_conn s tid (at_stage c Done))
      else match transact (AssignIPToClient ip_text (cn_client c)) (sv_db s) with
           | (Err _, db) => Some (with_conn (with_db s db) tid (at_stage c Done))
           | (Ok text, db) =>
               match innerAddr text with
               | Some a => Some (with_conn (with_db s db) tid (assigned c a))
               | None => Some (with_conn (with_db s db) tid (at_stage c Done))
               end
           end
  | Assigned, Some a =>
      Some (with_conn (with_sess s (Register (session_of tid c a) (cn_count c) (sv_sess s))) tid (at_stage c SessionUp))
  | SessionUp, Some a =>
      if ok then Some (with_conn (with_reg s (register_chan (sv_reg s) a (cn_idx c) (cn_count c) tid)) tid (at_stage c ChanUp))
      else Some (with_conn s tid (at_stage c Leaving))
  | ChanUp, _ =>
      match (if ok then match transact (GetClientResources (cn_client c)) (sv_db s) with (Ok l, _) => client_routes l | (Err _, _) => None end
             else None) with
      | Some r => Some (with_conn s tid (routed c r))
      | None => Some (with_conn s tid (at_stage c Leaving))
      end
  | (Running | Unregistered | ChanClosed | Leaving), _ => conn_exit s tid c
  | _, _ => None
  end.

(** ** The server's steps *)

Inductive event :=
  | EvAccept (commonName idx count : string)
  | EvConn (tid : nat) (ok : bool)
  | EvApi (r : request)
  | EvPick (queue : nat) (pkt : bytes) | EvSend (queue : nat)
  | EvDeliver (pkt : bytes).

(** [Disabled]: the event cannot happen; [Panic]: a send on a closed channel,
    which ends the process. *)
Inductive outcome := Next (s : server) | Disabled | Panic.

Definition enabled (o : option server) : outcome := match o with Some s => Next s | None => Disabled end.

(** The channel send of both download paths.  [sv_out] records the packets a
    channel was offered; a full channel drops them ([Router.chan_send]). *)
Definition send_to (s : server) (c : nat) (pkt : bytes) : outcome :=
  if decide (c ∈ sv_closed s) then Panic else Next (with_out s (sv_out s ++ [(c, pkt)])).

Definition exec (s : server) (e : event) : outcome :=
  match e with
  | EvAccept cn idx count =>
      match vpn_params cn idx count with
      | None => Next s
      | Some (clientId, i, n) =>
          Next (Build_server (sv_db s) (sv_sess s) (sv_reg s)
            (<[sv_next s := {| cn_client := clientId; cn_idx := i; cn_count := n; cn_addr := None; cn_routes := []; cn_stage := Start |}]> (sv_conns s))
            (S (sv_next s)) (sv_closed s) (sv_pick s) (sv_out s))
      end
  | EvConn tid ok => enabled (conn_stage s tid ok)
  | EvApi r => Next (with_db s (handle r (sv_db s)).2)
  | EvPick q pkt =>
      match sv_pick s !! q with
      | Some _ => Disabled
      | None => match pickTunnel (default [] (sv_reg s !! be32 pkt 16)) pkt with
                | Some c => Next (with_pick s (<[q := (c, pkt)]> (sv_pick s)))
                | None => Next s
                end
      end
  | EvSend q =>
      match sv_pick s !! q with
      | Some (c, pkt) => send_to (with_pick s (delete q (sv_pick s))) c pkt
      | None => Disabled
      end
  | EvDeliver pkt =>
      match Deliver (fun _ _ => true) pkt (be32 pkt 16) (sv_sess s) with
      | (true, Some x, _) => send_to s (Z.to_nat (sid x)) pkt
      | _ => Next s
      end
  end.

Fixpoint exec_all (s : server) (es : list event) : outcome :=
  match es with
  | [] => Next s
  | e :: es => match exec s e with Next s => exec_all s es | o => o end
  end.

(** The steps, with a restriction on what the management API is asked. *)
Definition sstep (allow : server -> request -> Prop) (s s' : server) : Prop :=
  exists e, exec s e = Next s' /\ match e with EvApi r => allow s r | _ => True end.
End Setup.
