(* ===== verification/SetupProps.v ===== *)
(** * Properties of the life of a connection

    Isolation of the clients under every interleaving, the routes a client is
    offered, the clean end of a connection, and the three ways in which the
    parts do not fit: a failed set-up leaves its channel registered, a deleted
    client keeps its tunnels, and the downloads send on a closed channel. *)
From S2P Require Import Prelude Words Ip IpProps Repo Mgmt RepoProps Migrate MigrateProps MgmtProps Session SessionProps Router RouterProps Setup.
Local Open Scope Z_scope.
Local Open Scope masqued_scope.

(** ** Addresses are kept *)

Create HintDb mine.
Section Owned.
Variable ip_text : Z -> string.
Variable ip_num : string -> option Z.
Variables lo hi : Z.
Hypothesis ip_nonempty : forall n, ip_text n <> ""%string.
Variables i x : Z.
Local Abbreviation mine := (fun db => owns ip_text db i x).

Lemma mine_quiet {A} (f : tx A) : quiet f -> keeps mine f.
Proof. intros Hq db a db' Hi H. by apply (same_addr_owns _ _ _ _ _ (Hq _ _ _ H)). Qed.
Lemma mine_same_clients {A} (f : tx A) : (forall db a db', f db = Ok (a, db') -> clients db' = clients db) -> keeps mine f.
Proof. intros Hf db a db' (c & Hc & Hx) H. exists c. by rewrite (Hf _ _ _ H). Qed.
Lemma mine_insert_client name ip : keeps mine (insert_client name ip).
Proof.
  intros db a db' (c & Hc & Hx) H. unfold insert_client in H. destruct (has_row _ _); [done|]. injection H as <- <-.
  exists c. split; [|done]. cbn. rewrite lookup_insert_ne; [done|]. intros E. pose proof (next_id_fresh (clients db)) as Hn. by rewrite E, Hc in Hn.
Qed.
Lemma mine_update_dhcp id a b : keeps mine (update_dhcp id a b).
Proof. apply mine_same_clients. intros db r db' H. unfold update_dhcp in H. destruct (dhcp db !! id); [destruct (dhcp_conflict _ _ _)|]; by simplify_eq. Qed.
Lemma mine_delete_dhcp id : keeps mine (delete_dhcp id).
Proof. apply mine_same_clients. intros db r db' H. unfold delete_dhcp, tx_upd in H. by simplify_eq. Qed.
Lemma mine_insert_dhcp a b : keeps mine (insert_dhcp a b).
Proof. apply mine_same_clients. intros db r db' H. unfold insert_dhcp in H. destruct (dhcp_conflict _ _ _); by simplify_eq. Qed.
Lemma mine_alloc : keeps mine (alloc_ip ip_text).
Proof.
  unfold alloc_ip. apply keeps_bind; [apply keeps_get|]. intros [[id [a b]]|]; [|apply keeps_err].
  apply keeps_bind; [destruct (a =? b); [apply mine_delete_dhcp|apply mine_update_dhcp]|intros ?; apply keeps_ret].
Qed.
Lemma mine_release ip : keeps mine (release_ip ip).
Proof.
  unfold release_ip. apply keeps_bind; [apply keeps_get|]. intros r1. apply keeps_bind; [apply keeps_get|]. intros r2.
  destruct r1 as [[id1 [f1 l1]]|], r2 as [[id2 [f2 l2]]|];
    auto using keeps_bind, mine_update_dhcp, mine_delete_dhcp, mine_insert_dhcp.
Qed.
Lemma mine_delete_client id : id <> i -> keeps mine (delete_client id).
Proof.
  intros Hne db a db' (c & Hc & Hx) H. unfold delete_client in H. destruct (clients db !! id); [|by simplify_eq; exists c].
  injection H as <- <-. exists c. split; [|done]. cbn. by rewrite lookup_delete_ne.
Qed.
Lemma mine_delete_one acc id : id <> i -> keeps mine (delete_one_client ip_num acc id).
Proof.
  intros Hne. unfold delete_one_client. apply keeps_bind.
  { intros db a db' Hi H. by apply GetClientByID_Ok in H as [-> _]. }
  intros row. destruct (ip_num _); [|apply keeps_err]. apply keeps_bind; [apply mine_release|]. intros _.
  apply keeps_bind; [by apply mine_delete_client|]. intros n. apply keeps_bind; [|intros ?; apply keeps_ret].
  apply mine_quiet, quiet_delete_role_named.
Qed.
Lemma mine_delete_all ids acc : i ∉ ids -> keeps mine (tx_fold (delete_one_client ip_num) ids acc).
Proof.
  revert acc. induction ids as [|id ids IH]; intros acc Hn; [apply keeps_ret|]. cbn [tx_fold].
  apply not_elem_of_cons in Hn as [Hne Hn]. apply keeps_bind; [by apply mine_delete_one|]. intros a. by apply IH.
Qed.
Lemma mine_prim {A} (f : tx A) : quiet f -> keeps mine f.
Proof. apply mine_quiet. Qed.
Lemma mine_link_loop f outer inner : (forall a b, quiet (f a b)) -> keeps mine (link_loop f outer inner).
Proof. intros Hf. apply keeps_fold. intros acc a. apply keeps_fold. intros acc' b. apply keeps_bind; [by apply mine_quiet|]. intros n. apply keeps_ret. Qed.
Lemma mine_by_name r f id names : (forall n, keeps mine (r n)) -> (forall a b, quiet (f a b)) -> keeps mine (link_by_name r f id names).
Proof.
  intros Hr Hf. apply keeps_fold. intros acc n. apply keeps_bind; [done|]. intros o.
  apply keeps_bind; [by apply mine_quiet|]. intros k. apply keeps_ret.
Qed.
Lemma mine_delete_loop f ids : (forall a, quiet (f a)) -> keeps mine (delete_loop f ids).
Proof. intros Hf. apply keeps_fold. intros acc n. apply keeps_bind; [by apply mine_quiet|]. intros o. apply keeps_ret. Qed.
Lemma mine_ids n : keeps mine (client_id_by_name n) /\ keeps mine (role_id_by_name n) /\ keeps mine (resource_id_by_name n).
Proof.
  split; [|split]; apply mine_same_clients; intros db a db' H;
    [unfold client_id_by_name in H|unfold role_id_by_name in H|unfold resource_id_by_name in H];
    destruct (find_row _ _) as [[]|]; by simplify_eq.
Qed.

Hint Resolve mine_quiet mine_link_loop mine_by_name mine_delete_loop mine_delete_all mine_insert_client mine_alloc
  quiet_insert_role quiet_insert_resource quiet_link_role quiet_unlink_role quiet_link_resource quiet_unlink_resource
  quiet_delete_role quiet_delete_resource quiet_rename_role quiet_rename_resource quiet_rename_client quiet_rename_role_named : mine.

Lemma mine_rename_client id n : keeps mine (UpdateClientName id n).
Proof.
  unfold UpdateClientName. apply keeps_bind; [apply keeps_get|]. intros [c|]; [|apply keeps_err].
  apply keeps_bind; [auto with mine|]. intros _. apply keeps_bind; [auto with mine|]. intros _. apply keeps_ret.
Qed.
Lemma mine_create names : keeps mine (CreateClientsWithRoles ip_text names).
Proof.
  apply keeps_map. intros name. apply keeps_bind; [apply mine_alloc|]. intros ip. apply keeps_bind; [apply mine_insert_client|].
  intros cid. apply keeps_bind; [auto with mine|]. intros rid. apply keeps_bind; [|intros ?; apply keeps_ret].
  unfold insert_link. apply keeps_bind; [auto with mine|]. intros n. destruct (n =? 0); [apply keeps_err|apply keeps_ret].
Qed.
Lemma mine_upsert names : keeps mine (UpsertClients ip_text names).
Proof. apply keeps_map. intros name. apply keeps_bind; auto with mine. Qed.

(** Every call but the deletion of the client itself keeps its address. *)
Lemma mine_step db o : no_reset o = true -> db_ok ip_text lo hi db -> (forall ids, o = OpDeleteClients ids -> i ∉ ids) ->
  owns ip_text db i x -> owns ip_text (repo_step ip_text ip_num db o) i x.
Proof.
  intros Hn [_ Hdb] Hdel Hi. destruct o; try discriminate Hn; cbn [repo_step].
  3: { unfold op_db, transact. destruct (AssignIPToClient ip_text id db) as [[t db']|e] eqn:E; [|done].
       by apply (assign_known ip_text lo hi ip_nonempty) in E as [-> _]. }
  all: apply (keeps_transact mine); [|exact Hi].
  1: apply mine_create. 1: apply mine_upsert. 1: { apply mine_delete_all. by apply Hdel. }
  all: unfold AssignRolesToClients, UnassignRolesToClients, AssignResourcesToRoles, UnassignResourcesToRoles,
      AssignRolesToClientByName, UnassignRolesToClientByName, AssignResourcesToRoleByName, UnassignResourcesToRoleByName,
      UpdateRoleName, UpdateResourceName, UpsertRoles, UpsertResources, DeleteRoles, DeleteResources; try (by auto with mine).
  all: try apply mine_rename_client.
  all: try (apply keeps_map; intros ?; by auto with mine).
  all: apply keeps_bind; [by auto with mine; apply mine_ids|intros ?].
  all: try apply keeps_ret. all: apply mine_by_name; [intros ?; apply mine_ids|by auto with mine].
Qed.
End Owned.

(** A delivery goes to a session of the table, registered for the destination. *)
Lemma live_of_Deliver send p dst (t : SessionTable) ok x t' : Deliver send p dst t = (ok, Some x, t') ->
  exists i, live t dst i = Some x.
Proof.
  unfold Deliver. intros H. destruct (length p <? 20)%nat; [done|]. destruct (t !! dst) as [g|] eqn:Eg; [|done].
  destruct (pick g p) as [y|] eqn:Ep; [|done]. assert (y = x) as -> by (destruct (send y p); by injection H).
  unfold pick in Ep. destruct (_ || _); [done|].
  assert (Hin : Some x ∈ sessions g).
  { destruct (sessions g !! _) as [[z|]|] eqn:Ez; [|by apply first_live_Some|by apply first_live_Some].
    injection Ep as ->. by eapply list_elem_of_lookup_2. }
  apply list_elem_of_lookup_1 in Hin as [i Hi]. exists i. unfold live. rewrite Eg. cbn. by rewrite Hi.
Qed.

(** ** The invariant of the running server *)

Section System.
Context `{IpLaws}.
Variable parse6 : string -> option bytes.
Variables lo hi : Z.
Hypothesis Hrange : 0 <= lo /\ hi < 2 ^ 32.

Definition chan_addr (s : server) (c : nat) (a : Z) : Prop := exists k, sv_conns s !! c = Some k /\ cn_addr k = Some a.

Record sys_ok (s : server) : Prop := {
  so_db : db_ok ip_text lo hi (sv_db s);
  so_conn t c a : sv_conns s !! t = Some c -> cn_addr c = Some a -> lo <= a <= hi /\ owns ip_text (sv_db s) (cn_client c) a;
  so_start t c : sv_conns s !! t = Some c -> cn_stage c = Start -> cn_addr c = None;
  so_reg k i c : reg_slot (sv_reg s) k i = Some c -> chan_addr s c k;
  so_sess k i x : live (sv_sess s) k i = Some x -> chan_addr s (Z.to_nat (sid x)) k;
  so_pick q c p : sv_pick s !! q = Some (c, p) -> chan_addr s c (be32 p 16);
  so_out c p : (c, p) ∈ sv_out s -> chan_addr s c (be32 p 16);
  so_next t : is_Some (sv_conns s !! t) -> (t < sv_next s)%nat
}.

(** Requests the isolation theorem allows: no pool reset, and no deletion of a
    client that has ever connected. *)
Definition no_live_delete (s : server) (r : request) : Prop :=
  (forall o, request_op r = Some o -> no_reset o = true) /\
  forall ids, request_op r = Some (OpDeleteClients ids) -> forall t c, sv_conns s !! t = Some c -> cn_client c ∉ ids.

Lemma range_round n : lo <= n <= hi -> ip_num (ip_text n) = Some n.
Proof. intros Hn. apply ip_num_text. lia. Qed.

Lemma innerAddr_text a : lo <= a <= hi -> innerAddr parse6 (ip_text a) = Some a.
Proof.
  intros Ha. unfold innerAddr, ParseAddr. rewrite ip_text_show by lia.
  rewrite parse4_show4 by (apply be_bytes_length || auto with mq). cbn [mbind option_bind]. unfold To4.
  rewrite be_bytes_length. cbn [Nat.eqb mbind option_bind]. rewrite be_num_bytes by lia. done.
Qed.

(** Steps that replace a connection's record by one with the same client, and
    the same address once it has one. *)
Lemma chan_addr_with (s : server) t c c' k a : sv_conns s !! t = Some c -> (forall a, cn_addr c = Some a -> cn_addr c' = Some a) ->
  chan_addr s k a -> chan_addr (with_conn s t c') k a.
Proof.
  intros Hc Ha (x & Hx & Hxa). unfold chan_addr, with_conn. cbn. destruct (decide (k = t)) as [->|Hne].
  - rewrite lookup_insert_eq. exists c'. split; [done|]. apply Ha. congruence.
  - rewrite lookup_insert_ne by done. by exists x.
Qed.

Lemma conn_replaced (s : server) t c c' : sys_ok s -> sv_conns s !! t = Some c ->
  cn_client c' = cn_client c -> (forall a, cn_addr c = Some a -> cn_addr c' = Some a) ->
  (forall a, cn_addr c' = Some a -> lo <= a <= hi /\ owns ip_text (sv_db s) (cn_client c) a) -> cn_stage c' <> Start ->
  sys_ok (with_conn s t c').
Proof.
  intros [H1 H2 H3 H4 H5 H6 H7 H8] Hc Hcl Ha Hown Hst.
  assert (Hch : forall k a, chan_addr s k a -> chan_addr (with_conn s t c') k a) by (intros k a; by apply (chan_addr_with s t c)).
  constructor; cbn [with_conn sv_db sv_sess sv_reg sv_conns sv_next sv_closed sv_pick sv_out]; eauto.
  - intros u d a Hu Hd. destruct (decide (u = t)) as [->|Hne].
    + rewrite lookup_insert_eq in Hu. injection Hu as <-. rewrite Hcl. by apply Hown.
    + rewrite lookup_insert_ne in Hu by done. by apply (H2 u).
  - intros u d Hu Hd. destruct (decide (u = t)) as [->|Hne].
    + rewrite lookup_insert_eq in Hu. injection Hu as <-. done.
    + rewrite lookup_insert_ne in Hu by done. by apply (H3 u).
  - intros u Hu. destruct (decide (u = t)) as [->|Hne]; [apply H8; by exists c|].
    rewrite lookup_insert_ne in Hu by done. by apply H8.
Qed.

(** Steps on the other fields. *)
Lemma sys_sess (s : server) t : sys_ok s -> (forall k i x, live t k i = Some x -> chan_addr s (Z.to_nat (sid x)) k) -> sys_ok (with_sess s t).
Proof. intros [H1 H2 H3 H4 H5 H6 H7 H8] Ht. by constructor. Qed.
Lemma sys_reg (s : server) t : sys_ok s -> (forall k i c, reg_slot t k i = Some c -> chan_addr s c k) -> sys_ok (with_reg s t).
Proof. intros [H1 H2 H3 H4 H5 H6 H7 H8] Ht. by constructor. Qed.
Lemma sys_closed (s : server) x : sys_ok s -> sys_ok (with_closed s x).
Proof. intros [H1 H2 H3 H4 H5 H6 H7 H8]. by constructor. Qed.
Lemma sys_pick (s : server) x : sys_ok s -> (forall q c p, x !! q = Some (c, p) -> chan_addr s c (be32 p 16)) -> sys_ok (with_pick s x).
Proof. intros [H1 H2 H3 H4 H5 H6 H7 H8] Hx. by constructor. Qed.
Lemma sys_send (s : server) c p : sys_ok s -> chan_addr s c (be32 p 16) -> sys_ok (with_out s (sv_out s ++ [(c, p)])).
Proof.
  intros [H1 H2 H3 H4 H5 H6 H7 H8] Hx. constructor; try done.
  intros d q Hd. cbn in Hd. apply elem_of_app in Hd as [Hd|Hd]; [by apply H7|].
  apply list_elem_of_singleton in Hd. by injection Hd as -> ->.
Qed.
Lemma sys_db (s : server) db : sys_ok s -> db_ok ip_text lo hi db ->
  (forall t c a, sv_conns s !! t = Some c -> cn_addr c = Some a -> owns ip_text db (cn_client c) a) -> sys_ok (with_db s db).
Proof.
  intros [H1 H2 H3 H4 H5 H6 H7 H8] Hd Ho. constructor; try done.
  intros t c a Hc Ha. split; [by apply (H2 t c a)|by apply (Ho t)].
Qed.

Lemma sys_assign (s : server) t c : sys_ok s -> sv_conns s !! t = Some c -> cn_stage c = Start ->
  forall text db, transact (AssignIPToClient ip_text (cn_client c)) (sv_db s) = (Ok text, db) ->
  db = sv_db s /\ exists a, innerAddr parse6 text = Some a /\ lo <= a <= hi /\ owns ip_text (sv_db s) (cn_client c) a.
Proof.
  intros Hs Hc Hst text db Ht. unfold transact in Ht. destruct (AssignIPToClient ip_text (cn_client c) (sv_db s)) as [[u db']|e] eqn:E; [|done].
  injection Ht as <- <-. destruct (so_db s Hs) as [_ Hdb].
  destruct (assign_known ip_text lo hi ip_text_nonempty _ _ _ _ Hdb E) as (-> & a & Ha & Ho & ->).
  split; [done|]. exists a. split; [by apply innerAddr_text|done].
Qed.

Lemma same_addr_stage (s : server) t c g : sys_ok s -> sv_conns s !! t = Some c -> g <> Start -> sys_ok (with_conn s t (at_stage c g)).
Proof. intros Hs Hc Hg. eapply conn_replaced; eauto. intros a Ha. by apply (so_conn s Hs t). Qed.

Lemma sys_stage (s s' : server) t ok : sys_ok s -> conn_stage parse6 s t ok = Some s' -> sys_ok s'.
Proof.
  intros Hs Hst. unfold conn_stage, conn_exit in Hst. destruct (sv_conns s !! t) as [c|] eqn:Hc; [|done]. cbn [mbind option_bind] in Hst.
  assert (Hch : forall a, cn_addr c = Some a -> chan_addr s t a) by (intros a Ha; by exists c).
  destruct (cn_stage c) eqn:Eg, (cn_addr c) as [a|] eqn:Ea; try discriminate Hst.
  (* Start *)
  1: by rewrite (so_start s Hs t c Hc Eg) in Ea.
  1: { destruct ok; cbn [negb] in Hst; [|injection Hst as <-; by apply same_addr_stage].
       destruct (transact _ _) as [[text|e] db] eqn:Et.
       - destruct (sys_assign s t c Hs Hc Eg text db Et) as (-> & a & Hia & Ha & Ho). rewrite Hia in Hst. injection Hst as <-.
         replace (with_db s (sv_db s)) with s by (by destruct s). eapply conn_replaced; eauto; [congruence|].
         intros b [= <-]. by split.
       - injection Hst as <-. replace db with (sv_db s); [replace (with_db s (sv_db s)) with s by (by destruct s); by apply same_addr_stage|].
         unfold transact in Et. destruct (AssignIPToClient _ _ _) as [[]|]; by simplify_eq. }
  (* Assigned *)
  1: { injection Hst as <-. apply same_addr_stage; [|done|done]. apply sys_sess; [done|]. intros k i x Hx. rewrite live_Register in Hx.
       destruct (decide _) as [[-> ->]|_]; [|by apply (so_sess s Hs k i)]. injection Hx as <-. cbn [sid session_of InnerIP].
       rewrite Nat2Z.id. by apply Hch. }
  (* SessionUp *)
  1: { destruct ok; injection Hst as <-; [|by apply same_addr_stage]. apply same_addr_stage; [|done|done]. apply sys_reg; [done|].
       intros k i d Hd. apply register_slot in Hd as [(-> & _ & ->)|[Hd _]]; [by apply Hch|by apply (so_reg s Hs k i)]. }
  (* ChanUp *)
  1-2: set (r := if ok then _ else None) in Hst; destruct r as [r|]; injection Hst as <-; [|by apply same_addr_stage];
    (eapply conn_replaced; eauto; intros b Hb; by apply (so_conn s Hs t)).
  (* Running *)
  1: { injection Hst as <-. apply same_addr_stage; [|done|done]. apply sys_reg; [done|].
       intros k i d Hd. apply unregister_slot in Hd as [Hd _]. by apply (so_reg s Hs k i). }
  (* Unregistered *)
  1-2: injection Hst as <-; apply same_addr_stage; [by apply sys_closed|done|done].
  (* ChanClosed, Leaving *)
  all: injection Hst as <-; apply same_addr_stage; [|done|done]; apply sys_sess; [done|]; intros k i x Hx;
    rewrite live_RemoveSession in Hx; destruct (decide _); [done|by apply (so_sess s Hs k i)].
Qed.

Lemma sys_send_to (s s' : server) c p : sys_ok s -> chan_addr s c (be32 p 16) -> send_to s c p = Next s' -> sys_ok s'.
Proof. intros Hs Hc Hx. unfold send_to in Hx. destruct (decide _); [done|]. injection Hx as <-. by apply sys_send. Qed.


Lemma sys_api (s : server) r : sys_ok s -> no_live_delete s r -> sys_ok (with_db s (handle r (sv_db s)).2).
Proof.
  intros Hs [Hr Hd]. rewrite (handle_acts r). destruct (request_op r) as [o|].
  2:{ apply sys_db; [done|apply (so_db s Hs)|]. intros t c a Hc Ha. by apply (so_conn s Hs t). }
  apply sys_db; [done| |].
  - apply ok_step; [exact range_round|exact ip_text_nonempty|by apply Hr|apply (so_db s Hs)].
  - intros t c a Hc Ha. apply (mine_step ip_text ip_num lo hi ip_text_nonempty); [by apply Hr|apply (so_db s Hs)| |by apply (so_conn s Hs t)].
    intros ids ->. by apply (Hd ids eq_refl t).
Qed.

Lemma sys_step (s s' : server) : sys_ok s -> sstep parse6 no_live_delete s s' -> sys_ok s'.
Proof.
  intros Hs (e & He & Hallow). destruct e as [cn idx cnt|t ok|r|q p|q|p]; cbn [exec] in He.
  - destruct (vpn_params cn idx cnt) as [[[cid i] n]|]; [|by injection He as <-]. injection He as <-.
    destruct Hs as [H1 H2 H3 H4 H5 H6 H7 H8].
    assert (Hf : sv_conns s !! sv_next s = None).
    { destruct (sv_conns s !! sv_next s) eqn:E; [|done]. exfalso. pose proof (H8 (sv_next s) ltac:(by rewrite E)). lia. }
    assert (Hne : forall t c, sv_conns s !! t = Some c -> t <> sv_next s) by (intros t c Hc ->; congruence).
    set (s1 := Build_server _ _ _ _ _ _ _ _).
    assert (Hch : forall k a, chan_addr s k a -> chan_addr s1 k a).
    { intros k a (x & Hx & Hxa). exists x. split; [|done]. cbn. rewrite lookup_insert_ne; [done|]. apply not_eq_sym. by eapply Hne. }
    constructor; cbn [sv_db sv_sess sv_reg sv_conns sv_next sv_closed sv_pick sv_out s1]; eauto.
    + intros u d a Hu Ha. apply lookup_insert_Some in Hu as [[<- <-]|[_ Hu]]; [done|]. by apply (H2 u).
    + intros u d Hu Hd. apply lookup_insert_Some in Hu as [[<- <-]|[_ Hu]]; [done|]. by apply (H3 u).
    + intros u Hu. destruct (decide (u = sv_next s)) as [->|Hu']; [lia|]. rewrite lookup_insert_ne in Hu by done.
      apply H8 in Hu. lia.
  - destruct (conn_stage parse6 s t ok) as [s1|] eqn:E; [|done]. injection He as <-. by eapply sys_stage.
  - injection He as <-. by apply sys_api.
  - destruct (sv_pick s !! q); [done|]. destruct (pickTunnel _ _) as [c|] eqn:Ep; injection He as <-; [|done].
    apply sys_pick; [done|]. intros q' d u [[<- [= <- <-]]|[_ Hu]]%lookup_insert_Some; [|by apply (so_pick s Hs q')]. apply pickTunnel_Some in Ep as [i Hi].
    apply (so_reg s Hs _ i). unfold reg_slot. destruct (sv_reg s !! be32 p 16); [|by cbn in Hi; rewrite lookup_nil in Hi]. cbn in Hi |- *. by rewrite Hi.
  - destruct (sv_pick s !! q) as [[c p]|] eqn:Ep; [|done]. eapply sys_send_to; [| |exact He].
    + apply sys_pick; [done|]. intros q' d u [_ Hu]%lookup_delete_Some. by apply (so_pick s Hs q').
    + destruct (so_pick s Hs q c p Ep) as (k & Hk & Ha). by exists k.
  - destruct (Deliver _ p _ _) as [[[] [x|]] t'] eqn:Ed; try (by injection He as <-).
    apply live_of_Deliver in Ed as [i Hi]. eapply sys_send_to; [done| |exact He]. by apply (so_sess s Hs _ i).
Qed.

Lemma sys_boot db : db_ok ip_text lo hi db -> sys_ok (boot db).
Proof.
  intros Hd. constructor; cbn; try done.
  - intros c p Hc. by apply not_elem_of_nil in Hc.
  - intros t [c Hc]. done.
Qed.

Lemma sys_reach db s : db_ok ip_text lo hi db -> reach (sstep parse6 no_live_delete) (boot db) s -> sys_ok s.
Proof. intros Hd. apply reach_invariant; [by apply sys_boot|]. intros s1 s2. apply sys_step. Qed.
End System.

(** The client of a connection that has an address is the one client the
    database says holds it. *)
Lemma conn_owner `{IpLaws} lo hi (s : server) t k a : sys_ok lo hi s -> sv_conns s !! t = Some k -> cn_addr k = Some a ->
  exists cl, clients (sv_db s) !! cn_client k = Some cl /\ c_ip cl = Some (ip_text a) /\
    forall i cl', clients (sv_db s) !! i = Some cl' -> c_ip cl' = c_ip cl -> i = cn_client k.
Proof.
  intros Hs Hk Ha. destruct (so_conn lo hi s Hs t k a Hk Ha) as (Hx & cl & Hcl & Hip).
  exists cl. split; [done|]. split; [done|]. intros i cl' Hi E. destruct (so_db lo hi s Hs) as [_ Hdb].
  apply (ao_unique _ _ _ _ _ Hdb i (cn_client k) a Hx); [|by exists cl]. exists cl'. split; [done|]. by rewrite E.
Qed.

(** The first boot seeds the usable addresses after the gateway. *)
Lemma v4_seeded `{IpLaws} cidr p : ParsePrefix cidr = Some p -> length (pfx_addr p) = 4%nat -> pfx_bits p <= 30 ->
  exists lo hi st, Invoke cidr empty_store = Some (None, st) /\ s_db st = seeded lo hi /\ 0 <= lo /\ lo <= hi /\ hi < 2 ^ 32.
Proof.
  intros Ep H4 H30. pose proof (v4_bounds cidr p Ep H4 H30) as Hb. cbv zeta in Hb.
  pose proof (pool_bounds_v4 cidr p Ep H4 ltac:(lia)) as Hpb. cbv zeta in Hpb.
  rewrite (proj2 (Z.eqb_neq (pfx_bits p) 31)) in Hpb by lia.
  destruct (Invoke_seeds cidr _ _ Hpb) as (st & Est & Edb & _). eexists _, _, st. split; [done|]. split; [done|]. lia.
Qed.

(** C3.  Clients are isolated, end to end, as long as the management API does not
    reset the pool or delete a client that has connected.  From the first boot on,
    with an IPv4 [VIRT_CIDR] of at most 30 bits, and under any interleaving of connections (opening, failing at any stage,
    closing), of other management requests and of the two download paths: a packet
    is only ever put in a channel of the one client that the database says holds
    the packet's destination address.  (A client deleted while its tunnel is up
    keeps it and reads its successor's packets: [deleted_client_keeps_tunnel].) *)
Theorem tunnels_isolated `{IpLaws} parse6 cidr p st s :
  ParsePrefix cidr = Some p -> length (pfx_addr p) = 4%nat -> pfx_bits p <= 30 ->
  Invoke cidr empty_store = Some (None, st) -> reach (sstep parse6 no_live_delete) (boot (s_db st)) s ->
  forall c pkt, (c, pkt) ∈ sv_out s -> exists k cl,
    sv_conns s !! c = Some k /\ clients (sv_db s) !! cn_client k = Some cl /\ c_ip cl = Some (ip_text (be32 pkt 16)) /\
    forall i cl', clients (sv_db s) !! i = Some cl' -> c_ip cl' = c_ip cl -> i = cn_client k.
Proof.
  intros Ep H4 H30 Est Hr c pkt Hin. destruct (v4_seeded cidr p Ep H4 H30) as (lo & hi & st' & Est' & Edb & Hlo & Hle & Hhi).
  rewrite Est in Est'. injection Est' as <-. rewrite Edb in Hr.
  assert (Hs : sys_ok lo hi s) by (eapply sys_reach; [|by apply ok_seeded|exact Hr]; lia).
  destruct (so_out lo hi s Hs c pkt Hin) as (k & Hk & Ha). destruct (conn_owner lo hi s c k _ Hs Hk Ha) as (cl & Hcl & Hip & Hun).
  by exists k, cl.
Qed.

(** ** Runs *)

Lemma exec_all_reach `{IpLib} parse6 (allow : server -> request -> Prop) s es s' :
  Forall (fun e => match e with EvApi r => forall s, allow s r | _ => True end) es -> exec_all parse6 s es = Next s' -> reach (sstep parse6 allow) s s'.
Proof.
  revert s s'. induction es as [|e es IH] using rev_ind; intros s s' Ha Hr; [injection Hr as <-; constructor|].
  assert (Happ : forall u es1 es2, exec_all parse6 u (es1 ++ es2) = match exec_all parse6 u es1 with Next v => exec_all parse6 v es2 | o => o end).
  { intros u es1 es2. revert u. induction es1 as [|x es1 IH1]; intros u; [done|]. cbn. by destruct (exec parse6 u x). }
  rewrite Happ in Hr. destruct (exec_all parse6 s es) as [v| |] eqn:Ev; try done. cbn in Hr.
  destruct (exec parse6 v e) as [w| |] eqn:Ew; try done. injection Hr as <-.
  eapply reach_step; [apply (IH s v); [|done]|].
  - by apply Forall_app in Ha as [Ha _].
  - exists e. split; [done|]. apply Forall_app in Ha as [_ Ha]. apply Forall_cons in Ha as [Ha _]. by destruct e.
Qed.

Definition post_clients (names : list string) : request :=
  {| rq_method := "POST"; rq_path := Path ["clients"%string]; rq_body := Some (JObj [("names"%string, JArr (JStr <$> names))]) |}.
Definition delete_first : request := {| rq_method := "DELETE"; rq_path := Path ["clients"; "1"]%string; rq_body := None |}.
Definition stages (t n : nat) : list event := replicate n (EvConn t true).
(** A packet to 10.8.0.[d]. *)
Definition to_inner (d : Z) : bytes := [69;0;0;20;0;0;0;0;64;6;0;0;8;8;8;8;10;8;0;d].
(** The server after its first boot with VIRT_CIDR 10.8.0.1/24. *)
Definition booted : server := boot (seeded 168296450 168296702).
Definition run_dotted : server -> list event -> outcome := @exec_all dotted (fun _ => None).
Definition state_of (o : outcome) : server := match o with Next s => s | _ => booted end.
Definition sample_events : list event :=
  [EvApi (post_clients ["alice"; "bob"]%string); EvAccept "1" "0" "1"; EvAccept "2" "" ""] ++ stages 0 4 ++ stages 1 4 ++
  [EvPick 0 (to_inner 2); EvPick 1 (to_inner 3); EvSend 1; EvSend 0; EvDeliver (to_inner 3)].

Lemma tunnels_isolated_witness :
  exists s, run_dotted booted sample_events = Next s /\ (1%nat, to_inner 3) ∈ sv_out s /\
    exists k cl, sv_conns s !! 1%nat = Some k /\ clients (sv_db s) !! cn_client k = Some cl /\ c_ip cl = Some "10.8.0.3"%string.
Proof.
  set (s := state_of (run_dotted booted sample_events)).
  assert (Es : run_dotted booted sample_events = Next s) by (vm_compute; reflexivity).
  exists s. split; [exact Es|]. assert (Hin : (1%nat, to_inner 3) ∈ sv_out s).
  { assert (Eo : sv_out s = [(1%nat, to_inner 3); (0%nat, to_inner 2); (1%nat, to_inner 3)]) by (vm_compute; reflexivity). rewrite Eo. left. }
  split; [exact Hin|].
  assert (Hst : exists st, @Invoke dotted "10.8.0.1/24" empty_store = Some (None, st) /\ booted = boot (s_db st)).
  { eexists. split; [vm_compute; reflexivity|]. vm_compute. reflexivity. }
  destruct Hst as (st & Est & Eb).
  assert (Hr : reach (@sstep dotted (fun _ => None) no_live_delete) (boot (s_db st)) s).
  { rewrite <- Eb. eapply exec_all_reach; [|exact Es]. unfold sample_events, stages. cbn [app replicate].
    repeat (apply Forall_cons; split); try exact I; [|by apply Forall_nil]. intros u. split; [intros o Ho; vm_compute in Ho; injection Ho as <-; reflexivity|].
    intros ids Hi. vm_compute in Hi. discriminate Hi. }
  destruct (@tunnels_isolated dotted dotted_laws (fun _ => None) "10.8.0.1/24" {| pfx_addr := [10; 8; 0; 1]; pfx_bits := 24 |} st s
    ltac:(vm_compute; reflexivity) eq_refl ltac:(cbn; lia) Est Hr 1%nat (to_inner 3) Hin) as (k & cl & Hk & Hcl & Hip & _).
  exists k, cl. split; [exact Hk|]. split; [exact Hcl|]. rewrite Hip. vm_compute. reflexivity.
Defined.

(** ** The routes a client is offered *)

Definition route_of (p : Prefix) : option (bytes * bytes) := e ← LastIPAddr p; Some (pfx_addr p, e).
Lemma mapM_routes ps : (forall p, p ∈ ps -> valid_prefix p) -> exists rs,
  mapM route_of ps = Some rs /\
  forall a e, (a, e) ∈ rs <-> exists p, p ∈ ps /\ a = pfx_addr p /\ LastIPAddr p = Some e.
Proof.
  induction ps as [|p ps IH]; intros Hv.
  - exists []. split; [done|]. intros a e. split; [by intros ?%not_elem_of_nil|]. intros (p & Hp & _). by apply not_elem_of_nil in Hp.
  - destruct IH as (rs & E & Hrs); [intros q Hq; apply Hv; by right|].
    destruct (LastIPAddr_num p (Hv p ltac:(by left))) as (l & El & _). exists ((pfx_addr p, l) :: rs).
    change (mapM route_of (p :: ps)) with (y ← route_of p; k ← mapM route_of ps; mret (y :: k)).
    assert (Er : route_of p = Some (pfx_addr p, l)) by (unfold route_of; by rewrite El). rewrite Er, E. split; [done|].
    intros a e. rewrite elem_of_cons, Hrs. split.
    + intros [[= -> ->]|(q & Hq & Hr)]; [exists p; split; [by left|done]|exists q; split; [by right|done]].
    + intros (q & Hq & -> & Hl). apply elem_of_cons in Hq as [->|Hq]; [left; congruence|right; by exists q].
Qed.

(** What a client may reach.  The set-up never panics on the routes, and an
    address lies in a range advertised to the client exactly when one of its
    roles is granted a resource whose value parses to a prefix that contains the
    address - at or above the address written in the resource.  (For a value
    with host bits, as 10.0.0.9/24, the addresses below the written one are not
    offered.) *)
Theorem client_routes_spec `{IpLaws} db clientID :
  match GetClientResources clientID db with
  | Ok (l, _) => exists rs, client_routes l = Some rs /\
      forall x,
        ((exists a e, (a, e) ∈ rs /\ length a = length x /\ be_num a <= be_num x <= be_num e) <->
         (exists role rid r p, (clientID, role) ∈ clients_roles db /\ (role, rid) ∈ roles_resources db /\
            resources db !! rid = Some r /\ ParsePrefix (r_value r) = Some p /\
            Prefix_Contains p x = true /\ be_num (pfx_addr p) <= be_num x))
  | Err _ => False
  end.
Proof.
  destruct (GetClientResources clientID db) as [[l db']|e] eqn:El; [|done].
  assert (Hmem : forall rid r, _) by (intros rid r; exact (proj2 (client_resources_mem db clientID l db' rid r El))).
  set (ps := omap (fun r : Z * Resource => ParsePrefix (r_value r.2)) l).
  assert (Hps : forall p, p ∈ ps -> valid_prefix p).
  { intros p Hp. apply list_elem_of_omap in Hp as (r & _ & Hr). by eapply law_ParsePrefix. }
  destruct (mapM_routes ps Hps) as (rs & Ers & Hrs). exists rs. split; [exact Ers|]. intros x.
  assert (Hcont : forall p e, valid_prefix p -> LastIPAddr p = Some e -> length (pfx_addr p) = length x ->
    be_num (pfx_addr p) <= be_num x -> (be_num x <= be_num e <-> Prefix_Contains p x = true)).
  { intros p e Hv He Hlen Hge. destruct (LastIPAddr_num p Hv) as (e' & He' & _ & _ & Hr). rewrite He in He'. injection He' as <-.
    rewrite Hr, (Contains_range p x Hv) by done. pose proof (Masked_le p Hv). lia. }
  split.
  - intros (a & e & Hin & Hlen & Hge & Hle). apply Hrs in Hin as (p & Hp & -> & He). pose proof (Hps p Hp) as Hv.
    apply list_elem_of_omap in Hp as ([rid r] & Hr & Hpp). apply Hmem in Hr as (Hres & role & H1 & H2).
    exists role, rid, r, p. repeat (split; [done|]). split; [|done]. by apply (Hcont p e).
  - intros (role & rid & r & p & H1 & H2 & Hres & Hpp & Hc & Hge). pose proof (law_ParsePrefix _ _ Hpp) as Hv.
    destruct (LastIPAddr_num p Hv) as (e & He & _). exists (pfx_addr p), e.
    assert (Hlen : length (pfx_addr p) = length x) by (unfold Prefix_Contains in Hc; bool_hyps; congruence).
    split; [|split; [done|split; [done|by apply (Hcont p e)]]].
    apply Hrs. exists p. split; [|done]. apply list_elem_of_omap. exists (rid, r). split; [|done]. apply Hmem. split; [done|]. by exists role.
Qed.

(** Client 1 holds role 5, which is granted 192.168.7.9/24. *)
Definition granted : database :=
  {| clients := ∅; resources := {[3 := {| r_name := "lan"; r_value := "192.168.7.9/24" |}]}; roles := {[5 := "staff"%string]};
     clients_roles := {[(1, 5)]}; roles_resources := {[(5, 3)]}; dhcp := ∅ |}.
Lemma client_routes_spec_witness : exists rs, @client_routes dotted [(3, {| r_name := "lan"; r_value := "192.168.7.9/24" |})] = Some rs /\
  exists a e, (a, e) ∈ rs /\ length a = 4%nat /\ be_num a <= be_num [192; 168; 7; 200] <= be_num e.
Proof.
  pose proof (@client_routes_spec dotted dotted_laws granted 1) as Hs.
  replace (GetClientResources 1 granted) with (@Ok dbError _ ([(3, {| r_name := "lan"; r_value := "192.168.7.9/24" |})], granted)) in Hs by (vm_compute; reflexivity).
  destruct Hs as (rs & Hr & Hx). exists rs. split; [exact Hr|]. apply (proj2 (Hx [192; 168; 7; 200])).
  exists 5, 3, {| r_name := "lan"; r_value := "192.168.7.9/24" |}, {| pfx_addr := [192; 168; 7; 9]; pfx_bits := 24 |}.
  split; [apply (bool_decide_unpack _); vm_compute; exact I|]. split; [apply (bool_decide_unpack _); vm_compute; exact I|].
  split; [reflexivity|]. split; [vm_compute; reflexivity|]. split; [vm_compute; reflexivity|vm_compute; discriminate].
Defined.

(** ** The end of a connection *)

Lemma coords_range i n : let '(i', n') := tunnel_coords i n in 0 <= i' < n'.
Proof. unfold tunnel_coords. destruct (n <? 1) eqn:E1, (i <? 0) eqn:E2; cbn [orb]; try destruct (_ <=? i) eqn:E3; bool_hyps; lia. Qed.

Lemma register_absent (t : registry) k i n c : t !! k = None -> 0 <= i < n ->
  default [] (register_chan t k i n c !! k) = <[Z.to_nat i := Some c]> (replicate (Z.to_nat n) None).
Proof.
  intros Hk Hi. unfold register_chan. cbv zeta. rewrite lookup_insert_eq, Hk. cbn [default length].
  destruct (Z.to_nat n) as [|m] eqn:Em; [lia|]. cbn [Nat.eqb negb]. rewrite take_nil, Nat.sub_0_r, app_nil_l.
  by rewrite (proj2 (Z.leb_le 0 i)), (proj2 (Z.ltb_lt i n)) by lia.
Qed.
(** A list in which one entry is set. *)
Lemma only_entry {A} (x y : A) m j k : <[j := Some x]> (replicate m None) !! k = Some (Some y) -> y = x.
Proof.
  intros Hy. destruct (decide (k = j)) as [->|Hne].
  - apply list_lookup_insert_Some in Hy as [(_ & E & _)|[? _]]; [by injection E|done].
  - rewrite list_lookup_insert_ne in Hy by done. by apply lookup_replicate in Hy as [? _].
Qed.
Lemma pick_only chans j m c pkt : chans = <[j := Some c]> (replicate m None) -> (j < m)%nat -> pickTunnel chans pkt = Some c.
Proof.
  intros -> Hj. destruct (pickTunnel _ pkt) as [d|] eqn:E.
  - apply pickTunnel_Some in E as [k Hk]. by apply only_entry in Hk as ->.
  - exfalso. apply (pickTunnel_None _ _ E j c). apply list_lookup_insert_eq. by rewrite length_replicate.
Qed.

Lemma register_unregister (t : registry) k i n c : t !! k = None -> 0 <= i < n ->
  unregister_chan (register_chan t k i n c) k i = t.
Proof.
  intros Hk Hi. unfold unregister_chan. set (slots := default [] (register_chan t k i n c !! k)).
  assert (Es : slots = <[Z.to_nat i := Some c]> (replicate (Z.to_nat n) None)) by (by apply register_absent).
  rewrite Es, length_insert, length_replicate. rewrite (proj2 (Z.leb_le 0 i)), (proj2 (Z.ltb_lt i _)) by lia. cbn [andb].
  rewrite list_insert_insert_eq.
  assert (E0 : <[Z.to_nat i := None]> (replicate (Z.to_nat n) (@None nat)) = replicate (Z.to_nat n) None).
  { apply list_insert_id. apply lookup_replicate. split; [done|lia]. }
  rewrite E0. assert (Ed : existsb (fun c : option nat => match c with Some _ => true | None => false end) (replicate (Z.to_nat n) None) = false).
  { generalize (Z.to_nat n). intros m. induction m as [|m IH]; [done|exact IH]. }
  rewrite Ed. unfold register_chan. cbv zeta. rewrite delete_insert_id; done.
Qed.

Lemma registered_group (t : SessionTable) x n : t !! InnerIP x = None -> exists m g,
  Register x n t !! InnerIP x = Some g /\ sessions g = <[TunnelIndex x := Some x]> (replicate m None) /\ (TunnelIndex x < m)%nat /\ (0 < gcount g)%nat.
Proof.
  intros Hk. unfold Register. rewrite lookup_insert_eq, Hk. cbn [sessions gcount]. set (m := if n <? 1 then _ else _).
  eexists _, _. split; [reflexivity|]. cbn [sessions gcount]. unfold pad. rewrite length_replicate, <- replicate_add. split; [reflexivity|].
  unfold m. destruct (n <? 1) eqn:E; bool_hyps; lia.
Qed.
Lemma deliver_only (t : SessionTable) x n pkt : t !! InnerIP x = None -> (20 <= length pkt)%nat ->
  Deliver (fun _ _ => true) pkt (InnerIP x) (Register x n t) = (true, Some x, Register x n t).
Proof.
  intros Hk Hl. destruct (registered_group t x n Hk) as (m & g & Hg & Hs & Hm & Hc). unfold Deliver.
  rewrite (proj2 (Nat.ltb_ge (length pkt) 20) Hl), Hg.
  assert (Hp : pick g pkt = Some x); [|by rewrite Hp].
  unfold pick. rewrite (proj2 (Nat.leb_gt _ _)) by lia. rewrite Hs, length_insert, length_replicate, (proj2 (Nat.eqb_neq m 0)) by lia. cbn [orb].
  assert (Hfl : first_live (<[TunnelIndex x := Some x]> (replicate m None)) = Some x).
  { destruct (first_live _) as [y|] eqn:Ey.
    - apply first_live_Some, list_elem_of_lookup_1 in Ey as [k Hy]. by apply only_entry in Hy as ->.
    - exfalso. apply (proj1 (first_live_None _) Ey x). eapply list_elem_of_lookup_2, list_lookup_insert_eq. by rewrite length_replicate. }
  cbv zeta. lazymatch goal with |- match ?e with _ => _ end = _ => destruct e as [[y|]|] eqn:Ey end;
    [by apply only_entry in Ey as ->|exact Hfl|exact Hfl].
Qed.

Lemma register_remove (t : SessionTable) x n : t !! InnerIP x = None -> RemoveSession x (Register x n t) = t.
Proof.
  intros Hk. destruct (registered_group t x n Hk) as (m & g & Hg & Hs & Hm & _). unfold RemoveSession. rewrite Hg, Hs.
  rewrite list_lookup_insert_eq by (by rewrite length_replicate). rewrite decide_True by done.
  rewrite list_insert_insert_eq, list_insert_id by (by apply lookup_replicate).
  assert (Ef : first_live (replicate m None) = None).
  { apply first_live_None. intros s Hin. by apply elem_of_replicate in Hin as [? _]. }
  rewrite Ef. unfold Register. by rewrite delete_insert_id.
Qed.

Section Lifecycle.
Context `{IpLaws}.
Variable parse6 : string -> option bytes.

Lemma with_conn_lookup s t c : sv_conns (with_conn s t c) !! t = Some c.
Proof. apply lookup_insert_eq. Qed.
Lemma exec_conn s t ok s' es : conn_stage parse6 s t ok = Some s' ->
  exec_all parse6 s (EvConn t ok :: es) = exec_all parse6 s' es.
Proof. intros E. cbn [exec_all exec]. by rewrite E. Qed.

(** The stages of a connection to which every call answers. *)
Lemma stage_assign lo hi (s : server) t c a : 0 <= lo /\ hi < 2 ^ 32 -> db_ok ip_text lo hi (sv_db s) -> lo <= a <= hi ->
  sv_conns s !! t = Some c -> cn_stage c = Start -> owns ip_text (sv_db s) (cn_client c) a ->
  conn_stage parse6 s t true = Some (with_conn s t (assigned c a)).
Proof.
  intros Hr [Hsch Hdb] Ha Hc Hst (cl & Hcl & Hip). unfold conn_stage, conn_exit. rewrite Hc. cbn [mbind option_bind]. rewrite Hst. cbn [negb].
  unfold transact, AssignIPToClient, tx_bind, tx_get. rewrite Hcl, Hip. cbn [mbind option_bind].
  rewrite (proj2 (String.eqb_neq _ _) (ip_text_nonempty a)). unfold tx_ret. rewrite (innerAddr_text parse6 lo hi Hr a Ha).
  by destruct s.
Qed.
Lemma stage_session (s : server) t c a ok : sv_conns s !! t = Some c -> cn_stage c = Assigned -> cn_addr c = Some a ->
  conn_stage parse6 s t ok = Some (with_conn (with_sess s (Register (session_of t c a) (cn_count c) (sv_sess s))) t (at_stage c SessionUp)).
Proof. intros Hc Hst Ha. unfold conn_stage, conn_exit. rewrite Hc. cbn [mbind option_bind]. by rewrite Hst, Ha. Qed.
Lemma stage_chan (s : server) t c a : sv_conns s !! t = Some c -> cn_stage c = SessionUp -> cn_addr c = Some a ->
  conn_stage parse6 s t true = Some (with_conn (with_reg s (register_chan (sv_reg s) a (cn_idx c) (cn_count c) t)) t (at_stage c ChanUp)).
Proof. intros Hc Hst Ha. unfold conn_stage, conn_exit. rewrite Hc. cbn [mbind option_bind]. by rewrite Hst, Ha. Qed.
Lemma stage_routes (s : server) t c a : sv_conns s !! t = Some c -> cn_stage c = ChanUp -> cn_addr c = Some a -> exists rs,
  conn_stage parse6 s t true = Some (with_conn s t (routed c rs)).
Proof.
  intros Hc Hst Ha. unfold conn_stage, conn_exit. rewrite Hc. cbn [mbind option_bind]. rewrite Hst.
  unfold transact, GetClientResources, tx_get. set (l := mjoin _).
  destruct (mapM_routes (omap (fun r : Z * Resource => ParsePrefix (r_value r.2)) l)) as (rs & E & _).
  { intros p Hp. apply list_elem_of_omap in Hp as (r & _ & Hr). by eapply law_ParsePrefix. }
  exists rs. unfold client_routes. change (fun p : Prefix => e ← LastIPAddr p; Some (pfx_addr p, e)) with route_of. by rewrite E.
Qed.
Lemma stage_unregister (s : server) t c a ok : sv_conns s !! t = Some c -> cn_stage c = Running -> cn_addr c = Some a ->
  conn_stage parse6 s t ok = Some (with_conn (with_reg s (unregister_chan (sv_reg s) a (cn_idx c))) t (at_stage c Unregistered)).
Proof. intros Hc Hst Ha. unfold conn_stage, conn_exit. rewrite Hc. cbn [mbind option_bind]. by rewrite Hst, Ha. Qed.
Lemma stage_close (s : server) t c ok : sv_conns s !! t = Some c -> cn_stage c = Unregistered ->
  conn_stage parse6 s t ok = Some (with_conn (with_closed s ({[t]} ∪ sv_closed s)) t (at_stage c ChanClosed)).
Proof. intros Hc Hst. unfold conn_stage, conn_exit. rewrite Hc. cbn [mbind option_bind]. by rewrite Hst. Qed.
Lemma stage_remove (s : server) t c a ok : sv_conns s !! t = Some c -> cn_stage c = ChanClosed -> cn_addr c = Some a ->
  conn_stage parse6 s t ok = Some (with_conn (with_sess s (RemoveSession (session_of t c a) (sv_sess s))) t (at_stage c Done)).
Proof. intros Hc Hst Ha. unfold conn_stage, conn_exit. rewrite Hc. cbn [mbind option_bind]. by rewrite Hst, Ha. Qed.
End Lifecycle.

(** C34.  A connection that ends cleanly leaves nothing behind.  For a client that
    holds an address for which nothing is registered: the set-up succeeds, every
    packet for the address then takes the new tunnel on both download paths, and
    after the end of the tunnel the registry, the session table and the database
    are what they were; its channel is closed. *)
Theorem connect_disconnect `{IpLaws} parse6 lo hi s cn idx count cid i n a :
  0 <= lo /\ hi < 2 ^ 32 -> db_ok ip_text lo hi (sv_db s) -> vpn_params cn idx count = Some (cid, i, n) ->
  lo <= a <= hi -> owns ip_text (sv_db s) cid a -> sv_reg s !! a = None -> sv_sess s !! a = None ->
  let t := sv_next s in
  exists s1 s2, exec_all parse6 s (EvAccept cn idx count :: stages t 4) = Next s1 /\
    (forall pkt, pickTunnel (default [] (sv_reg s1 !! a)) pkt = Some t) /\
    (forall pkt, (20 <= length pkt)%nat -> exists x, Deliver (fun _ _ => true) pkt a (sv_sess s1) = (true, Some x, sv_sess s1) /\ Z.to_nat (sid x) = t) /\
    exec_all parse6 s1 (stages t 3) = Next s2 /\
    sv_reg s2 = sv_reg s /\ sv_sess s2 = sv_sess s /\ sv_db s2 = sv_db s /\ sv_closed s2 = {[t]} ∪ sv_closed s.
Proof.
  intros Hr Hdb Hv Ha Ho Hreg Hsess t. set (c := {| cn_client := cid; cn_idx := i; cn_count := n; cn_addr := None; cn_routes := []; cn_stage := Start |}).
  set (s0 := Build_server (sv_db s) (sv_sess s) (sv_reg s) (<[t := c]> (sv_conns s)) (S t) (sv_closed s) (sv_pick s) (sv_out s)).
  set (c1 := assigned c a). set (s1 := with_conn s0 t c1).
  set (c2 := at_stage c1 SessionUp). set (s2 := with_conn (with_sess s1 (Register (session_of t c1 a) n (sv_sess s1))) t c2).
  set (c3 := at_stage c2 ChanUp). set (s3 := with_conn (with_reg s2 (register_chan (sv_reg s2) a i n t)) t c3).
  assert (E1 : conn_stage parse6 s0 t true = Some s1) by (by eapply (stage_assign parse6 lo hi s0 t c a); try done; apply lookup_insert_eq).
  assert (E2 : conn_stage parse6 s1 t true = Some s2) by (apply (stage_session parse6 s1 t c1 a); [apply with_conn_lookup|done|done]).
  assert (E3 : conn_stage parse6 s2 t true = Some s3) by (apply (stage_chan parse6 s2 t c2 a); [apply with_conn_lookup|done|done]).
  destruct (stage_routes parse6 s3 t c3 a (with_conn_lookup _ _ _) eq_refl eq_refl) as (rs & E4).
  set (c4 := routed c3 rs) in *. set (s4 := with_conn s3 t c4) in *.
  pose proof (stage_unregister parse6 s4 t c4 a true (with_conn_lookup _ _ _) eq_refl eq_refl) as E5.
  set (s5 := with_conn _ t _) in E5.
  pose proof (stage_close parse6 s5 t _ true (with_conn_lookup _ _ _) eq_refl) as E6. set (s6 := with_conn _ t _) in E6.
  pose proof (stage_remove parse6 s6 t _ a true (with_conn_lookup _ _ _) eq_refl eq_refl) as E7. set (s7 := with_conn _ t _) in E7.
  pose proof (coords_range (Atoi_value idx) (Atoi_value count)) as Hin. unfold vpn_params in Hv.
  destruct (ParseInt cn) as [cid'|] eqn:Ecn; [|done]. cbn [mbind option_bind] in Hv.
  destruct (tunnel_coords (Atoi_value idx) (Atoi_value count)) as [i' n'] eqn:Etc. injection Hv as -> -> ->.
  exists s4, s7. split; [|split; [|split; [|split; [|split; [|split; [|split]]]]]].
  - change (exec_all parse6 s (EvAccept cn idx count :: stages t 4))
      with (match exec parse6 s (EvAccept cn idx count) with Next v => exec_all parse6 v (stages t 4) | o => o end).
    cbn [exec]. unfold vpn_params. rewrite Ecn. cbn [mbind option_bind]. rewrite Etc. fold t c s0. unfold stages. cbn [replicate].
    by rewrite (exec_conn _ _ _ _ _ _ E1), (exec_conn _ _ _ _ _ _ E2), (exec_conn _ _ _ _ _ _ E3), (exec_conn _ _ _ _ _ _ E4).
  - intros pkt. apply (pick_only _ (Z.to_nat i) (Z.to_nat n)); [by apply register_absent|lia].
  - intros pkt Hl. exists (session_of t c1 a). split; [|apply Nat2Z.id]. by apply (deliver_only (sv_sess s) (session_of t c1 a)).
  - unfold stages. cbn [replicate]. by rewrite (exec_conn _ _ _ _ _ _ E5), (exec_conn _ _ _ _ _ _ E6), (exec_conn _ _ _ _ _ _ E7).
  - by apply register_unregister.
  - by apply register_remove.
  - done.
  - done.
Qed.

Lemma connect_disconnect_witness :
  let db := repo_run (@ip_text dotted) (@ip_num dotted) [OpCreate ["alice"%string]] (seeded 168296450 168296702) in
  exists s1 s2, run_dotted (boot db) (EvAccept "1" "" "2" :: stages 0 4) = Next s1 /\
    pickTunnel (default [] (sv_reg s1 !! 168296450)) (to_inner 2) = Some 0%nat /\
    run_dotted s1 (stages 0 3) = Next s2 /\ sv_reg s2 = ∅.
Proof.
  intros db. assert (Hdb : db_ok (@ip_text dotted) 168296450 168296702 db).
  { apply ok_run; [|exact (@ip_text_nonempty dotted dotted_laws)|reflexivity|apply ok_seeded; lia].
    intros n Hn. apply (@ip_num_text dotted dotted_laws). lia. }
  destruct (@connect_disconnect dotted dotted_laws (fun _ => None) 168296450 168296702 (boot db) "1" "" "2" 1 0 2 168296450)
    as (s1 & s2 & E1 & Hp & _ & E2 & Hr & _).
  - lia.
  - exact Hdb.
  - vm_compute. reflexivity.
  - lia.
  - eexists. split; vm_compute; reflexivity.
  - reflexivity.
  - reflexivity.
  - exists s1, s2. split; [exact E1|]. split; [apply Hp|]. split; [exact E2|exact Hr].
Defined.

(** ** Where the parts do not fit *)

(** A set-up that fails after the tunnel's channel is registered (the
    resources cannot be read in time, or [AdvertiseRoute] fails) never takes the
    channel out of the registry: the handler has ended, no one reads the channel,
    and the packets for the client still go there, until it connects again. *)
Theorem failed_setup_leaks_channel :
  exists s, run_dotted booted ([EvApi (post_clients ["alice"%string]); EvAccept "1" "0" "1"] ++ stages 0 3 ++ [EvConn 0 false; EvConn 0 true]) = Next s /\
    (cn_stage <$> sv_conns s !! 0%nat) = Some Done /\ sv_sess s = ∅ /\
    (forall pkt, pickTunnel (default [] (sv_reg s !! be32 (to_inner 2) 16)) pkt = Some 0%nat) /\
    (forall ok, @conn_stage dotted (fun _ => None) s 0 ok = None).
Proof.
  eexists. split; [vm_compute; reflexivity|]. split; [reflexivity|]. split; [reflexivity|].
  split; [|intros []; reflexivity]. intros pkt. apply (pick_only _ 0 1); [reflexivity|lia].
Qed.

(** Deleting a client does not end its access.  Its tunnels stay registered,
    while its address - and its id, which an [integer PRIMARY KEY] gives out
    again - go to the next client created: packets for the new client are put in
    the deleted client's tunnel, and the deleted client's certificate opens
    tunnels with the new client's address. *)
Theorem deleted_client_keeps_tunnel :
  exists s, run_dotted booted ([EvApi (post_clients ["alice"%string]); EvAccept "1" "0" "1"] ++ stages 0 4 ++
      [EvApi delete_first; EvApi (post_clients ["bob"%string]); EvPick 0 (to_inner 2); EvSend 0; EvAccept "1" "0" "1"; EvConn 1 true]) = Next s /\
    clients (sv_db s) !! 1 = Some {| c_name := "bob"; c_last_seen := 0; c_ip := Some "10.8.0.2"%string |} /\
    sv_out s = [(0%nat, to_inner 2)] /\
    (sv_conns s !! 1%nat ≫= cn_addr) = Some (be32 (to_inner 2) 16).
Proof. eexists. split; [vm_compute; reflexivity|]. split; [vm_compute; reflexivity|]. split; vm_compute; reflexivity. Qed.

(** The downloads can send on a closed channel, which ends the process: the
    exit of a connection closes its channel while the TUN reader, which chose the
    channel under the lock and sends after it, still holds it; and before the
    deferred removal of its session, so that a return packet finds the session
    and sends too. *)
Theorem send_on_closed_channel :
  let up := [EvApi (post_clients ["alice"%string]); EvAccept "1" "0" "1"] ++ stages 0 4 in
  run_dotted booted (up ++ [EvPick 0 (to_inner 2)] ++ stages 0 2 ++ [EvSend 0]) = Panic /\
  run_dotted booted (up ++ stages 0 2 ++ [EvDeliver (to_inner 2)]) = Panic.
Proof. split; vm_compute; reflexivity. Qed.
