(* ===== verification/Path.v ===== *)
(** * A packet's way through the gateway

    The parts composed: a frame that reaches a NIC runs through the XDP program
    (xdp/xdp.c) over the table the source translation fills (xdp/nat.go), is
    redirected to an AF_XDP socket, received and classified (xdp/conn.go
    [dispatchSocket], [dispatchFrame], [dispatchFwd]) and handed by the session
    table, the connection's forward handler (main.go: [conn.SetForwardHandler(
    sessionTable.Deliver)]), to a tunnel of the server of Setup. *)
From S2P Require Import Prelude Words Ip Nat Snat Xdp Session Conn Setup.
Local Open Scope Z_scope.
Local Open Scope masqued_scope.

(** [gw_kernel]: the frames passed to the kernel's stack. *)
Record gateway := { gw_nat : NatTable; gw_conn : Conn; gw_server : server; gw_kernel : list bytes }.

Definition with_map (t : NatTable) (tbl : gmap NatRevKey NatRevVal) : NatTable :=
  {| m := tbl; nextPort := nextPort t; fwd := fwd t |}.

(** The registered handler: [sessionTable.Deliver]. *)
Definition forward_handler (s : server) (pkt dstIP : bytes) : bool :=
  (Deliver (fun _ _ => true) pkt (be_num dstIP) (sv_sess s)).1.1.

(** The packet [dispatchFrame] hands to the handler, if any. *)
Definition handed (frame : bytes) : option bytes :=
  match classify frame with
  | ClassFwd =>
      if (length frame <=? ethHdr + 20)%nat then None
      else let ipPkt := drop ethHdr frame in if Z.shiftr ipPkt.[0] 4 =? 4 then Some ipPkt else None
  | _ => None
  end.

Section Gateway.
Context `{IpLib} (parse6 : string -> option bytes).
(** The queues registered in the two XSK maps. *)
Context (quic fwdq : Z -> bool).

(** A frame arrives on a NIC's queue; [None] is the panic of a send on a closed
    channel. *)
Definition nic_frame (now queue : Z) (frame : bytes) (desc : Z) (g : gateway) : option gateway :=
  let '(verdict, frame, tbl) := masque_xdp_prog quic fwdq now queue frame (m (gw_nat g)) in
  let t := with_map (gw_nat g) tbl in
  match verdict with
  | XDP_PASS => Some {| gw_nat := t; gw_conn := gw_conn g; gw_server := gw_server g; gw_kernel := gw_kernel g ++ [frame] |}
  | XDP_REDIRECT_QUIC q | XDP_REDIRECT_FWD q =>
      let c := receiveFrame (Some (forward_handler (gw_server g))) (gw_conn g) (Z.to_nat q) frame desc in
      match (match handed frame with Some p => exec parse6 (gw_server g) (EvDeliver p) | None => Next (gw_server g) end) with
      | Next s => Some {| gw_nat := t; gw_conn := c; gw_server := s; gw_kernel := gw_kernel g |}
      | Disabled => Some {| gw_nat := t; gw_conn := c; gw_server := gw_server g; gw_kernel := gw_kernel g |}
      | Panic => None
      end
  end.
End Gateway.
