(* ===== verification/PathProps.v ===== *)
(** * Properties of a packet's way through the gateway *)
From S2P Require Import Prelude Words Ip IpProps TcpParse Reseq Session SessionProps Conn ConnProps Egress EgressProps Router RouterProps Repo Mgmt RepoProps Migrate MigrateProps MgmtProps Setup SetupProps Nat NatProps Snat Xdp SnatProps Path.
Local Open Scope Z_scope.
Local Open Scope masqued_scope.

(** ** What the receive path hands over *)

(** [handed] is what [dispatchFrame] calls the handler with; of the connection
    a handed frame changes the fill ring and the drop counter. *)
Lemma dispatch_handed h c idx frame desc p : handed frame = Some p ->
  dispatchFrame (Some h) c idx frame desc =
  refill {| neigh := neigh c; quicShards := quicShards c; rxPending := rxPending c; rxNotify := rxNotify c; fills := fills c;
            quicChDrops := quicChDrops c; fwdDrops := if h p (slice p 16 20) then fwdDrops c else fwdDrops c + 1 |} desc.
Proof.
  unfold handed, dispatchFrame, dispatchFwd. destruct (classify frame); try done. destruct (length frame <=? ethHdr + 20)%nat; [done|].
  cbv zeta. destruct (Z.shiftr _ 4 =? 4); [|done]. by intros [= <-].
Qed.
Lemma dispatch_unhanded h h' c idx frame desc : handed frame = None ->
  dispatchFrame (Some h) c idx frame desc = dispatchFrame (Some h') c idx frame desc.
Proof.
  unfold handed, dispatchFrame, dispatchFwd. destruct (classify frame); try done. destruct (length frame <=? ethHdr + 20)%nat; [done|].
  cbv zeta. by destruct (Z.shiftr _ 4 =? 4).
Qed.
Lemma be_num_4 b : length b = 4%nat -> be_num b = be32 b 0.
Proof. intros H. destruct b as [|a [|b [|c [|d [|]]]]]; try done. unfold be32, be16, byte_at. cbn. lia. Qed.
Lemma be_num_slice p : (20 <= length p)%nat -> be_num (slice p 16 20) = be32 p 16.
Proof.
  intros Hp. rewrite be_num_4 by (unfold slice; rewrite length_take, length_drop; lia).
  unfold be32, be16, slice. rewrite !byte_at_take, !byte_at_drop by lia. done.
Qed.

(** ** The entry of an active flow stays *)

(** Steps of the table while the flow of [key] is active: allocations for any
    flow, replies that renew an entry, releases of others, and collections
    that find the entry, if at all, with a time stamp within the idle time. *)
Inductive active_step (wan : Z) (key : NatRevKey) : NatTable -> NatTable -> Prop :=
  | a_alloc mapPut now t pr dip dport cip cport r t' :
      (forall mm k v mm', mapPut mm k v = Some mm' -> mm' = <[k:=v]> mm) -> port_ok dport -> port_ok cport ->
      AllocPort mapPut now t wan pr dip dport cip cport = (r, t') -> active_step wan key t t'
  | a_release t port pr dip dport : port_ok dport -> makeNatKey wan port pr dip dport <> key ->
      active_step wan key t (ReleasePort t wan port pr dip dport).2
  | a_gc t now iter : iter_of t iter ->
      (forall v, (key, v) ∈ iter -> LastSeenNs v = 0 \/ now <= LastSeenNs v \/ (0 <= LastSeenNs v /\ now - LastSeenNs v <= idleNs)) ->
      active_step wan key t (gc now iter t)
  | a_stamp t now k : active_step wan key t (stamp now k t).

Lemma active_nat wan key t t' : active_step wan key t t' -> nat_step wan t t'.
Proof.
  intros [mapPut now u pr dip dport cip cport r u' Hput Hd Hc HA|u port pr dip dport Hd _|u now iter Hit _|u now k].
  - exact (step_alloc _ mapPut now u pr dip dport cip cport r u' Hput Hd Hc HA).
  - by apply step_release.
  - by apply step_gc.
  - apply step_stamp.
Qed.

Definition holds (key : NatRevKey) (cip cport : Z) (t : NatTable) : Prop :=
  exists v, m t !! key = Some v /\ ClientIP v = cip /\ ClientPort v = cport.

Lemma holds_step wan key cip cport t t' : NatInv wan t -> active_step wan key t t' -> holds key cip cport t -> holds key cip cport t'.
Proof.
  intros HI Hs (v & Hv & E1 & E2). destruct Hs as [mapPut now t pr dip dport ci cp r t' Hput Hd Hc HA|t port pr dip dport Hd Hne|t now iter Hit Hact|t now k].
  - exists v. split; [|done]. destruct (fwd t !! makeFlowKey ci cp pr dip dport) as [q|] eqn:E.
    { unfold AllocPort in HA. rewrite E in HA. by injection HA as <- <-. }
    rewrite AllocPort_new in HA by done. generalize dependent rangeSize. intros n HA.
    pose proof (allocLoop_outcome mapPut now wan pr dip dport ci cp n t (inv_counter _ _ HI)) as Ho. rewrite HA in Ho. clear HA.
    inversion Ho as [k m' Hk Hb Hfree Hp [Hr' Ht']|k Hk Hfree Hp [Hr' Ht']|Hall [Hr' Ht']]; subst; [|exact Hv..].
    cbn [m]. apply Hput in Hp as ->. rewrite lookup_insert_ne; [exact Hv|]. intros Ek. by rewrite Ek, Hv in Hfree.
  - exists v. split; [|done]. unfold ReleasePort. destruct (m t !! makeNatKey _ _ _ _ _); cbn; [|exact Hv]. by rewrite lookup_delete_ne.
  - exists v. split; [|done]. by apply (gc_keeps_active wan now iter t key v HI Hit Hv).
  - unfold stamp. cbn. destruct (decide (k = key)) as [->|Hne].
    + eexists. cbn. rewrite lookup_alter_eq, Hv. cbn. split; [reflexivity|done].
    + exists v. cbn. by rewrite lookup_alter_ne.
Qed.
Lemma holds_reach wan key cip cport t t' : NatInv wan t -> reach (active_step wan key) t t' -> holds key cip cport t ->
  holds key cip cport t'.
Proof.
  intros HI Hr Hh. assert (H : NatInv wan t' /\ holds key cip cport t'); [|apply H].
  revert t' Hr. apply reach_invariant; [by split|]. intros x y [Hx1 Hx2] Hs. split; [|by eapply holds_step].
  eapply NatInv_step; [exact Hx1|by eapply active_nat].
Qed.

(** ** The upload *)

(** A destination that [forwardOne] sends by the WAN. *)
Definition to_wan (cfg : RConfig) (dst : Z) : bool :=
  negb ((dst =? wanAddr cfg) || (dst =? serverTunIP cfg)) && negb (Contains (virtPrefix cfg) dst) &&
  match List.find (fun lr => Contains lr.1 dst) (lanRoutes cfg) with None => true | Some _ => false end.

(** Unless it is counted as dropped by the translation, such a packet is
    translated and offered to the WAN's batch. *)
Lemma upload_to_wan {E P} `{fwdEgress E} `{FrameSubmitter P} cfg ack mapPut arp (rs : RState E P) now a ip rs' :
  forwardOne cfg ack mapPut arp rs now a ip = Some rs' -> to_wan cfg (be32 ip 16) = true ->
  r_count rs' SnatFailDrops = r_count rs SnatFailDrops ->
  exists pkt' fb mac res fb', ApplySNAT mapPut now ip (wanAddr cfg) (r_nat rs) = (Ok pkt', r_nat rs') /\
    r_batches rs !! 0%nat = Some fb /\ ForwardBatch_Add ack fb a pkt' (Some mac) = Some (res, fb') /\
    r_batches rs' = <[0%nat := fb']> (r_batches rs).
Proof.
  intros Hf Hw Hc. unfold to_wan in Hw. apply andb_true_iff in Hw as [Hw Hlr]. apply andb_true_iff in Hw as [H1 H2].
  apply negb_true_iff in H1, H2. unfold forwardOne in Hf. destruct (length ip <? 20)%nat; [done|]. cbv zeta in Hf.
  rewrite H1, H2 in Hf. destruct (List.find _ _); [done|]. unfold forward_wan in Hf. cbn [r_nat set_obs] in Hf.
  destruct (ApplySNAT _ _ _ _ _) as [[pkt'|e] t].
  - unfold batch_add in Hf. cbn [r_batches set_nat set_obs] in Hf. destruct (r_batches rs !! 0%nat) as [fb|] eqn:Eb; [|done].
    cbn [mbind option_bind] in Hf. destruct (ForwardBatch_Add _ _ _ _ _) as [[res fb']|] eqn:Ea; [|done].
    cbn [mbind option_bind] in Hf. injection Hf as <-. do 5 eexists. split; [|split; [done|split; [exact Ea|]]]; by destruct res.
  - injection Hf as <-. cbn [r_count bump set_nat set_obs] in Hc. rewrite decide_True in Hc by done. lia.
Qed.

(** ** The reply's way in *)

(** The entry the program looks up for the replies to a translated packet. *)
Definition return_key (pkt' : bytes) : NatRevKey :=
  reply_key (be32 pkt' 12) (be16 pkt' (ihl_of pkt')) pkt'.[9] (be32 pkt' 16) (be16 pkt' (ihl_of pkt' + 2)).

(** A translated frame is an IPv4 packet that [dispatchFwd] hands over, unless
    [dispatchFrame] takes it for QUIC. *)
Lemma handed_dnat frame frame' ihl coff : be16 frame 12 = 2048 -> ihl = ihl_of (drop 14 frame) -> (20 <= ihl)%nat ->
  (14 + ihl + 4 <= length frame)%nat -> (34 < length frame)%nat -> (coff = 16 \/ coff = 6)%nat -> Z.shiftr frame.[14] 4 = 4 ->
  take 14 frame' = take 14 frame -> length frame' = length frame ->
  (forall j, ~ dnat_touched ihl coff j -> (drop 14 frame').[j] = (drop 14 frame).[j]) ->
  ~ (frame.[23] = IPPROTO_UDP /\ be16 frame' (14 + ihl + 2) = 443) ->
  handed frame' = Some (drop 14 frame').
Proof.
  intros Hty Hihl H20 Hl4 H34 Hcoff H4 Ht Hlen Hkeep Hq.
  assert (K : forall j, (j < 10 \/ j = 12)%nat -> (drop 14 frame').[j] = (drop 14 frame).[j]).
  { intros j Hj. apply Hkeep. unfold dnat_touched. lia. }
  assert (E12 : be16 frame' 12 = 2048).
  { rewrite <- Hty. apply be16_ext; (rewrite <- (byte_at_take frame' 14), <- (byte_at_take frame 14) by lia); by rewrite Ht. }
  assert (E0 : frame'.[14] = frame.[14]) by (pose proof (K 0%nat ltac:(lia)) as X; by rewrite !byte_at_drop in X).
  assert (E9 : frame'.[23] = frame.[23]) by (pose proof (K 9%nat ltac:(lia)) as X; by rewrite !byte_at_drop in X).
  assert (Eihl : ihl_of (drop 14 frame') = ihl) by (rewrite Hihl; unfold ihl_of; by rewrite (K 0%nat) by lia).
  assert (Ecl : classify frame' = ClassFwd).
  { unfold classify, ethHdr. rewrite E12. cbv zeta. change (14 + 9)%nat with 23%nat. rewrite Eihl, E9.
    replace (length frame' <? 14 + 1)%nat with false by (symmetry; apply Nat.ltb_ge; lia).
    replace (length frame' <? 14 + 20)%nat with false by (symmetry; apply Nat.ltb_ge; lia). cbn [Z.eqb Pos.eqb].
    destruct (frame.[23] =? 17) eqn:E1; [|done]. destruct (be16 frame' (14 + ihl + 2) =? 443) eqn:E2; [|by rewrite andb_false_r].
    exfalso. apply Hq. bool_hyps. by split. }
  unfold handed. rewrite Ecl. unfold ethHdr.
  replace (length frame' <=? 14 + 20)%nat with false by (symmetry; apply Nat.leb_gt; lia). cbv zeta.
  rewrite byte_at_drop. cbn [Nat.add]. by rewrite E0, H4.
Qed.

(** The session table of a running server stays well formed. *)
Section Sessions.
Context `{IpLib} (parse6 : string -> option bytes) (allow : server -> request -> Prop).

Lemma sess_ok_step s s' : table_ok (sv_sess s) -> sstep parse6 allow s s' -> table_ok (sv_sess s').
Proof.
  intros Ht (e & He & _). destruct e as [cn idx cnt|t ok|r|p| |p]; cbn [exec] in He.
  - destruct (vpn_params cn idx cnt) as [[[cid i] n]|]; by injection He as <-.
  - destruct (conn_stage parse6 s t ok) as [s1|] eqn:E; [|done]. injection He as <-. unfold conn_stage, conn_exit in E.
    destruct (sv_conns s !! t) as [c|]; [|done]. cbn [mbind option_bind] in E.
    repeat match type of E with context [match ?x with _ => _ end] => destruct x end; try discriminate E; injection E as <-;
      cbn [with_conn with_db with_sess with_reg with_closed sv_sess];
      first [done|by apply table_ok_Register|by apply table_ok_Remove].
  - by injection He as <-.
  - destruct (sv_pick s !! _); [done|]. destruct (pickTunnel _ _); by injection He as <-.
  - destruct (sv_pick s !! _) as [[c p]|]; [|done]. unfold send_to in He. destruct (decide _); by simplify_eq.
  - unfold send_to in He. destruct (Deliver _ _ _ _) as [[[] [x|]] t']; try (by injection He as <-).
    destruct (decide _); by simplify_eq.
Qed.
Lemma sess_ok_reach db s : reach (sstep parse6 allow) (boot db) s -> table_ok (sv_sess s).
Proof.
  apply (reach_invariant (sstep parse6 allow) (fun s => table_ok (sv_sess s))); [|intros; by eapply sess_ok_step].
  intros ip g Hg. cbn in Hg. unfold NewSessionTable in Hg. by rewrite lookup_empty in Hg.
Qed.

(** What the frame of a known flow becomes of the server: with a live session
    for the client's address the packet goes to one of its channels. *)
Lemma deliver_handed (s : server) p i x : table_ok (sv_sess s) -> (20 <= length p)%nat -> live (sv_sess s) (be32 p 16) i = Some x ->
  exists y j, live (sv_sess s) (be32 p 16) j = Some y /\ forward_handler s p (slice p 16 20) = true /\
    exec parse6 s (EvDeliver p) = send_to s (Z.to_nat (sid y)) p.
Proof.
  intros Ht Hp Hx. destruct (Deliver_live p _ _ i x Ht Hp Hx) as (y & Ed & j & Hj). exists y, j. split; [done|].
  unfold forward_handler. rewrite be_num_slice by done. cbn [exec]. by rewrite Ed.
Qed.
End Sessions.

(** What a reply's packet [p] is for the flow of the client's packet [ip]. *)
Record for_client (ip p reply : bytes) : Prop := {
  fc_dst : be32 p 16 = be32 ip 12;
  fc_dport : be16 p (ihl_of p + 2) = be16 ip (ihl_of ip);
  fc_src : be32 p 12 = be32 ip 16;
  fc_sport : be16 p (ihl_of p) = be16 ip (ihl_of ip + 2);
  fc_len : length p = length reply;
  fc_valid : valid_packet reply -> valid_packet p;
  fc_data j : (ihl_of p + (if (ip.[9] =? IPPROTO_TCP)%Z then 18 else 8) <= j)%nat -> p.[j] = reply.[j]
}.

(** The receive path hands a frame over: what changes of the connection. *)
Record handed_over (c c' : Conn) (desc : Z) : Prop := {
  ho_shards : quicShards c' = quicShards c;
  ho_pending : rxPending c' = rxPending c;
  ho_fills : fills c' = fills c ++ [desc];
  ho_drops : fwdDrops c' = fwdDrops c /\ quicChDrops c' = quicChDrops c
}.
Lemma receive_handed h c idx frame desc p : handed frame = Some p -> h p (slice p 16 20) = true ->
  handed_over c (receiveFrame (Some h) c idx frame desc) desc.
Proof.
  intros Hh Hd. unfold receiveFrame. rewrite (dispatch_handed h _ idx frame desc p Hh), Hd. by destruct (_ && _).
Qed.

Lemma nic_reply `{IpLib} parse6 quic fwdq now queue frame desc (g : gateway) ip pkt' v i x :
  let wan := be32 pkt' 12 in
  reply_to pkt' frame -> pkt'.[9] = ip.[9] -> ip.[9] = IPPROTO_TCP \/ ip.[9] = IPPROTO_UDP -> port_in_range (be16 pkt' (ihl_of pkt')) ->
  be32 pkt' 16 = be32 ip 16 -> be16 pkt' (ihl_of pkt' + 2) = be16 ip (ihl_of ip + 2) ->
  m (gw_nat g) !! return_key pkt' = Some v -> ClientIP v = be32 ip 12 -> ClientPort v = hostToNet16 (be16 ip (ihl_of ip)) -> bytes_ok ip ->
  Z.shiftr frame.[14] 4 = 4 -> fwdq queue = true -> ~ (ip.[9] = IPPROTO_UDP /\ be16 ip (ihl_of ip) = 443) ->
  table_ok (sv_sess (gw_server g)) -> live (sv_sess (gw_server g)) (be32 ip 12) i = Some x ->
  exists p y j c', for_client ip p (drop 14 frame) /\ handed_over (gw_conn g) c' desc /\
    live (sv_sess (gw_server g)) (be32 ip 12) j = Some y /\
    nic_frame parse6 quic fwdq now queue frame desc g =
      if decide (Z.to_nat (sid y) ∈ sv_closed (gw_server g)) then None
      else Some {| gw_nat := with_map (gw_nat g) (<[return_key pkt' := dnat_stamp now v]> (m (gw_nat g))); gw_conn := c';
                   gw_server := with_out (gw_server g) (sv_out (gw_server g) ++ [(Z.to_nat (sid y), p)]); gw_kernel := gw_kernel g |}.
Proof.
  intros wan [Hfok Hty Hfi Hfl Hfp Hfs Hfd Hsp Hdp] Q9 Hpr Hp Q16 Q2 Hv Ev1 Ev2 Hok H4 Hq Hn443 Ht Hx.
  set (ihl := ihl_of (drop 14 frame)) in *.
  destruct (reply_matched quic fwdq now queue frame (m (gw_nat g)) (be32 pkt' 12) _ pkt'.[9] _ _ v Hfok Hty Hfi Hfl Hfp ltac:(by rewrite Q9)
    Hfs Hfd Hsp Hdp Hp Hv) as (coff & upd & Hbr & EX). fold ihl in Hbr, EX.
  destruct (branch_shape _ _ _ _ _ Hbr) as (Hcoff & Hcl & _).
  assert (Hc : (ihl + coff + 2 <= ihl + (if (ip.[9] =? IPPROTO_TCP)%Z then 18 else 8))%nat).
  { rewrite Q9 in Hbr. clear -Hpr Hbr. unfold IPPROTO_TCP, IPPROTO_UDP in *. destruct Hpr as [E|E]; rewrite E in *; inversion Hbr; cbn; lia. }
  assert (Hfl' : (14 + ihl + 8 <= length frame)%nat) by (destruct (pkt'.[9] =? IPPROTO_TCP); lia).
  destruct (dnat_result frame ihl pkt'.[9] coff upd v Hfok eq_refl Hfi ltac:(lia) Hbr) as (F1 & F2 & F3 & F4 & F5 & F6).
  { rewrite Ev1. by apply be32_range. } { rewrite Ev2. apply hostToNet16_range. }
  rewrite Ev2, hostToNet16_invol in F2 by auto with mq. rewrite Ev1 in F1.
  set (frame' := dnat_rewrite _ _ _ _ _) in *. clearbody frame'. set (p := drop 14 frame').
  assert (Hh : handed frame' = Some p).
  { apply (handed_dnat frame frame' ihl coff); first [done|lia|by rewrite F2, Hfp, Q9]. }
  assert (Eihl : ihl_of p = ihl) by (unfold ihl_of at 1; unfold p; rewrite F6 by (unfold dnat_touched; lia); done).
  assert (Hpl : length p = length (drop 14 frame)) by (unfold p; rewrite !length_drop; lia).
  assert (F1' : be32 p 16 = be32 ip 12) by (unfold p; by rewrite be32_drop).
  rewrite <- F1' in Hx |- *.
  destruct (deliver_handed parse6 (gw_server g) p i x Ht) as (y & j & Hj & Hfh & Hex); [rewrite Hpl, length_drop; lia|done|].
  exists p, y, j, (receiveFrame (Some (forward_handler (gw_server g))) (gw_conn g) (Z.to_nat queue) frame' desc). split_and!.
  - split; rewrite ?Eihl; try done.
    + unfold p. rewrite be16_drop. by rewrite Nat.add_assoc.
    + rewrite <- Q16, <- Hfs. transitivity (be32 (drop 14 frame) 12); [|by rewrite be32_drop].
      unfold p, be32. rewrite !(be16_ext (drop 14 frame') (drop 14 frame)); [done|apply F6; unfold dnat_touched; lia..].
    + rewrite <- Q2, <- Hsp, be16_ext with (b' := drop 14 frame); [|apply F6; unfold dnat_touched; lia..]. by rewrite be16_drop.
    + intros k Hk. apply F6. unfold dnat_touched. lia.
  - by eapply receive_handed.
  - done.
  - unfold nic_frame. rewrite EX, Hq, Hh, Hex. unfold send_to. by destruct (decide _).
Qed.


(** ** Runs *)

(** The gateway of VIRT_CIDR 10.8.0.1/24 with the WAN address 1.2.3.4. *)
Definition cfg_gateway : RConfig := {|
  wanAddr := 16909060; serverTunIP := 168296449; virtPrefix := {| p_addr := 168296448; p_bits := 24 |};
  lanRoutes := []; lanXDP := true; lanEgressNeedsMAC := true; egAddrs := [16909060]; primaryNIC := 0;
  primaryGW := [2;0;0;0;0;1]; lanBatch := [Some 0%nat] |}.
(** 10.8.0.2:40000 to 8.8.8.8:443 over TCP, and 10.8.0.2:443 to 8.8.8.8:53 over
    UDP without a checksum. *)
Definition client_tcp : bytes := [69;0;0;40;0;1;64;0;64;6;0;0;10;8;0;2;8;8;8;8;156;64;1;187;0;0;0;1;0;0;0;0;80;2;32;0;0;0;0;0].
Definition client_udp443 : bytes := [69;0;0;29;0;1;64;0;64;17;0;0;10;8;0;2;8;8;8;8;1;187;0;53;0;9;0;0;7].
Definition upload (ip : bytes) : option (RState PacketBatch (list bytes)) :=
  @forwardOne PacketBatch (list bytes) (PacketBatch_egress (fun _ => 0)) cfg_gateway true plain_put (fun _ _ => None) (writer_example None) 7 1 ip.
Definition uploaded (ip : bytes) : RState PacketBatch (list bytes) := default (writer_example None) (upload ip).

(** The server after a client has connected, and the gateway with it. *)
Definition connected : server := state_of (run_dotted booted ([EvApi (post_clients ["alice"%string]); EvAccept "1" "0" "1"] ++ stages 0 4)).
Definition idle_conn : Conn := {| neigh := None; quicShards := [[]]; rxPending := []; rxNotify := false; fills := []; quicChDrops := 0; fwdDrops := 0 |}.
Definition gateway_of (t : NatTable) : gateway := {| gw_nat := t; gw_conn := idle_conn; gw_server := connected; gw_kernel := [] |}.
Definition arrives : Z -> bytes -> gateway -> option gateway :=
  fun now frame g => @nic_frame dotted (fun _ => None) (fun _ => true) (fun _ => true) now 0 frame 99 g.

(** The replies: 8.8.8.8:443 to 1.2.3.4:61000, and 8.8.8.8:53 to the same. *)
Definition tcp_reply : bytes := reply_example.
Definition udp_reply : bytes :=
  [2;0;0;0;0;1;2;0;0;0;0;2;8;0] ++ [69;0;0;29;0;1;64;0;64;17;0;0;8;8;8;8;1;2;3;4;0;53;238;72;0;9;0;0;42].

Lemma seeded_boot : exists st, @Invoke dotted "10.8.0.1/24" empty_store = Some (None, st) /\ booted = boot (s_db st).
Proof. eexists. split; [vm_compute; reflexivity|]. vm_compute. reflexivity. Qed.
Lemma connected_reach st : booted = boot (s_db st) -> reach (@sstep dotted (fun _ => None) no_live_delete) (boot (s_db st)) connected.
Proof.
  intros <-. assert (Es : run_dotted booted ([EvApi (post_clients ["alice"%string]); EvAccept "1" "0" "1"] ++ stages 0 4) = Next connected)
    by (vm_compute; reflexivity).
  eapply exec_all_reach; [|exact Es]. unfold stages. cbn [app replicate].
  repeat (apply Forall_cons; split); try exact I; [|by apply Forall_nil]. intros u.
  assert (Er : request_op (post_clients ["alice"%string]) = Some (OpCreate ["alice"%string])) by (vm_compute; reflexivity).
  unfold no_live_delete. rewrite Er. split; [by intros o [= <-]|]. intros ids Hi. discriminate Hi.
Qed.


(** ** Where the parts do not fit *)

(** The gateway after the reply to the client's port 443. *)
Definition after443 : gateway := default (gateway_of (OpenNatTable ∅)) (arrives 9 udp_reply (gateway_of (r_nat (uploaded client_udp443)))).

(** The replies of a client's UDP flow from its port 443 are lost.  The upload
    is translated and the XDP program translates the reply back, to port 443
    again; but the receive path cannot tell the two XSK maps' frames apart and
    takes every UDP packet to port 443 for QUIC: the reply goes into the QUIC
    shard, and nothing is put in the client's channel. *)
Theorem udp_443_reply_lost :
  let rs' := uploaded client_udp443 in let pkt' := snat_rewrite client_udp443 16909060 61000 in
  upload client_udp443 = Some rs' /\ ApplySNAT plain_put 7 client_udp443 16909060 (r_nat (writer_example None)) = (Ok pkt', r_nat rs') /\
  reply_to pkt' udp_reply /\ live (sv_sess connected) (be32 client_udp443 12) 0 <> None /\
  arrives 9 udp_reply (gateway_of (r_nat rs')) = Some after443 /\ sv_out (gw_server after443) = [] /\ fwdDrops (gw_conn after443) = 0 /\
  map q_data (concat (quicShards (gw_conn after443))) = [[42]].
Proof.
  intros rs' pkt'. split; [vm_compute; reflexivity|]. split; [vm_compute; reflexivity|]. split.
  { split; try reflexivity; try (vm_compute; lia). apply bytes_okb_ok. reflexivity. }
  split; [vm_compute; discriminate|]. split; [vm_compute; reflexivity|]. split; [vm_compute; reflexivity|].
  split; vm_compute; reflexivity.
Qed.

(** The datapath serves port 443 only, whatever LISTEN_PORT says: a UDP frame
    for another port without a flow in the table is passed to the kernel, also
    when an AF_XDP socket serves QUIC on its queue. *)
Theorem other_port_not_served `{IpLib} parse6 quic fwdq now queue frame desc (g : gateway) :
  let l4 := (14 + ihl_of (drop 14 frame))%nat in
  frame.[23] = IPPROTO_UDP -> be16 frame (l4 + 2) <> 443 -> m (gw_nat g) !! frame_nat_key frame l4 IPPROTO_UDP = None ->
  nic_frame parse6 quic fwdq now queue frame desc g =
    Some {| gw_nat := gw_nat g; gw_conn := gw_conn g; gw_server := gw_server g; gw_kernel := gw_kernel g ++ [frame] |}.
Proof.
  intros l4 Hp Hd Hn. subst l4. apply Z.eqb_neq in Hd.
  assert (EX : masque_xdp_prog quic fwdq now queue frame (m (gw_nat g)) = (XDP_PASS, frame, m (gw_nat g))).
  { unfold masque_xdp_prog. cbv beta zeta. rewrite Hp, Hn, Hd, Z.eqb_refl. cbn [andb].
destruct (length frame <? 14)%nat; [done|]. destruct (be16 frame 12 =? 2048); [|done]. cbn [negb].
    destruct (length frame <? 34)%nat; [done|]. destruct (_ <? 20)%nat; [done|]. by destruct (_ <? _)%nat. }
  unfold nic_frame. rewrite EX. by destruct (gw_nat g).
Qed.
