(* ===== verification/Config.v ===== *)
(** * Configuration (config/config.go, config/watch.go, utility/config.go, logger)

    The configuration file and its two readers, the typed accessors, the tuning
    of the forward path, the choice of the egress, and what a hot reload applies.
    A file is its text, [None] one that cannot be opened; only the ASCII white
    space is trimmed.  A context is the list of the bindings made with
    [context.WithValue], newest first. *)
From Stdlib Require Import Ascii.
From S2P Require Import Prelude Words Ip Mgmt Reseq Gso Egress.
Local Open Scope Z_scope.

(** ** Lines *)

Definition is_space (c : ascii) : bool :=
  let n := nat_of_ascii c in (n =? 32)%nat || ((9 <=? n)%nat && (n <=? 13)%nat).
Fixpoint trim_left (s : string) : string :=
  match s with String c t => if is_space c then trim_left t else s | EmptyString => EmptyString end.
Fixpoint trim_right (s : string) : string :=
  match s with
  | EmptyString => EmptyString
  | String c t => match trim_right t with
                  | EmptyString => if is_space c then EmptyString else String c EmptyString
                  | t => String c t
                  end
  end.
Definition TrimSpace (s : string) : string := trim_right (trim_left s).

Definition newline : ascii := ascii_of_nat 10.
Definition cr : ascii := ascii_of_nat 13.

(** [bufio.Scanner] over lines: a last empty line is no line, one [\r] is
    dropped, and a line that does not fit the 64 KB buffer ends the scan. *)
Fixpoint strip_cr (s : string) : string :=
  match s with
  | EmptyString => EmptyString
  | String c EmptyString => if Ascii.eqb c cr then EmptyString else s
  | String c t => String c (strip_cr t)
  end.
Fixpoint drop_last_empty (l : list string) : list string :=
  match l with
  | [] => []
  | [s] => if String.eqb s "" then [] else [s]
  | s :: l => s :: drop_last_empty l
  end.
Fixpoint within_buffer (l : list string) : list string :=
  match l with
  | [] => []
  | s :: l => if Z.of_nat (String.length s) <? 65536 then s :: within_buffer l else []
  end.
Definition scan_lines (file : string) : list string :=
  strip_cr <$> within_buffer (drop_last_empty (split_on newline file)).

(** [strings.SplitN(line, "=", 2)]; [None]: fewer than two parts. *)
Fixpoint cut (s : string) : option (string * string) :=
  match s with
  | EmptyString => None
  | String c t => if Ascii.eqb c "=" then Some (EmptyString, t) else '(k, v) ← cut t; Some (String c k, v)
  end.

Definition HasPrefix (s : string) (p : ascii) : bool := match s with String c _ => Ascii.eqb c p | EmptyString => false end.

(** ** The two readers, each with its own loop body *)

Abbreviation context := (list (string * string)).
Definition Value (ctx : context) (key : string) : option string :=
  snd <$> List.find (fun kv => String.eqb kv.1 key) ctx.

(** [Load], which binds in a context. *)
Definition load_line (ctx : context) (text : string) : context :=
  let line := TrimSpace text in
  if (String.length line =? 0)%nat || HasPrefix line "#" then ctx
  else match cut line with
       | None => ctx
       | Some (k, v) =>
           let key := TrimSpace k in
           let value := TrimSpace v in
           if String.eqb key "" then ctx else (key, value) :: ctx
       end.
Definition Load (file : string) (ctx : context) : context := foldl load_line ctx (scan_lines file).

(** [reloadAndApply], which fills a map. *)
Definition reload_line (vals : gmap string string) (text : string) : gmap string string :=
  let line := TrimSpace text in
  if String.eqb line "" || HasPrefix line "#" then vals
  else match cut line with
       | None => vals
       | Some (k, v) =>
           let key := TrimSpace k in
           if negb (String.eqb key "") then <[key := TrimSpace v]> vals else vals
       end.
Definition reload_vals (file : string) : gmap string string := foldl reload_line ∅ (scan_lines file).

(** ** Accessors *)

Definition ParseBool (s : string) : option bool :=
  if existsb (String.eqb s) ["1"; "t"; "T"; "true"; "TRUE"; "True"]%string then Some true
  else if existsb (String.eqb s) ["0"; "f"; "F"; "false"; "FALSE"; "False"]%string then Some false
  else None.

Definition non_empty (v : option string) : option string :=
  s ← v; if String.eqb s "" then None else Some s.
Definition Bool (ctx : context) (key : string) (def : bool) : bool := default def (non_empty (Value ctx key) ≫= ParseBool).
Definition Int (ctx : context) (key : string) (def : Z) : Z := default def (non_empty (Value ctx key) ≫= ParseInt).
(** main.go *)
Definition ctxBool (ctx : context) (key : string) : bool := default false (Value ctx key ≫= ParseBool).
Definition ctxBoolDefault (ctx : context) (key : string) (def : bool) : bool := default def (Value ctx key ≫= ParseBool).

(** ** The forward path's settings *)

Record tuning := {
  forwardAckViaSocket : bool; forwardViaPacket : bool; forwardViaUring : bool; forwardViaNapiTun : bool;
  tunNoCoalesce : bool; tunMaxSegs : Z; flushIdle : Z;  (* nanoseconds *)
  forwardViaTun : bool; forwardViaVhost : bool
}.
Definition defaults : tuning :=
  {| forwardAckViaSocket := true; forwardViaPacket := false; forwardViaUring := false; forwardViaNapiTun := false;
     tunNoCoalesce := false; tunMaxSegs := Z.of_nat gsoMaxSegs; flushIdle := 120 * 1000; forwardViaTun := false; forwardViaVhost := false |}.

Definition i64 (n : Z) : Z := (n + 9223372036854775808) mod 18446744073709551616 - 9223372036854775808.

Definition LoadConfig (ctx : context) (t : tuning) : tuning :=
  let n := Int ctx "FORWARD_TUN_GSO_MAXSEGS" (tunMaxSegs t) in
  let us := Int ctx "FORWARD_TUN_GSO_FLUSH_IDLE_US" (flushIdle t ÷ 1000) in
  {| forwardAckViaSocket := Bool ctx "FORWARD_ACK_VIA_SOCKET" (forwardAckViaSocket t);
     forwardViaPacket := Bool ctx "FORWARD_KERNEL_TX" (forwardViaPacket t);
     forwardViaUring := Bool ctx "FORWARD_TUN_URING" (forwardViaUring t);
     forwardViaNapiTun := Bool ctx "FORWARD_TUN_NAPI" (forwardViaNapiTun t);
     tunNoCoalesce := Bool ctx "FORWARD_TUN_NOCOALESCE" (tunNoCoalesce t);
     tunMaxSegs := if (1 <=? n) && (n <=? Z.of_nat gsoMaxSegs) then n else tunMaxSegs t;
     flushIdle := if 0 <? us then i64 (us * 1000) else flushIdle t;
     forwardViaTun := forwardViaTun t; forwardViaVhost := forwardViaVhost t |}.

Definition SetForwardMode (gso vhost : bool) (t : tuning) : tuning :=
  {| forwardAckViaSocket := forwardAckViaSocket t; forwardViaPacket := forwardViaPacket t; forwardViaUring := forwardViaUring t;
     forwardViaNapiTun := forwardViaNapiTun t; tunNoCoalesce := tunNoCoalesce t; tunMaxSegs := tunMaxSegs t; flushIdle := flushIdle t;
     forwardViaTun := gso; forwardViaVhost := vhost |}.

(** What main() makes of a configuration. *)
Definition configure (ctx : context) : tuning :=
  let t := LoadConfig ctx defaults in
  let forwardTunVhost := ctxBool ctx "FORWARD_TUN_VHOST" in
  let forwardTunGSO := ctxBoolDefault ctx "FORWARD_TUN_GSO" (negb forwardTunVhost) in
  SetForwardMode forwardTunGSO forwardTunVhost t.

(** xdp/conn.go [LoadConfig]: the receive loop's poll timeout in milliseconds. *)
Definition rxPollTimeoutMs (ctx : context) : Z := let n := Int ctx "XDP_RX_POLL_MS" 5 in if 0 <=? n then n else 5.

(** The upload resequencer of a connection ([handleConn]). *)
Definition uploadReseq (ctx : context) : option ForwardReseq :=
  let t := configure ctx in
  if Bool ctx "FORWARD_UPLOAD_RESEQ" (ForwardCoalesces (forwardViaTun t) (forwardViaVhost t)) then
    let win := Int ctx "FORWARD_UPLOAD_RESEQ_WINDOW" 64 in
    let win := if win <=? 0 then 64 else win in
    Some (NewForwardReseq win (i64 (Int ctx "FORWARD_UPLOAD_RESEQ_MAXAGE_US" 2000 * 1000)))
  else None.

(** The egress of the forward batches. *)
Definition egress_of (ctx : context) : option egressKind :=
  let t := configure ctx in
  altEgress (forwardViaVhost t) (forwardViaUring t) (forwardViaTun t) (forwardViaNapiTun t) (forwardViaPacket t).

(** ** Logging and the hot reload *)

Inductive LogLevel := FATAL | ERROR | WARN | INFO | DEBUG | TRACE.
Definition level_num (l : LogLevel) : Z := match l with FATAL => 0 | ERROR => 1 | WARN => 2 | INFO => 3 | DEBUG => 4 | TRACE => 5 end.

Definition upper (c : ascii) : ascii :=
  let n := nat_of_ascii c in if (97 <=? n)%nat && (n <=? 122)%nat then ascii_of_nat (n - 32) else c.
Fixpoint ToUpper (s : string) : string := match s with EmptyString => EmptyString | String c s => String (upper c) (ToUpper s) end.

Definition ConvertStringToLogLevel (levelName : string) : LogLevel :=
  let s := ToUpper levelName in
  if String.eqb s "FATAL" then FATAL else if String.eqb s "ERROR" then ERROR else if String.eqb s "WARN" then WARN
  else if String.eqb s "INFO" then INFO else if String.eqb s "DEBUG" then DEBUG else if String.eqb s "TRACE" then TRACE else INFO.

(** The logger's level and the statistics switch. *)
Record runtime := { log_level : LogLevel; stats_on : bool }.
Definition ShouldLog (r : runtime) (l : LogLevel) : bool := level_num l <=? level_num (log_level r).

(** What start-up makes of a configuration: [None] is the panic of main() on a
    configuration without [LOG_LEVEL]. *)
Definition start_logging (ctx : context) : option runtime :=
  level ← Value ctx "LOG_LEVEL";
  Some {| log_level := ConvertStringToLogLevel level;
          stats_on := default false (ParseBool (default ""%string (Value ctx "ENABLE_STATISTIC"))) |}.

Definition reloadAndApply (file : option string) (r : runtime) : runtime :=
  match file with
  | None => r
  | Some text =>
      let vals := reload_vals text in
      {| log_level := match non_empty (vals !! "LOG_LEVEL"%string) with Some v => ConvertStringToLogLevel v | None => log_level r end;
         stats_on := match vals !! "ENABLE_STATISTIC"%string with Some v => default false (ParseBool v) | None => stats_on r end |}
  end.
