(* ===== verification/ConfigProps.v ===== *)
(** * Properties of the configuration

    The two readers agree, a file written as key=value lines reads back, the
    settings of the forward path are in range whatever the file says, and which
    egress a configuration selects. *)
From Stdlib Require Import Ascii String.
From S2P Require Import Prelude Words Ip IpProps Mgmt Reseq Egress Config.
Local Open Scope Z_scope.

(** ** The readers *)

Lemma Value_cons ctx k v key : Value ((k, v) :: ctx) key = if String.eqb k key then Some v else Value ctx key.
Proof. unfold Value. cbn. by destruct (String.eqb k key). Qed.

(** One line does the same to both. *)
Lemma reader_line ctx vals text key : Value ctx key = vals !! key -> Value (load_line ctx text) key = reload_line vals text !! key.
Proof.
  intros Hv. unfold load_line, reload_line. set (line := TrimSpace text).
  replace (String.length line =? 0)%nat with (String.eqb line "") by (by destruct line).
  destruct (_ || _); [done|]. destruct (cut line) as [[k v]|]; [|done]. destruct (String.eqb (TrimSpace k) ""); [done|]. cbn [negb].
  rewrite Value_cons. destruct (String.eqb_spec (TrimSpace k) key) as [->|Hk]; [by rewrite lookup_insert_eq|by rewrite lookup_insert_ne].
Qed.
Lemma Load_vals text key : Value (Load text []) key = reload_vals text !! key.
Proof.
  unfold Load, reload_vals. assert (H : forall ctx vals, Value ctx key = vals !! key ->
    Value (foldl load_line ctx (scan_lines text)) key = foldl reload_line vals (scan_lines text) !! key); [|by apply H].
  induction (scan_lines text) as [|l lines IH]; intros ctx vals Hv; [done|]. by apply IH, reader_line.
Qed.

(** C40.  A hot reload against a restart.  The two readers, written twice, bind
    every key of every file to the same value; a file that cannot be opened
    changes nothing; and applying a file to a running server leaves exactly the
    level and the statistics switch that a restart with that file would, if and
    only if the file has a level that is not empty (or an empty one, and the
    running level is the default) and has the switch (or the running one is off):
    a setting removed from the file is kept until the restart, and a restart
    without a level panics. *)
Theorem reload_matches_boot text r :
  (forall key, Value (Load text []) key = reload_vals text !! key) /\
  reloadAndApply None r = r /\
  (start_logging (Load text []) = Some (reloadAndApply (Some text) r) <->
   (exists level, Value (Load text []) "LOG_LEVEL" = Some level /\ (level <> ""%string \/ log_level r = INFO)) /\
   (Value (Load text []) "ENABLE_STATISTIC" <> None \/ stats_on r = false)).
Proof.
  split; [apply Load_vals|]. split; [done|]. unfold start_logging, reloadAndApply. rewrite <- !Load_vals.
  destruct (Value (Load text []) "LOG_LEVEL") as [level|]; cbn [mbind option_bind non_empty].
  2:{ split; [done|]. by intros [(l & ? & _) _]. }
  assert (Hl : (level <> ""%string \/ log_level r = INFO) <->
    ConvertStringToLogLevel level = match (if String.eqb level "" then None else Some level) with Some v => ConvertStringToLogLevel v | None => log_level r end).
  { destruct (String.eqb_spec level "") as [->|Hne]; [|tauto]. split; [by intros [?| ->]|]. intros E. right. by rewrite <- E. }
  assert (Hs : (Value (Load text []) "ENABLE_STATISTIC" <> None \/ stats_on r = false) <->
    default false (ParseBool (default ""%string (Value (Load text []) "ENABLE_STATISTIC"))) =
    match Value (Load text []) "ENABLE_STATISTIC" with Some v => default false (ParseBool v) | None => stats_on r end).
  { destruct (Value (Load text []) "ENABLE_STATISTIC") as [v|]; cbn; [split; [done|by left]|]. split; [by intros [?| ->]|intros E; by right]. }
  rewrite Hs. split.
  - intros [= E1 E2]. split; [|exact E2]. exists level. split; [done|by apply Hl].
  - intros [(l & [= <-] & Hl') E2]. apply Hl in Hl'. by rewrite E2, <- Hl'.
Qed.

(** ** Lines *)

Lemma sapp_cons c s t : (String c s ++ t)%string = String c (s ++ t)%string.
Proof. done. Qed.
Lemma trim_right_cons c t : trim_right (String c t) =
  match trim_right t with EmptyString => if is_space c then EmptyString else String c EmptyString | u => String c u end.
Proof. done. Qed.
Lemma trim_right_app s t : trim_right t <> EmptyString -> trim_right (s ++ t) = (s ++ trim_right t)%string.
Proof.
  intros Ht. induction s as [|c s IH]; [done|].
  rewrite sapp_cons, trim_right_cons, IH. destruct (s ++ trim_right t)%string eqn:E; [|rewrite <- E; done]. exfalso. by destruct s.
Qed.
Lemma trim_right_nonspace c s : is_space c = false -> trim_right (String c s) = String c (trim_right s).
Proof. intros Hc. cbn. rewrite Hc. by destruct (trim_right s). Qed.

Definition no_char (c : ascii) (s : string) : bool := forallb (fun d => negb (Ascii.eqb c d)) (list_ascii_of_string s).

Lemma no_char_cons c d s : no_char c (String d s) = negb (Ascii.eqb c d) && no_char c s.
Proof. done. Qed.
Lemma no_char_app c s t : no_char c (s ++ t) = no_char c s && no_char c t.
Proof.
  induction s as [|d s IH]; [done|]. by rewrite sapp_cons, !no_char_cons, IH, andb_assoc.
Qed.

Lemma split_no_char c s : no_char c s = true -> split_on c s = [s].
Proof.
  induction s as [|d s IH]; [done|]. rewrite no_char_cons. intros Hs. bool_hyps. cbn [split_on].
  match goal with H : Ascii.eqb c d = false |- _ => rewrite H end. by rewrite IH.
Qed.

Lemma cut_key k v : no_char "=" k = true -> cut (k ++ String "=" v) = Some (k, v).
Proof.
  induction k as [|c k IH]; [done|]. rewrite no_char_cons. intros Hk. bool_hyps. rewrite sapp_cons. cbn [cut].
  rewrite Ascii.eqb_sym. match goal with H : Ascii.eqb "=" c = false |- _ => rewrite H end. by rewrite IH.
Qed.

(** A trimmed string does not end in a carriage return. *)
Lemma strip_trimmed s : trim_right s = s -> strip_cr s = s.
Proof.
  induction s as [|c s IH]; [done|]. intros Ht. rewrite trim_right_cons in Ht. destruct s as [|d s].
  - cbn in Ht |- *. destruct (Ascii.eqb c cr) eqn:E; [|done]. apply Ascii.eqb_eq in E as ->. by vm_compute in Ht.
  - change (strip_cr (String c (String d s))) with (String c (strip_cr (String d s))). f_equal. apply IH.
    destruct (trim_right (String d s)) as [|e t]; [by destruct (is_space c)|]. congruence.
Qed.

(** ** Bindings *)

(** What a key=value line can carry. *)
Definition good_key (k : string) : bool :=
  match k with String c _ => negb (is_space c) && negb (Ascii.eqb c "#") | EmptyString => false end &&
  String.eqb (trim_right k) k && no_char "=" k && no_char newline k.
Definition good_value (v : string) : bool := String.eqb (TrimSpace v) v && no_char newline v.
Definition line_of (kv : string * string) : string := (kv.1 ++ String "=" kv.2)%string.
Definition good_binding (kv : string * string) : bool :=
  good_key kv.1 && good_value kv.2 && (Z.of_nat (String.length (line_of kv)) <? 65536).

Definition render (bs : list (string * string)) : string :=
  foldr (fun kv s => line_of kv ++ String newline s)%string EmptyString bs.

Lemma trim_left_trimmed v : TrimSpace v = v -> trim_right v = v.
Proof.
  unfold TrimSpace. intros Hv. assert (Hid : forall s, trim_right (trim_right s) = trim_right s).
  { clear. induction s as [|c s IH]; [done|]. rewrite trim_right_cons. destruct (trim_right s) as [|d t] eqn:E.
    - destruct (is_space c) eqn:Ec; [done|]. cbn. by rewrite Ec.
    - by rewrite trim_right_cons, IH. }
  rewrite <- Hv at 1. rewrite Hid. exact Hv.
Qed.

Lemma good_line kv : good_binding kv = true ->
  TrimSpace (line_of kv) = line_of kv /\ (String.length (line_of kv) =? 0)%nat || HasPrefix (line_of kv) "#" = false /\ trim_right (line_of kv) = line_of kv /\ no_char newline (line_of kv) = true.
Proof.
  destruct kv as [k v]. unfold good_binding, good_key, good_value, line_of. cbn [fst snd]. intros Hg.
  apply andb_true_iff in Hg as [Hg _]. apply andb_true_iff in Hg as [Hk Hv].
  apply andb_true_iff in Hk as [Hk Hkn]. apply andb_true_iff in Hk as [Hk Hke]. apply andb_true_iff in Hk as [Hk Hkt].
  apply andb_true_iff in Hv as [Hvt Hvn]. apply String.eqb_eq in Hvt. apply trim_left_trimmed in Hvt.
  destruct k as [|c k]; [done|]. apply andb_true_iff in Hk as [Hc Hh]. apply negb_true_iff in Hc, Hh.
  assert (Ht : trim_right (String c k ++ String "=" v) = (String c k ++ String "=" v)%string).
  { assert (He : trim_right (String "=" v) = String "=" v) by (rewrite trim_right_nonspace by reflexivity; by rewrite Hvt).
    rewrite trim_right_app by (by rewrite He). by rewrite He. }
  split; [|split; [|split]].
  - unfold TrimSpace. rewrite sapp_cons in Ht |- *. cbn [trim_left]. rewrite Hc. exact Ht.
  - exact Hh.
  - exact Ht.
  - rewrite no_char_app, Hkn, no_char_cons, Hvn. done.
Qed.

Lemma load_line_good kv ctx : good_binding kv = true -> load_line ctx (line_of kv) = kv :: ctx.
Proof.
  intros Hg. destruct (good_line kv Hg) as (Ht & Hc & _ & _). unfold load_line. rewrite Ht, Hc.
  destruct kv as [k v]. unfold good_binding, good_key, good_value, line_of in *. cbn [fst snd] in *.
  apply andb_true_iff in Hg as [Hg _]. apply andb_true_iff in Hg as [Hk Hv].
  apply andb_true_iff in Hk as [Hk Hkn]. apply andb_true_iff in Hk as [Hk Hke]. apply andb_true_iff in Hk as [Hk Hkt].
  apply andb_true_iff in Hv as [Hvt Hvn]. apply String.eqb_eq in Hvt, Hkt. rewrite cut_key by done.
  destruct k as [|c k]; [done|]. apply andb_true_iff in Hk as [Hcs _]. apply negb_true_iff in Hcs.
  assert (Hkk : TrimSpace (String c k) = String c k) by (unfold TrimSpace; cbn [trim_left]; by rewrite Hcs).
  rewrite Hkk, Hvt. done.
Qed.

Lemma split_render bs : forallb good_binding bs = true -> split_on newline (render bs) = (line_of <$> bs) ++ [EmptyString].
Proof.
  induction bs as [|kv bs IH]; [done|]. cbn [forallb]. intros Hb. apply andb_true_iff in Hb as [Hg Hb].
  destruct (good_line kv Hg) as (_ & _ & _ & Hn). cbn [render foldr]. change (foldr _ _ bs) with (render bs).
  change (String newline (render bs)) with (String newline EmptyString ++ render bs)%string.
  rewrite (split_on_app newline (line_of kv) (line_of kv)) by (by apply split_no_char). by rewrite IH.
Qed.
Lemma drop_last_app l : drop_last_empty (l ++ [EmptyString]) = l.
Proof.
  induction l as [|s l IH]; [done|]. cbn [app drop_last_empty]. destruct (l ++ [EmptyString]) eqn:E; [by destruct l|].
  by rewrite <- IH.
Qed.
Lemma scan_render bs : forallb good_binding bs = true -> scan_lines (render bs) = line_of <$> bs.
Proof.
  intros Hb. unfold scan_lines. rewrite split_render, drop_last_app by done.
  induction bs as [|kv bs IH]; [done|]. cbn [forallb] in Hb. apply andb_true_iff in Hb as [Hg Hb].
  destruct (good_line kv Hg) as (_ & _ & Ht & _). cbn [fmap list_fmap within_buffer].
  assert (Hlen : (Z.of_nat (String.length (line_of kv)) <? 65536) = true) by (unfold good_binding in Hg; by apply andb_true_iff in Hg as [_ Hg]).
  rewrite Hlen. cbn [fmap list_fmap]. rewrite strip_trimmed by done. f_equal. by apply IH.
Qed.
Lemma load_good bs ctx : forallb good_binding bs = true ->
  foldl load_line ctx (line_of <$> bs) = reverse bs ++ ctx.
Proof.
  revert ctx. induction bs as [|kv bs IH]; intros ctx Hb; [done|]. cbn [forallb] in Hb. apply andb_true_iff in Hb as [Hg Hb].
  cbn [fmap list_fmap foldl]. rewrite load_line_good, IH by done. by rewrite reverse_cons, <- app_assoc.
Qed.
Lemma Value_app l ctx key : Value (l ++ ctx) key = match Value l key with Some v => Some v | None => Value ctx key end.
Proof. induction l as [|[k v] l IH]; [done|]. cbn [app]. rewrite !Value_cons. by destruct (String.eqb k key). Qed.

(** A configuration written as key=value lines reads back: the context holds
    exactly the bindings, and of several for one key the last one counts. *)
Theorem conf_roundtrip bs : forallb good_binding bs = true ->
  Load (render bs) [] = reverse bs /\
  forall key, Value (Load (render bs) []) key = snd <$> last (filter (fun kv => kv.1 = key) bs).
Proof.
  intros Hb. assert (El : Load (render bs) [] = reverse bs).
  { unfold Load. rewrite scan_render, load_good by done. apply app_nil_r. }
  split; [done|]. intros key. rewrite El. clear El Hb. induction bs as [|[k v] bs IH] using rev_ind; [done|].
  rewrite reverse_app, filter_app. change (reverse [(k, v)] ++ reverse bs) with ((k, v) :: reverse bs). rewrite Value_cons, IH.
  destruct (String.eqb k key) eqn:E.
  - apply String.eqb_eq in E as ->. rewrite filter_cons_True by done. by rewrite filter_nil, last_snoc.
  - apply String.eqb_neq in E. by rewrite filter_cons_False, filter_nil, app_nil_r.
Qed.

Definition sample_conf : list (string * string) :=
  [("LOG_LEVEL", "DEBUG"); ("VIRT_CIDR", "10.8.0.0/24"); ("LOG_LEVEL", "warn"); ("NOTE", "a = b")]%string.
Lemma conf_roundtrip_witness : Value (Load (render sample_conf) []) "LOG_LEVEL" = Some "warn"%string.
Proof. rewrite (proj2 (conf_roundtrip sample_conf ltac:(vm_compute; reflexivity)) "LOG_LEVEL"%string). vm_compute. reflexivity. Defined.

(** ** The settings *)

Lemma i64_small n : -9223372036854775808 <= n <= 9223372036854775807 -> i64 n = n.
Proof. intros Hn. unfold i64. rewrite Z.mod_small by lia. lia. Qed.

(** Whatever the file says, the settings of the forward path are usable: at
    most 64 segments and at least one per super-frame, a poll timeout that is not
    negative, a resequencer with a window of at least one segment and a positive
    age; the idle time of a super-frame is positive unless the configured number
    of microseconds does not fit an int64 of nanoseconds, when it wraps. *)
Theorem settings_in_range text :
  let ctx := Load text [] in
  1 <= tunMaxSegs (configure ctx) <= Z.of_nat Gso.gsoMaxSegs /\
  0 <= rxPollTimeoutMs ctx /\
  (forall r, uploadReseq ctx = Some r -> 1 <= window r /\ 0 < maxAge r) /\
  (Int ctx "FORWARD_TUN_GSO_FLUSH_IDLE_US" 120 <= 9223372036854775 -> 0 < flushIdle (configure ctx)).
Proof.
  intros ctx. split; [|split; [|split]].
  - unfold configure. cbn [tunMaxSegs SetForwardMode LoadConfig defaults]. set (n := Int _ _ _).
    destruct ((1 <=? n) && (n <=? Z.of_nat Gso.gsoMaxSegs)) eqn:E; bool_hyps; [lia|]. unfold Gso.gsoMaxSegs. lia.
  - unfold rxPollTimeoutMs. cbv zeta. destruct (0 <=? _) eqn:E; bool_hyps; lia.
  - intros r Hr. unfold uploadReseq in Hr. cbv zeta in Hr. destruct (Bool _ _ _); [|done]. injection Hr as <-.
    unfold NewForwardReseq. cbn [window maxAge]. split.
    + set (w := Int _ _ _). destruct (w <=? 0) eqn:E1; [done|]. rewrite E1. bool_hyps. lia.
    + destruct (i64 _ <=? 0) eqn:E; bool_hyps; lia.
  - unfold configure. cbn [flushIdle SetForwardMode LoadConfig defaults]. change (120 * 1000 ÷ 1000) with 120.
    set (us := Int _ _ _). intros Hus. destruct (0 <? us) eqn:E; bool_hyps; [|lia]. rewrite i64_small by lia. lia.
Qed.

(** The egress a configuration selects.  Without any of the switches it is
    the coalescing TUN egress, with the resequencer in front; vhost is chosen
    exactly when FORWARD_TUN_VHOST is true; and the AF_XDP, AF_PACKET and NAPI
    egresses are reached only with an explicit FORWARD_TUN_GSO=false, whatever
    FORWARD_KERNEL_TX and FORWARD_TUN_NAPI say. *)
Theorem egress_selection ctx :
  (egress_of ctx = Some EgVhost <-> ctxBool ctx "FORWARD_TUN_VHOST" = true) /\
  (egress_of ctx = None \/ egress_of ctx = Some EgPacket \/ egress_of ctx = Some EgNapiTun ->
     (v ← Value ctx "FORWARD_TUN_GSO"; ParseBool v) = Some false) /\
  ((forall key, Value ctx key = None) -> egress_of ctx = Some EgTunGSO /\
     exists r, uploadReseq ctx = Some r /\ window r = 64 /\ maxAge r = 2000000).
Proof.
  unfold egress_of, configure. cbn [forwardViaVhost forwardViaUring forwardViaTun forwardViaNapiTun forwardViaPacket SetForwardMode LoadConfig defaults].
  set (vh := ctxBool ctx "FORWARD_TUN_VHOST"). set (ur := Bool ctx "FORWARD_TUN_URING" false).
  set (na := Bool ctx "FORWARD_TUN_NAPI" false). set (pk := Bool ctx "FORWARD_KERNEL_TX" false). split; [|split].
  - unfold altEgress. destruct vh; [done|]. destruct ur, (ctxBoolDefault ctx "FORWARD_TUN_GSO" (negb false)), na, pk; done.
  - unfold ctxBoolDefault. destruct (Value ctx "FORWARD_TUN_GSO" ≫= ParseBool) as [[]|]; unfold altEgress; destruct vh, ur, na, pk; cbn; intros [?|[?|?]]; done.
  - intros Hno. assert (Hb : forall k d, Bool ctx k d = d) by (intros k d; unfold Bool; by rewrite Hno).
    assert (Hi : forall k d, Int ctx k d = d) by (intros k d; unfold Int; by rewrite Hno).
    assert (Hv : vh = false) by (unfold vh, ctxBool; by rewrite Hno).
    unfold ur, na, pk. rewrite !Hb, Hv. unfold ctxBoolDefault. rewrite Hno. split; [done|].
    unfold uploadReseq. cbv zeta. rewrite Hb. unfold configure. cbn [forwardViaTun forwardViaVhost SetForwardMode].
    fold vh. rewrite Hv. unfold ctxBoolDefault. rewrite Hno. cbn. rewrite !Hi. eexists. split; [reflexivity|]. done.
Qed.
