(* ===== verification/Watch.v ===== *)
(** * The configuration watcher (config/watch.go [Watch])

    The goroutine that waits for changes of the configuration file: the scan of
    the event bytes inotify returns, and the goroutine's steps interleaved with
    those of other processes on the file.  Files are inodes; the watcher's
    watches are on inodes, the path names one of them or none.  What inotify
    queues for each change is inotify(7), without the merging of equal events; the
    file has no second hard link. *)
From S2P Require Import Prelude Words Config.
Local Open Scope Z_scope.
Local Open Scope masqued_scope.

(** ** The event bytes *)

Definition IN_CLOSE_WRITE : Z := 8.
Definition IN_DELETE_SELF : Z := 1024.
Definition IN_MOVE_SELF : Z := 2048.
Definition IN_IGNORED : Z := 32768.
Definition SizeofInotifyEvent : Z := 16.

(** [struct inotify_event]: watch, mask, cookie, name length, name. *)
Record inotifyEvent := { ev_wd : Z; ev_mask : Z; ev_cookie : Z; ev_name : bytes }.

Definition is_change (mask : Z) : bool := negb (Z.land mask IN_CLOSE_WRITE =? 0).
Definition is_rearm (mask : Z) : bool :=
  negb (Z.land mask (Z.lor IN_IGNORED (Z.lor IN_MOVE_SELF IN_DELETE_SELF)) =? 0).

Definition le32 (b : bytes) (i : nat) : Z := le16 b i + 65536 * le16 b (i + 2).

(** The loop over [buf[:n]] from [off]; [None] only when the fuel runs out. *)
Fixpoint scan (fuel : nat) (buf : bytes) (n off : Z) (changed reArm : bool) : option (bool * bool) :=
  if off + SizeofInotifyEvent <=? n then
    match fuel with
    | O => None
    | S fuel =>
        let mask := le32 buf (Z.to_nat off + 4) in
        let len := le32 buf (Z.to_nat off + 12) in
        scan fuel buf n (off + (SizeofInotifyEvent + len))
          (if is_change mask then true else changed) (if is_rearm mask then true else reArm)
    end
  else Some (changed, reArm).
Definition scan_fuel (n : Z) : nat := S (Z.to_nat n).
Definition scan_events (buf : bytes) : option (bool * bool) :=
  let n := Z.of_nat (length buf) in scan (scan_fuel n) buf n 0 false false.

(** What the kernel writes for an event. *)
Definition le32_bytes (v : Z) : bytes := [u8 v; u8 (v / 256); u8 (v / 65536); u8 (v / 16777216)].
Definition event_bytes (e : inotifyEvent) : bytes :=
  le32_bytes (u32 (ev_wd e)) ++ le32_bytes (ev_mask e) ++ le32_bytes (ev_cookie e)
    ++ le32_bytes (Z.of_nat (length (ev_name e))) ++ ev_name e.
Definition event_ok (e : inotifyEvent) : Prop :=
  0 <= ev_mask e < 4294967296 /\ Z.of_nat (length (ev_name e)) < 4294967296.

(** ** The goroutine *)

(** Before the first [addWatch]; in [unix.Read]; in the 50 ms pause; before
    [addWatch]; before [os.Open]; reading the file it has open. *)
Inductive wpc := WStart | WRead | WSleep | WAdd | WReload | WOpen (i : nat).
#[export] Instance wpc_eq_dec : EqDecision wpc.
Proof. solve_decision. Defined.

Record wstate := {
  path : option nat;          (* the inode CONF_PATH names *)
  gone : gset nat;            (* inodes without a name *)
  content : nat -> string;
  opens : list nat;           (* open for writing by other processes, one entry per open file *)
  watches : gset nat;
  queue : list inotifyEvent;         (* events not read yet *)
  pc : wpc;
  applied : runtime
}.

Definition set_pc (s : wstate) (p : wpc) : wstate :=
  Build_wstate (path s) (gone s) (content s) (opens s) (watches s) (queue s) p (applied s).
Definition with_files (s : wstate) p g c o : wstate := Build_wstate p g c o (watches s) (queue s) (pc s) (applied s).
Definition notify (s : wstate) (es : list inotifyEvent) : wstate :=
  Build_wstate (path s) (gone s) (content s) (opens s) (watches s) (queue s ++ es) (pc s) (applied s).

Definition mk_event (i : nat) (mask : Z) : inotifyEvent := {| ev_wd := Z.of_nat i; ev_mask := mask; ev_cookie := 0; ev_name := [] |}.
(** The events of a change of inode [i], if it is watched. *)
Definition events_of (s : wstate) (i : nat) (mask : Z) : list inotifyEvent :=
  if decide (i ∈ watches s) then [mk_event i mask] else [].

Definition addWatch (s : wstate) : wstate :=
  Build_wstate (path s) (gone s) (content s) (opens s)
    (match path s with Some i => {[i]} ∪ watches s | None => watches s end) (queue s) (pc s) (applied s).

(** One iteration after [unix.Read] has returned the events [es]. *)
Definition after_read (s : wstate) (es : list inotifyEvent) (rest : list inotifyEvent) : option wstate :=
  '(changed, reArm) ← scan_events (concat (event_bytes <$> es));
  let s := Build_wstate (path s) (gone s) (content s) (opens s) (watches s) rest (pc s) (applied s) in
  Some (set_pc s (if (reArm : bool) then WSleep else if (changed : bool) then WReload else WRead)).

Definition apply_file (s : wstate) (file : option string) : wstate :=
  Build_wstate (path s) (gone s) (content s) (opens s) (watches s) (queue s) WRead (reloadAndApply file (applied s)).

(** The watcher's own steps, and the kernel's removal of a file that nothing
    names or holds open any more. *)
Inductive istep : wstate -> wstate -> Prop :=
  | i_start s : pc s = WStart -> istep s (set_pc (addWatch s) WRead)
  | i_read s es rest s' : pc s = WRead -> es <> [] -> queue s = es ++ rest ->
      (length (concat (event_bytes <$> es)) <= 4096)%nat ->
      after_read s es rest = Some s' -> istep s s'
  | i_sleep s : pc s = WSleep -> istep s (set_pc s WAdd)
  | i_add s : pc s = WAdd -> istep s (set_pc (addWatch s) WReload)
  | i_open s i : pc s = WReload -> path s = Some i -> istep s (set_pc s (WOpen i))
  | i_absent s : pc s = WReload -> path s = None -> istep s (apply_file s None)
  | i_apply s i : pc s = WOpen i -> istep s (apply_file s (Some (content s i)))
  | i_reap s i : i ∈ watches s -> i ∈ gone s -> i ∉ opens s -> pc s <> WOpen i ->
      istep s (Build_wstate (path s) (gone s) (content s) (opens s) (watches s ∖ {[i]})
                 (queue s ++ [mk_event i IN_DELETE_SELF; mk_event i IN_IGNORED]) (pc s) (applied s)).

(** What other processes do to the file: open it for writing, write, close,
    rename another file over it; rename it away, remove it, put a file back. *)
Inductive estep : wstate -> wstate -> Prop :=
  | e_open s i : i ∉ gone s -> estep s (with_files s (path s) (gone s) (content s) (i :: opens s))
  | e_write s i text : i ∈ opens s ->
      estep s (with_files s (path s) (gone s) (fun j => if decide (j = i) then text else content s j) (opens s))
  | e_close s i l1 l2 : opens s = l1 ++ i :: l2 ->
      estep s (notify (with_files s (path s) (gone s) (content s) (l1 ++ l2)) (events_of s i IN_CLOSE_WRITE))
  | e_replace s i j : path s = Some i -> i <> j -> j ∉ gone s ->
      estep s (notify (with_files s (Some j) ({[i]} ∪ gone s) (content s) (opens s)) (events_of s j IN_MOVE_SELF)).
Inductive mstep : wstate -> wstate -> Prop :=
  | v_away s i : path s = Some i ->
      mstep s (notify (with_files s None (gone s) (content s) (opens s)) (events_of s i IN_MOVE_SELF))
  | v_remove s i : path s = Some i ->
      mstep s (with_files s None ({[i]} ∪ gone s) (content s) (opens s))
  | v_appear s j : path s = None -> j ∉ gone s ->
      mstep s (notify (with_files s (Some j) (gone s) (content s) (opens s)) (events_of s j IN_MOVE_SELF)).

(** Every interleaving; [wstep_kept]: the path always names a file, as with
    editors that write in place or rename a new file over the old one. *)
Definition wstep (s s' : wstate) : Prop := istep s s' \/ estep s s' \/ mstep s s'.
Definition wstep_kept (s s' : wstate) : Prop := istep s s' \/ estep s s'.

(** Nothing is left to do for the watcher, and nobody is writing. *)
Definition quiet (s : wstate) : Prop := pc s = WRead /\ queue s = [] /\ opens s = [] /\ forall i, i ∈ watches s -> i ∉ gone s.
(** Applying the file named by the path would change nothing. *)
Definition synced (s : wstate) : Prop := forall i, path s = Some i -> reloadAndApply (Some (content s i)) (applied s) = applied s.

(** The goroutine's start with file [i], boot having applied [r]. *)
Definition watch_boot (i : nat) (text : nat -> string) (r : runtime) : wstate :=
  {| path := Some i; gone := ∅; content := text; opens := []; watches := ∅; queue := []; pc := WStart; applied := r |}.
