(* ===== verification/WatchProps.v ===== *)
(** * Properties of the configuration watcher *)
From S2P Require Import Prelude Words Config Watch.
Local Open Scope Z_scope.
Local Open Scope masqued_scope.

(** ** The scan of the event bytes *)

Lemma byte_at_app_off b c k : byte_at (b ++ c) (length b + k) = byte_at c k.
Proof. rewrite byte_at_app_r by lia. f_equal. lia. Qed.
Lemma le32_bytes_le32 pre v post : 0 <= v < 4294967296 -> le32 (pre ++ le32_bytes v ++ post) (length pre) = v.
Proof.
  intros Hv. unfold le32, le16.
  replace (S (length pre + 2)) with (length pre + 3)%nat by lia. replace (S (length pre)) with (length pre + 1)%nat by lia.
  rewrite !byte_at_app_off. rewrite byte_at_app_r by lia. rewrite Nat.sub_diag. unfold byte_at. cbn. unfold u8.
  pose proof (Z.div_mod v 256). pose proof (Z.div_mod (v / 256) 256). pose proof (Z.div_mod (v / 65536) 256).
  rewrite !Z.div_div in * by lia. change (256 * 256) with 65536 in *. change (65536 * 256) with 16777216 in *.
  rewrite (Z.mod_small (v / 16777216)); lia || (split; [apply Z.div_pos; lia|apply Z.div_lt_upper_bound; lia]).
Qed.
Lemma le32_range b i : bytes_ok b -> 0 <= le32 b i < 4294967296.
Proof.
  intros Hb. unfold le32, le16. pose proof (bytes_ok_at b i Hb). pose proof (bytes_ok_at b (S i) Hb).
  pose proof (bytes_ok_at b (i + 2) Hb). pose proof (bytes_ok_at b (S (i + 2)) Hb). lia.
Qed.

Lemma scan_ends fuel buf n off c r : bytes_ok buf -> 0 <= off -> n - off <= Z.of_nat fuel ->
  exists c' r', scan fuel buf n off c r = Some (c', r') /\ (c = true -> c' = true) /\ (r = true -> r' = true).
Proof.
  intros Hb. revert off c r. induction fuel as [|fuel IH]; intros off c r Ho Hf; cbn [scan];
    (destruct (Z.leb_spec (off + SizeofInotifyEvent) n) as [Hle|_]; [|by exists c, r]); unfold SizeofInotifyEvent in Hle.
  - lia.
  - pose proof (le32_range buf (Z.to_nat off + 12) Hb).
    destruct (IH (off + (SizeofInotifyEvent + le32 buf (Z.to_nat off + 12)))
      (if is_change (le32 buf (Z.to_nat off + 4)) then true else c)
      (if is_rearm (le32 buf (Z.to_nat off + 4)) then true else r)) as (c' & r' & E & H1 & H2);
      [unfold SizeofInotifyEvent; lia..|].
    exists c', r'. split; [exact E|]. split; intros ->; [apply H1; by destruct (is_change _)|apply H2; by destruct (is_rearm _)].
Qed.

Lemma event_bytes_length e : length (event_bytes e) = (16 + length (ev_name e))%nat.
Proof. unfold event_bytes. rewrite !length_app. cbn. lia. Qed.

Lemma scan_event fuel pre e post c r : event_ok e ->
  let buf := pre ++ event_bytes e ++ post in
  let n := Z.of_nat (length buf) in
  scan (S fuel) buf n (Z.of_nat (length pre)) c r =
  scan fuel buf n (Z.of_nat (length (pre ++ event_bytes e))) (c || is_change (ev_mask e)) (r || is_rearm (ev_mask e)).
Proof.
  intros [Hm Hn] buf n. cbn [scan]. unfold n at 1.
  assert (Hl : length buf = (length pre + (16 + length (ev_name e)) + length post)%nat).
  { unfold buf. rewrite !length_app, event_bytes_length. lia. }
  destruct (Z.leb_spec (Z.of_nat (length pre) + SizeofInotifyEvent) (Z.of_nat (length buf))) as [_|Hle]; [|unfold SizeofInotifyEvent in Hle; lia].
  rewrite Nat2Z.id.
  assert (E1 : le32 buf (length pre + 4) = ev_mask e).
  { unfold buf, event_bytes. rewrite !app_assoc, <- (app_assoc pre), <- !app_assoc.
    replace (length pre + 4)%nat with (length (pre ++ le32_bytes (u32 (ev_wd e)))) by (rewrite length_app; cbn; lia).
    rewrite (app_assoc pre). by apply le32_bytes_le32. }
  assert (E2 : le32 buf (length pre + 12) = Z.of_nat (length (ev_name e))).
  { unfold buf, event_bytes. rewrite <- !app_assoc.
    replace (length pre + 12)%nat with (length (pre ++ le32_bytes (u32 (ev_wd e)) ++ le32_bytes (ev_mask e) ++ le32_bytes (ev_cookie e)))
      by (rewrite !length_app; cbn; lia).
    replace (pre ++ le32_bytes (u32 (ev_wd e)) ++ le32_bytes (ev_mask e) ++ le32_bytes (ev_cookie e) ++ le32_bytes (Z.of_nat (length (ev_name e))) ++ ev_name e ++ post)
      with ((pre ++ le32_bytes (u32 (ev_wd e)) ++ le32_bytes (ev_mask e) ++ le32_bytes (ev_cookie e)) ++ le32_bytes (Z.of_nat (length (ev_name e))) ++ ev_name e ++ post)
      by (by rewrite <- !app_assoc).
    apply le32_bytes_le32. lia. }
  rewrite E1, E2. f_equal; [|by destruct (is_change _), c|by destruct (is_rearm _), r].
  rewrite length_app, event_bytes_length. unfold SizeofInotifyEvent. lia.
Qed.

Lemma scan_encoded es : forall fuel pre c r, Forall event_ok es -> (length es <= fuel)%nat ->
  let buf := pre ++ concat (event_bytes <$> es) in
  scan fuel buf (Z.of_nat (length buf)) (Z.of_nat (length pre)) c r =
  Some (c || existsb (fun e => is_change (ev_mask e)) es, r || existsb (fun e => is_rearm (ev_mask e)) es).
Proof.
  induction es as [|e es IH]; intros fuel pre c r Hok Hf buf.
  - assert (Hb : buf = pre) by (unfold buf; by rewrite app_nil_r). clearbody buf. subst buf. cbn [existsb]. rewrite !orb_false_r.
    assert (E : (Z.of_nat (length pre) + SizeofInotifyEvent <=? Z.of_nat (length pre)) = false) by (apply Z.leb_gt; unfold SizeofInotifyEvent; lia).
    by destruct fuel; cbn [scan]; rewrite E.
  - apply Forall_cons in Hok as [He Hok]. destruct fuel as [|fuel]; [cbn in Hf; lia|].
    pose proof (scan_event fuel pre e (concat (event_bytes <$> es)) c r He) as Hs. cbv zeta in Hs. unfold buf. cbn [fmap list_fmap concat existsb].
    rewrite Hs, (app_assoc pre). rewrite IH by (done || cbn in Hf; lia). by rewrite !orb_assoc.
Qed.

Lemma scan_queue es : Forall event_ok es ->
  scan_events (concat (event_bytes <$> es)) =
  Some (existsb (fun e => is_change (ev_mask e)) es, existsb (fun e => is_rearm (ev_mask e)) es).
Proof.
  intros Hok. unfold scan_events, scan_fuel.
  apply (scan_encoded es _ [] false false Hok). rewrite Nat2Z.id.
  clear Hok. induction es as [|e es IH]; [cbn; lia|]. cbn [fmap list_fmap concat length].
  rewrite length_app, event_bytes_length. lia.
Qed.

(** The scan ends on whatever bytes the kernel returns, without reading
    past them, and on the bytes of a sequence of events it finds exactly
    whether one of them was a change and whether one ended the watch. *)
Theorem scan_events_spec buf es : bytes_ok buf -> Forall event_ok es ->
  (exists c r, scan_events buf = Some (c, r)) /\
  scan_events (concat (event_bytes <$> es)) =
    Some (existsb (fun e => is_change (ev_mask e)) es, existsb (fun e => is_rearm (ev_mask e)) es).
Proof.
  intros Hb Hok. split; [|by apply scan_queue]. unfold scan_events, scan_fuel.
  destruct (scan_ends (S (Z.to_nat (Z.of_nat (length buf)))) buf (Z.of_nat (length buf)) 0 false false Hb ltac:(lia) ltac:(lia)) as (c & r & E & _).
  by exists c, r.
Qed.

(** ** Applying a file again changes nothing *)

Lemma reload_idem file r : reloadAndApply file (reloadAndApply file r) = reloadAndApply file r.
Proof.
  destruct file as [text|]; [|done]. unfold reloadAndApply. cbn [log_level stats_on].
  destruct (non_empty _); [|destruct (reload_vals text !! "ENABLE_STATISTIC"%string)]; try done.
  by destruct (reload_vals text !! "ENABLE_STATISTIC"%string).
Qed.
#[local] Arguments reloadAndApply : simpl never.
Lemma reload_none r : reloadAndApply None r = r.
Proof. done. Qed.

(** ** Invariants of the goroutine *)

Definition wakes (e : inotifyEvent) : Prop := is_change (ev_mask e) || is_rearm (ev_mask e) = true.
Definition rearms (e : inotifyEvent) : Prop := is_rearm (ev_mask e) = true.

(** The file named by the path, when watched, is applied or will be read again:
    an event is waiting, the goroutine is on its way to open the file or has it
    open, or somebody has it open for writing and will close it.  [missed] allows
    for files and settings that were already different at some moment. *)
Definition fresh_or_pending (missed : nat -> string -> runtime -> Prop) (s : wstate) : Prop :=
  forall i, path s = Some i -> i ∈ watches s ->
    Exists wakes (queue s) \/ pc s = WSleep \/ pc s = WAdd \/ pc s = WReload \/ pc s = WOpen i \/ i ∈ opens s \/
    (pc s = WRead /\ (reloadAndApply (Some (content s i)) (applied s) = applied s \/ missed i (content s i) (applied s))).
(** The file named by the path is watched or will be. *)
Definition armed_or_pending (s : wstate) : Prop :=
  exists i, path s = Some i /\
    (i ∈ watches s \/ Exists rearms (queue s) \/ pc s = WSleep \/ pc s = WAdd \/ exists k, k ∈ watches s /\ k ∈ gone s).
Record wf (s : wstate) : Prop := {
  wf_path : forall i, path s = Some i -> i ∉ gone s;
  wf_queue : Forall (fun e => event_ok e /\ ev_name e = []) (queue s);
  wf_pc : pc s = WStart -> watches s = ∅ /\ queue s = []
}.

Lemma mk_event_ok i mask : 0 <= mask < 4294967296 -> event_ok (mk_event i mask) /\ ev_name (mk_event i mask) = [].
Proof. intros H. split; [split; [exact H|cbn; lia]|done]. Qed.
Lemma events_of_ok s i mask : 0 <= mask < 4294967296 -> Forall (fun e => event_ok e /\ ev_name e = []) (events_of s i mask).
Proof. intros H. unfold events_of. case_decide; [|constructor]. constructor; [by apply mk_event_ok|constructor]. Qed.
Lemma events_of_in s i mask : i ∈ watches s -> mk_event i mask ∈ events_of s i mask.
Proof. intros H. unfold events_of. rewrite decide_True by done. by constructor. Qed.

Lemma after_read_spec s es rest s' : Forall event_ok es -> after_read s es rest = Some s' ->
  s' = Build_wstate (path s) (gone s) (content s) (opens s) (watches s) rest
    (if existsb (fun e => is_rearm (ev_mask e)) es then WSleep else if existsb (fun e => is_change (ev_mask e)) es then WReload else WRead)
    (applied s).
Proof. intros Hok. unfold after_read. rewrite scan_queue by done. cbn. by intros [= <-]. Qed.

(** [Exists] over what is read and what stays. *)
Lemma exists_read (P : inotifyEvent -> Prop) (p : inotifyEvent -> bool) es rest :
  (forall e, P e -> p e = true) -> Exists P (es ++ rest) -> existsb p es = true \/ Exists P rest.
Proof.
  intros Hp [H|H]%Exists_app; [left|by right]. apply existsb_exists. apply Exists_exists in H as (e & He & HPe).
  exists e. split; [by apply list_elem_of_In|by apply Hp].
Qed.

Lemma wf_istep s s' : wf s -> istep s s' -> wf s'.
Proof.
  intros [Hp Hq Hc] H. destruct H as [s E|s es rest s' E Hne Eq _ E2|s E|s E|s i E E2|s E E2|s i E|s i Hi Hg Ho E];
    try (split; cbn in *; [done|done|congruence]).
  - rewrite Eq, Forall_app in Hq. destruct Hq as [He Hr]. apply after_read_spec in E2; [|by eapply Forall_impl; [exact He|intros ? []]].
    subst s'. split; cbn; [done|done|]. by repeat case_match.
  - split; cbn; [done| |].
    + apply Forall_app. split; [done|]. repeat constructor; cbn; unfold IN_DELETE_SELF, IN_IGNORED; lia.
    + intros Hs. destruct (Hc Hs) as [Hw _]. rewrite Hw in Hi. by apply elem_of_empty in Hi.
Qed.
Lemma wf_notify s0 s i m : 0 <= m < 4294967296 -> wf s -> watches s0 = watches s -> wf (notify s (events_of s0 i m)).
Proof.
  intros Hm [Hp Hq Hc] He. split; cbn; [done|apply Forall_app; split; [done|by apply events_of_ok]|].
  intros Hs. destruct (Hc Hs) as [Hw ->]. split; [done|]. unfold events_of. rewrite He, Hw. by rewrite decide_False by apply not_elem_of_empty.
Qed.
Lemma wf_files s p g c o : wf s -> (forall i, p = Some i -> i ∉ g) -> wf (with_files s p g c o).
Proof. intros [Hp Hq Hc] He. by split. Qed.
Lemma wf_step s s' : wf s -> wstep s s' -> wf s'.
Proof.
  intros Hw [H|[H|H]]; [by eapply wf_istep| |]; pose proof (wf_path s Hw) as Hp; destruct H;
    try (apply wf_notify; [unfold IN_CLOSE_WRITE, IN_MOVE_SELF; lia| |done]); try apply wf_files; try done.
  all: intros k Hk; simplify_eq; set_solver.
Qed.

Lemma pc_step s s' : pc s <> WStart -> wstep s s' -> pc s' <> WStart.
Proof.
  intros Hc [H|[H|H]]; destruct H as [|? ? ? ? ? ? ? ? E2| | | | | |] || destruct H; try done.
  unfold after_read in E2. destruct (scan_events _) as [[c d]|]; [|done]. injection E2 as <-. cbn. by destruct d, c.
Qed.

Section Missed.
Context (missed : nat -> string -> runtime -> Prop).
Local Abbreviation fresh := (fresh_or_pending missed).

Lemma fresh_istep s s' : wf s -> pc s <> WStart -> fresh s -> istep s s' -> fresh s'.
Proof using.
  intros [Hp Hq _] Hc Hf H. destruct H as [s E|s es rest s' E Hne Eq _ E2|s E|s E|s i E E2|s E E2|s i E|s i Hi Hg Ho E];
    intros k Hk Hw; cbn in *.
  - congruence.
  - rewrite Eq, Forall_app in Hq. destruct Hq as [He Hr].
    apply after_read_spec in E2; [|by eapply Forall_impl; [exact He|intros ? []]]. subst s'. cbn in *.
    destruct (Hf k Hk Hw) as [Hx|[Hx|[Hx|[Hx|[Hx|[Hx|[_ Hx]]]]]]]; try congruence.
    + rewrite Eq in Hx. apply (exists_read _ (fun e => is_change (ev_mask e) || is_rearm (ev_mask e))) in Hx as [Hx|Hx]; [|by left|done].
      assert (Hor : existsb (fun e => is_rearm (ev_mask e)) es || existsb (fun e => is_change (ev_mask e)) es = true).
      { apply existsb_exists in Hx as (e & He' & Hx). apply orb_true_iff in Hx as [Hx|Hx]; apply orb_true_iff; [right|left]; apply existsb_exists; eauto. }
      destruct (existsb (fun e => is_rearm (ev_mask e)) es); [by (right; left)|]. cbn in Hor. rewrite Hor. by (do 3 right; left).
    + by (do 5 right; left).
    + case_match; [by (right; left)|]. case_match; [by (do 3 right; left)|]. by do 6 right.
  - by (do 2 right; left).
  - by (do 3 right; left).
  - do 4 right. left. congruence.
  - congruence.
  - destruct (Hf k Hk Hw) as [Hx|[Hx|[Hx|[Hx|[Hx|[Hx|[Hx _]]]]]]]; try congruence; [by left|..].
    + assert (k = i) as -> by congruence. do 6 right. split; [done|]. left. apply reload_idem.
    + by (do 5 right; left).
  - destruct (Hf k Hk ltac:(set_solver)) as [Hx|Hx]; [left; apply Exists_app; by left|by right].
Qed.

Lemma fresh_notify s i mask p g c o : is_change mask || is_rearm mask = true ->
  (forall k, p = Some k -> k ∈ watches s -> k = i \/
    (path s = Some k /\ c k = content s k /\ (k ∈ opens s -> k ∈ o))) ->
  fresh s -> fresh (notify (with_files s p g c o) (events_of s i mask)).
Proof using.
  intros Hm Hk Hf k Hp Hw. cbn in *. destruct (Hk k Hp Hw) as [->|(Hpk & Hck & Hok)].
  - left. apply Exists_app. right. apply Exists_exists. exists (mk_event i mask). split; [by apply events_of_in|exact Hm].
  - rewrite Hck. destruct (Hf k Hpk Hw) as [Hx|[Hx|[Hx|[Hx|[Hx|[Hx|Hx]]]]]]; [left; apply Exists_app; by left|tauto..].
Qed.
Lemma fresh_step s s' : wf s -> pc s <> WStart -> fresh s -> wstep s s' -> fresh s'.
Proof using.
  intros Hwf Hc Hf [H|[H|H]]; [by eapply fresh_istep| |].
  - destruct H as [s i Hi|s i text Hi|s i l1 l2 Hi|s i j Hi Hne Hj].
    + intros k Hk Hw. cbn in *. destruct (Hf k Hk Hw) as [Hx|[Hx|[Hx|[Hx|[Hx|[Hx|Hx]]]]]]; try tauto. do 5 right; left. by right.
    + intros k Hk Hw. cbn in *. case_decide; [subst; by (do 5 right; left)|]. exact (Hf k Hk Hw).
    + apply fresh_notify; [done| |done]. intros k Hk Hw. destruct (decide (k = i)) as [->|Hne]; [by left|right].
      split; [done|]. split; [done|]. rewrite Hi. set_solver.
    + apply fresh_notify; [done| |done]. intros k [= <-] Hw. by left.
  - destruct H as [s i Hi|s i Hi|s j Hi Hj]; [by apply fresh_notify|by intros k Hk|].
    apply fresh_notify; [done| |done]. intros k [= <-] Hw. by left.
Qed.
End Missed.

Lemma armed_istep s s' : wf s -> pc s <> WStart -> armed_or_pending s -> istep s s' -> armed_or_pending s'.
Proof.
  intros [Hp Hq _] Hc (k & Hk & Ha) H. destruct H as [s E|s es rest s' E Hne Eq _ E2|s E|s E|s i E E2|s E E2|s i E|s i Hi Hg Ho E]; cbn in *.
  - congruence.
  - rewrite Eq, Forall_app in Hq. destruct Hq as [He Hr].
    apply after_read_spec in E2; [|by eapply Forall_impl; [exact He|intros ? []]]. subst s'. exists k. cbn. split; [done|].
    destruct Ha as [Ha|[Ha|[Ha|[Ha|Ha]]]]; try congruence; try tauto.
    rewrite Eq in Ha. apply (exists_read _ (fun e => is_rearm (ev_mask e))) in Ha as [Ha|Ha]; [|tauto|done]. rewrite Ha. tauto.
  - exists k. cbn. tauto.
  - exists k. cbn. split; [done|]. left. rewrite Hk. set_solver.
  - exists k. cbn. split; [done|]. destruct Ha as [Ha|[Ha|[Ha|[Ha|Ha]]]]; try congruence; tauto.
  - congruence.
  - exists k. cbn. split; [done|]. destruct Ha as [Ha|[Ha|[Ha|[Ha|Ha]]]]; try congruence; tauto.
  - exists k. cbn. split; [done|]. right. left. apply Exists_app. right. by apply Exists_cons_hd.
Qed.
Lemma armed_estep s s' : armed_or_pending s -> estep s s' -> armed_or_pending s'.
Proof.
  intros (k & Hk & Ha) H. destruct H as [s i Hi|s i text Hi|s i l1 l2 Hi|s i j Hi Hne Hj].
  - by exists k.
  - by exists k.
  - exists k. cbn. split; [done|]. rewrite Exists_app. tauto.
  - exists j. cbn. split; [done|]. rewrite Exists_app. assert (i = k) as -> by congruence.
    destruct Ha as [Ha|[Ha|[Ha|[Ha|(x & Hx & Hg)]]]]; try tauto; do 4 right.
    + exists k. set_solver.
    + exists x. set_solver.
Qed.

(** ** Convergence *)

(** Before the goroutine's first [addWatch] nothing is watched or applied. *)
Lemma boot_state i text r s : reach wstep (watch_boot i text r) s -> wf s /\ (pc s = WStart -> applied s = r).
Proof.
  apply (reach_invariant wstep (fun s => wf s /\ (pc s = WStart -> applied s = r))).
  { split; [|done]. split; cbn; [set_solver|constructor|done]. }
  intros x y [H1 H2] H. split; [by eapply wf_step|]. intros Hy. destruct (decide (pc x = WStart)) as [Hx|Hx]; [|by destruct (pc_step _ _ Hx H)].
  destruct H as [H|[H|H]]; destruct H; try congruence; by apply H2.
Qed.

(** The state in which the goroutine first waits. *)
Definition armed (s : wstate) : wstate := set_pc (addWatch s) WRead.

(** What a file may have been missed for: a change made before [b]. *)
Definition missed (b : wstate) (k : nat) (text : string) (r : runtime) : Prop :=
  path b = Some k /\ text = content b k /\ r = applied b.

Lemma armed_reach i text r s0 s : reach wstep (watch_boot i text r) s0 -> pc s0 = WStart -> reach wstep (armed s0) s ->
  wf s /\ pc s <> WStart /\ fresh_or_pending (missed s0) s.
Proof.
  intros H0 Hc. destruct (boot_state _ _ _ _ H0) as [Hw _].
  apply (reach_invariant wstep (fun s => wf s /\ pc s <> WStart /\ fresh_or_pending (missed s0) s)).
  - split; [eapply wf_istep; [exact Hw|by apply i_start]|]. split; [done|]. intros k Hk _. do 6 right. split; [done|]. by right.
  - intros x y (H1 & H2 & H3) H. split; [by eapply wf_step|]. split; [by eapply pc_step|]. by eapply fresh_step.
Qed.
Lemma kept_reach x y : reach wstep_kept x y -> reach wstep x y.
Proof. induction 1 as [|s s' _ IH H]; [constructor|]. eapply reach_step; [exact IH|]. destruct H; [by left|by right; left]. Qed.
Lemma kept_path i text r s : reach wstep_kept (watch_boot i text r) s -> exists k, path s = Some k.
Proof.
  apply (reach_invariant wstep_kept (fun s => exists k, path s = Some k)); [by exists i|].
  intros x y (k & Hk) [H|H]; destruct H as [| ? ? ? ? ? ? ? ? E2| | | | | |] || destruct H; try (by eexists).
  unfold after_read in E2. destruct (scan_events _) as [[c d]|]; [|done]. injection E2 as <-. by exists k.
Qed.
Lemma armed_kept i text r s0 s : reach wstep_kept (watch_boot i text r) s0 -> pc s0 = WStart -> reach wstep_kept (armed s0) s ->
  armed_or_pending s.
Proof.
  intros H0 Hc H. destruct (kept_path _ _ _ _ H0) as (k & Hk). apply kept_reach in H0.
  induction H as [|x y Hx IH H]; [exists k; split; [done|]; left; cbn; rewrite Hk; set_solver|].
  destruct H as [H|H]; [|by eapply armed_estep].
  destruct (armed_reach i text r s0 x H0 Hc (kept_reach _ _ Hx)) as (Hw & Hp & _). by eapply armed_istep.
Qed.

(** Work left: what each step of the watcher alone uses up. *)
Definition pc_rank (p : wpc) : nat := match p with WStart => 1 | WRead => 0 | WOpen _ => 1 | WReload => 2 | WAdd => 3 | WSleep => 4 end.
Definition rank (s : wstate) : nat := (13 * size (watches s ∩ gone s) + 6 * length (queue s) + pc_rank (pc s))%nat.

Lemma addWatch_gone s : wf s -> watches (addWatch s) ∩ gone s = watches s ∩ gone s.
Proof.
  intros [Hp _ _]. unfold addWatch. cbn. destruct (path s) as [k|] eqn:E; [|done]. specialize (Hp k eq_refl).
  apply set_eq. intros x. set_solver.
Qed.
Lemma rank_istep s s' : wf s -> istep s s' -> (rank s' < rank s)%nat.
Proof.
  intros Hw H. pose proof Hw as [Hp Hq Hc]. destruct H as [s E|s es rest s' E Hne Eq _ E2|s E|s E|s k E E2|s E E2|s k E|s k Hi Hg Ho E]; unfold rank.
  - change (watches (set_pc (addWatch s) WRead) ∩ gone (set_pc (addWatch s) WRead)) with (watches (addWatch s) ∩ gone s). rewrite addWatch_gone by done. cbn. rewrite E. cbn. lia.
  - rewrite Eq, Forall_app in Hq. apply after_read_spec in E2; [|eapply Forall_impl; [exact (proj1 Hq)|intros ? []; done]].
    subst s'. cbn. rewrite Eq, length_app. destruct es as [|e es]; [done|]. cbn [length]. repeat case_match; cbn; lia.
  - cbn. rewrite E. cbn. lia.
  - change (watches (set_pc (addWatch s) WReload) ∩ gone (set_pc (addWatch s) WReload)) with (watches (addWatch s) ∩ gone s).
    rewrite addWatch_gone by done. cbn. rewrite E. cbn. lia.
  - cbn. rewrite E. cbn. lia.
  - cbn. rewrite E. cbn. lia.
  - cbn. rewrite E. cbn. lia.
  - cbn. rewrite length_app. cbn. assert (Hsz : size (watches s ∩ gone s) = S (size (watches s ∖ {[k]} ∩ gone s))).
    { replace (watches s ∩ gone s) with ({[k]} ∪ (watches s ∖ {[k]} ∩ gone s)).
      - rewrite size_union by set_solver. by rewrite size_singleton.
      - apply set_eq. intros x. destruct (decide (x = k)); set_solver. }
    rewrite Hsz. lia.
Qed.

Lemma istep_progress s : wf s -> opens s = [] -> ~ quiet s -> exists s', istep s s'.
Proof.
  intros [Hp Hq Hc] Ho Hn. destruct (pc s) as [| | | | |k] eqn:E.
  - eexists. by apply i_start.
  - destruct (queue s) as [|e q] eqn:Eq.
    + destruct (decide (set_Forall (fun k => k ∉ gone s) (watches s))) as [Hall|Hex].
      * destruct Hn. by split.
      * apply not_set_Forall_Exists in Hex as (k & Hk & Hg); [|solve_decision]. apply dec_stable in Hg.
        eexists. eapply (i_reap s k); [exact Hk|exact Hg|by rewrite Ho; apply not_elem_of_nil|congruence].
    + apply Forall_cons in Hq as [[Hok Hname] _].
      destruct (after_read s [e] q) as [s'|] eqn:Er; [|unfold after_read in Er; rewrite scan_queue in Er; [done|by constructor]].
      exists s'. eapply (i_read s [e] q); [done|done|exact Eq| |exact Er].
      cbn [fmap list_fmap concat]. rewrite app_nil_r, event_bytes_length, Hname. cbn. lia.
  - eexists. by apply i_sleep.
  - eexists. by apply i_add.
  - destruct (path s) as [k|] eqn:Ep; eexists; [by apply (i_open s k)|by apply i_absent].
  - eexists. by apply (i_apply s k).
Qed.

Lemma istep_opens s s' : istep s s' -> opens s' = opens s.
Proof.
  intros H. destruct H as [| ? ? ? ? ? ? ? ? E2| | | | | |]; try done. unfold after_read in E2.
  destruct (scan_events _) as [[c d]|]; [|done]. by injection E2 as <-.
Qed.
Lemma quiet_dec s : Decision (quiet s).
Proof.
  unfold quiet. assert (Decision (pc s = WRead)) by (destruct (pc s); (by left) || (by right)).
  assert (Decision (queue s = [])) by (destruct (queue s); (by left) || (by right)).
  assert (Decision (forall i, i ∈ watches s -> i ∉ gone s)).
  { destruct (decide (set_Forall (fun i => i ∉ gone s) (watches s))); [by left|by right]. }
  apply _.
Qed.

(** C20.  Once the other processes leave the file alone, the watcher comes to
    rest: from every state it can reach, every sequence of its own steps is
    bounded by the work left, and it only stops when no event waits and no
    removed file is still watched. *)
Theorem watcher_settles i text r s : reach wstep (watch_boot i text r) s -> opens s = [] ->
  (forall n s', nsteps istep n s s' -> (n <= rank s)%nat) /\
  (forall s', rtc istep s s' -> (forall s'', ~ istep s' s'') -> quiet s') /\
  exists s', rtc istep s s' /\ quiet s'.
Proof.
  intros Hs Ho. destruct (boot_state _ _ _ _ Hs) as [Hw0 _]. clear Hs. rename Hw0 into Hs. revert Ho. intros Ho. split; [|split].
  - intros n. revert s Hs Ho. induction n as [|n IH]; intros s Hs Ho s' H; [lia|]. inversion H as [|? ? y ? H1 H2]; subst.
    pose proof (rank_istep _ _ Hs H1). assert (Hoy : opens y = []) by (by rewrite (istep_opens _ _ H1)).
    specialize (IH y (wf_istep _ _ Hs H1) Hoy _ H2). lia.
  - intros s' H Hstop. assert (Hw : wf s' /\ opens s' = []).
    { induction H as [|x y z H1 _ IH]; [done|]. apply IH; [by eapply wf_istep|by rewrite (istep_opens _ _ H1)|done]. }
    destruct (quiet_dec s') as [Hq|Hq]; [done|]. destruct (istep_progress s' (proj1 Hw) (proj2 Hw) Hq) as [s'' H2]. by destruct (Hstop s'').
  - induction s as [s IH] using (well_founded_induction (well_founded_ltof _ rank)).
    destruct (quiet_dec s) as [Hq|Hq]; [by exists s|]. destruct (istep_progress s Hs Ho Hq) as [y H].
    destruct (IH y (rank_istep _ _ Hs H) (wf_istep _ _ Hs H) ltac:(by rewrite (istep_opens _ _ H))) as (s' & H1 & H2).
    exists s'. split; [by eapply rtc_l|done].
Qed.

(** C19.  What the watcher does not lose.  The goroutine starts to watch in some
    state [s0] after the boot, other processes having done to the file whatever
    they did since the configuration was read.  From then on, whatever they do
    and in whatever order with the watcher, when it is at rest and the file the
    path names is watched, the level and the statistics switch are what that file
    says - except that the file and the settings may still be those of [s0], so a
    change made before it is missed, until the next one, and only that change
    ([boot_window_lost]).  And as long as the path always named some file (written
    in place, or renamed over), it is watched. *)
Theorem reload_converges i text r s0 s : reach wstep (watch_boot i text r) s0 -> pc s0 = WStart ->
  reach wstep (armed s0) s -> quiet s ->
  let applies k := reloadAndApply (Some (content s k)) (applied s) = applied s \/
    (path s0 = Some k /\ content s k = content s0 k /\ applied s = r) in
  (forall k, path s = Some k -> k ∈ watches s -> applies k) /\
  (reach wstep_kept (watch_boot i text r) s0 -> reach wstep_kept (armed s0) s -> exists k, path s = Some k /\ k ∈ watches s /\ applies k).
Proof.
  intros H0 Hc Hs (Hpc & Hqu & Ho & Hg) applies. destruct (boot_state _ _ _ _ H0) as [_ Hap]. specialize (Hap Hc).
  assert (H1 : forall k, path s = Some k -> k ∈ watches s -> applies k).
  { intros k Hk Hw. destruct (armed_reach i text r s0 s H0 Hc Hs) as (_ & _ & Hf). unfold applies. rewrite <- Hap.
    destruct (Hf k Hk Hw) as [H|[H|[H|[H|[H|[H|[_ H]]]]]]]; try congruence; [rewrite Hqu in H; by inversion H|rewrite Ho in H; by inversion H|exact H]. }
  split; [exact H1|]. intros K0 K. destruct (armed_kept i text r s0 s K0 Hc K) as (k & Hk & Ha).
  exists k. assert (Hkw : k ∈ watches s).
  { destruct Ha as [Ha|[Ha|[Ha|[Ha|(x & Hx & Hxg)]]]]; [done|rewrite Hqu in Ha; by inversion Ha|congruence..|by destruct (Hg x Hx)]. }
  split; [done|]. split; [done|]. by apply H1.
Qed.

(** ** Concrete runs *)

(** A watched file that is gone is noticed: the events are read and the watcher
    goes to re-arm and re-open. *)
Ltac rearm_run i := eapply reach_front; [left; apply (i_reap _ i); [by_decide|by_decide|by_decide|done]|];
  eapply reach_front; [left; eapply (i_read _ [_; _] []); [done|done|reflexivity|vm_compute; lia|reflexivity]|];
  eapply reach_front; [left; by apply i_sleep|]; eapply reach_front; [left; by apply i_add|].
Ltac is_quiet := split; [done|split; [done|split; [done|]]];
  match goal with |- forall i, i ∈ ?w -> i ∉ ?g => change (set_Forall (fun i => i ∉ g) w); by_decide end.

Definition texts (n : nat) : string := match n with O => "LOG_LEVEL=INFO" | _ => "LOG_LEVEL=DEBUG" end.
Definition at_info : runtime := {| log_level := INFO; stats_on := false |}.

(** The first file is replaced by the second and the watcher follows. *)
Lemma replaced_run : exists s, reach wstep_kept (armed (watch_boot 0 texts at_info)) s /\ quiet s /\ path s = Some 1%nat /\ log_level (applied s) = DEBUG.
Proof.
  eexists. split; [|split; [|split]].
  - eapply reach_front; [right; apply (e_replace _ 0 1); [done|done|by_decide]|]. rearm_run 0%nat.
    eapply reach_front; [left; by apply (i_open _ 1)|]. eapply reach_front; [left; by apply (i_apply _ 1)|]. apply reach_refl.
  - is_quiet.
  - reflexivity.
  - reflexivity.
Defined.

(** After that run the settings are the second file's. *)
Lemma reload_converges_witness :
  exists s, quiet s /\ path s = Some 1%nat /\ log_level (applied s) = DEBUG /\ reloadAndApply (Some (content s 1)) (applied s) = applied s.
Proof.
  destruct replaced_run as (s & Hs & Hq & Hp & Hl). exists s. split; [exact Hq|]. split; [exact Hp|]. split; [exact Hl|].
  destruct (reload_converges 0 texts at_info (watch_boot 0 texts at_info) s (reach_refl _ _) eq_refl (kept_reach _ _ Hs) Hq) as [_ H].
  destruct (H (reach_refl _ _) Hs) as (k & Hk & _ & [H'|(Hk' & _)]); rewrite Hp in Hk; injection Hk as <-; [exact H'|discriminate Hk'].
Defined.
Lemma watcher_settles_witness : reach wstep (watch_boot 0 texts at_info) (watch_boot 0 texts at_info) /\
  exists s', rtc istep (watch_boot 0 texts at_info) s' /\ quiet s'.
Proof.
  split; [apply reach_refl|].
  exact (proj2 (proj2 (watcher_settles 0 texts at_info (watch_boot 0 texts at_info) (reach_refl _ _) eq_refl))).
Defined.
Lemma scan_events_spec_witness : bytes_ok [1; 0] /\ Forall event_ok [mk_event 1 8; mk_event 2 32768] /\
  scan_events (concat (event_bytes <$> [mk_event 1 8; mk_event 2 32768])) = Some (true, true).
Proof.
  assert (Hb : bytes_ok [1; 0]) by (apply bytes_okb_ok; reflexivity).
  assert (He : Forall event_ok [mk_event 1 8; mk_event 2 32768]) by (repeat constructor; cbn; lia).
  split; [exact Hb|]. split; [exact He|]. exact (proj2 (scan_events_spec [1; 0] _ Hb He)).
Defined.

(** ** What the watcher misses *)

Definition dead (s : wstate) : Prop := pc s = WRead /\ watches s = ∅ /\ queue s = [].
Lemma dead_step s s' : dead s -> wstep s s' -> dead s' /\ applied s' = applied s.
Proof.
  intros (E1 & E2 & E3) H. assert (Hev : forall i m, events_of s i m = []).
  { intros i m. unfold events_of. rewrite E2. by rewrite decide_False by apply not_elem_of_empty. }
  unfold dead. destruct H as [H|[H|H]]; destruct H; cbn; try congruence; try (by rewrite Hev, app_nil_r);
    try done; try (rewrite E2 in *; by match goal with Hi : _ ∈ ∅ |- _ => apply elem_of_empty in Hi end).
  match goal with Hq : queue _ = ?es ++ _ |- _ => rewrite E3 in Hq; by destruct es end.
Qed.

(** When the file is away while the watcher re-arms (removed, and written
    again more than 50 ms later), the watch is lost for good: the watcher is at
    rest with nothing watched, and whatever happens to the new file, nothing is
    ever applied again.  This state is reached from a working watcher. *)
Theorem watch_lost :
  (forall s s', dead s -> reach wstep s s' -> dead s' /\ applied s' = applied s) /\
  (exists s, reach wstep (armed (watch_boot 0 texts at_info)) s /\ quiet s /\ dead s /\ path s = Some 1%nat /\ ~ synced s).
Proof.
  split.
  - intros s s' Hd H. induction H as [|x y _ [IH1 IH2] H]; [done|]. destruct (dead_step x y IH1 H) as [H1 H2].
    split; [done|congruence].
  - eexists. split; [|split; [|split; [|split]]].
    + eapply reach_front; [right; right; by apply (v_remove _ 0)|]. rearm_run 0%nat.
      eapply reach_front; [left; by apply i_absent|].
      eapply reach_front; [right; right; apply (v_appear _ 1); [done|by_decide]|]. apply reach_refl.
    + is_quiet.
    + by repeat split.
    + reflexivity.
    + intros Hs. specialize (Hs 1%nat eq_refl). vm_compute in Hs. discriminate Hs.
Qed.

(** A change made between the boot's reading of the file and the watcher's
    first watch is not applied either, although the file is watched. *)
Theorem boot_window_lost :
  exists s, reach wstep (watch_boot 0 texts at_info) s /\ quiet s /\ path s = Some 0%nat /\ 0%nat ∈ watches s /\ ~ synced s.
Proof.
  eexists. split; [|split; [|split; [|split]]].
  - eapply reach_front; [right; left; apply (e_open _ 0); by_decide|].
    eapply reach_front; [right; left; apply (e_write _ 0 "LOG_LEVEL=DEBUG"); by_decide|].
    eapply reach_front; [right; left; by apply (e_close _ 0 [] [])|].
    eapply reach_front; [left; by apply i_start|]. apply reach_refl.
  - is_quiet.
  - reflexivity.
  - by_decide.
  - intros Hs. specialize (Hs 0%nat eq_refl). vm_compute in Hs. discriminate Hs.
Qed.
