(* ===== verification/Topology.v ===== *)
(** * Start-up: links, MTU, NICs and routes (main.go; xdp/nics.go, channels.go, queues.go, loader.go, conn.go, arp.go)

    What main() and run() decide from what the kernel reports: the sizes of the
    tunnel, the NICs the datapath is attached to, their addresses, channels and
    next hops, which of them listen for QUIC, which one is the WAN, and which one
    owns each local network.  The reports (netlink, ethtool, sysfs) and the
    answers of attaching and binding are inputs. *)
From Stdlib Require Import Ascii.
From S2P Require Import Prelude Words Ip Mgmt Config Router.
Local Open Scope Z_scope.
Local Open Scope masqued_scope.

(** ** Addresses ([netip]) *)

Definition AddrFromSlice (b : bytes) : option bytes := if (length b =? 4)%nat || (length b =? 16)%nat then Some b else None.
Definition Unmap (b : bytes) : bytes := default b (To4 b).
Definition IsLinkLocalUnicast (b : bytes) : bool :=
  let b := Unmap b in
  if (length b =? 4)%nat then (b.[0] =? 169) && (b.[1] =? 254) else (b.[0] =? 254) && (Z.land b.[1] 192 =? 128).

(** ** Links *)

(** [l_addrs]: the IPv4 addresses with their prefix lengths, [None] when they
    cannot be listed; [l_real]: the answer of [IsRealNIC]. *)
Record linkInfo := { l_name : string; l_mtu : Z; l_up : bool; l_addrs : option (list (bytes * Z)); l_real : bool }.

Definition has_prefix (p s : string) : bool := String.prefix p s.
Definition excluded (name : string) : bool := String.eqb name "lo" || has_prefix "tm" name.

(** [IsRealNIC]: [ethtool] is the output of ethtool -i, [device] whether sysfs
    knows a device. *)
Definition bus_of (line : string) : option string :=
  let line := TrimSpace line in
  if has_prefix "bus-info:" line then Some (TrimSpace (String.substring 9 (String.length line - 9) line)) else None.
Definition IsRealNIC (ethtool : option string) (device : bool) : bool :=
  match ethtool with
  | None => device
  | Some out => match omap bus_of (split_on newline out) with
                | bus :: _ => negb (String.eqb bus "") && negb (String.eqb bus "N/A") && negb (String.eqb bus "tap")
                | [] => false
                end
  end.

Definition DetectRealNICs (links : list linkInfo) : list string :=
  omap (fun l => if excluded (l_name l) then None else if negb (l_up l) then None else if l_real l then Some (l_name l) else None) links.

(** [firstIPv4] of a link's addresses. *)
Definition firstIPv4 (addrs : option (list (bytes * Z))) : option bytes :=
  l ← addrs;
  head (omap (fun a => b ← AddrFromSlice a.1; if IsLinkLocalUnicast b then None else Some (Unmap b)) l).

Definition buildLocalLANs (wanIface : string) (links : list linkInfo) : list Prefix :=
  mjoin (map (fun l =>
    if String.eqb (l_name l) wanIface || excluded (l_name l) then []
    else match l_addrs l with
         | None => []
         | Some addrs => omap (fun a => b ← To4 a.1; Some (Masked {| pfx_addr := b; pfx_bits := a.2 |})) addrs
         end) links).

(** ** Sizes *)

Definition xdpNativeMaxMTU : Z := 3506.
Definition outerOverhead : Z := 56.
Definition datagramOverhead : Z := 28.
Definition maxQUICPacket : Z := 4000.

(** [strconv.ParseUint(v, 10, 64)]. *)
Definition ParseUint64 (s : string) : option Z := n ← parse_uint s; if n <? 18446744073709551616 then Some n else None.
Definition clampPacket (n : Z) : Z :=
  let n := if maxQUICPacket <? n then maxQUICPacket else n in if n <? 1252 then 1252 else n.

(** The smallest MTU of a NIC that may carry a bridged packet. *)
Definition minEgress (ifaceName : string) (wanMTU : Z) (links : list linkInfo) : Z :=
  foldl (fun m l =>
    if String.eqb (l_name l) ifaceName || excluded (l_name l) then m
    else if negb (l_up l) || negb (l_real l) then m
    else if (0 <? l_mtu l) && (l_mtu l <? m) then l_mtu l else m) wanMTU links.

(** The inner MTU and [serverInitialPacketSize]; [links] is [None] when they
    cannot be listed. *)
Definition tunnelSizes (ctx : context) (ifaceName : string) (wanMTU : Z) (links : option (list linkInfo)) : Z * Z :=
  let mtu := default 0 (Value ctx "TUNNEL_MTU" ≫= ParseUint64) in
  if 0 <? mtu then (mtu, clampPacket (i64 (i64 mtu + datagramOverhead)))
  else
    let effWanMTU := match links with Some links => minEgress ifaceName wanMTU links | None => wanMTU end in
    let effWanMTU := if xdpNativeMaxMTU <? effWanMTU then xdpNativeMaxMTU else effWanMTU in
    let size := clampPacket (effWanMTU - outerOverhead) in
    let inner := size - datagramOverhead in
    (if inner <? 576 then 576 else inner, size).

(** ** Channels (xdp/channels.go, main.go) *)

Definition re_space (c : ascii) : bool := let n := nat_of_ascii c in (n =? 32)%nat || (n =? 9)%nat || (n =? 10)%nat || (n =? 12)%nat || (n =? 13)%nat.
Definition is_digit (c : ascii) : bool := let n := nat_of_ascii c in (48 <=? n)%nat && (n <=? 57)%nat.
Fixpoint span (p : ascii -> bool) (s : string) : string * string :=
  match s with
  | String c t => if p c then let '(a, b) := span p t in (String c a, b) else (EmptyString, s)
  | EmptyString => (EmptyString, EmptyString)
  end.
(** One match of [^Combined:\s+(\d+)] at the start of a line. *)
Definition match_combined (s : string) : option (string * string) :=
  if has_prefix "Combined:" s then
    let '(sp, rest) := span re_space (String.substring 9 (String.length s - 9) s) in
    let '(ds, rest) := span is_digit rest in
    if String.eqb sp "" || String.eqb ds "" then None else Some (ds, rest)
  else None.
(** [FindAllStringSubmatch]; [fuel] is the length of the text. *)
Fixpoint find_combined (fuel : nat) (bol : bool) (s : string) : list string :=
  match fuel, s with
  | S fuel, String c t =>
      match (if bol then match_combined s else None) with
      | Some (ds, rest) => ds :: find_combined fuel false rest
      | None => find_combined fuel (Ascii.eqb c newline) t
      end
  | _, _ => []
  end.

Record ChannelInfo := { MaxCombined : Z; CurrentCombined : Z }.
Definition parseEthtoolChannels (s : string) : option ChannelInfo :=
  match find_combined (String.length s) true s with
  | m :: c :: _ => maxC ← ParseInt m; curC ← ParseInt c; Some {| MaxCombined := maxC; CurrentCombined := curC |}
  | _ => None
  end.

(** [out]: the output of ethtool -l; [set_ok]: whether ethtool -L succeeds. *)
Definition MaximizeChannels (out : option string) (set_ok : bool) : Z :=
  match out ≫= parseEthtoolChannels with
  | None => 1
  | Some info =>
      if MaxCombined info <=? 1 then Z.max (CurrentCombined info) 1
      else if MaxCombined info <=? CurrentCombined info then CurrentCombined info
      else if set_ok then MaxCombined info else CurrentCombined info
  end.
Definition maximizeChannelsFor (ctx : context) (out : option string) (set_ok : bool) : Z :=
  let finalCombined :=
    if match Value ctx "MAXIMIZE_CHANNELS" with None => true | Some _ => ctxBool ctx "MAXIMIZE_CHANNELS" end
    then MaximizeChannels out set_ok
    else match out ≫= parseEthtoolChannels with Some ci => CurrentCombined ci | None => 1 end in
  if finalCombined <? 1 then 1 else finalCombined.

(** xdp/queues.go, on the numbers of sysfs entries. *)
Definition GetQueueInfo (rx tx : nat) : nat * nat := (if (rx =? 0)%nat then 1%nat else rx, if (tx =? 0)%nat then 1%nat else tx).
