(* ===== verification/Startup.v ===== *)
(** * Bring-up of the datapath (main.go run; xdp/loader.go, conn.go NewConn, arp.go)

    The selection run() makes from the NICs it detects: which ones carry the XDP
    program and in which mode, the AF_XDP connection of each with its sockets,
    which ones listen for QUIC, which one is the WAN, and which one owns each
    local network; and the tuning of the kernel's buffer ceilings.  [nicEnv]
    holds what the kernel answers for one NIC. *)
From Stdlib Require Import Ascii.
From S2P Require Import Prelude Words Ip TcpParse Mgmt Config Router Setup Topology.
Local Open Scope Z_scope.
Local Open Scope masqued_scope.

Inductive XDPMode := XDPModeNative | XDPModeGeneric.
Global Instance XDPMode_eq_dec : EqDecision XDPMode.
Proof. solve_decision. Defined.

(** ** The kernel's answers *)

(** [rt_dst] is [None] for a nil destination, else the mask's ones and bits. *)
Record route := { rt_gw : option bytes; rt_link : Z; rt_dst : option (Z * Z) }.

Record nicEnv := {
  e_index : option Z;                       (* net.InterfaceByName *)
  e_objs : bool;                            (* the program and its maps load *)
  e_attach : XDPMode -> bool;               (* link.AttachXDP *)
  e_addrs : option (list (bytes * Z));      (* netlink.AddrList *)
  e_channels : option string; e_set : bool; (* ethtool -l, ethtool -L *)
  e_queues : option (nat * nat);            (* rx-* and tx-* entries of sysfs *)
  e_iface_addrs : option (list bytes);      (* Interface.Addrs *)
  e_bind : nat -> bool -> bool;             (* xdp.NewSocket of a queue, with zero-copy or copy *)
  e_quic_map : nat -> bool; e_fwd_map : nat -> bool;  (* Map.Update *)
  e_neighs : nat -> option (list (bytes * bytes));    (* NeighList at each attempt *)
  e_probe : bool                            (* the UDP connect of probeARP *)
}.

(** ** Next hop (xdp/arp.go) *)

Definition gatewayIPForIface (ifaceIndex : Z) (routes : list route) : option bytes :=
  head (omap (fun r => gw ← rt_gw r;
    if negb (rt_link r =? ifaceIndex) then None
    else match rt_dst r with
         | None => Some gw
         | Some (ones, bits) => if (ones =? 0) && (bits =? 32) then Some gw else None
         end) routes).

(** [net.IP.Equal] *)
Definition IPEqual (a b : bytes) : bool := bytes_eqb (Unmap a) (Unmap b).
Definition lookupNeighbourMAC (neighs : option (list (bytes * bytes))) (ip : bytes) : option bytes :=
  l ← neighs; head (omap (fun n => if IPEqual n.1 ip && (0 <? length n.2)%nat then Some n.2 else None) l).

(** [None] is the error, [Some None] a NIC without gateway. *)
Definition resolveNextHopMAC (e : nicEnv) (ifaceIndex : Z) (routes : option (list route)) : option (option bytes) :=
  routes ← routes;
  match gatewayIPForIface ifaceIndex routes with
  | None => Some None
  | Some gwIP =>
      match lookupNeighbourMAC (e_neighs e 0%nat) gwIP with
      | Some mac => Some (Some mac)
      | None =>
          if negb (e_probe e) then None
          else mac ← head (omap (fun k => lookupNeighbourMAC (e_neighs e k) gwIP) (seq 1 5)); Some (Some mac)
      end
  end.

(** ** Attaching the program (xdp/loader.go) *)

Definition loadOne (e : nicEnv) : option XDPMode :=
  if negb (bool_decide (is_Some (e_index e))) || negb (e_objs e) then None
  else if e_attach e XDPModeNative then Some XDPModeNative
  else if e_attach e XDPModeGeneric then Some XDPModeGeneric
  else None.
(** The loaders in the order of the names; no loader is the error. *)
Definition LoadMultiNIC (env : string -> nicEnv) (ifaceNames : list string) : option (list (string * XDPMode)) :=
  match omap (fun name => mode ← loadOne (env name); Some (name, mode)) ifaceNames with
  | [] => None
  | loaders => Some loaders
  end.

(** ** The AF_XDP connection of a NIC (xdp/conn.go) *)

Definition IsLoopback (b : bytes) : bool := b.[0] =? 127.
Definition resolveIfaceIP (addrs : option (list bytes)) : option bytes :=
  l ← addrs; head (omap (fun ip => ip4 ← To4 ip; if IsLoopback ip4 then None else Some ip4) l).
Definition IsUnspecified (b : bytes) : bool := forallb (Z.eqb 0) (Unmap b).

(** A bound socket, registered in xsks_fwd and, when [sk_quic], in xsks_quic. *)
Record socket := { sk_queue : nat; sk_zerocopy : bool; sk_quic : bool }.

Fixpoint open_queues (e : nicEnv) (quicViaKernel : bool) (todo i : nat) (zeroCopy : bool) (sockets : list socket) : option (list socket) :=
  match todo with
  | O => Some sockets
  | S todo =>
      let ok := e_bind e i zeroCopy in
      let '(ok, zeroCopy) := if negb ok && zeroCopy && (i =? 0)%nat then (e_bind e i false, false) else (ok, zeroCopy) in
      if negb ok then None
      else if negb quicViaKernel && negb (e_quic_map e i) then None
      else if negb (e_fwd_map e i) then None
      else open_queues e quicViaKernel todo (S i) zeroCopy
             (sockets ++ [{| sk_queue := i; sk_zerocopy := zeroCopy; sk_quic := negb quicViaKernel |}])
  end.

Record boundConn := { bc_local : bytes; bc_gwMAC : option bytes; bc_sockets : list socket; bc_mode : XDPMode; bc_wakeup : bool }.
Definition NewConn (e : nicEnv) (routes : option (list route)) (localIP : bytes) (numQueues : nat) (mode : XDPMode)
    (needWakeup quicViaKernel : bool) : option boundConn :=
  frameIP ← (if IsUnspecified localIP then resolveIfaceIP (e_iface_addrs e) else Some localIP);
  index ← e_index e;
  gwMAC ← resolveNextHopMAC e index routes;
  sockets ← open_queues e quicViaKernel numQueues 0 (bool_decide (mode = XDPModeNative)) [];
  Some {| bc_local := frameIP; bc_gwMAC := gwMAC; bc_sockets := sockets; bc_mode := mode; bc_wakeup := needWakeup |}.

(** ** run() *)

Inductive startError := DetectFailed | NoRealNICs | WanNotDetected | AttachFailed | NoEgress | NoListenNIC.

Record nicEgress := { ne_name : string; ne_conn : boundConn; ne_addr : bytes; ne_combined : Z }.

Definition quicListen (wanIface : string) (nicNames : list string) : option (list string) :=
  if negb (String.eqb wanIface "") then
    if existsb (String.eqb wanIface) nicNames then Some [wanIface] else None
  else Some nicNames.
Definition listens (names : list string) (n : string) : bool := existsb (String.eqb n) names.

Definition need_wakeup (ctx : context) : bool :=
  match non_empty (Value ctx "XDP_NEED_WAKEUP") with Some v => default false (ParseBool v) | None => true end.

(** One turn of the bring-up loop; [None] skips the NIC. *)
Definition bring_up (ctx : context) (env : string -> nicEnv) (routes : option (list route)) (localIP : bytes)
    (listen : list string) (l : string * XDPMode) : option nicEgress :=
  let e := env l.1 in
  addr ← firstIPv4 (e_addrs e);
  let combined := maximizeChannelsFor ctx (e_channels e) (e_set e) in
  nq ← (q ← e_queues e; Some (GetQueueInfo q.1 q.2));
  let registerQuic := listens listen l.1 && negb (Bool ctx "QUIC_KERNEL_UDP" false) in
  conn ← NewConn e routes localIP nq.1 l.2 (need_wakeup ctx) (negb registerQuic);
  Some {| ne_name := l.1; ne_conn := conn; ne_addr := addr; ne_combined := combined |}.

(** Position of the first element that satisfies [f]. *)
Definition first_index {A} (f : A -> bool) (l : list A) : option nat :=
  head (omap (fun i => x ← l !! i; if f x then Some i else None) (seq 0 (length l))).

Definition lan_routes (egress : list nicEgress) (localLANs : list Prefix) : list (Prefix * option nat) :=
  map (fun p => (p, first_index (fun n => Prefix_Contains p (ne_addr n)) egress)) localLANs.
Definition primary_of (listen : list string) (egress : list nicEgress) : nat :=
  default 0%nat (first_index (fun n => listens listen (ne_name n)) egress).

Record datapath := {
  dp_egress : list nicEgress;               (* egressNICs *)
  dp_lan : list (Prefix * option nat);      (* lanRoutes *)
  dp_primary : nat;                         (* position of the primary in egressNICs *)
  dp_listen : list nat                      (* listenConns; empty on a kernel UDP socket *)
}.

Definition run (ctx : context) (links : option (list linkInfo)) (env : string -> nicEnv) (routes : option (list route))
    (localIP : bytes) (localLANs : list Prefix) : result startError datapath :=
  match links with
  | None => Err DetectFailed
  | Some links =>
      let nicNames := DetectRealNICs links in
      match nicNames with
      | [] => Err NoRealNICs
      | _ =>
          match quicListen (default ""%string (Value ctx "WAN_INTERFACE")) nicNames with
          | None => Err WanNotDetected
          | Some listen =>
              match LoadMultiNIC env nicNames with
              | None => Err AttachFailed
              | Some loaders =>
                  let egress := omap (bring_up ctx env routes localIP listen) loaders in
                  let kernelUDP := Bool ctx "QUIC_KERNEL_UDP" false in
                  let listenConns := if kernelUDP then []
                    else omap (fun i => n ← egress !! i; if listens listen (ne_name n) then Some i else None) (seq 0 (length egress)) in
                  if (length egress =? 0)%nat then Err NoEgress
                  else if negb kernelUDP && (length listenConns =? 0)%nat then Err NoListenNIC
                  else Ok {| dp_egress := egress; dp_lan := lan_routes egress localLANs;
                             dp_primary := primary_of listen egress; dp_listen := listenConns |}
              end
          end
      end
  end.

(** What a forward writer is given of it. *)
Definition pfx4 (p : Prefix) : prefix := {| p_addr := be_num (pfx_addr p); p_bits := pfx_bits p |}.
Definition primary_nic (dp : datapath) : option nicEgress := dp_egress dp !! dp_primary dp.
Definition router_config (dp : datapath) (serverTunIP : Z) (virt : Prefix) (lanXDP needsMAC : bool) (lanBatch : list (option nat)) : RConfig :=
  {| wanAddr := default 0 (n ← primary_nic dp; Some (be_num (ne_addr n)));
     Router.serverTunIP := serverTunIP; virtPrefix := pfx4 virt;
     lanRoutes := map (fun lr => (pfx4 lr.1, lr.2)) (dp_lan dp);
     Router.lanXDP := lanXDP; lanEgressNeedsMAC := needsMAC;
     egAddrs := map (fun n => be_num (ne_addr n)) (dp_egress dp);
     primaryNIC := dp_primary dp;
     primaryGW := default [] (n ← primary_nic dp; bc_gwMAC (ne_conn n));
     Router.lanBatch := lanBatch |}.

(** ** Kernel buffer ceilings *)

Definition udpBufTarget : Z := 7864320.
Definition innerTCPBufTarget : Z := 33554432.

(** [strings.Fields] on ASCII text. *)
Fixpoint fields_from (s : string) (word : string) : list string :=
  match s with
  | EmptyString => if String.eqb word "" then [] else [word]
  | String c t => if is_space c then (if String.eqb word "" then fields_from t "" else word :: fields_from t "")
                  else fields_from t (word ++ String c EmptyString)%string
  end.
Definition Fields (s : string) : list string := fields_from s "".

(** The file under /proc/sys before and after ([None] when it cannot be read);
    [writable]: whether the write succeeds. *)
Definition raiseSysctl (file : option string) (target : Z) (writable : bool) : option string :=
  let cur := match file with Some b => Atoi_value (TrimSpace b) | None => 0 end in
  if target <=? cur then file else if writable then Some (itoa target) else file.
Definition raiseSysctlTriple (file : option string) (targetMax : Z) (writable : bool) : option string :=
  match file with
  | None => None
  | Some b =>
      match Fields (TrimSpace b) with
      | [lo; def; hi] =>
          if targetMax <=? Atoi_value hi then file
          else if writable then Some (lo ++ " " ++ def ++ " " ++ itoa targetMax)%string else file
      | _ => file
      end
  end.

(** The number of reading goroutines of the TUN device. *)
Definition tun_queues (ctx : context) (numCPU : Z) : Z :=
  let n := Int ctx "TUN_QUEUES" numCPU in if n <=? 0 then numCPU else n.
