(* ===== verification/StartupProps.v ===== *)
(** * Properties of start-up: tunnel sizes, the bound datapath, LAN ownership *)
From Stdlib Require Import Ascii.
From S2P Require Import Prelude Words Ip IpProps TcpParse Nat NatProps Snat Conn Egress EgressProps Mgmt Config ConfigProps Router RouterProps Setup Topology Startup.
Local Open Scope Z_scope.
Local Open Scope masqued_scope.

(** ** The first index *)

Lemma first_index_from {A} (f : A -> bool) (l : list A) k n :
  match head (omap (fun i => x ← l !! i; if f x then Some i else None) (seq k n)) with
  | Some i => (k <= i < k + n)%nat /\ (exists x, l !! i = Some x /\ f x = true) /\
              (forall j x, (k <= j < i)%nat -> l !! j = Some x -> f x = false)
  | None => forall j x, (k <= j < k + n)%nat -> l !! j = Some x -> f x = false
  end.
Proof.
  set (g := fun i => x ← l !! i; if f x then Some i else None).
  assert (Hg : forall i, (exists x, l !! i = Some x /\ f x = true /\ g i = Some i) \/ ((forall x, l !! i = Some x -> f x = false) /\ g i = None)).
  { intros i. unfold g. destruct (l !! i) as [x|] eqn:E; cbn; [|by right]. destruct (f x) eqn:Ef; [left; eauto|].
    right. split; [|done]. by intros y [= <-]. }
  clearbody g. revert k. induction n as [|n IH]; intros k; [cbn; lia|]. rewrite <- cons_seq. cbn [omap list_omap].
  destruct (Hg k) as [(x & E & Ef & ->)|[Hk ->]]; cbn [head].
  - split; [lia|]. split; [eauto|lia].
  - specialize (IH (S k)). destruct (head _) as [i|]; cycle 1.
    + intros j y Hj. destruct (decide (j = k)) as [->|]; [apply Hk|apply IH; lia].
    + destruct IH as (Hr & Hx & Hn). split; [lia|]. split; [done|]. intros j y Hj.
      destruct (decide (j = k)) as [->|]; [apply Hk|apply Hn; lia].
Qed.
Lemma first_index_spec {A} (f : A -> bool) (l : list A) :
  match first_index f l with
  | Some i => (exists x, l !! i = Some x /\ f x = true) /\ (forall j x, (j < i)%nat -> l !! j = Some x -> f x = false)
  | None => forall x, x ∈ l -> f x = false
  end.
Proof.
  unfold first_index. pose proof (first_index_from f l 0 (length l)) as Hf. case_match.
  - destruct Hf as (_ & Hx & Hn). split; [done|]. intros j x Hj. apply Hn. lia.
  - intros x Hx. apply list_elem_of_lookup_1 in Hx as [j Hj]. apply (Hf j); [|done]. apply lookup_lt_Some in Hj. lia.
Qed.

(** ** Sizes of the tunnel *)

(** The MTUs a bridged packet can meet. *)
Definition egress_mtu (ifaceName : string) (wanMTU : Z) (links : list linkInfo) (m : Z) : Prop :=
  m = wanMTU \/ exists l, l ∈ links /\ (String.eqb (l_name l) ifaceName || excluded (l_name l)) = false /\
                          l_up l && l_real l = true /\ 0 < l_mtu l /\ m = l_mtu l.

Lemma minEgress_cons ifn wan l links : minEgress ifn wan (l :: links) =
  minEgress ifn (if String.eqb (l_name l) ifn || excluded (l_name l) then wan
                 else if negb (l_up l) || negb (l_real l) then wan
                 else if (0 <? l_mtu l) && (l_mtu l <? wan) then l_mtu l else wan) links.
Proof. done. Qed.

Lemma minEgress_spec ifn links : forall wan,
  egress_mtu ifn wan links (minEgress ifn wan links) /\ (forall m, egress_mtu ifn wan links m -> minEgress ifn wan links <= m).
Proof.
  induction links as [|l links IH]; intros wan.
  { split; [by left|]. intros m [->|(l & Hl & _)]; [done|]. by apply not_elem_of_nil in Hl. }
  rewrite minEgress_cons. match goal with |- context [minEgress ifn ?x links] => set (w := x) end.
  assert (Hw : w <= wan) by (subst w; repeat case_match; bool_hyps; lia).
  assert (Hl : (String.eqb (l_name l) ifn || excluded (l_name l)) = false -> l_up l && l_real l = true -> 0 < l_mtu l -> w <= l_mtu l).
  { intros H1 H2 H3. subst w. rewrite H1. apply andb_true_iff in H2 as [-> ->]. cbn. destruct (_ && _) eqn:E4; [|apply andb_false_iff in E4 as [?|?]]; bool_hyps; lia. }
  assert (Hc : w = wan \/ egress_mtu ifn wan (l :: links) w).
  { subst w. destruct (_ || excluded _) eqn:E1; [by left|]. destruct (l_up l) eqn:E2, (l_real l) eqn:E3; cbn; try by left.
    destruct ((0 <? l_mtu l) && _) eqn:E4; [|by left]. right. right. exists l. rewrite E2, E3.
    split; [left|]. split; [done|]. split; [done|]. bool_hyps. split; [lia|done]. }
  destruct (IH w) as [Hin Hmin]. split.
  - destruct Hin as [E|(l' & Hl' & Hr)].
    + rewrite E. destruct Hc as [->|?]; [by left|done].
    + right. exists l'. split; [by right|done].
  - intros m [->|(l' & Hl' & H1 & H2 & H3 & ->)].
    + etrans; [apply Hmin; by left|done].
    + apply list_elem_of_In in Hl'. destruct Hl' as [->|Hl'].
      * etrans; [apply Hmin; by left|]. by apply Hl.
      * apply Hmin. right. exists l'. split; [by apply list_elem_of_In|done].
Qed.

Lemma clampPacket_spec n : clampPacket n = Z.max 1252 (Z.min maxQUICPacket n).
Proof. unfold clampPacket. repeat case_match; bool_hyps; unfold maxQUICPacket in *; lia. Qed.

(** C39. The sizes of the tunnel.  A TUNNEL_MTU of the configuration is taken as
    it is, and one DATAGRAM carries such a packet exactly when it has at most
    3972 bytes.  Without one, the QUIC packet is the inner MTU plus 28 bytes,
    between 1252 and 3450; and when every NIC a bridged packet can leave by has
    an MTU of at least 1308, it is the smallest of them (at most 3506) less 56:
    the outer packet with its headers fits each of these NICs. *)
Theorem mtu_bounds ctx ifn wan links :
  let '(inner, size) := tunnelSizes ctx ifn wan (Some links) in
  let pinned := default 0 (Value ctx "TUNNEL_MTU" ≫= ParseUint64) in
  (0 < pinned -> inner = pinned /\ 1252 <= size <= 4000 /\ (inner + datagramOverhead <= size <-> inner <= 3972)) /\
  (pinned <= 0 -> size = inner + datagramOverhead /\ 1252 <= size <= 3450 /\
     ((forall m, egress_mtu ifn wan links m -> 1308 <= m) ->
      (forall m, egress_mtu ifn wan links m -> size + outerOverhead <= m) /\
      (size + outerOverhead = xdpNativeMaxMTU \/ egress_mtu ifn wan links (size + outerOverhead)))).
Proof.
  unfold tunnelSizes. set (p := default 0 _).
  assert (Hp : p < 18446744073709551616).
  { subst p. destruct (Value ctx "TUNNEL_MTU") as [v|]; cbn; [|lia]. unfold ParseUint64.
    destruct (parse_uint v) as [n|]; cbn; [|lia]. destruct (n <? _) eqn:E; cbn; [|lia]. by apply Z.ltb_lt. }
  destruct (0 <? p) eqn:E; bool_hyps; rewrite clampPacket_spec; unfold maxQUICPacket.
  - split; [|lia]. intros _. split; [done|]. split; [lia|]. unfold datagramOverhead, i64.
    destruct (decide (p <= 3972)); [|lia].
    rewrite (Z.mod_small (p + _)) by lia. rewrite Z.mod_small by lia. lia.
  - split; [lia|]. intros _. destruct (minEgress_spec ifn links wan) as [Hin Hmin].
    set (me := minEgress ifn wan links) in *. unfold xdpNativeMaxMTU, outerOverhead, datagramOverhead.
    replace (if 3506 <? me then 3506 else me) with (Z.min 3506 me) by (case_match; bool_hyps; lia).
    replace (_ <? 576) with false by (symmetry; apply Z.ltb_ge; lia).
    split; [lia|]. split; [lia|]. intros Hall. pose proof (Hall _ Hin). split.
    + intros m Hm. specialize (Hmin m Hm). lia.
    + destruct (decide (me <= 3506)); [|left; lia]. right. replace (_ + 56) with me by lia. done.
Qed.

(** ** Sockets and connections *)

Lemma open_queues_spec e viaKernel todo : forall i zc socks out,
  open_queues e viaKernel todo i zc socks = Some out ->
  (i = length socks) -> (map sk_queue socks = seq 0 i) ->
  ((0 < i)%nat -> forall s, s ∈ socks -> sk_zerocopy s = zc) ->
  (forall s, s ∈ socks -> sk_quic s = negb viaKernel /\ e_bind e (sk_queue s) (sk_zerocopy s) = true) ->
  map sk_queue out = seq 0 (i + todo) /\
  (exists zc', (zc = false -> zc' = false) /\ forall s, s ∈ out -> sk_zerocopy s = zc' /\ sk_quic s = negb viaKernel /\ e_bind e (sk_queue s) zc' = true).
Proof.
  induction todo as [|todo IH]; intros i zc socks out Ho Hi Hq Hz Hs; cbn in Ho.
  - simplify_eq. rewrite Nat.add_0_r. split; [done|]. exists zc. split; [done|]. intros s Hin.
    assert (sk_zerocopy s = zc) as Hzc.
    { apply Hz; [|done]. apply list_elem_of_lookup_1 in Hin as [k Hk]. apply lookup_lt_Some in Hk. lia. }
    destruct (Hs s Hin) as [? Hb]. rewrite Hzc in Hb. done.
  - set (pr := if negb (e_bind e i zc) && zc && (i =? 0)%nat then (e_bind e i false, false) else (e_bind e i zc, zc)) in Ho.
    assert (Hpr : pr = (e_bind e i (snd pr), snd pr) /\ (zc = false -> snd pr = false) /\ ((0 < i)%nat -> snd pr = zc)).
    { subst pr. destruct (negb _ && zc && (i =? 0)%nat) eqn:E; cbn; [|done]. split; [done|]. split; [done|]. bool_hyps. lia. }
    destruct pr as [ok zc1]. cbn in Hpr. destruct Hpr as ([= ->] & Hf & Hzc1).
    destruct (negb (e_bind e i zc1)) eqn:E1; [done|]. destruct (negb viaKernel && _) eqn:E2; [done|]. destruct (negb (e_fwd_map e i)) eqn:E3; [done|].
    apply negb_false_iff in E1.
    destruct (IH (S i) zc1 _ out Ho) as [Hm (zc' & Hz1 & Hall)].
    + rewrite length_app. cbn. lia.
    + rewrite map_app, Hq. cbn [map sk_queue]. by rewrite seq_S.
    + intros _ s Hin. apply elem_of_app in Hin as [Hin|Hin]; [|by apply list_elem_of_singleton in Hin as ->].
      assert (0 < i)%nat as Hpos. { subst i. apply list_elem_of_lookup_1 in Hin as [k Hk]. apply lookup_lt_Some in Hk. lia. }
      rewrite Hzc1 by done. by apply Hz.
    + intros s Hin. apply elem_of_app in Hin as [Hin|Hin]; [by apply Hs|by apply list_elem_of_singleton in Hin as ->].
    + rewrite <- plus_n_Sm. split; [done|]. exists zc'. split; [|done]. intros. auto.
Qed.

(** A connection serves every receive queue of the NIC, all in the same copy
    mode, never with zero-copy when the program runs in generic mode. *)
Definition serves (c : boundConn) (e : nicEnv) (numQueues : nat) (mode : XDPMode) (quic : bool) : Prop :=
  map sk_queue (bc_sockets c) = seq 0 numQueues /\ bc_mode c = mode /\
  exists zc, (mode = XDPModeGeneric -> zc = false) /\
    forall s, s ∈ bc_sockets c -> sk_zerocopy s = zc /\ sk_quic s = quic /\ e_bind e (sk_queue s) zc = true.

Lemma NewConn_serves e routes ip n mode w viaKernel c :
  NewConn e routes ip n mode w viaKernel = Some c -> serves c e n mode (negb viaKernel).
Proof.
  unfold NewConn. intros Hc. repeat match type of Hc with (_ ≫= _) = Some _ => apply bind_Some in Hc as (? & ? & Hc) end. simplify_eq.
  match goal with Ho : open_queues _ _ _ _ _ _ = Some _ |- _ => apply open_queues_spec in Ho as [Hm (zc & Hz & Hs)];
    [|done|done|intros; lia|by intros s ?%not_elem_of_nil] end.
  split; [done|]. split; [done|]. exists zc. split; [|done]. intros ->. apply Hz. done.
Qed.

(** ** The datapath run() builds *)

Lemma LoadMultiNIC_spec env names ls n mode : LoadMultiNIC env names = Some ls -> (n, mode) ∈ ls ->
  n ∈ names /\ loadOne (env n) = Some mode.
Proof.
  unfold LoadMultiNIC. intros Hl Hin. assert (ls = omap (fun name => mode ← loadOne (env name); Some (name, mode)) names) as -> by (case_match; congruence).
  apply list_elem_of_omap in Hin as (x & Hx & Hf). apply bind_Some in Hf as (m & Hm & [= -> ->]). done.
Qed.

Definition kernel_udp (ctx : context) : bool := Bool ctx "QUIC_KERNEL_UDP" false.
Definition wan_interface (ctx : context) : string := default ""%string (Value ctx "WAN_INTERFACE").

(** What holds of a NIC in [egressNICs]. *)
Definition nic_bound (ctx : context) (links : list linkInfo) (env : string -> nicEnv) (listen : list string) (n : nicEgress) : Prop :=
  (exists l, l ∈ links /\ l_name l = ne_name n /\ excluded (ne_name n) = false /\ l_up l = true /\ l_real l = true) /\
  firstIPv4 (e_addrs (env (ne_name n))) = Some (ne_addr n) /\ 1 <= ne_combined n /\
  exists mode rx tx, loadOne (env (ne_name n)) = Some mode /\ e_queues (env (ne_name n)) = Some (rx, tx) /\
    serves (ne_conn n) (env (ne_name n)) (Nat.max 1 rx) mode (listens listen (ne_name n) && negb (kernel_udp ctx)).

Lemma DetectRealNICs_spec links name : name ∈ DetectRealNICs links ->
  exists l, l ∈ links /\ l_name l = name /\ excluded name = false /\ l_up l = true /\ l_real l = true.
Proof.
  unfold DetectRealNICs. intros Hin. apply list_elem_of_omap in Hin as (l & Hl & Hf). exists l.
  destruct (excluded (l_name l)) eqn:E1; [done|]. destruct (l_up l) eqn:E2; [|done]. destruct (l_real l) eqn:E3; [|done].
  cbn in Hf. injection Hf as <-. done.
Qed.

Lemma maximize_pos ctx out ok : 1 <= maximizeChannelsFor ctx out ok.
Proof.
  unfold maximizeChannelsFor. generalize (MaximizeChannels out ok). intros m.
  destruct (match Value ctx "MAXIMIZE_CHANNELS" with None => true | Some _ => ctxBool ctx "MAXIMIZE_CHANNELS" end);
    [|destruct (out ≫= parseEthtoolChannels)]; match goal with |- context [?e <? 1] => destruct (Z.ltb_spec e 1); lia end.
Qed.

Lemma bring_up_spec ctx links env routes ip listen l n :
  LoadMultiNIC env (DetectRealNICs links) = Some l ->
  forall x, x ∈ l -> bring_up ctx env routes ip listen x = Some n -> nic_bound ctx links env listen n /\ ne_name n = x.1.
Proof.
  intros Hl [name mode] Hx. unfold bring_up. cbn [fst snd]. intros Hb.
  apply bind_Some in Hb as (a & Ha & Hb). apply bind_Some in Hb as (nq & Hq & Hb).
  apply bind_Some in Hq as ([rx tx] & Hq & [= <-]). apply bind_Some in Hb as (c & Hc & [= <-]). cbn [ne_name ne_addr ne_combined ne_conn].
  destruct (LoadMultiNIC_spec _ _ _ _ _ Hl Hx) as [Hn Hm]. apply DetectRealNICs_spec in Hn.
  split; [|done]. split; [done|]. split; [done|]. split.
  { apply maximize_pos. }
  exists mode, rx, tx. split; [done|]. split; [done|]. apply NewConn_serves in Hc. rewrite negb_involutive in Hc.
  cbn [GetQueueInfo fst snd] in Hc. by destruct rx.
Qed.

Lemma listen_conns_from listen (egress : list nicEgress) k n :
  let lc := omap (fun i => x ← egress !! i; if listens listen (ne_name x) then Some i else None) (seq k n) in
  forall i, i ∈ lc <-> (k <= i < k + n)%nat /\ exists x, egress !! i = Some x /\ listens listen (ne_name x) = true.
Proof.
  intros lc i. unfold lc. rewrite list_elem_of_omap. split.
  - intros (j & Hj & Hf). apply elem_of_seq in Hj. apply bind_Some in Hf as (x & Hx & Hf). destruct (listens _ _) eqn:E; [|done].
    injection Hf as <-. eauto.
  - intros (Hr & x & Hx & Hl). exists i. split; [by apply elem_of_seq|]. rewrite Hx. cbn. by rewrite Hl.
Qed.

(** C22. When run() gets past the bring-up, every NIC it keeps is a detected real
    NIC that is up, with an address of its own that is not link-local, at least
    one channel, and a connection that serves all its receive queues in one copy
    mode (copy mode under the generic XDP program) and is registered for QUIC
    exactly when the NIC listens and QUIC runs over AF_XDP.  The primary NIC
    exists; over AF_XDP some NIC listens, the primary is the first that does, and
    it is WAN_INTERFACE when that is set. *)
Theorem run_binds ctx links env routes localIP lans dp
  (Hrun : run ctx (Some links) env routes localIP lans = Ok dp) :
  exists listen, quicListen (wan_interface ctx) (DetectRealNICs links) = Some listen /\
    (forall n, n ∈ dp_egress dp -> nic_bound ctx links env listen n) /\
    (exists p, primary_nic dp = Some p /\
      (kernel_udp ctx = false ->
         head (dp_listen dp) = Some (dp_primary dp) /\ listens listen (ne_name p) = true /\
         (wan_interface ctx <> ""%string -> ne_name p = wan_interface ctx))) /\
    (forall i, i ∈ dp_listen dp <-> kernel_udp ctx = false /\ exists n, dp_egress dp !! i = Some n /\ listens listen (ne_name n) = true).
Proof.
  unfold run in Hrun. destruct (DetectRealNICs links) as [|n0 names] eqn:Hd; [done|]. rewrite <- Hd in *.
  fold (wan_interface ctx) (kernel_udp ctx) in Hrun.
  destruct (quicListen _ _) as [listen|] eqn:Hq; [|done]. destruct (LoadMultiNIC _ _) as [ls|] eqn:Hl; [|done].
  set (egress := omap _ ls) in Hrun. set (lc := if kernel_udp ctx then [] else _) in Hrun.
  destruct (length egress =? 0)%nat eqn:He; [done|]. destruct (negb (kernel_udp ctx) && _) eqn:Hk; [done|].
  injection Hrun as <-. cbn [dp_egress dp_listen dp_primary]. exists listen. split; [done|].
  assert (Hlc : forall i, i ∈ lc <-> kernel_udp ctx = false /\ exists n, egress !! i = Some n /\ listens listen (ne_name n) = true).
  { intros i. subst lc. destruct (kernel_udp ctx); [split; [by intros ?%not_elem_of_nil|by intros [? _]]|].
    rewrite (listen_conns_from listen egress 0 (length egress) i). split; [by intros [_ ?]|]. intros (_ & n & Hn & Hln).
    split; [apply lookup_lt_Some in Hn; lia|eauto]. }
  split; [|split; [|done]].
  { intros n Hn. apply list_elem_of_omap in Hn as (x & Hx & Hb). eapply bring_up_spec in Hb as [? _]; done. }
  unfold primary_nic. cbn [dp_primary dp_egress]. unfold primary_of.
  pose proof (first_index_spec (fun n => listens listen (ne_name n)) egress) as Hf.
  destruct (first_index _ egress) as [i|] eqn:Hi; cbn [default].
  - destruct Hf as [(p & Hp & Hlp) Hfirst]. exists p. split; [done|]. intros Hnk. split; [|split; [done|]].
    + subst lc. rewrite Hnk. unfold first_index in Hi. exact Hi.
    + intros Hw. unfold quicListen in Hq. destruct (String.eqb_spec (wan_interface ctx) ""); [done|]. cbn in Hq.
      destruct (existsb _ _); [|done]. injection Hq as <-. unfold listens in Hlp. cbn in Hlp. rewrite orb_false_r in Hlp.
      by apply String.eqb_eq.
  - destruct egress as [|p rest] eqn:Ee; [done|]. exists p. split; [done|]. intros Hnk. exfalso. rewrite Hnk in Hk. cbn in Hk.
    destruct lc as [|j lc'] eqn:El; [done|]. destruct (proj1 (Hlc j) (list_elem_of_here _ _)) as (_ & n & Hn & Hln).
    apply list_elem_of_lookup_2 in Hn. rewrite (Hf n Hn) in Hln. done.
Qed.

(** A server with two NICs: eth0 on the WAN with a gateway, eth1 on a LAN. *)
Definition demo_env (attach0 : bool) (name : string) : nicEnv :=
  let wan := String.eqb name "eth0" in
  {| e_index := Some (if wan then 2 else 3); e_objs := true; e_attach := fun m => if wan then attach0 else bool_decide (m = XDPModeGeneric);
     e_addrs := Some [(if wan then [203; 0; 113; 5] else [192; 168; 7; 1], 24)]; e_channels := None; e_set := false;
     e_queues := Some (2, 2)%nat; e_iface_addrs := Some [[127; 0; 0; 1]; if wan then [203; 0; 113; 5] else [192; 168; 7; 1]];
     e_bind := fun _ zc => negb zc; e_quic_map := fun _ => true; e_fwd_map := fun _ => true;
     e_neighs := fun _ => Some [([203; 0; 113; 1], [2; 0; 0; 0; 0; 1])]; e_probe := true |}.
Definition demo_links : list linkInfo :=
  map (fun nm => {| l_name := nm; l_mtu := 1500; l_up := true; l_addrs := e_addrs (demo_env true nm); l_real := negb (has_prefix "docker" nm) |})
    ["lo"; "eth0"; "eth1"; "docker0"; "tm0"]%string.
Definition demo_routes : list route := [{| rt_gw := Some [203; 0; 113; 1]; rt_link := 2; rt_dst := None |}].
Definition demo_ctx (kudp : string) : context := [("WAN_INTERFACE", "eth0"); ("QUIC_KERNEL_UDP", kudp)]%string.

Lemma run_binds_witness : exists dp,
  run (demo_ctx "false") (Some demo_links) (demo_env true) (Some demo_routes) [0; 0; 0; 0] (buildLocalLANs "eth0" demo_links) = Ok dp /\
  map ne_name (dp_egress dp) = ["eth0"; "eth1"]%string /\ dp_primary dp = 0%nat /\
  exists listen, quicListen "eth0" (DetectRealNICs demo_links) = Some listen /\
    (forall n, n ∈ dp_egress dp -> nic_bound (demo_ctx "false") demo_links (demo_env true) listen n).
Proof.
  eexists. split; [vm_compute; reflexivity|]. split; [reflexivity|]. split; [reflexivity|].
  destruct (run_binds (demo_ctx "false") demo_links (demo_env true) (Some demo_routes) [0; 0; 0; 0] (buildLocalLANs "eth0" demo_links) _ ltac:(vm_compute; reflexivity))
    as (listen & Hl & Hn & _).
  exists listen. split; [exact Hl|exact Hn].
Defined.

(** With QUIC on a kernel UDP socket the listening NIC is not required: when
    WAN_INTERFACE cannot be attached, run() goes on with another NIC as the
    primary, and the forward router takes that NIC's address for the WAN's. *)
Theorem kernel_udp_other_wan : exists dp,
  run (demo_ctx "true") (Some demo_links) (demo_env false) (Some demo_routes) [0; 0; 0; 0] [] = Ok dp /\
  wan_interface (demo_ctx "true") = "eth0"%string /\
  (exists p, primary_nic dp = Some p /\ ne_name p = "eth1"%string) /\
  wanAddr (router_config dp 0 {| pfx_addr := [10; 0; 0; 0]; pfx_bits := 8 |} true true []) = be_num [192; 168; 7; 1] /\
  run (demo_ctx "false") (Some demo_links) (demo_env false) (Some demo_routes) [0; 0; 0; 0] [] = Err NoListenNIC.
Proof.
  eexists. split; [vm_compute; reflexivity|]. split; [done|]. split; [eexists; split; [reflexivity|reflexivity]|].
  split; vm_compute; reflexivity.
Qed.

(** ** Local networks *)

Lemma buildLocalLANs_v4 wan links p : p ∈ buildLocalLANs wan links -> length (pfx_addr p) = 4%nat.
Proof.
  unfold buildLocalLANs. intros Hp. apply list_elem_of_join in Hp as (l & Hp & Hl). apply list_elem_of_fmap in Hl as (i & -> & _).
  destruct (_ || _); [by apply not_elem_of_nil in Hp|]. destruct (l_addrs i) as [addrs|]; [|by apply not_elem_of_nil in Hp].
  apply list_elem_of_omap in Hp as (a & _ & Hf). apply bind_Some in Hf as (b & Hb & [= <-]). cbn [Masked pfx_addr]. rewrite be_bytes_length.
  unfold To4 in Hb. destruct (length a.1 =? 4)%nat eqn:E; [injection Hb as <-; by apply Nat.eqb_eq|].
  destruct (_ && (a.1.[11] =? 255)) eqn:E2; [|done]. injection Hb as <-. bool_hyps. rewrite length_drop. lia.
Qed.

Lemma pfx4_Contains p ip : length (pfx_addr p) = 4%nat -> Prefix_Contains p ip = true -> Contains (pfx4 p) (be_num ip) = true.
Proof.
  unfold Prefix_Contains, Contains, pfx4, hostBits. cbn. intros -> Hc. apply andb_true_iff in Hc as [_ Hc]. exact Hc.
Qed.

Lemma run_lan ctx links env routes ip lans dp : run ctx links env routes ip lans = Ok dp -> dp_lan dp = lan_routes (dp_egress dp) lans.
Proof.
  unfold run. intros Hr. destruct links as [links|]; [|done]. destruct (DetectRealNICs links); [done|].
  destruct (quicListen _ _); [|done]. destruct (LoadMultiNIC _ _); [|done].
  match type of Hr with (let egress := ?e in _) = _ => generalize dependent e end || idtac.
  cbv zeta in Hr. repeat (match type of Hr with (if ?b then _ else _) = _ => destruct b end; [done|]). by injection Hr as <-.
Qed.

(** C24. The router and the start-up agree on the local networks.  When a packet's
    destination matches a LAN route that is sent by a NIC, the source address
    the router writes is that NIC's own, and it lies in the network that also contains the
    destination, so answers come straight back to it.  A LAN that owns no NIC is bridged by the
    kernel untouched. *)
Theorem lan_route_owner {E P} `{fwdEgress E} `{FrameSubmitter P} ctx wan links env routes ip dp tunIP virt lanXDP needsMAC batches dst lr
    (ack : bool) mapPut arp (s : RState E P) now a pkt
  (Hrun : run ctx (Some links) env routes ip (buildLocalLANs wan links) = Ok dp) :
  let cfg := router_config dp tunIP virt lanXDP needsMAC batches in
  List.find (fun lr => Contains lr.1 dst) (lanRoutes cfg) = Some lr ->
  match lan_target cfg lr.2 with
  | Some (i, _) => exists n, dp_egress dp !! i = Some n /\ egAddrs cfg !! i = Some (be_num (ne_addr n)) /\
      Contains lr.1 dst = true /\ Contains lr.1 (be_num (ne_addr n)) = true
  | None => forward_lan cfg ack mapPut arp s now lr.2 a pkt = Some (bump LanForwards (tun_write s pkt)) /\
      (lr.2 = None -> exists p, p ∈ buildLocalLANs wan links /\ lr.1 = pfx4 p /\ forall n, n ∈ dp_egress dp -> Prefix_Contains p (ne_addr n) = false)
  end.
Proof.
  intros cfg Hf. apply run_lan in Hrun. pose proof Hf as Hin. apply List.find_some in Hin as [Hin Hc].
  apply list_elem_of_In in Hin. cbn [cfg router_config lanRoutes] in Hin. rewrite Hrun in Hin. unfold lan_routes in Hin.
  apply list_elem_of_fmap in Hin as ([q o] & -> & Hin). apply list_elem_of_fmap in Hin as (p & [= -> ->] & Hp). cbn [fst snd] in *.
  pose proof (buildLocalLANs_v4 _ _ _ Hp) as H4. pose proof (first_index_spec (fun n => Prefix_Contains p (ne_addr n)) (dp_egress dp)) as Hi.
  destruct (lan_target cfg _) as [[i b]|] eqn:Et.
  - unfold lan_target in Et. destruct (negb _); [done|]. apply bind_Some in Et as (j & Hj & Et). apply bind_Some in Et as (b' & _ & [= <- <-]).
    rewrite Hj in Hi. destruct Hi as [(n & Hn & Hpc) _]. exists n. split; [done|]. split.
    { cbn. by rewrite list_lookup_fmap, Hn. }
    split; [exact Hc|]. by apply pfx4_Contains.
  - split; [unfold forward_lan; by rewrite Et|]. intros Hnone. rewrite Hnone in Hi. eauto.
Qed.

Lemma lan_route_owner_witness :
  let dp := {| dp_egress := [{| ne_name := "eth1"; ne_conn := {| bc_local := [192; 168; 7; 1]; bc_gwMAC := None; bc_sockets := [{| sk_queue := 0; sk_zerocopy := false; sk_quic := true |}];
                                  bc_mode := XDPModeGeneric; bc_wakeup := true |}; ne_addr := [192; 168; 7; 1]; ne_combined := 1 |}];
                dp_lan := [({| pfx_addr := [192; 168; 7; 0]; pfx_bits := 24 |}, Some 0%nat)]; dp_primary := 0; dp_listen := [0%nat] |} in
  exists n, dp_egress dp !! 0%nat = Some n /\ egAddrs (router_config dp 0 {| pfx_addr := [10; 0; 0; 0]; pfx_bits := 8 |} true true [Some 0%nat]) !! 0%nat = Some (be_num (ne_addr n)).
Proof.
  intros dp.
  set (one := fun nm : string => {| e_index := Some 1; e_objs := true; e_attach := fun m => bool_decide (m = XDPModeGeneric); e_addrs := Some [([192; 168; 7; 1], 24)];
     e_channels := None; e_set := false; e_queues := Some (1, 1)%nat; e_iface_addrs := Some [[192; 168; 7; 1]]; e_bind := fun _ _ => true;
     e_quic_map := fun _ => true; e_fwd_map := fun _ => true; e_neighs := fun _ => None; e_probe := true |}).
  set (links := [{| l_name := "eth1"; l_mtu := 1500; l_up := true; l_addrs := Some [([192; 168; 7; 1], 24)]; l_real := true |}]).
  pose proof (@lan_route_owner PacketBatch (list bytes) (PacketBatch_egress (fun _ => 0)) _ [] "" links one (Some []) [0; 0; 0; 0] dp 0
    {| pfx_addr := [10; 0; 0; 0]; pfx_bits := 8 |} true true [Some 0%nat] 3232237313 (pfx4 {| pfx_addr := [192; 168; 7; 0]; pfx_bits := 24 |}, Some 0%nat)
    true plain_put (fun _ _ => None) (writer_example None) 0 1 peer_packet ltac:(vm_compute; reflexivity) ltac:(vm_compute; reflexivity)) as Hw.
  destruct Hw as (n & Hn & Ha & _). exists n. split; [exact Hn|exact Ha].
Defined.

(** ** Kernel buffer ceilings *)

Fixpoint spaceless (s : string) : bool := match s with String c t => negb (is_space c) && spaceless t | EmptyString => true end.

Lemma spaceless_app a b : spaceless (a ++ b)%string = spaceless a && spaceless b.
Proof. induction a as [|c a IH]; [done|]. rewrite sapp_cons. cbn [spaceless]. by rewrite IH, andb_assoc. Qed.
Lemma sapp_assoc (a b c : string) : ((a ++ b) ++ c = a ++ (b ++ c))%string.
Proof. induction a as [|x a IH]; [done|]. rewrite !sapp_cons. by rewrite IH. Qed.
Lemma sapp_nil (a : string) : (a ++ "" = a)%string.
Proof. induction a as [|x a IH]; [done|]. by rewrite sapp_cons, IH. Qed.
Lemma sapp_empty a b : (a ++ b)%string = EmptyString -> a = EmptyString /\ b = EmptyString.
Proof. by destruct a. Qed.

Lemma fields_from_ok s : forall word w, spaceless word = true -> w ∈ fields_from s word -> w <> EmptyString /\ spaceless w = true.
Proof.
  induction s as [|c s IH]; intros word w Hw Hin; cbn in Hin.
  - destruct (String.eqb_spec word ""); [by apply not_elem_of_nil in Hin|]. by apply list_elem_of_singleton in Hin as ->.
  - destruct (is_space c) eqn:Ec.
    + destruct (String.eqb_spec word ""); [by apply (IH EmptyString)|]. apply list_elem_of_In in Hin. destruct Hin as [<-|Hin]; [done|].
      apply (IH EmptyString); [done|by apply list_elem_of_In].
    + eapply IH; [|done]. rewrite spaceless_app, Hw. cbn. by rewrite Ec.
Qed.
Lemma fields_from_word w : forall rest word, spaceless w = true -> fields_from (w ++ rest)%string word = fields_from rest (word ++ w)%string.
Proof.
  induction w as [|c w IH]; intros rest word Hw.
  - f_equal. induction word as [|x word IHw]; [done|]. by rewrite sapp_cons, <- IHw.
  - rewrite sapp_cons. cbn [fields_from]. cbn [spaceless] in Hw. apply andb_true_iff in Hw as [Hc Hw]. apply negb_true_iff in Hc. rewrite Hc, IH by done.
    f_equal. by rewrite sapp_assoc.
Qed.
Lemma fields_cons w rest : w <> EmptyString -> spaceless w = true -> Fields (w ++ " " ++ rest)%string = w :: Fields rest.
Proof.
  intros Hn Hs. unfold Fields. rewrite fields_from_word by done. change ("" ++ w)%string with w. rewrite (sapp_cons " "%char EmptyString rest). cbn [fields_from is_space].
  change (is_space " ") with true. cbn iota. destruct (String.eqb_spec w ""); [done|]. done.
Qed.

Lemma triple_fields b lo def hi t : Fields (TrimSpace b) = [lo; def; hi] -> TrimSpace t = t -> spaceless t = true -> t <> EmptyString ->
  Fields (TrimSpace (lo ++ " " ++ def ++ " " ++ t)%string) = [lo; def; t].
Proof.
  intros Hb Ht Hs Hne.
  assert (Hok : forall w, w ∈ [lo; def; hi] -> w <> EmptyString /\ spaceless w = true) by (intros w; rewrite <- Hb; by apply fields_from_ok).
  destruct (Hok lo) as [Hlo1 Hlo2]; [left|]. destruct (Hok def) as [Hd1 Hd2]; [right; left|].
  assert (Htr : trim_right t = t).
  { destruct t as [|c t]; [done|]. cbn [spaceless] in Hs. apply andb_true_iff in Hs as [Hc _]. apply negb_true_iff in Hc.
    unfold TrimSpace in Ht. cbn [trim_left] in Ht. by rewrite Hc in Ht. }
  assert (HT : TrimSpace (lo ++ " " ++ def ++ " " ++ t)%string = (lo ++ " " ++ def ++ " " ++ t)%string).
  { unfold TrimSpace. destruct lo as [|c lo]; [done|]. cbn [spaceless] in Hlo2. apply andb_true_iff in Hlo2 as [Hc _]. apply negb_true_iff in Hc.
    rewrite sapp_cons. cbn [trim_left]. rewrite Hc. rewrite <- sapp_cons. 
    assert (forall a u, trim_right u = u -> u <> EmptyString -> trim_right (a ++ u)%string = (a ++ u)%string /\ (a ++ u)%string <> EmptyString) as Hap.
    { intros a u Hu Hun. split; [rewrite trim_right_app by congruence; by rewrite Hu|]. by intros [_ ?]%sapp_empty. }
    destruct (Hap " "%string t Htr Hne) as [A1 A2]. destruct (Hap def _ A1 A2) as [B1 B2].
    destruct (Hap " "%string _ B1 B2) as [C1 C2]. exact (proj1 (Hap (String c lo) _ C1 C2)). }
  rewrite HT, fields_cons, fields_cons by done. f_equal. f_equal.
  pose proof (fields_from_word t EmptyString EmptyString Hs) as Hw. rewrite sapp_nil in Hw. unfold Fields. rewrite Hw. cbn.
  change ("" ++ t)%string with t. by destruct (String.eqb_spec t "").
Qed.

(** The buffer tuning only raises: the value of a ceiling never becomes
    smaller, and reaches the target when the file can be written; of the three
    numbers of tcp_rmem and tcp_wmem the first two stay as they are. *)
Theorem sysctl_raise_only :
  (forall file w, let v f := match f with Some b => Atoi_value (TrimSpace b) | None => 0 end in
     let file' := raiseSysctl file udpBufTarget w in
     v file <= v file' /\ (w = true -> udpBufTarget <= v file')) /\
  (forall b lo def hi w, Fields (TrimSpace b) = [lo; def; hi] -> exists b' hi',
     raiseSysctlTriple (Some b) innerTCPBufTarget w = Some b' /\ Fields (TrimSpace b') = [lo; def; hi'] /\
     Atoi_value hi <= Atoi_value hi' /\ (w = true -> innerTCPBufTarget <= Atoi_value hi')).
Proof.
  split.
  - intros file w. unfold raiseSysctl. cbv zeta. set (cur := match file with Some b => _ | None => 0 end).
    destruct (udpBufTarget <=? cur) eqn:E; bool_hyps; [fold cur; lia|]. destruct w; [|fold cur; by split; [|done]].
    replace (Atoi_value (TrimSpace (itoa udpBufTarget))) with udpBufTarget by (vm_compute; reflexivity). lia.
  - intros b lo def hi w Hb. unfold raiseSysctlTriple. rewrite Hb.
    destruct (innerTCPBufTarget <=? Atoi_value hi) eqn:E; bool_hyps; [by exists b, hi|]. destruct w; [|by exists b, hi].
    eexists _, (itoa innerTCPBufTarget). split; [reflexivity|]. split; [by eapply triple_fields|].
    replace (Atoi_value (itoa innerTCPBufTarget)) with innerTCPBufTarget by (vm_compute; reflexivity). lia.
Qed.
