(* ===== verification/Shutdown.v ===== *)
(** * Shutting down (main.go [RunPreDown], [GracefullyShutDown], [restoreWanMTU],
      [restoreWanOffloads]; xdp/loader.go [Close])

    What the process gives back before it exits: the database, the XDP programs
    of every NIC, and the MTU and offload flags the bootstrap script changed,
    from the files it saved.  The host is the part of the machine these touch;
    whether the kernel takes an MTU or a flag is a parameter. *)
From Stdlib Require Import Ascii.
From stdpp Require Import sorting.
From S2P Require Import Prelude Ip Mgmt Config Startup.
Local Open Scope Z_scope.

(** ** The host *)

(** [h_files]: the entries of /etc/tmasqued with their contents, [None] for one
    that cannot be read; [h_links]: the links and their MTUs; [h_xdp]: the NICs
    with the program attached; [h_handles]: the BPF objects held open. *)
Inductive bpfObject := Prog | XsksQuic | XsksFwd | NatRevTable.
Global Instance bpfObject_eq_dec : EqDecision bpfObject.
Proof. solve_decision. Defined.

Record host := {
  h_files : gmap string (option string);
  h_links : gmap string Z;
  h_offloads : gmap (string * string) bool;
  h_xdp : gset string;
  h_handles : list (string * bpfObject);
  h_db : bool;
  h_exit : option Z
}.

Definition with_files (h : host) f : host := Build_host f (h_links h) (h_offloads h) (h_xdp h) (h_handles h) (h_db h) (h_exit h).
Definition with_links (h : host) l : host := Build_host (h_files h) l (h_offloads h) (h_xdp h) (h_handles h) (h_db h) (h_exit h).
Definition with_offloads (h : host) o : host := Build_host (h_files h) (h_links h) o (h_xdp h) (h_handles h) (h_db h) (h_exit h).
Definition with_xdp (h : host) x l : host := Build_host (h_files h) (h_links h) (h_offloads h) x l (h_db h) (h_exit h).
Definition Exit (code : Z) (h : host) : host :=
  Build_host (h_files h) (h_links h) (h_offloads h) (h_xdp h) (h_handles h) (h_db h) (Some code).
Definition CloseConnection (h : host) : host :=
  Build_host (h_files h) (h_links h) (h_offloads h) (h_xdp h) (h_handles h) false (h_exit h).
Definition Remove (f : string) (h : host) : host := with_files h (delete f (h_files h)).

(** ** Files by pattern *)

(** The part of [s] matched by the star of the pattern [*suf]. *)
Fixpoint star_match (suf s : string) : option string :=
  if String.eqb s suf then Some EmptyString
  else match s with String c t => a ← star_match suf t; Some (String c a) | EmptyString => None end.
Definition name_le (a b : string) : Prop := String.leb a b = true.
Global Instance name_le_dec : RelDecision name_le.
Proof. intros a b. unfold name_le. apply _. Defined.
(** The matches in order, each with the interface it is named after. *)
Definition Glob (suf : string) (h : host) : list (string * string) :=
  omap (fun f => a ← star_match suf f; Some (f, a)) (merge_sort name_le (elements (dom (h_files h)))).

Definition mtuSuffix : string := ".wan_mtu.orig".
Definition offloadsSuffix : string := ".offloads.orig".

Section Kernel.
(** Whether the kernel takes an MTU for a link, or a value of a flag (ethtool
    refuses a fixed feature), with the XDP program attached to it or not. *)
Context (accepts : bool -> string -> Z -> bool) (toggles : bool -> string -> string -> bool -> bool).

Definition attached (h : host) (iface : string) : bool := bool_decide (iface ∈ h_xdp h).

Definition LinkSetMTU (iface : string) (mtu : Z) (h : host) : host :=
  if accepts (attached h iface) iface mtu then with_links h (<[iface := mtu]> (h_links h)) else h.
Definition ethtool_K (iface flag : string) (on : bool) (h : host) : host :=
  if toggles (attached h iface) iface flag on then with_offloads h (<[(iface, flag) := on]> (h_offloads h)) else h.

(** One turn of each loop. *)
Definition restore_mtu (h : host) (fi : string * string) : host :=
  let '(origFile, iface) := fi in
  if String.eqb iface "" then h
  else match h_files h !! origFile with
       | Some (Some data) =>
           match ParseInt (TrimSpace data) with
           | Some mtu =>
               if mtu <=? 0 then Remove origFile h
               else Remove origFile (match h_links h !! iface with Some _ => LinkSetMTU iface mtu h | None => h end)
           | None => Remove origFile h
           end
       | _ => h
       end.
Definition restoreWanMTU (h : host) : host := foldl restore_mtu h (Glob mtuSuffix h).

Definition flag_of (line : string) : option (string * bool) :=
  match Fields line with
  | [flag; v] => if String.eqb v "on" then Some (flag, true) else if String.eqb v "off" then Some (flag, false) else None
  | _ => None
  end.
Definition restore_offloads (h : host) (fi : string * string) : host :=
  let '(origFile, iface) := fi in
  if String.eqb iface "" then h
  else match h_files h !! origFile with
       | Some (Some data) =>
           Remove origFile (foldl (fun h fv => ethtool_K iface fv.1 fv.2 h) h (omap flag_of (split_on newline data)))
       | _ => h
       end.
Definition restoreWanOffloads (h : host) : host := foldl restore_offloads h (Glob offloadsSuffix h).

(** ** The XDP loaders *)

(** Detaches the NIC's program and closes its own objects; the shared table
    stays open. *)
Definition Loader_Close (iface : string) (h : host) : host :=
  with_xdp h (h_xdp h ∖ {[iface]})
    (filter (fun x => ~ (x.1 = iface /\ x.2 <> NatRevTable)) (h_handles h)).

(** [xdpLoadersRef] and [xdpLoaderRef]. *)
Definition close_loaders (loaders : list string) (primary : option string) (h : host) : host :=
  let h := foldl (fun h l => Loader_Close l h) h loaders in
  match loaders, primary with [], Some l => Loader_Close l h | _, _ => h end.

Definition GracefullyShutDown (loaders : list string) (primary : option string) (h : host) : host :=
  let h := CloseConnection h in
  let h := close_loaders loaders primary h in
  let h := restoreWanMTU h in
  let h := restoreWanOffloads h in
  Exit 0 h.

(** [logger.Fatal] ends the process when the script fails: its level is the
    lowest, so it is always printed and exits. *)
Definition RunPreDown (script_ok : bool) (h : host) : option host :=
  if script_ok then Some h else None.
(** The handler of the signals. *)
Definition on_signal (script_ok : bool) (loaders : list string) (primary : option string) (h : host) : host :=
  match RunPreDown script_ok h with
  | Some h => GracefullyShutDown loaders primary h
  | None => Exit 1 h
  end.
End Kernel.
