(* ===== verification/ShutdownProps.v ===== *)
(** * Properties of the shutdown: what the bootstrap changed is put back *)
From Stdlib Require Import Ascii.
From stdpp Require Import sorting.
From S2P Require Import Prelude Words Ip Mgmt MgmtProps Config ConfigProps Startup StartupProps Shutdown.
Local Open Scope Z_scope.

(** ** Names of the saved files *)

Lemma sapp_length (a b : string) : String.length (a +:+ b) = (String.length a + String.length b)%nat.
Proof. induction a as [|c a IH]; [done|]. change (String c a +:+ b) with (String c (a +:+ b)). cbn. by rewrite IH. Qed.
Lemma star_match_spec suf s a : star_match suf s = Some a <-> s = a +:+ suf.
Proof.
  split.
  - revert a. induction s as [|c s IH]; intros a; cbn [star_match];
      match goal with |- context [String.eqb ?x suf] => destruct (String.eqb_spec x suf) as [<-|_]; [by intros [= <-]|] end; [done|].
    destruct (star_match suf s) as [b|]; [|done]. intros [= <-]. by rewrite (IH b).
  - intros ->. induction a as [|c a IH].
    + change ("" +:+ suf) with suf. destruct suf as [|d u]; [done|]. cbn [star_match]. by rewrite String.eqb_refl.
    + change (String c a +:+ suf) with (String c (a +:+ suf)). cbn [star_match]. destruct (String.eqb_spec (String c (a +:+ suf)) suf) as [E|_].
      * exfalso. apply (f_equal String.length) in E. cbn in E. rewrite sapp_length in E. lia.
      * by rewrite IH.
Qed.
Lemma sapp_inj_suf (a b suf : string) : a +:+ suf = b +:+ suf -> a = b.
Proof. intros E. apply star_match_spec in E. rewrite (proj2 (star_match_spec suf (a +:+ suf) a) eq_refl) in E. by injection E. Qed.
Lemma list_ascii_app (a b : string) : String.list_ascii_of_string (a +:+ b) = String.list_ascii_of_string a ++ String.list_ascii_of_string b.
Proof. induction a as [|c a IH]; [done|]. change (String c a +:+ b) with (String c (a +:+ b)). cbn. by rewrite IH. Qed.
Lemma suffixes_differ a b : a +:+ mtuSuffix <> b +:+ offloadsSuffix.
Proof.
  intros E. apply (f_equal String.list_ascii_of_string) in E. rewrite !list_ascii_app in E. apply (f_equal reverse) in E.
  rewrite !reverse_app in E. discriminate E.
Qed.

Lemma Glob_in suf h f i : (f, i) ∈ Glob suf h <-> f = i +:+ suf /\ is_Some (h_files h !! f).
Proof.
  unfold Glob. rewrite list_elem_of_omap. rewrite <- elem_of_dom, <- elem_of_elements.
  setoid_rewrite (merge_sort_Permutation name_le). split.
  - intros (g & Hg & E). destruct (star_match suf g) as [j|] eqn:Em; [|done]. injection E as <- <-. by apply star_match_spec in Em.
  - intros [-> Hf]. exists (i +:+ suf). split; [done|]. by rewrite (proj2 (star_match_spec suf (i +:+ suf) i) eq_refl).
Qed.
Lemma Glob_NoDup suf h : NoDup (Glob suf h).
Proof.
  unfold Glob. assert (Hn : NoDup (merge_sort name_le (elements (dom (h_files h))))) by (rewrite merge_sort_Permutation; apply NoDup_elements).
  induction Hn as [|f l Hf _ IH]; [constructor|]. cbn. destruct (star_match suf f) as [i|]; [|exact IH]. cbn. constructor; [|exact IH].
  rewrite list_elem_of_omap. intros (g & Hg & E). destruct (star_match suf g); [|done]. injection E as -> ->. done.
Qed.

(** ** A loop over the saved files *)

(** What becomes of a saved file. *)
Definition file_after (c : option (option string)) (i : string) : option (option string) :=
  if String.eqb i "" then c else match c with Some (Some _) => None | _ => c end.

Section Loop.
Context (suf : string) (step : host -> string * string -> host) {X : Type} (proj : host -> string -> X).
Context (after : option (option string) -> string -> X -> X) (Inv : host -> Prop).
Hypothesis after_none : forall i x, after None i x = x.
Hypothesis step_spec : forall h i, Inv h ->
  Inv (step h (i +:+ suf, i)) /\
  (forall f, h_files (step h (i +:+ suf, i)) !! f = if decide (f = i +:+ suf) then file_after (h_files h !! f) i else h_files h !! f) /\
  (forall j, proj (step h (i +:+ suf, i)) j = if decide (j = i) then after (h_files h !! (i +:+ suf)) i (proj h i) else proj h j).

Lemma loop_list l : forall h, NoDup l -> (forall f i, (f, i) ∈ l -> f = i +:+ suf) -> Inv h ->
  Inv (foldl step h l) /\
  (forall i, h_files (foldl step h l) !! (i +:+ suf) =
     if decide ((i +:+ suf, i) ∈ l) then file_after (h_files h !! (i +:+ suf)) i else h_files h !! (i +:+ suf)) /\
  (forall f, star_match suf f = None -> h_files (foldl step h l) !! f = h_files h !! f) /\
  (forall i, proj (foldl step h l) i = if decide ((i +:+ suf, i) ∈ l) then after (h_files h !! (i +:+ suf)) i (proj h i) else proj h i).
Proof using step_spec.
  clear after_none. induction l as [|[f i] l IH]; intros h Hn Hl Hi; cbn [foldl].
  { split; [done|]. split; [|split]; intros; [|done|]; by rewrite decide_False by apply not_elem_of_nil. }
  apply NoDup_cons in Hn as [Hf Hn]. assert (f = i +:+ suf) as -> by (apply Hl; by constructor).
  destruct (step_spec h i Hi) as (Hi' & Hfs & Hps).
  destruct (IH (step h (i +:+ suf, i)) Hn ltac:(intros; apply Hl; by constructor) Hi') as (H1 & H2 & H3 & H4).
  split; [exact H1|]. split; [|split].
  - intros j. rewrite H2, Hfs. destruct (decide (j = i)) as [->|Hne].
    + rewrite (decide_False _ _ Hf), decide_True by done. rewrite decide_True; [done|by constructor].
    + rewrite (decide_False (P := j +:+ suf = i +:+ suf)) by (intros E; by apply sapp_inj_suf in E).
      destruct (decide ((j +:+ suf, j) ∈ l)) as [Hj|Hj]; [rewrite decide_True; [done|by constructor]|rewrite decide_False; [done|]].
      intros Hc. apply elem_of_cons in Hc as [Hc|Hc]; [by injection Hc|done].
  - intros g Hg. rewrite H3 by done. rewrite Hfs, decide_False; [done|]. intros ->. by rewrite (proj2 (star_match_spec suf _ i) eq_refl) in Hg.
  - intros j. rewrite H4, Hps, Hfs. destruct (decide (j = i)) as [->|Hne].
    + rewrite (decide_False _ _ Hf). rewrite decide_True; [done|by constructor].
    + rewrite (decide_False (P := j +:+ suf = i +:+ suf)) by (intros E; by apply sapp_inj_suf in E).
      destruct (decide ((j +:+ suf, j) ∈ l)) as [Hj|Hj]; [rewrite decide_True; [done|by constructor]|rewrite decide_False; [done|]].
      intros Hc. apply elem_of_cons in Hc as [Hc|Hc]; [by injection Hc|done].
Qed.

Lemma loop_glob h : Inv h -> let h' := foldl step h (Glob suf h) in
  Inv h' /\ (forall i, h_files h' !! (i +:+ suf) = file_after (h_files h !! (i +:+ suf)) i) /\
  (forall f, star_match suf f = None -> h_files h' !! f = h_files h !! f) /\
  (forall i, proj h' i = after (h_files h !! (i +:+ suf)) i (proj h i)).
Proof using after_none step_spec.
  intros Hi h'. destruct (loop_list (Glob suf h) h (Glob_NoDup suf h) ltac:(by intros f i [Hx _]%Glob_in) Hi) as (H1 & H2 & H3 & H4).
  assert (Hin : forall i, (i +:+ suf, i) ∉ Glob suf h -> h_files h !! (i +:+ suf) = None).
  { intros i Hx. rewrite Glob_in in Hx. destruct (h_files h !! (i +:+ suf)); [|done]. destruct Hx. split; [done|by eexists]. }
  split; [exact H1|]. split; [|split; [exact H3|]]; intros i; [rewrite H2|rewrite H4]; case_decide as Hd; try done; rewrite (Hin i Hd); [|by rewrite after_none].
  unfold file_after. by destruct (String.eqb i "").
Qed.
End Loop.

(** ** The two loops *)

(** The MTU in a saved file. *)
Definition saved_mtu (c : option (option string)) (i : string) : option Z :=
  if String.eqb i "" then None
  else match c with Some (Some d) => m ← ParseInt (TrimSpace d); if m <=? 0 then None else Some m | _ => None end.
Definition detached (h : host) : Prop := h_xdp h = ∅.
(** The rest of the host, which the loops leave alone. *)
Definition rest_of (h : host) := (h_xdp h, h_handles h, h_db h, h_exit h).

Section Restore.
Context (accepts : bool -> string -> Z -> bool) (toggles : bool -> string -> string -> bool -> bool).

(** The last value saved for a flag that the kernel takes. *)
Definition saved_flag (flag : string) (c : option (option string)) (i : string) : option bool :=
  if String.eqb i "" then None
  else match c with
       | Some (Some d) => last (omap (fun fv => if String.eqb fv.1 flag && toggles false i fv.1 fv.2 then Some fv.2 else None) (omap flag_of (split_on newline d)))
       | _ => None
       end.
(** What becomes of a link's MTU, and of a flag, once the program is detached. *)
Definition mtu_after (c : option (option string)) (i : string) (old : option Z) : option Z :=
  match saved_mtu c i, old with Some m, Some _ => if accepts false i m then Some m else old | _, _ => old end.
Definition flag_after (flag : string) (c : option (option string)) (i : string) (old : option bool) : option bool :=
  match saved_flag flag c i with Some b => Some b | None => old end.

Lemma detached_attached h i : detached h -> attached h i = false.
Proof using. intros Hd. unfold attached. rewrite Hd. apply bool_decide_eq_false_2, not_elem_of_empty. Qed.
Lemma files_remove h g f (i : string) c : h_files h !! g = Some (Some c) -> String.eqb i "" = false ->
  forall h2, h_files h2 = h_files h -> h_files (Remove g h2) !! f = if decide (f = g) then file_after (h_files h !! f) i else h_files h !! f.
Proof using.
  intros Hc Hi h2 E. unfold Remove. cbn. rewrite E. destruct (decide (f = g)) as [->|Hne].
  - rewrite lookup_delete_eq, Hc. unfold file_after. by rewrite Hi.
  - by rewrite lookup_delete_ne.
Qed.
Lemma files_same h g f (i : string) : (String.eqb i "" = true \/ forall c, h_files h !! g <> Some (Some c)) ->
  h_files h !! f = if decide (f = g) then file_after (h_files h !! f) i else h_files h !! f.
Proof using.
  intros Hc. case_decide as E; [subst g|done]. unfold file_after. destruct (String.eqb i "") eqn:Hi; [done|].
  destruct Hc as [Hc|Hc]; [done|]. destruct (h_files h !! f) as [[c|]|]; [|done|done]. by destruct (Hc c).
Qed.

Lemma restore_mtu_step r o h i : detached h /\ rest_of h = r /\ h_offloads h = o ->
  let h' := restore_mtu accepts h (i +:+ mtuSuffix, i) in
  (detached h' /\ rest_of h' = r /\ h_offloads h' = o) /\
  (forall f, h_files h' !! f = if decide (f = i +:+ mtuSuffix) then file_after (h_files h !! f) i else h_files h !! f) /\
  (forall j, h_links h' !! j = if decide (j = i) then mtu_after (h_files h !! (i +:+ mtuSuffix)) i (h_links h !! i) else h_links h !! j).
Proof using.
  intros (Hd & Hr & Ho). unfold restore_mtu, mtu_after, saved_mtu.
  assert (Hsame : forall c, h_links h !! i = c -> forall j, h_links h !! j = if decide (j = i) then c else h_links h !! j).
  { intros c <- j. case_decide; by subst. }
  destruct (String.eqb i "") eqn:Hi.
  { split; [done|]. split; [intros f; apply files_same; by left|by apply Hsame]. }
  destruct (h_files h !! (i +:+ mtuSuffix)) as [[data|]|] eqn:Ef;
    [|split; [done|]; split; [intros f; apply files_same; right; intros c; by rewrite Ef|by apply Hsame]..].
  destruct (ParseInt (TrimSpace data)) as [m|]; cbn [mbind option_bind];
    [|split; [done|]; split; [intros f; by apply (files_remove h _ f i data)|by apply Hsame]].
  destruct (Z.leb_spec m 0); [split; [done|]; split; [intros f; by apply (files_remove h _ f i data)|by apply Hsame]|].
  destruct (h_links h !! i) as [old|] eqn:El; [|split; [done|]; split; [intros f; by apply (files_remove h _ f i data)|by apply Hsame]].
  unfold LinkSetMTU. rewrite detached_attached by done.
  destruct (accepts false i m); [|split; [done|]; split; [intros f; by apply (files_remove h _ f i data)|by apply Hsame]].
  split; [done|]. split; [intros f; by apply (files_remove h _ f i data)|]. intros j. cbn. case_decide as E.
  - subst. by rewrite lookup_insert_eq.
  - by rewrite lookup_insert_ne.
Qed.

Lemma ethtool_fold i l : forall h, detached h -> let h' := foldl (fun h fv => ethtool_K toggles i fv.1 fv.2 h) h l in
  h_files h' = h_files h /\ rest_of h' = rest_of h /\ h_links h' = h_links h /\
  forall j flag, h_offloads h' !! (j, flag) =
    if decide (j = i) then match last (omap (fun fv => if String.eqb fv.1 flag && toggles false i fv.1 fv.2 then Some fv.2 else None) l) with
                           | Some b => Some b | None => h_offloads h !! (j, flag) end
    else h_offloads h !! (j, flag).
Proof using.
  induction l as [|[g b] l IH]; intros h Hd; cbn [foldl fst snd].
  { cbn. split; [done|]. split; [done|]. split; [done|]. intros. by case_decide. }
  assert (E : ethtool_K toggles i g b h = if toggles false i g b then with_offloads h (<[(i, g) := b]> (h_offloads h)) else h)
    by (unfold ethtool_K; by rewrite detached_attached).
  rewrite E. cbn [omap list_omap fst snd]. destruct (toggles false i g b) eqn:Et; cycle 1.
  { destruct (IH h Hd) as (H1 & H2 & H3 & H4). cbv zeta. rewrite H1, H2, H3. do 3 (split; [done|]). intros j flag. rewrite H4, andb_false_r. done. }
  destruct (IH (with_offloads h (<[(i, g) := b]> (h_offloads h))) Hd) as (H1 & H2 & H3 & H4). cbv zeta. rewrite H1, H2, H3.
  split; [done|]. split; [done|]. split; [done|]. intros j flag. rewrite H4, andb_true_r. cbn [h_offloads with_offloads].
  destruct (decide (j = i)) as [->|Hne]; [|by rewrite lookup_insert_ne by congruence].
  destruct (String.eqb_spec g flag) as [->|Hne].
  - rewrite last_cons. destruct (last (omap _ l)); [done|]. by rewrite lookup_insert_eq.
  - by rewrite lookup_insert_ne by congruence.
Qed.

Lemma restore_offloads_step r k flag h i : detached h /\ rest_of h = r /\ h_links h = k ->
  let h' := restore_offloads toggles h (i +:+ offloadsSuffix, i) in
  (detached h' /\ rest_of h' = r /\ h_links h' = k) /\
  (forall f, h_files h' !! f = if decide (f = i +:+ offloadsSuffix) then file_after (h_files h !! f) i else h_files h !! f) /\
  (forall j, h_offloads h' !! (j, flag) =
     if decide (j = i) then flag_after flag (h_files h !! (i +:+ offloadsSuffix)) i (h_offloads h !! (i, flag)) else h_offloads h !! (j, flag)).
Proof using.
  intros (Hd & Hr & Hk). unfold restore_offloads, flag_after, saved_flag.
  assert (Hsame : forall j, h_offloads h !! (j, flag) = if decide (j = i) then h_offloads h !! (i, flag) else h_offloads h !! (j, flag)).
  { intros j. case_decide; by subst. }
  destruct (String.eqb i "") eqn:Hi.
  { split; [done|]. split; [intros f; apply files_same; by left|exact Hsame]. }
  destruct (h_files h !! (i +:+ offloadsSuffix)) as [[data|]|] eqn:Ef;
    [|split; [done|]; split; [intros f; apply files_same; right; intros c; by rewrite Ef|exact Hsame]..].
  destruct (ethtool_fold i (omap flag_of (split_on newline data)) h Hd) as (H1 & H2 & H3 & H4).
  pose proof H2 as H2'. unfold rest_of in H2'. injection H2' as Hx _ _ _.
  split; [split; [unfold detached, Remove in *; cbn; by rewrite Hx|split; [by rewrite <- Hr, <- H2|by rewrite <- Hk, <- H3]]|].
  split; [intros f; by apply (files_remove h _ f i data)|].
  intros j. unfold Remove. cbn [h_offloads with_files]. rewrite H4. case_decide as E; [by subst|done].
Qed.
Lemma restoreWanMTU_spec h : detached h -> let h' := restoreWanMTU accepts h in
  detached h' /\ rest_of h' = rest_of h /\ h_offloads h' = h_offloads h /\
  (forall i, h_files h' !! (i +:+ mtuSuffix) = file_after (h_files h !! (i +:+ mtuSuffix)) i) /\
  (forall f, star_match mtuSuffix f = None -> h_files h' !! f = h_files h !! f) /\
  (forall i, h_links h' !! i = mtu_after (h_files h !! (i +:+ mtuSuffix)) i (h_links h !! i)).
Proof using.
  intros Hd.
  destruct (loop_glob mtuSuffix (restore_mtu accepts) (fun h i => h_links h !! i) mtu_after
    (fun x => detached x /\ rest_of x = rest_of h /\ h_offloads x = h_offloads h)
    ltac:(intros i x; unfold mtu_after, saved_mtu; by destruct (String.eqb i ""))
    (restore_mtu_step (rest_of h) (h_offloads h)) h ltac:(done)) as ((H1 & H2 & H3) & H4 & H5 & H6).
  done.
Qed.
Lemma restoreWanOffloads_spec h : detached h -> let h' := restoreWanOffloads toggles h in
  rest_of h' = rest_of h /\ h_links h' = h_links h /\
  (forall i, h_files h' !! (i +:+ offloadsSuffix) = file_after (h_files h !! (i +:+ offloadsSuffix)) i) /\
  (forall f, star_match offloadsSuffix f = None -> h_files h' !! f = h_files h !! f) /\
  (forall i flag, h_offloads h' !! (i, flag) = flag_after flag (h_files h !! (i +:+ offloadsSuffix)) i (h_offloads h !! (i, flag))).
Proof using.
  intros Hd.
  assert (Hoff : forall flag, let h' := restoreWanOffloads toggles h in (detached h' /\ rest_of h' = rest_of h /\ h_links h' = h_links h) /\
    (forall i, h_files h' !! (i +:+ offloadsSuffix) = file_after (h_files h !! (i +:+ offloadsSuffix)) i) /\
    (forall f, star_match offloadsSuffix f = None -> h_files h' !! f = h_files h !! f) /\
    (forall i, h_offloads h' !! (i, flag) = flag_after flag (h_files h !! (i +:+ offloadsSuffix)) i (h_offloads h !! (i, flag)))).
  { intros flag. apply (loop_glob offloadsSuffix (restore_offloads toggles) (fun h i => h_offloads h !! (i, flag)) (flag_after flag)
      (fun x => detached x /\ rest_of x = rest_of h /\ h_links x = h_links h)
      ltac:(intros i x; unfold flag_after, saved_flag; by destruct (String.eqb i ""))
      (restore_offloads_step (rest_of h) (h_links h) flag) h). done. }
  destruct (Hoff EmptyString) as ((_ & H1 & H2) & H3 & H4 & _). split; [exact H1|]. split; [exact H2|]. split; [exact H3|].
  split; [exact H4|]. intros i flag. by destruct (Hoff flag) as (_ & _ & _ & ->).
Qed.
End Restore.

Lemma mtu_not_offloads i : star_match mtuSuffix (i +:+ offloadsSuffix) = None.
Proof. destruct (star_match mtuSuffix (i +:+ offloadsSuffix)) as [j|] eqn:E; [|done]. apply star_match_spec in E. by apply eq_sym, suffixes_differ in E. Qed.
Lemma offloads_not_mtu i : star_match offloadsSuffix (i +:+ mtuSuffix) = None.
Proof. destruct (star_match offloadsSuffix (i +:+ mtuSuffix)) as [j|] eqn:E; [|done]. apply star_match_spec in E. by apply suffixes_differ in E. Qed.

(** ** Numbers as the script saves them *)

Lemma digit_not_space (c : ascii) : (0 <=? Z.of_nat (nat_of_ascii c) - 48) && (Z.of_nat (nat_of_ascii c) - 48 <=? 9) = true -> is_space c = false.
Proof.
  intros H. bool_hyps. unfold is_space. apply orb_false_iff. split; [apply Nat.eqb_neq; lia|]. apply andb_false_iff. right. apply Nat.leb_gt. lia.
Qed.
Lemma parse_digits_spaceless s : forall acc n, parse_digits s acc = Some n -> spaceless s = true.
Proof.
  induction s as [|c s IH]; intros acc n H; [done|]. cbn [parse_digits] in H. cbv zeta in H.
  destruct (_ && _) eqn:E in H; [|done]. cbn [spaceless]. by rewrite (digit_not_space c E), (IH _ _ H).
Qed.
Lemma parse_uint_spaceless s n : parse_uint s = Some n -> spaceless s = true.
Proof. destruct s; [done|]. apply parse_digits_spaceless. Qed.
Lemma ParseInt_spaceless s n : ParseInt s = Some n -> spaceless s = true.
Proof.
  unfold ParseInt. destruct (parse_sign parse_uint s) as [m|] eqn:E; [|done]. intros _. unfold parse_sign in E. destruct s as [|c s]; [done|].
  destruct (Ascii.eqb_spec c "-") as [->|_].
  { cbn in E. destruct (parse_uint s) eqn:Ep; [|done]. cbn [spaceless]. rewrite (parse_uint_spaceless _ _ Ep). reflexivity. }
  destruct (Ascii.eqb_spec c "+") as [->|_]; [|by eapply parse_uint_spaceless].
  cbn [spaceless]. rewrite (parse_uint_spaceless _ _ E). reflexivity.
Qed.
Lemma TrimSpace_line s : spaceless s = true -> TrimSpace (s +:+ String newline "") = s.
Proof.
  intros Hs. unfold TrimSpace. assert (Hl : trim_left (s +:+ String newline "") = match s with EmptyString => EmptyString | _ => s +:+ String newline "" end).
  { destruct s as [|c s]; [reflexivity|]. cbn [spaceless] in Hs. apply andb_true_iff in Hs as [Hc _]. apply negb_true_iff in Hc.
    change (String c s +:+ String newline "") with (String c (s +:+ String newline "")). cbn [trim_left]. by rewrite Hc. }
  rewrite Hl. destruct s as [|c s]; [reflexivity|]. clear Hl. revert Hs. generalize (String c s). clear c s. intros s Hs.
  induction s as [|c s IH]; [reflexivity|]. cbn [spaceless] in Hs. apply andb_true_iff in Hs as [Hc Hs]. apply negb_true_iff in Hc.
  change (String c s +:+ String newline "") with (String c (s +:+ String newline "")). rewrite trim_right_nonspace by done. by rewrite IH.
Qed.
Lemma saved_mtu_echo i m : i <> EmptyString -> 0 < m -> int64_ok m = true -> saved_mtu (Some (Some (itoa m +:+ String newline ""))) i = Some m.
Proof.
  intros Hi Hm Hok. unfold saved_mtu. rewrite (proj2 (String.eqb_neq i "") Hi). pose proof (ParseInt_itoa m Hok) as Hp.
  rewrite TrimSpace_line by (by eapply ParseInt_spaceless). rewrite Hp. cbn. by destruct (Z.leb_spec m 0); [lia|].
Qed.

(** ** The shutdown *)

Lemma close_all loaders h : h_xdp (foldl (fun h l => Loader_Close l h) h loaders) = h_xdp h ∖ list_to_set loaders /\
  h_files (foldl (fun h l => Loader_Close l h) h loaders) = h_files h /\
  h_links (foldl (fun h l => Loader_Close l h) h loaders) = h_links h /\
  h_offloads (foldl (fun h l => Loader_Close l h) h loaders) = h_offloads h /\
  forall x, x ∈ h_handles (foldl (fun h l => Loader_Close l h) h loaders) <-> x ∈ h_handles h /\ ~ (x.1 ∈ loaders /\ x.2 <> NatRevTable).
Proof.
  revert h. induction loaders as [|l loaders IH]; intros h; cbn [foldl].
  { split; [set_solver|]. do 3 (split; [done|]). intros x. set_solver. }
  destruct (IH (Loader_Close l h)) as (H1 & H2 & H3 & H4 & H5). rewrite H1, H2, H3, H4. cbn.
  split; [set_solver|]. do 3 (split; [done|]). intros x. rewrite H5. cbn. rewrite list_elem_of_filter, elem_of_cons. naive_solver.
Qed.

Lemma close_loaders_spec loaders primary h :
  (forall i, i ∈ h_xdp h -> i ∈ loaders \/ (loaders = [] /\ primary = Some i)) ->
  let h1 := close_loaders loaders primary (CloseConnection h) in
  detached h1 /\ h_files h1 = h_files h /\ h_links h1 = h_links h /\ h_offloads h1 = h_offloads h /\ h_db h1 = false /\
  forall i, (i, NatRevTable) ∈ h_handles h -> (i, NatRevTable) ∈ h_handles h1.
Proof.
  intros Hcov h1. unfold h1, close_loaders, detached.
  assert (Hdb : forall l x, h_db x = false -> h_db (foldl (fun h l => Loader_Close l h) x l) = false).
  { induction l as [|a l IH]; intros x Hx; [done|]. cbn. by apply IH. }
  destruct loaders as [|l ls].
  - cbn. destruct primary as [p|]; cbn.
    + split; [apply set_eq; intros x; specialize (Hcov x); set_solver|]. do 4 (split; [done|]).
      intros i Hi. apply list_elem_of_filter. split; [cbn; naive_solver|done].
    + split; [apply set_eq; intros x; specialize (Hcov x); set_solver|]. by do 4 (split; [done|]).
  - destruct (close_all (l :: ls) (CloseConnection h)) as (H1 & H2 & H3 & H4 & H5).
    set (x := foldl _ _ _) in *. split; [rewrite H1; cbn; apply set_eq; intros y; specialize (Hcov y); set_solver|].
    split; [exact H2|]. split; [exact H3|]. split; [exact H4|]. split; [by apply Hdb|].
    intros i Hi. apply H5. split; [done|]. cbn. naive_solver.
Qed.

(** C28.  Shutting down puts back what the bootstrap changed, as far as the kernel
    takes it.  When every NIC with the program attached has its loader among those
    of the process, the programs are detached before the MTUs are set (a NIC may
    refuse its old MTU while the program is attached).  Every link then has the
    MTU saved for it if the kernel takes that MTU for the detached link, and
    otherwise the one it had; every flag has the last value saved for it that the
    kernel takes, if any; everything without a saved file is as before; and the
    shared translation table stays open.  The files read are gone, whether the
    kernel took their values or not.  A number saved by the script with echo is
    read back exactly. *)
Theorem shutdown_restores accepts toggles loaders primary h :
  (forall i, i ∈ h_xdp h -> i ∈ loaders \/ (loaders = [] /\ primary = Some i)) ->
  let h' := GracefullyShutDown accepts toggles loaders primary h in
  h_exit h' = Some 0 /\ h_db h' = false /\ h_xdp h' = ∅ /\
  (forall i, (i, NatRevTable) ∈ h_handles h -> (i, NatRevTable) ∈ h_handles h') /\
  (forall i, h_links h' !! i = mtu_after accepts (h_files h !! (i +:+ mtuSuffix)) i (h_links h !! i)) /\
  (forall i flag, h_offloads h' !! (i, flag) = flag_after toggles flag (h_files h !! (i +:+ offloadsSuffix)) i (h_offloads h !! (i, flag))) /\
  (forall i, h_files h' !! (i +:+ mtuSuffix) = file_after (h_files h !! (i +:+ mtuSuffix)) i /\
             h_files h' !! (i +:+ offloadsSuffix) = file_after (h_files h !! (i +:+ offloadsSuffix)) i) /\
  (forall f, star_match mtuSuffix f = None -> star_match offloadsSuffix f = None -> h_files h' !! f = h_files h !! f) /\
  (forall i m, i <> EmptyString -> 0 < m -> int64_ok m = true -> is_Some (h_links h !! i) ->
     h_files h !! (i +:+ mtuSuffix) = Some (Some (itoa m +:+ String newline "")) ->
     h_links h' !! i = (if accepts false i m then Some m else h_links h !! i) /\ h_files h' !! (i +:+ mtuSuffix) = None).
Proof.
  intros Hcov h'. unfold h', GracefullyShutDown. set (h0 := CloseConnection h).
  set (h1 := close_loaders loaders primary h0).
  assert (Hc : detached h1 /\ h_files h1 = h_files h /\ h_links h1 = h_links h /\ h_offloads h1 = h_offloads h /\ h_db h1 = false /\
    forall i, (i, NatRevTable) ∈ h_handles h -> (i, NatRevTable) ∈ h_handles h1) by by apply close_loaders_spec.
  destruct Hc as (Hd & Ef & El & Eo & Edb & Hh).
  destruct (restoreWanMTU_spec accepts h1 Hd) as (Hd2 & Hr2 & Ho2 & Hf2 & Hn2 & Hl2). set (h2 := restoreWanMTU accepts h1) in *.
  destruct (restoreWanOffloads_spec toggles h2 Hd2) as (Hr3 & Hl3 & Hf3 & Hn3 & Ho3). cbn [h_exit h_db h_xdp h_handles h_links h_offloads h_files Exit].
  unfold rest_of in Hr2, Hr3. injection Hr2 as Hx2 Hb2 Hdb2 _. injection Hr3 as Hx3 Hb3 Hdb3 _.
  assert (Hlinks : forall i, h_links (restoreWanOffloads toggles h2) !! i = mtu_after accepts (h_files h !! (i +:+ mtuSuffix)) i (h_links h !! i)).
  { intros i. by rewrite Hl3, Hl2, Ef, El. }
  assert (Hfiles : forall i, h_files (restoreWanOffloads toggles h2) !! (i +:+ mtuSuffix) = file_after (h_files h !! (i +:+ mtuSuffix)) i).
  { intros i. by rewrite Hn3, Hf2, Ef by apply offloads_not_mtu. }
  split; [done|]. split; [congruence|]. split; [rewrite Hx3, Hx2; exact Hd|]. split; [intros i Hi; rewrite Hb3, Hb2; by apply Hh|].
  split; [exact Hlinks|]. split; [intros i flag; by rewrite Ho3, Hn2, Ho2, Ef, Eo by apply mtu_not_offloads|].
  split; [intros i; split; [by apply Hfiles|by rewrite Hf3, Hn2, Ef by apply mtu_not_offloads]|].
  split; [intros f H1 H2; by rewrite Hn3, Hn2, Ef|].
  intros i m Hi Hm Hok [old Hold] Hsaved. rewrite Hlinks, Hfiles, Hsaved, Hold. unfold mtu_after, file_after. rewrite saved_mtu_echo by done.
  by rewrite (proj2 (String.eqb_neq i "") Hi).
Qed.

(** A failing pre-down script ends the process before anything is put back. *)
Theorem predown_failure_skips accepts toggles loaders primary h :
  let h' := on_signal accepts toggles false loaders primary h in
  h_exit h' = Some 1 /\ h_links h' = h_links h /\ h_offloads h' = h_offloads h /\ h_files h' = h_files h /\ h_db h' = h_db h.
Proof. done. Qed.

(** The bootstrap's example: one NIC scaled down from 9000 with its program
    attached, gro switched off. *)
Definition scaled : host := {|
  h_files := <["eth0.wan_mtu.orig" := Some ("9000" +:+ String newline "")]>
             (<["eth0.offloads.orig" := Some ("gro on" +:+ String newline ("lro off" +:+ String newline ""))]> ∅);
  h_links := {["eth0" := 3506]}; h_offloads := {[("eth0", "gro") := false]}; h_xdp := {["eth0"]};
  h_handles := [("eth0", Prog); ("eth0", XsksQuic); ("eth0", XsksFwd); ("eth0", NatRevTable)]; h_db := true; h_exit := None |}.
Definition virtio (attached : bool) (i : string) (m : Z) : bool := negb attached || (m <=? 3506).
(** [lro] is fixed. *)
Definition fixed_lro (attached : bool) (i f : string) (on : bool) : bool := negb (String.eqb f "lro").

Lemma shutdown_restores_witness :
  let h' := GracefullyShutDown virtio fixed_lro ["eth0"] (Some "eth0") scaled in
  h_links h' !! "eth0" = Some 9000 /\ h_offloads h' !! ("eth0", "gro") = Some true /\ h_offloads h' !! ("eth0", "lro") = None /\ h_xdp h' = ∅.
Proof.
  intros h'.
  destruct (shutdown_restores virtio fixed_lro ["eth0"] (Some "eth0") scaled) as (_ & _ & Hx & _ & Hl & Ho & _).
  - intros i Hi. left. cbn in Hi. apply elem_of_singleton in Hi as ->. by constructor.
  - split; [|split; [|split; [|exact Hx]]].
    + unfold h'. rewrite Hl. by vm_compute.
    + unfold h'. rewrite Ho. by vm_compute.
    + unfold h'. rewrite Ho. by vm_compute.
Defined.

(** The restoration of an MTU that the kernel refuses loses it: the link keeps
    the scaled MTU, and the file that recorded the old one is removed. *)
Theorem refused_mtu_lost :
  let h' := GracefullyShutDown (fun _ _ m => m <=? 3506) fixed_lro ["eth0"] (Some "eth0") scaled in
  h_links h' !! "eth0" = Some 3506 /\ h_files h' !! "eth0.wan_mtu.orig" = None.
Proof. split; by vm_compute. Qed.
