(* ===== verification/Boot.v ===== *)
(** * From the configuration to a listening server (main.go main, createTunTapDevice, Bootstrap, run's end)

    main() reads the configuration, sizes and makes the TUN device, bootstraps
    (script, buffer ceilings, migrations) and calls run(), which brings the
    datapath up (Startup) and listens.  A missing key panics (a type assertion),
    everything else that fails ends in [logger.Fatal].  The answers of the
    kernel, of the scripts and of the TLS and QUIC libraries are inputs.  (The NAT
    table is opened inside run(), before the NICs; here with the listener.) *)
From S2P Require Import Prelude Words Ip Mgmt Repo Migrate Config Topology Router Setup Startup.
Local Open Scope Z_scope.
Local Open Scope masqued_scope.

(** ** Outcomes *)

Inductive fatal :=
  | BadPort | BadCIDR | BadVirtIP | BadPrefix | NoWanLink | NoAddrList | NoAddresses | NoUsableAddress
  | TunFailed (why : string) | BootstrapFailed | MigrationFailed (e : dbError) | RunFailed (e : startError) | ListenFailed (why : string).
(** [Panicked]: the key whose value is missing or malformed. *)
Inductive outcome (A : Type) := Panicked (key : string) | Fatal (e : fatal) | Go (a : A).
Arguments Panicked {A} key.
Arguments Fatal {A} e.
Arguments Go {A} a.
Global Instance outcome_bind : MBind outcome := fun A B k m =>
  match m with Go a => k a | Panicked key => Panicked key | Fatal e => Fatal e end.

Definition required (ctx : context) (key : string) : outcome string :=
  match Value ctx key with Some v => Go v | None => Panicked key end.
Definition or_fatal {A} (e : fatal) (v : option A) : outcome A := match v with Some a => Go a | None => Fatal e end.
Definition or_panic {A} (key : string) (v : option A) : outcome A := match v with Some a => Go a | None => Panicked key end.
Definition to_option {E A} (r : result E A) : option A := match r with Ok a => Some a | Err _ => None end.

(** ** The TUN device *)

Record tunDevice := {
  t_name : string; t_queues : nat; t_gso : bool; t_up : bool;
  t_addr : option string; t_mtu : option Z; t_route : option Prefix
}.
(** [ta_queue i]: the device file of queue [i] can be opened; the rest are the
    answers of netlink; [ta_route]: [None] is EEXIST. *)
Record tunAnswers := {
  ta_queue : nat -> bool; ta_link : bool; ta_up : bool; ta_parse : string -> bool;
  ta_addr : bool; ta_mtu : bool; ta_route : option bool
}.

Fixpoint open_all (ok : nat -> bool) (n i : nat) : option nat :=
  match n with
  | O => None
  | S n => if ok i then open_all ok n (S i) else Some i
  end.

Section Boot.
Context `{IpLib}.
(** [netip.ParseAddr] and [net.ParseCIDR]: the network and the mask's ones. *)
Context (ParseAddr : string -> option bytes) (ParseCIDR : string -> option (bytes * Z)).

Definition createTunTapDevice (ctx : context) (numCPU : Z) (a : tunAnswers) (virtIp : string) (virtPrefixLen mtu : Z) (gso : bool) : outcome tunDevice :=
  let numQueues := Z.to_nat (tun_queues ctx numCPU) in
  match open_all (ta_queue a) numQueues 0 with
  | Some _ => Fatal (TunFailed "queue")
  | None =>
      if negb (ta_link a) then Fatal (TunFailed "interface")
      else if negb (ta_up a) then Fatal (TunFailed "up")
      else
        let addr := (virtIp +:+ "/" +:+ itoa virtPrefixLen) in
        if negb (ta_parse a addr) then Fatal (TunFailed "address")
        else
          virtCIDR ← required ctx "VIRT_CIDR";
          net ← or_fatal (TunFailed "address") (ParseCIDR virtCIDR);
          prefixAddr ← or_fatal (TunFailed "prefix") (ParsePrefix (IP_String net.1 +:+ "/" +:+ itoa net.2));
          let dev := {| t_name := "tm0"; t_queues := numQueues; t_gso := gso; t_up := true;
                        t_addr := if ta_addr a then Some addr else None;
                        t_mtu := if ta_mtu a then Some mtu else None; t_route := Some prefixAddr |} in
          match ta_route a with
          | Some false => Fatal (TunFailed "route")
          | _ => Go dev
          end
  end.

(** ** main() up to the bootstrap *)

Record bootEnv := {
  b_wan : string -> option Z;                              (* netlink.LinkByName: the MTU *)
  b_links : option (list linkInfo);                        (* netlink.LinkList *)
  b_addrs : string -> option (list bytes);                 (* netlink.AddrList of the WAN link *)
  b_cpus : Z;
  b_tun : tunAnswers
}.

Record plan := {
  pl_level : LogLevel; pl_wan : string; pl_bind : bytes; pl_port : Z;
  pl_serverTunIP : bytes; pl_virtPrefix : Prefix; pl_mtu : Z; pl_packet : Z;
  pl_wanAddr : bytes; pl_lans : list Prefix; pl_tuning : tuning; pl_tun : tunDevice
}.

(** The first address of the WAN link that is not link-local. *)
Definition usable_addr (addrs : list bytes) : option bytes :=
  head (omap (fun b => a ← AddrFromSlice b; if IsLinkLocalUnicast a then None else Some (Unmap a)) addrs).

Definition prepare (ctx : context) (e : bootEnv) : outcome plan :=
  level ← required ctx "LOG_LEVEL";
  ifaceName ← required ctx "WAN_INTERFACE";
  bind ← required ctx "BIND_ADDR";
  bindAddr ← or_panic "BIND_ADDR" (ParseAddr bind);
  port ← required ctx "LISTEN_PORT";
  listenPort ← or_fatal BadPort (ParseInt port);
  virtCIDR ← required ctx "VIRT_CIDR";
  net ← or_fatal BadCIDR (ParseCIDR virtCIDR);
  virtIP ← or_fatal BadVirtIP (to_option (FirstUsableIP virtCIDR));
  serverTunIP ← or_fatal BadVirtIP (ParseAddr virtIP);
  vp ← or_fatal BadPrefix (ParsePrefix virtCIDR);
  wanMTU ← or_fatal NoWanLink (b_wan e ifaceName);
  let '(mtu, packet) := tunnelSizes ctx ifaceName wanMTU (b_links e) in
  addrs ← or_fatal NoAddrList (b_addrs e ifaceName);
  _n ← (match addrs with [] => Fatal NoAddresses | _ => Go tt end);
  wanAddr ← or_fatal NoUsableAddress (usable_addr addrs);
  let tun := configure ctx in
  dev ← createTunTapDevice ctx (b_cpus e) (b_tun e) virtIP net.2 (i64 mtu) (forwardViaTun tun);
  Go {| pl_level := ConvertStringToLogLevel level; pl_wan := ifaceName; pl_bind := bindAddr; pl_port := u16 listenPort;
        pl_serverTunIP := serverTunIP; pl_virtPrefix := Masked vp; pl_mtu := mtu; pl_packet := packet;
        pl_wanAddr := wanAddr; pl_lans := buildLocalLANs ifaceName (default [] (b_links e));
        pl_tuning := tun; pl_tun := dev |}.

(** ** Bootstrap *)

Record ceilings := { rmem_max : option string; wmem_max : option string; tcp_wmem : option string; tcp_rmem : option string }.
Definition tune (writable : bool) (c : ceilings) : ceilings :=
  {| rmem_max := raiseSysctl (rmem_max c) udpBufTarget writable; wmem_max := raiseSysctl (wmem_max c) udpBufTarget writable;
     tcp_wmem := raiseSysctlTriple (tcp_wmem c) innerTCPBufTarget writable;
     tcp_rmem := raiseSysctlTriple (tcp_rmem c) innerTCPBufTarget writable |}.

Definition Bootstrap (script_ok writable : bool) (ctx : context) (c : ceilings) (st : store) : outcome (ceilings * store) :=
  if negb script_ok then Fatal BootstrapFailed
  else
    virtCIDR ← required ctx "VIRT_CIDR";
    r ← or_panic "VIRT_CIDR" (Invoke virtCIDR st);
    match r with
    | (Some e, _) => Fatal (MigrationFailed e)
    | (None, st) => Go (tune writable c, st)
    end.

(** ** The end of run(): listening *)

(** Times in seconds, sizes in bytes. *)
Record quicConfig := {
  EnableDatagrams : bool; InitialPacketSize : Z; DatagramSendBuckets : Z; MaxIdleTimeout : Z; KeepAlivePeriod : Z;
  InitialStreamReceiveWindow : Z; MaxStreamReceiveWindow : Z;
  InitialConnectionReceiveWindow : Z; MaxConnectionReceiveWindow : Z; DisablePathMTUDiscovery : bool; MaxIncomingStreams : Z
}.
Inductive clientAuth := NoClientCert | RequireAndVerifyClientCert.
(** [ClientCAs]: the certificates of the pool. *)
Record tlsConfig := { ClientAuth : clientAuth; ClientCAs : list string }.

(** [sa_pool]: the certificates the system trusts; [sa_ca]: the client CA's file,
    and [sa_pem] the certificates in it. *)
Record serveAnswers := {
  sa_nat : bool; sa_udp : bool; sa_cert : bool; sa_pool : option (list string); sa_ca : option string; sa_pem : string -> list string; sa_listen : bool
}.
Definition check (ok : bool) (why : string) : outcome () := if ok then Go tt else Fatal (ListenFailed why).

Record server := {
  sv_plan : plan; sv_datapath : datapath; sv_quic : quicConfig; sv_tls : tlsConfig;
  sv_path : string; sv_store : store; sv_ceilings : ceilings
}.

Definition listen (ctx : context) (a : serveAnswers) (p : plan) (dp : datapath) : outcome (tlsConfig * quicConfig * string) :=
  _n ← check (sa_nat a) "NAT table";
  _u ← (if Bool ctx "QUIC_KERNEL_UDP" false then check (sa_udp a) "kernel UDP" else Go tt);
  _c ← check (sa_cert a) "certificate";
  certPool ← or_fatal (ListenFailed "cert pool") (sa_pool a);
  ca ← or_fatal (ListenFailed "client CA") (sa_ca a);
  _m ← check (negb (length (sa_pem a ca) =? 0)%nat) "Invalid cert";
  _l ← check (sa_listen a) "QUIC listener";
  Go ({| ClientAuth := RequireAndVerifyClientCert; ClientCAs := certPool ++ sa_pem a ca |},
      {| EnableDatagrams := true; InitialPacketSize := u16 (pl_packet p);
         DatagramSendBuckets := default 1 (n ← primary_nic dp; Some (ne_combined n));
         MaxIdleTimeout := 30; KeepAlivePeriod := 10;
         InitialStreamReceiveWindow := 10 * 1024 * 1024; MaxStreamReceiveWindow := 10 * 1024 * 1024;
         InitialConnectionReceiveWindow := 15 * 1024 * 1024; MaxConnectionReceiveWindow := 15 * 1024 * 1024;
         DisablePathMTUDiscovery := true; MaxIncomingStreams := 0 |},
      "https://tmasqued:" +:+ itoa (pl_port p) +:+ "/vpn").

(** main() until the server listens. *)
Definition main (ctx : context) (e : bootEnv) (script_ok writable : bool) (env : string -> nicEnv) (routes : option (list route))
    (a : serveAnswers) (c : ceilings) (st : store) : outcome server :=
  p ← prepare ctx e;
  cs ← Bootstrap script_ok writable ctx c st;
  dp ← (match run ctx (b_links e) env routes (pl_bind p) (pl_lans p) with Ok dp => Go dp | Err x => Fatal (RunFailed x) end);
  l ← listen ctx a p dp;
  Go {| sv_plan := p; sv_datapath := dp; sv_quic := l.1.2; sv_tls := l.1.1; sv_path := l.2; sv_store := cs.2; sv_ceilings := cs.1 |}.
End Boot.
