(* ===== verification/BootProps.v ===== *)
(** * Properties of the boot: the parts of a running server agree *)
From Stdlib Require Import Ascii.
From S2P Require Import Prelude Words Ip IpProps Mgmt MgmtProps Repo Migrate MigrateProps Config ConfigProps Egress Topology Router Setup Startup StartupProps Boot.
Local Open Scope Z_scope.
Local Open Scope masqued_scope.

(** ** What the address texts of the standard library mean *)
Class NetLaws `{IpLib} (ParseAddr : string -> option bytes) (ParseCIDR : string -> option (bytes * Z)) : Prop := {
  law_ParseAddr b : length b = 4%nat -> bytes_ok b -> ParseAddr (show4 b) = Some b;
  law_ParseCIDR s p : ParsePrefix s = Some p -> length (pfx_addr p) = 4%nat -> ParseCIDR s = Some (pfx_addr (Masked p), pfx_bits p);
  law_ParsePrefix_text b n : length b = 4%nat -> bytes_ok b -> 0 <= n <= 32 ->
    ParsePrefix (show4 b +:+ "/" +:+ itoa n) = Some {| pfx_addr := b; pfx_bits := n |}
}.

Lemma go_bind {A B} (m : outcome A) (k : A -> outcome B) b : m ≫= k = Go b -> exists a, m = Go a /\ k a = Go b.
Proof. destruct m as [x|e|a]; [done|done|]. by exists a. Qed.
Lemma required_go ctx key v : required ctx key = Go v -> Value ctx key = Some v.
Proof. unfold required. by destruct (Value ctx key); [intros [= ->]|]. Qed.
Lemma fatal_go {A} e (v : option A) a : or_fatal e v = Go a -> v = Some a.
Proof. unfold or_fatal. by destruct v; [intros [= ->]|]. Qed.
Lemma panic_go {A} key (v : option A) a : or_panic key v = Go a -> v = Some a.
Proof. unfold or_panic. by destruct v; [intros [= ->]|]. Qed.
Lemma check_go ok why u : check ok why = Go u -> ok = true.
Proof. by destruct ok. Qed.

Lemma open_all_none ok n : forall i, open_all ok n i = None -> forall j, (i <= j < i + n)%nat -> ok j = true.
Proof.
  induction n as [|n IH]; intros i; [lia|]. cbn [open_all]. destruct (ok i) eqn:E; [|done]. intros H j Hj.
  destruct (decide (j = i)) as [->|Hne]; [done|]. apply (IH (S i) H). lia.
Qed.

(** Take a successful outcome apart. *)
Ltac go_step H x E := apply go_bind in H as (x & E & H).

Section Boot.
Context `{IpLaws} (ParseAddr : string -> option bytes) (ParseCIDR : string -> option (bytes * Z)) `{!NetLaws ParseAddr ParseCIDR}.

Lemma createTunTapDevice_go ctx cpus a virtIp bits mtu gso dev : createTunTapDevice ParseCIDR ctx cpus a virtIp bits mtu gso = Go dev ->
  t_name dev = "tm0"%string /\ t_queues dev = Z.to_nat (tun_queues ctx cpus) /\ t_gso dev = gso /\ t_up dev = true /\
  (forall i, (i < t_queues dev)%nat -> ta_queue a i = true) /\
  t_addr dev = (if ta_addr a then Some (virtIp +:+ "/" +:+ itoa bits) else None) /\
  t_mtu dev = (if ta_mtu a then Some mtu else None) /\
  exists cidr net pfx, Value ctx "VIRT_CIDR" = Some cidr /\ ParseCIDR cidr = Some net /\
    ParsePrefix (IP_String net.1 +:+ "/" +:+ itoa net.2) = Some pfx /\ t_route dev = Some pfx.
Proof using.
  unfold createTunTapDevice. destruct (open_all _ _ _) eqn:Eo; [done|]. destruct (negb (ta_link a)); [done|]. destruct (negb (ta_up a)); [done|].
  cbv zeta. destruct (negb (ta_parse a _)); [done|]. intros Hg. go_step Hg cidr E1. go_step Hg net E2. go_step Hg pfx E3.
  assert (E : dev = {| t_name := "tm0"; t_queues := Z.to_nat (tun_queues ctx cpus); t_gso := gso; t_up := true;
      t_addr := if ta_addr a then Some (virtIp +:+ "/" +:+ itoa bits) else None; t_mtu := if ta_mtu a then Some mtu else None; t_route := Some pfx |}).
  { destruct (ta_route a) as [[]|]; (discriminate Hg || by injection Hg). }
  subst dev. do 4 (split; [done|]). split; [intros i Hi; cbn in Hi; eapply open_all_none; [exact Eo|lia]|].
  split; [done|]. split; [done|]. exists cidr, net, pfx. split; [by apply required_go|]. split; [by eapply fatal_go|]. split; [by eapply fatal_go|done].
Qed.

(** What [prepare] has read when it succeeds. *)
Lemma prepare_go ctx e pl : prepare ParseAddr ParseCIDR ctx e = Go pl ->
  exists port n cidr net virtIP vp wan packet_links,
    Value ctx "LISTEN_PORT" = Some port /\ ParseInt port = Some n /\ pl_port pl = u16 n /\
    Value ctx "VIRT_CIDR" = Some cidr /\ ParseCIDR cidr = Some net /\ FirstUsableIP cidr = Ok virtIP /\
    ParseAddr virtIP = Some (pl_serverTunIP pl) /\ ParsePrefix cidr = Some vp /\ pl_virtPrefix pl = Masked vp /\
    packet_links = b_links e /\ tunnelSizes ctx (pl_wan pl) wan packet_links = (pl_mtu pl, pl_packet pl) /\
    pl_tuning pl = configure ctx /\
    createTunTapDevice ParseCIDR ctx (b_cpus e) (b_tun e) virtIP net.2 (i64 (pl_mtu pl)) (forwardViaTun (pl_tuning pl)) = Go (pl_tun pl).
Proof using.
  unfold prepare. intros Hg. go_step Hg level E1. go_step Hg wanIface E2. go_step Hg ba E3. go_step Hg bindAddr E4.
  go_step Hg port E5. go_step Hg n E6. go_step Hg cidr E7. go_step Hg net E8. go_step Hg virtIP E9. go_step Hg tunIP E10.
  go_step Hg vp E11. go_step Hg wan E12. destruct (tunnelSizes ctx wanIface wan (b_links e)) as [mtu packet] eqn:Es.
  go_step Hg addrs E13. go_step Hg u E14. go_step Hg wa E15. cbv zeta in Hg. go_step Hg dev E16. injection Hg as <-. cbn.
  exists port, n, cidr, net, virtIP, vp, wan, (b_links e). apply required_go in E5, E7. apply fatal_go in E6, E8, E9, E10, E11.
  split_and!; try done. by destruct (FirstUsableIP cidr); [injection E9 as ->|].
Qed.
Lemma tunnel_packet ctx ifn wan links inner size : tunnelSizes ctx ifn wan links = (inner, size) -> 1252 <= size <= 4000.
Proof using.
  unfold tunnelSizes. destruct (0 <? _); intros [= _ <-]; rewrite clampPacket_spec; unfold maxQUICPacket; lia.
Qed.
Lemma primary_buckets dp : (forall n, n ∈ dp_egress dp -> 1 <= ne_combined n) -> 1 <= default 1 (n ← primary_nic dp; Some (ne_combined n)).
Proof using.
  intros Hn. destruct (primary_nic dp) as [n|] eqn:E; cbn; [|lia]. apply Hn. by eapply list_elem_of_lookup_2.
Qed.
Lemma run_combined ctx links env routes ip lans dp : run ctx links env routes ip lans = Ok dp ->
  forall n, n ∈ dp_egress dp -> 1 <= ne_combined n.
Proof using.
  unfold run. destruct links as [links|]; [|done]. destruct (DetectRealNICs links) as [|n0 ns] eqn:En; [done|]. rewrite <- En.
  destruct (quicListen _ _) as [listen|]; [|done]. destruct (LoadMultiNIC env (DetectRealNICs links)) as [ls|]; [|done]. cbv zeta.
  destruct (length _ =? 0)%nat; [done|]. destruct (_ && _); [done|]. intros [= <-] n Hn. cbn [dp_egress] in Hn.
  apply list_elem_of_omap in Hn as (l & _ & Hb). unfold bring_up in Hb.
  apply bind_Some in Hb as (a & _ & Hb). apply bind_Some in Hb as (nq & _ & Hb). apply bind_Some in Hb as (c & _ & [= <-]). apply maximize_pos.
Qed.

(** The virtual network's addresses of a running server. *)
Lemma virtual_network ctx e pl cidr p : prepare ParseAddr ParseCIDR ctx e = Go pl ->
  Value ctx "VIRT_CIDR" = Some cidr -> ParsePrefix cidr = Some p -> length (pfx_addr p) = 4%nat -> pfx_bits p <= 30 ->
  let net := be_num (pfx_addr (Masked p)) in
  pl_virtPrefix pl = Masked p /\ length (pl_serverTunIP pl) = 4%nat /\ bytes_ok (pl_serverTunIP pl) /\ be_num (pl_serverTunIP pl) = net + 1 /\
  FirstUsableIP cidr = Ok (show4 (pl_serverTunIP pl)) /\
  t_route (pl_tun pl) = Some (Masked p) /\
  (ta_addr (b_tun e) = true -> t_addr (pl_tun pl) = Some (show4 (pl_serverTunIP pl) +:+ "/" +:+ itoa (pfx_bits p))).
Proof.
  intros Hg Hv Ep H4 H30 net. apply prepare_go in Hg as (port & n & cidr' & nt & virtIP & vp & wan & links & _ & _ & _ & Hv' & Hcidr & Hf & Hpa & Hpp & Hvp & _ & _ & _ & Htun).
  assert (cidr' = cidr) as -> by congruence. assert (vp = p) as -> by congruence.
  destruct (usable_v4 cidr p Ep H4 ltac:(lia)) as (f & l & Ef & _ & Hlf & _ & Hfb & _ & Hnf & _).
  rewrite (proj2 (Z.eqb_neq (pfx_bits p) 31)) in Hnf by lia. fold net in Hnf.
  assert (virtIP = show4 f) as -> by congruence. rewrite (law_ParseAddr f Hlf Hfb) in Hpa. injection Hpa as Ef'. rewrite <- Ef'.
  rewrite (law_ParseCIDR cidr p Ep H4) in Hcidr. injection Hcidr as <-. cbn [snd] in Htun.
  apply createTunTapDevice_go in Htun as (_ & _ & _ & _ & _ & Haddr & _ & cidr2 & nt & pfx & Hv2 & Hc2 & Hpx & Hrt).
  assert (cidr2 = cidr) as -> by congruence. rewrite (law_ParseCIDR cidr p Ep H4) in Hc2. injection Hc2 as <-. cbn [fst snd] in Hpx.
  pose proof (law_ParsePrefix _ _ Ep) as Hvd. destruct (Masked_num p Hvd) as (Hml & Hmb & _).
  assert (Hm4 : length (pfx_addr (Masked p)) = 4%nat) by (by rewrite Hml).
  rewrite IP_String_4 in Hpx by done.
  rewrite law_ParsePrefix_text in Hpx; [|done|done|destruct Hvd as [_ Hb]; rewrite H4 in Hb; lia].
  split; [exact Hvp|]. split; [done|]. split; [done|]. split; [done|]. split; [exact Ef|]. split.
  - rewrite Hrt, <- Hpx. reflexivity.
  - intros Ha. by rewrite Haddr, Ha.
Qed.
End Boot.

(** C21.  When main() reaches a listening server, its parts agree,
    whatever IPv4 [VIRT_CIDR] of at most 30 bits it was given.  The server's
    tunnel address is the first address of the virtual network, it is the
    TUN device's address, the device carries the route of the whole network, is
    up and has all its queues.  A store that the migrations had not been recorded
    in is left as it was but for the address pool, which starts right after the
    server's address and ends before the broadcast address, unless it had a pool
    already; a store in which they were recorded is not touched, so that its pool
    is still that of the network it was made for ([changed_network_keeps_pool]).
    The TUN takes GSO frames whenever the forward path writes them; the QUIC
    packet size is the one the tunnel was sized for, between 1252 and 4000, with
    at least one send bucket and a keep-alive shorter than the idle timeout.
    Every client needs a certificate, and those accepted are the ones issued by
    the configured client CA or by any authority that the system trusts. *)
Theorem boot_consistent `{IpLaws} ParseAddr ParseCIDR `{!NetLaws ParseAddr ParseCIDR}
    ctx e script_ok writable env routes a c st sv cidr p :
  main ParseAddr ParseCIDR ctx e script_ok writable env routes a c st = Go sv ->
  Value ctx "VIRT_CIDR" = Some cidr -> ParsePrefix cidr = Some p -> length (pfx_addr p) = 4%nat -> pfx_bits p <= 30 ->
  let pl := sv_plan sv in let tun := pl_tun pl in let net := be_num (pfx_addr (Masked p)) in
  be_num (pl_serverTunIP pl) = net + 1 /\
  (ta_addr (b_tun e) = true -> t_addr tun = Some (show4 (pl_serverTunIP pl) +:+ "/" +:+ itoa (pfx_bits p))) /\
  pl_virtPrefix pl = Masked p /\ t_route tun = Some (Masked p) /\
  t_up tun = true /\ t_queues tun = Z.to_nat (tun_queues ctx (b_cpus e)) /\ (forall i, (i < t_queues tun)%nat -> ta_queue (b_tun e) i = true) /\
  (if applied st 1 then sv_store sv = st
   else applied (sv_store sv) 1 = true /\
        s_db (sv_store sv) = match dhcp (s_db st) !! 1 with
                             | Some _ => s_db st
                             | None => set_dhcp (s_db st) (<[1 := (be_num (pl_serverTunIP pl) + 1, net + 2 ^ (32 - pfx_bits p) - 2)]> (dhcp (s_db st)))
                             end) /\
  (egress_of ctx = Some EgTunGSO -> t_gso tun = true) /\
  InitialPacketSize (sv_quic sv) = pl_packet pl /\ 1252 <= pl_packet pl <= 4000 /\
  1 <= DatagramSendBuckets (sv_quic sv) /\ KeepAlivePeriod (sv_quic sv) < MaxIdleTimeout (sv_quic sv) /\
  ClientAuth (sv_tls sv) = RequireAndVerifyClientCert /\
  exists system ca, sa_pool a = Some system /\ sa_ca a = Some ca /\ sa_pem a ca <> [] /\ ClientCAs (sv_tls sv) = system ++ sa_pem a ca.
Proof.
  intros Hm Hv Ep H4 H30 pl tun net. unfold main in Hm. go_step Hm pl0 E1. go_step Hm cs E2. go_step Hm dp E3. go_step Hm l E4. injection Hm as Hsv.
  assert (Epl : pl = pl0) by (unfold pl; by rewrite <- Hsv).
  pose proof (virtual_network _ _ _ _ _ _ _ E1 Hv Ep H4 H30) as (V1 & V2 & V3 & V4 & _ & V5 & V6).
  pose proof (prepare_go _ _ _ _ _ E1) as (port & n & cidr' & nt & virtIP & vp & wan & links & _ & _ & _ & _ & _ & _ & _ & _ & _ & _ & Hsz & Htn & Htun).
  apply createTunTapDevice_go in Htun as (_ & Hq & Hgso & Hup & Hall & _).
  assert (Hdp : run ctx (b_links e) env routes (pl_bind pl0) (pl_lans pl0) = Ok dp) by (destruct (run ctx _ _ _ _ _); [by injection E3 as ->|done]).
  unfold Bootstrap in E2. destruct (negb script_ok); [done|]. go_step E2 cidr2 B1. go_step E2 r B2. apply required_go in B1. apply panic_go in B2.
  assert (cidr2 = cidr) as -> by congruence. destruct r as [[x|] st']; [done|]. injection E2 as <-.
  unfold listen in E4. go_step E4 u1 L1. go_step E4 u2 L2. go_step E4 u3 L3. go_step E4 u4 L4. go_step E4 ca L5. go_step E4 u5 L6. go_step E4 u6 L7.
  apply fatal_go in L4, L5. apply check_go in L6. injection E4 as <-. rewrite <- Epl in *. unfold tun. rewrite <- Hsv. cbn [sv_quic sv_tls sv_store fst snd InitialPacketSize DatagramSendBuckets MaxIdleTimeout KeepAlivePeriod ClientAuth ClientCAs].
  pose proof (tunnel_packet _ _ _ _ _ _ Hsz) as Hpk. pose proof (pool_bounds_v4 cidr p Ep H4 ltac:(lia)) as Hpb. cbv zeta in Hpb. fold net in Hpb.
  rewrite (proj2 (Z.eqb_neq (pfx_bits p) 31)) in Hpb by lia.
  split_and!; try done; try lia.
  - apply (Invoke_store cidr); [|done]. rewrite Hpb, V4. f_equal. f_equal; lia.
  - rewrite Hgso, Htn. unfold egress_of, altEgress. set (t := configure ctx).
    by destruct (forwardViaVhost t), (forwardViaUring t), (forwardViaTun t), (forwardViaNapiTun t), (forwardViaPacket t).
  - by rewrite u16_small by lia.
  - apply primary_buckets. by eapply run_combined.
  - exists u4, ca. split; [done|]. split; [done|]. split; [|done]. intros E0. by rewrite E0 in L6.
Qed.

(** Any number is accepted as LISTEN_PORT and reduced modulo 65536: a port
    outside the range is not reported, the server listens on another one. *)
Theorem listen_port_truncated `{IpLib} ParseAddr ParseCIDR ctx e pl n :
  prepare ParseAddr ParseCIDR ctx e = Go pl -> int64_ok n = true -> Value ctx "LISTEN_PORT" = Some (itoa n) -> pl_port pl = n mod 65536.
Proof.
  intros Hg Hn Hv. apply prepare_go in Hg as (port & m & _ & _ & _ & _ & _ & _ & Hp & Hm & Hpl & _).
  assert (port = itoa n) as -> by congruence. rewrite ParseInt_itoa in Hm by done. injection Hm as <-. exact Hpl.
Qed.

(** ** IPv4 texts *)

Definition ParseCIDR4 (s : string) : option (bytes * Z) := p ← parse_prefix4 s; Some (pfx_addr (Masked p), pfx_bits p).

Lemma dec_no_slash b : 0 <= b < 256 -> no_char "/"%char (dec b) = true.
Proof. apply (dec_all (fun b => no_char "/"%char (dec b))). vm_compute. reflexivity. Qed.
Lemma dec_itoa n : 0 <= n <= 32 -> itoa n = dec n.
Proof.
  intros Hn. assert (Hall : forallb (fun k => String.eqb (itoa (Z.of_nat k)) (dec (Z.of_nat k))) (seq 0 33) = true) by (vm_compute; reflexivity).
  rewrite forallb_forall in Hall. specialize (Hall (Z.to_nat n)). rewrite Z2Nat.id in Hall by lia. apply String.eqb_eq, Hall, in_seq. lia.
Qed.
Lemma show4_no_slash b : length b = 4%nat -> bytes_ok b -> no_char "/"%char (show4 b) = true.
Proof.
  intros _ Hb. unfold show4. rewrite !no_char_app. rewrite !dec_no_slash by auto with mq. reflexivity.
Qed.
Lemma dotted_net_laws : @NetLaws dotted parse4 ParseCIDR4.
Proof.
  constructor.
  - apply parse4_show4.
  - intros s p Hp _. unfold ParseCIDR4. cbn in Hp. by rewrite Hp.
  - intros b n Hl Hb Hn. cbn [ParsePrefix dotted]. unfold parse_prefix4. rewrite dec_itoa by done.
    
    rewrite (split_on_app _ _ _ (dec n) (split_no_char _ _ (show4_no_slash b Hl Hb))). rewrite split_no_char by (apply dec_no_slash; lia).
    rewrite parse4_show4 by done. cbn [mbind option_bind]. rewrite parse_dec_dec by lia. cbn [mbind option_bind].
    by rewrite (proj2 (Z.leb_le n 32)) by lia.
Qed.

(** ** A boot *)

Definition boot_ctx (port : string) : context :=
  [("VIRT_CIDR", "10.10.1.0/24"); ("LISTEN_PORT", port); ("BIND_ADDR", "0.0.0.0"); ("WAN_INTERFACE", "eth0"); ("LOG_LEVEL", "INFO")]%string.
Definition demo_boot : bootEnv := {|
  b_wan := fun _ => Some 1500; b_links := Some demo_links; b_addrs := fun _ => Some [[203; 0; 113; 5]]; b_cpus := 4;
  b_tun := {| ta_queue := fun _ => true; ta_link := true; ta_up := true; ta_parse := fun _ => true; ta_addr := true; ta_mtu := true; ta_route := Some true |} |}.
Definition demo_serve : serveAnswers :=
  {| sa_nat := true; sa_udp := true; sa_cert := true; sa_pool := Some ["ISRG Root X1"%string]; sa_ca := Some "CA"%string; sa_pem := fun f => [f]; sa_listen := true |}.
Definition demo_ceilings : ceilings := {| rmem_max := Some "212992"; wmem_max := None; tcp_wmem := None; tcp_rmem := None |}%string.

Lemma boot_consistent_witness : exists sv,
  @main dotted parse4 ParseCIDR4 (boot_ctx "443") demo_boot true true (demo_env true) (Some demo_routes) demo_serve demo_ceilings empty_store = Go sv /\
  pl_serverTunIP (sv_plan sv) = [10; 10; 1; 1] /\ t_gso (pl_tun (sv_plan sv)) = true /\
  dhcp (s_db (sv_store sv)) !! 1 = Some (be_num [10; 10; 1; 2], be_num [10; 10; 1; 254]) /\
  exists ca, ca ∈ ClientCAs (sv_tls sv) /\ ca <> "CA"%string.
Proof.
  destruct (@main dotted parse4 ParseCIDR4 (boot_ctx "443") demo_boot true true (demo_env true) (Some demo_routes) demo_serve demo_ceilings empty_store)
    as [k|f|sv] eqn:E; [vm_compute in E; discriminate E..|].
  exists sv. split; [reflexivity|].
  assert (Hip : pl_serverTunIP (sv_plan sv) = [10; 10; 1; 1]) by (vm_compute in E; by injection E as <-).
  destruct (@boot_consistent dotted dotted_laws parse4 ParseCIDR4 dotted_net_laws (boot_ctx "443") demo_boot true true (demo_env true) (Some demo_routes)
    demo_serve demo_ceilings empty_store sv "10.10.1.0/24" {| pfx_addr := [10; 10; 1; 0]; pfx_bits := 24 |} E eq_refl eq_refl eq_refl)
    as (_ & _ & _ & _ & _ & _ & _ & Hp & Hg & _ & _ & _ & _ & _ & sys & ca & Hs & _ & _ & Hca); [cbn; lia|].
  split; [exact Hip|]. split; [apply Hg; reflexivity|]. split.
  - assert (Ha : applied empty_store 1 = false) by (vm_compute; reflexivity). rewrite Ha in Hp. destruct Hp as [_ Hp]. rewrite Hp, Hip. by vm_compute.
  - injection Hs as <-. exists "ISRG Root X1"%string. rewrite Hca. split; [by apply elem_of_app; left; constructor|done].
Defined.

(** Booted again with another VIRT_CIDR, the server keeps the pool of the old
    network: its own address and the TUN's route are of the new one, the
    addresses it gives to clients are not. *)
Theorem changed_network_keeps_pool : exists st sv,
  @Invoke dotted "10.8.0.1/24" empty_store = Some (None, st) /\
  @main dotted parse4 ParseCIDR4 (boot_ctx "443") demo_boot true true (demo_env true) (Some demo_routes) demo_serve demo_ceilings st = Go sv /\
  pl_serverTunIP (sv_plan sv) = [10; 10; 1; 1] /\
  dhcp (s_db (sv_store sv)) !! 1 = Some (be_num [10; 8; 0; 2], be_num [10; 8; 0; 254]).
Proof.
  destruct (@Invoke dotted "10.8.0.1/24" empty_store) as [[[?|] st]|] eqn:Es; [vm_compute in Es; discriminate Es| |vm_compute in Es; discriminate Es].
  destruct (@main dotted parse4 ParseCIDR4 (boot_ctx "443") demo_boot true true (demo_env true) (Some demo_routes) demo_serve demo_ceilings st)
    as [k|f|sv] eqn:E; vm_compute in Es; injection Es as <-; [vm_compute in E; discriminate E..|].
  eexists _, sv. split; [reflexivity|]. split; [exact E|]. vm_compute in E. injection E as <-. split; reflexivity.
Qed.
Lemma listen_port_truncated_witness : exists pl,
  @prepare dotted parse4 ParseCIDR4 (boot_ctx "65979") demo_boot = Go pl /\ pl_port pl = 443.
Proof.
  destruct (@prepare dotted parse4 ParseCIDR4 (boot_ctx "65979") demo_boot) as [k|f|pl] eqn:E; [vm_compute in E; discriminate E..|].
  exists pl. split; [reflexivity|]. exact (@listen_port_truncated dotted parse4 ParseCIDR4 (boot_ctx "65979") demo_boot pl 65979 E eq_refl eq_refl).
Defined.
