(* ===== verification/Life.v ===== *)
(** * The process's life (main.go main's goroutines, run's end, RunPostUp, GracefullyShutDown)

    Once it has a datapath the process is four goroutines: main() inside run(),
    the one that serves the listener, the supervisor that reads [upChan] and runs
    the post-up script or the shutdown, and the one that waits for a signal and
    runs the pre-down script and the shutdown.  The states keep the host of
    Shutdown; a shutdown is its stages one after the other, so that two shutdowns
    and main()'s return interleave.  A script ends with success or failure; the
    TUN readers and the listener may fail at any time. *)
From S2P Require Import Prelude Shutdown.

(** ** Goroutines *)

(** The statements of [GracefullyShutDown]. *)
Inductive stage := StDb | StXdp | StMtu | StOffloads | StExit.
Global Instance stage_eq_dec : EqDecision stage.
Proof. solve_decision. Defined.
Definition stages : list stage := [StDb; StXdp; StMtu; StOffloads; StExit].

(** main(): before and after [LoadMultiNIC], from the publication of the loaders
    to [upChan <- true], at [<-ctx.Done()], at [upChan <- false], in run()'s deferred
    calls, about to return from main(). *)
Inductive mainPC := MAttach | MPublish | MAnnounce | MServe | MWithdraw | MDefers | MReturn.
(** The supervisor: at [<-upChan], in the post-up script, with stages left. *)
Inductive supPC := SIdle | SPostUp | SClosing (left : list stage).
(** The signal goroutine: at [<-sigc], in the pre-down script, with stages left. *)
Inductive sigPC := GWait | GPreDown | GClosing (left : list stage).
Inductive script := PostUp | PreDown.

(** [p_loaders]: [xdpLoadersRef]; [p_scripts]: the scripts that have succeeded. *)
Record process := {
  p_host : host; p_loaders : list string; p_main : mainPC; p_serving : bool;
  p_sup : supPC; p_sig : sigPC; p_cancelled : bool; p_scripts : list script
}.

Definition with_host (s : process) h : process :=
  Build_process h (p_loaders s) (p_main s) (p_serving s) (p_sup s) (p_sig s) (p_cancelled s) (p_scripts s).
Definition with_loaders (s : process) l : process :=
  Build_process (p_host s) l (p_main s) (p_serving s) (p_sup s) (p_sig s) (p_cancelled s) (p_scripts s).
Definition with_main (s : process) m : process :=
  Build_process (p_host s) (p_loaders s) m (p_serving s) (p_sup s) (p_sig s) (p_cancelled s) (p_scripts s).
Definition with_serving (s : process) : process :=
  Build_process (p_host s) (p_loaders s) (p_main s) true (p_sup s) (p_sig s) (p_cancelled s) (p_scripts s).
Definition with_sup (s : process) u : process :=
  Build_process (p_host s) (p_loaders s) (p_main s) (p_serving s) u (p_sig s) (p_cancelled s) (p_scripts s).
Definition with_sig (s : process) g : process :=
  Build_process (p_host s) (p_loaders s) (p_main s) (p_serving s) (p_sup s) g (p_cancelled s) (p_scripts s).
Definition cancel (s : process) : process :=
  Build_process (p_host s) (p_loaders s) (p_main s) (p_serving s) (p_sup s) (p_sig s) true (p_scripts s).
Definition ran (x : script) (s : process) : process :=
  Build_process (p_host s) (p_loaders s) (p_main s) (p_serving s) (p_sup s) (p_sig s) (p_cancelled s) (p_scripts s ++ [x]).
Definition die (s : process) : process := with_host s (Exit 1 (p_host s)).

(** [defer l.Close()] of every loader, run last to first; the other deferred
    calls (server, listener, connections, translation table) leave the host alone. *)
Definition close_all_deferred (s : process) : process :=
  with_host s (foldl (fun h l => Loader_Close l h) (p_host s) (rev (p_loaders s))).

Section Life.
Context (accepts : bool -> string -> Z -> bool) (toggles : bool -> string -> string -> bool -> bool).
(** The NICs [LoadMultiNIC] attaches. *)
Context (nics : list string).

Definition do_stage (loaders : list string) (x : stage) (h : host) : host :=
  match x with
  | StDb => CloseConnection h
  | StXdp => close_loaders loaders (head loaders) h
  | StMtu => restoreWanMTU accepts h
  | StOffloads => restoreWanOffloads toggles h
  | StExit => Exit 0 h
  end.
Definition attach (h : host) : host :=
  with_xdp h (list_to_set nics ∪ h_xdp h)
    (h_handles h ++ concat (map (fun i => [(i, Prog); (i, XsksQuic); (i, XsksFwd); (i, NatRevTable)]) nics)).

(** The process's own steps, while it has not exited. *)
Inductive ownStep (s : process) : process -> Prop :=
  | o_attach : p_main s = MAttach -> ownStep s (with_main (with_host s (attach (p_host s))) MPublish)
  | o_publish : p_main s = MPublish -> ownStep s (with_main (with_loaders s nics) MAnnounce)
  | o_announce : p_main s = MAnnounce -> p_sup s = SIdle -> ownStep s (with_serving (with_main (with_sup s SPostUp) MServe))
  | o_done : p_main s = MServe -> p_cancelled s = true -> ownStep s (with_main s MWithdraw)
  | o_withdraw : p_main s = MWithdraw -> p_sup s = SIdle -> ownStep s (with_main (with_sup s (SClosing stages)) MDefers)
  | o_defers : p_main s = MDefers -> ownStep s (with_main (close_all_deferred s) MReturn)
  | o_return : p_main s = MReturn -> ownStep s (with_host s (Exit 0 (p_host s)))
  | o_postup : p_sup s = SPostUp -> ownStep s (ran PostUp (with_sup s SIdle))
  | o_predown : p_sig s = GPreDown -> ownStep s (ran PreDown (with_sig s (GClosing stages)))
  | o_sup x rest : p_sup s = SClosing (x :: rest) ->
      ownStep s (with_host (with_sup s (SClosing rest)) (do_stage (p_loaders s) x (p_host s)))
  | o_sig x rest : p_sig s = GClosing (x :: rest) ->
      ownStep s (with_host (with_sig s (GClosing rest)) (do_stage (p_loaders s) x (p_host s))).

(** A signal arrives (one is read), a TUN reader fails, attaching or bringing
    the datapath up fails, a script fails, the listener fails: all but the first
    two end in [logger.Fatal]. *)
Inductive envStep (s : process) : process -> Prop :=
  | v_signal : p_sig s = GWait -> envStep s (with_sig s GPreDown)
  | v_tun : p_main s <> MAttach -> p_main s <> MPublish -> p_cancelled s = false -> envStep s (cancel s)
  | v_boot : p_main s = MAttach \/ p_main s = MPublish -> envStep s (die s)
  | v_bring_up : p_main s = MAnnounce -> envStep s (die (close_all_deferred s))
  | v_postup : p_sup s = SPostUp -> envStep s (die s)
  | v_predown : p_sig s = GPreDown -> envStep s (die s)
  | v_listener : p_serving s = true -> envStep s (die s).

Definition running (s : process) : Prop := h_exit (p_host s) = None.
Definition step (s s' : process) : Prop := running s /\ (ownStep s s' \/ envStep s s').
Definition own (s s' : process) : Prop := running s /\ ownStep s s'.
End Life.

(** main() about to attach the programs; at [upChan <- true] with them attached.
    Nothing earlier is modelled: a signal while the configuration is read or the
    bootstrap script runs also starts the pre-down script and a shutdown. *)
Definition booting (h : host) : process :=
  {| p_host := h; p_loaders := []; p_main := MAttach; p_serving := false; p_sup := SIdle; p_sig := GWait; p_cancelled := false; p_scripts := [] |}.
Definition up (h : host) (loaders : list string) : process :=
  {| p_host := h; p_loaders := loaders; p_main := MAnnounce; p_serving := false; p_sup := SIdle; p_sig := GWait; p_cancelled := false; p_scripts := [] |}.
