(* ===== verification/LifeProps.v ===== *)
(** * Properties of the process's life *)
From S2P Require Import Prelude Shutdown ShutdownProps Life.
Local Open Scope Z_scope.

(** ** The stages are the shutdown *)

Lemma stages_shutdown accepts toggles loaders h :
  foldl (fun h x => do_stage accepts toggles loaders x h) h stages = GracefullyShutDown accepts toggles loaders (head loaders) h.
Proof. done. Qed.

(** ** Progress of the host *)

Section Stages.
(** What the kernel takes, as in Shutdown. *)
Context (accepts : bool -> string -> Z -> bool) (toggles : bool -> string -> string -> bool -> bool).

(** Of a host [h] that started as [h0]: every MTU as it was with its saved file,
    or as the saved file says with the file used; the same for the flags. *)
Definition mtus_kept (h0 h : host) : Prop :=
  forall i, h_links h !! i = h_links h0 !! i /\ h_files h !! (i +:+ mtuSuffix) = h_files h0 !! (i +:+ mtuSuffix).
Definition mtus_back (h0 h : host) : Prop :=
  forall i, h_links h !! i = mtu_after accepts (h_files h0 !! (i +:+ mtuSuffix)) i (h_links h0 !! i) /\
            h_files h !! (i +:+ mtuSuffix) = file_after (h_files h0 !! (i +:+ mtuSuffix)) i.
Definition flags_kept (h0 h : host) : Prop :=
  (forall i flag, h_offloads h !! (i, flag) = h_offloads h0 !! (i, flag)) /\
  forall i, h_files h !! (i +:+ offloadsSuffix) = h_files h0 !! (i +:+ offloadsSuffix).
Definition flags_back (h0 h : host) : Prop :=
  (forall i flag, h_offloads h !! (i, flag) = flag_after toggles flag (h_files h0 !! (i +:+ offloadsSuffix)) i (h_offloads h0 !! (i, flag))) /\
  forall i, h_files h !! (i +:+ offloadsSuffix) = file_after (h_files h0 !! (i +:+ offloadsSuffix)) i.

Lemma file_after_again c i : file_after (file_after c i) i = file_after c i.
Proof. unfold file_after. destruct (String.eqb i ""); [done|]. by destruct c as [[c|]|]. Qed.
Lemma mtu_after_again c i x : mtu_after accepts (file_after c i) i (mtu_after accepts c i x) = mtu_after accepts c i x.
Proof. unfold mtu_after, saved_mtu, file_after. destruct (String.eqb i ""); [done|]. destruct c as [[c|]|]; [|done..]. cbn. by case_match. Qed.
Lemma flag_after_again flag c i x : flag_after toggles flag (file_after c i) i (flag_after toggles flag c i x) = flag_after toggles flag c i x.
Proof. unfold flag_after, saved_flag, file_after. destruct (String.eqb i ""); [done|]. by destruct c as [[c|]|]. Qed.

(** [h'] is at least as far as [h] in a shutdown that began at [h0]. *)
Record further (h0 h h' : host) : Prop := {
  fu_db : h_db h = false -> h_db h' = false;
  fu_xdp : h_xdp h' ⊆ h_xdp h;
  fu_kept : mtus_kept h0 h -> mtus_kept h0 h' \/ mtus_back h0 h';
  fu_back : mtus_back h0 h -> mtus_back h0 h';
  fu_fkept : flags_kept h0 h -> flags_kept h0 h' \/ flags_back h0 h';
  fu_fback : flags_back h0 h -> flags_back h0 h'
}.

Lemma further_same h0 h h' : (h_db h = false -> h_db h' = false) -> h_xdp h' ⊆ h_xdp h -> h_files h' = h_files h -> h_links h' = h_links h ->
  h_offloads h' = h_offloads h -> further h0 h h'.
Proof.
  intros Hd Hx Hf Hl Ho. split; [done|done| | | |]; intros H; [left|..|left|]; unfold mtus_kept, mtus_back, flags_kept, flags_back in *; by rewrite Hf, ?Hl, ?Ho.
Qed.

Lemma close_deferred_stage h0 loaders h : further h0 h (foldl (fun h l => Loader_Close l h) h loaders) /\
  (h_exit (foldl (fun h l => Loader_Close l h) h loaders) = h_exit h).
Proof.
  destruct (close_all loaders h) as (Hx & Hf & Hl & Ho & _). split.
  - apply further_same; [|rewrite Hx; set_solver|done..]. clear. revert h. induction loaders as [|l ls IH]; intros h Hd; [done|]. by apply IH.
  - clear. revert h. induction loaders as [|l ls IH]; intros h; [done|]. cbn. by rewrite IH.
Qed.
Lemma xdp_stage h0 loaders h : h_xdp h ⊆ list_to_set loaders -> let h' := close_loaders loaders (head loaders) h in
  further h0 h h' /\ h_exit h' = h_exit h /\ detached h'.
Proof.
  intros Hc. unfold close_loaders, detached. destruct loaders as [|l ls].
  - cbn. split; [by apply further_same|]. split; [done|]. set_solver.
  - destruct (close_deferred_stage h0 (l :: ls) h) as [H1 H2]. destruct (close_all (l :: ls) h) as (Hx & _).
    cbn [head]. split; [done|]. split; [done|]. rewrite Hx. set_solver.
Qed.

Lemma mtu_stage h0 h : detached h -> let h' := restoreWanMTU accepts h in
  further h0 h h' /\ rest_of h' = rest_of h /\ (mtus_kept h0 h \/ mtus_back h0 h -> mtus_back h0 h').
Proof using.
  intros Hd h'. destruct (restoreWanMTU_spec accepts h Hd) as (_ & Hr & Ho & Hf & Hn & Hl). fold h' in Hr, Ho, Hf, Hn, Hl.
  assert (Hb : mtus_kept h0 h \/ mtus_back h0 h -> mtus_back h0 h').
  { intros [H|H] i; rewrite Hl, Hf; destruct (H i) as [-> ->]; [done|]. by rewrite mtu_after_again, file_after_again. }
  split; [|by split]. unfold rest_of in Hr. injection Hr as Hx _ Hdb _. split; [congruence|by rewrite Hx|by auto..| |];
    intros [H1 H2]; [left|]; (split; [intros; by rewrite Ho|intros; by rewrite Hn by apply mtu_not_offloads]).
Qed.
Lemma offloads_stage h0 h : detached h -> let h' := restoreWanOffloads toggles h in
  further h0 h h' /\ rest_of h' = rest_of h /\ (flags_kept h0 h \/ flags_back h0 h -> flags_back h0 h').
Proof using.
  intros Hd h'. destruct (restoreWanOffloads_spec toggles h Hd) as (Hr & Hl & Hf & Hn & Ho). fold h' in Hr, Ho, Hf, Hn, Hl.
  assert (Hb : flags_kept h0 h \/ flags_back h0 h -> flags_back h0 h').
  { intros [[H1 H2]|[H1 H2]]; (split; [intros i flag; rewrite Ho|intros i; rewrite Hf]); rewrite ?H1, H2; [done..|apply flag_after_again|apply file_after_again]. }
  split; [|by split]. unfold rest_of in Hr. injection Hr as Hx _ Hdb _. split; [congruence|by rewrite Hx| | |by auto..];
    intros H; [left|]; intros i; rewrite Hl, Hn by apply offloads_not_mtu; apply H.
Qed.

(** What the stages gone through have achieved. *)
Record closing (h0 : host) (left : list stage) (h : host) : Prop := {
  cl_suffix : left `suffix_of` stages;
  cl_db : StDb ∉ left -> h_db h = false;
  cl_xdp : StXdp ∉ left -> detached h;
  cl_mtu : StMtu ∉ left -> mtus_back h0 h;
  cl_flags : StOffloads ∉ left -> flags_back h0 h;
  cl_exit : StExit ∉ left -> h_exit h = Some 0
}.
Lemma closing_start h0 h : closing h0 stages h.
Proof using. clear. split; [by exists []|..]; intros H; destruct H; by_decide. Qed.
Lemma closing_further h0 left h h' : further h0 h h' -> (h_exit h = Some 0 -> h_exit h' = Some 0) -> closing h0 left h -> closing h0 left h'.
Proof using.
  clear. intros [F1 F2 F3 F4 F5 F6] He [H1 H2 H3 H4 H5 H6]. split; auto. intros Hx. specialize (H3 Hx). unfold detached in *. set_solver.
Qed.

(** What holds of the host whoever is shutting down. *)
Record common (h0 : host) (loaders : list string) (h : host) : Prop := {
  cm_cover : h_xdp h ⊆ list_to_set loaders;
  cm_mtu : mtus_kept h0 h \/ mtus_back h0 h;
  cm_flags : flags_kept h0 h \/ flags_back h0 h
}.
Lemma common_further h0 loaders h h' : further h0 h h' -> common h0 loaders h -> common h0 loaders h'.
Proof using. clear. intros [F1 F2 F3 F4 F5 F6] [H1 H2 H3]. split; [set_solver|naive_solver..]. Qed.

Lemma closing_step h0 loaders x rest h : common h0 loaders h -> closing h0 (x :: rest) h ->
  let h' := do_stage accepts toggles loaders x h in
  further h0 h h' /\ closing h0 rest h' /\ (x = StExit \/ h_exit h' = h_exit h).
Proof using.
  intros [Hc Hm Hf] Hcl h'.
  assert (Hd : x = StMtu \/ x = StOffloads -> detached h).
  { intros Hx. apply (cl_xdp _ _ _ Hcl). destruct (cl_suffix _ _ _ Hcl) as [k Hk].
    assert (E : x :: rest = drop (length k) stages) by (rewrite Hk; by rewrite drop_app_length).
    destruct (length k) as [|[|[|[|[|n]]]]]; cbn in E; try (by rewrite drop_nil in E); injection E as -> ->; destruct Hx; try done; by_decide. }
  assert (H : further h0 h h' /\ (x = StDb -> h_db h' = false) /\ (x = StXdp -> detached h') /\ (x = StMtu -> mtus_back h0 h') /\
    (x = StOffloads -> flags_back h0 h') /\ (x = StExit \/ h_exit h' = h_exit h) /\ (x = StExit -> h_exit h' = Some 0)).
  { unfold h'. destruct x; cbn [do_stage].
    - split; [by apply further_same|]. naive_solver.
    - destruct (xdp_stage h0 loaders h Hc) as (F & He & Hx). split; [done|]. naive_solver.
    - destruct (mtu_stage h0 h (Hd (or_introl eq_refl))) as (F & Hr & Hb). unfold rest_of in Hr. split; [done|]. naive_solver.
    - destruct (offloads_stage h0 h (Hd (or_intror eq_refl))) as (F & Hr & Hb). unfold rest_of in Hr. split; [done|]. naive_solver.
    - split; [by apply further_same|]. naive_solver. }
  clearbody h'. destruct H as (F & E1 & E2 & E3 & E4 & E5 & E6). split; [done|]. split; [|done].
  assert (Hn : forall y, y ∉ rest -> y = x \/ y ∉ x :: rest) by (intros y; rewrite elem_of_cons; destruct (decide (y = x)); tauto).
  destruct Hcl as [H1 H2 H3 H4 H5 H6]. destruct F as [F1 F2 F3 F4 F5 F6].
  split; [by apply suffix_cons_l in H1|..]; intros Hy; destruct (Hn _ Hy) as [<-|Hy2]; auto.
  - specialize (H3 Hy2). unfold detached in *. set_solver.
  - destruct E5 as [->|E5]; [by apply E6|]. rewrite E5. auto.
Qed.

(** ** The process *)

Section Up.
Context (nics : list string) (h0 : host) (loaders : list string).
Record live (s : process) : Prop := {
  lv_loaders : p_loaders s = loaders;
  lv_main : p_main s <> MAttach /\ p_main s <> MPublish;
  lv_common : common h0 loaders (p_host s);
  lv_sup : forall left, p_sup s = SClosing left -> closing h0 left (p_host s);
  lv_sig : forall left, p_sig s = GClosing left -> closing h0 left (p_host s);
  lv_scripts : PreDown ∈ p_scripts s <-> exists left, p_sig s = GClosing left
}.

(** A step that only changes the host. *)
Lemma live_host s h' : live s -> running s -> further h0 (p_host s) h' -> live (with_host s h').
Proof using.
  intros [H1 H2 H3 H4 H5 H6] Hr F. split; cbn; try done; [by eapply common_further|..];
    intros left E; eapply closing_further; eauto; unfold running in Hr; congruence.
Qed.
Lemma die_further s : further h0 (p_host s) (p_host (die s)).
Proof using. clear. by apply further_same. Qed.
(** A step that leaves the host alone. *)
Lemma live_ctl s s' : live s -> p_host s' = p_host s -> p_loaders s' = p_loaders s ->
  (p_main s' = p_main s \/ p_main s' <> MAttach /\ p_main s' <> MPublish) ->
  (forall left, p_sup s' = SClosing left -> p_sup s = SClosing left \/ left = stages) ->
  (forall left, p_sig s' = GClosing left -> p_sig s = GClosing left \/ left = stages) ->
  (PreDown ∈ p_scripts s' <-> exists left, p_sig s' = GClosing left) -> live s'.
Proof using.
  intros [H1 H2 H3 H4 H5 H6] Eh El Em Eu Eg Es. split; rewrite ?Eh; [congruence| |done|..|done].
  - destruct Em as [->|Em]; done.
  - intros left E. destruct (Eu left E) as [E'| ->]; [by apply H4|apply closing_start].
  - intros left E. destruct (Eg left E) as [E'| ->]; [by apply H5|apply closing_start].
Qed.
Lemma scripts_same s s' : live s -> p_scripts s' = p_scripts s -> p_sig s' = p_sig s -> PreDown ∈ p_scripts s' <-> exists left, p_sig s' = GClosing left.
Proof using. clear. intros Hl -> ->. apply (lv_scripts s Hl). Qed.

Lemma live_own s s' : live s -> running s -> ownStep accepts toggles nics s s' -> live s'.
Proof using.
  intros Hl Hr H. pose proof Hl as [H1 [H2 H2'] H3 H4 H5 H6]. destruct H as [E|E|E E2|E E2|E E2|E|E|E|E|x rest E|x rest E]; [done|done|..].
  - eapply (live_ctl s); cbn; try done; by auto.
  - eapply (live_ctl s); cbn; try done; by auto.
  - eapply (live_ctl s); cbn; try done; [by auto|intros left [= <-]; by right|by auto].
  - eapply (live_ctl (close_all_deferred s)); cbn; try done; [|by auto..].
    apply live_host; [done|done|]. apply close_deferred_stage.
  - apply live_host; [done|done|]. by apply further_same.
  - eapply (live_ctl s); cbn; try done; [by auto..|]. rewrite elem_of_app, <- H6, list_elem_of_singleton. by split; [intros [?|?]|intros; left].
  - eapply (live_ctl s); cbn; try done; [by auto..|intros left [= <-]; by right|]. split; [by eexists|]. intros _. apply elem_of_app. right. by constructor.
  - destruct (closing_step h0 loaders x rest (p_host s) H3 (H4 _ E)) as (F & Hc & _). rewrite <- H1 in F, Hc.
    pose proof (live_host s _ Hl Hr F) as Hl'. destruct Hl' as [G1 G2 G3 G4 G5 G6]. split; cbn in *; try done. intros left [= <-]. exact Hc.
  - destruct (closing_step h0 loaders x rest (p_host s) H3 (H5 _ E)) as (F & Hc & _). rewrite <- H1 in F, Hc.
    pose proof (live_host s _ Hl Hr F) as Hl'. destruct Hl' as [G1 G2 G3 G4 G5 G6]. split; cbn in *; try done; [intros left [= <-]; exact Hc|].
    split; [by eexists|]. intros _. apply H6. by eexists.
Qed.
Lemma live_die s : live s -> running s -> live (die s).
Proof using. intros Hl Hr. apply live_host; [done|done|]. by apply further_same. Qed.
Lemma live_env s s' : live s -> running s -> envStep s s' -> live s'.
Proof using.
  intros Hl Hr H. destruct H as [E|E1 E2 E3|E|E|E|E|E].
  - eapply (live_ctl s); cbn; try done; [by auto..|]. pose proof (lv_scripts s Hl) as H. rewrite E in H. rewrite H. split; by intros [? ?].
  - eapply (live_ctl s); cbn; try done; [by auto..|]. by apply (scripts_same s).
  - destruct (lv_main s Hl). by destruct E.
  - apply live_die; [|unfold running; cbn; destruct (close_deferred_stage h0 (rev (p_loaders s)) (p_host s)) as [_ ->]; exact Hr].
    apply live_host; [done|done|]. apply close_deferred_stage.
  - by apply live_die.
  - by apply live_die.
  - by apply live_die.
Qed.
Lemma live_reach s : h_xdp h0 ⊆ list_to_set loaders -> reach (step accepts toggles nics) (up h0 loaders) s -> live s.
Proof using.
  intros Hc. apply (reach_invariant (step accepts toggles nics) live).
  - split; cbn; try done; [by split; [done|left|left]|]. split; [by intros H%elem_of_nil|by intros [? ?]].
  - intros x y Hx [Hr [H|H]]; [by eapply live_own|by eapply live_env].
Qed.
End Up.
End Stages.

(** C17.  From the moment start-up has published the loaders (a signal before
    that can lose a saved MTU: [signal_loses_saved_mtu]), however the goroutines
    interleave - a signal during the post-up script, a failing TUN reader, two
    shutdowns at once, main() returning meanwhile - and whatever MTUs and flags
    the kernel takes: every MTU and flag is at any time either untouched with its
    saved file still there, or treated as the end of a shutdown leaves it, with
    the file used: restored if the kernel takes the saved value for the detached
    link, unchanged otherwise.  A shutdown that reaches its end leaves status 0,
    the database closed, no program attached and every MTU and flag so treated;
    only the one a signal starts has run the pre-down script. *)
Theorem shutdown_completes accepts toggles nics loaders h0 s :
  h_xdp h0 ⊆ list_to_set loaders -> reach (step accepts toggles nics) (up h0 loaders) s ->
  (mtus_kept h0 (p_host s) \/ mtus_back accepts h0 (p_host s)) /\ (flags_kept h0 (p_host s) \/ flags_back toggles h0 (p_host s)) /\
  (PreDown ∈ p_scripts s <-> exists left, p_sig s = GClosing left) /\
  (p_sup s = SClosing [] \/ p_sig s = GClosing [] ->
   h_exit (p_host s) = Some 0 /\ h_db (p_host s) = false /\ h_xdp (p_host s) = ∅ /\ mtus_back accepts h0 (p_host s) /\ flags_back toggles h0 (p_host s)).
Proof.
  intros Hc Hs. pose proof (live_reach accepts toggles nics h0 loaders s Hc Hs) as [H1 H2 H3 H4 H5 H6].
  destruct H3 as [_ Hm Hf]. split; [exact Hm|]. split; [exact Hf|]. split; [exact H6|]. intros Hd.
  assert (Hcl : closing accepts toggles h0 [] (p_host s)) by (destruct Hd as [E|E]; [exact (H4 _ E)|exact (H5 _ E)]).
  destruct Hcl as [_ C1 C2 C3 C4 C5]. pose proof (fun x : stage => not_elem_of_nil x) as Hn.
  split; [by apply C5|]. split; [by apply C1|]. split; [by apply C2|]. split; [by apply C3|by apply C4].
Qed.

(** ** The end is reached *)

Definition main_rank (m : mainPC) : nat :=
  match m with MAttach => 12 | MPublish => 11 | MAnnounce => 10 | MServe => 8 | MWithdraw => 7 | MDefers => 1 | MReturn => 0 end.
Definition sup_rank (u : supPC) : nat := match u with SIdle => 0 | SPostUp => 1 | SClosing l => length l end.
Definition sig_rank (g : sigPC) : nat := match g with GWait => 0 | GPreDown => 6 | GClosing l => length l end.
Definition life_rank (s : process) : nat :=
  match h_exit (p_host s) with Some _ => O | None => S (main_rank (p_main s) + sup_rank (p_sup s) + sig_rank (p_sig s)) end.

Section End_.
Context (accepts : bool -> string -> Z -> bool) (toggles : bool -> string -> string -> bool -> bool) (nics : list string).

Lemma own_rank s s' : own accepts toggles nics s s' -> (life_rank s' < life_rank s)%nat.
Proof using.
  intros [Hr H]. unfold running in Hr. unfold life_rank. rewrite Hr. destruct (h_exit (p_host s')) eqn:E'; [lia|].
  destruct H as [E|E|E E2|E E2|E E2|E|E|E|E|x rest E|x rest E]; cbn in *; rewrite ?E, ?E2; cbn; (lia || done).
Qed.

(** What keeps the goroutines from waiting for each other for ever. *)
Record sound (s : process) : Prop := {
  so_idle : p_main s = MAttach \/ p_main s = MPublish \/ p_main s = MAnnounce -> p_sup s = SIdle;
  so_wait : p_main s = MWithdraw \/ p_main s = MServe -> p_sup s = SIdle \/ p_sup s = SPostUp;
  so_over : p_sup s = SClosing [] \/ p_sig s = GClosing [] -> h_exit (p_host s) <> None;
  so_sup : forall left, p_sup s = SClosing left -> left `suffix_of` stages;
  so_sig : forall left, p_sig s = GClosing left -> left `suffix_of` stages
}.
Lemma last_stage x loaders h : [x] `suffix_of` stages -> h_exit (do_stage accepts toggles loaders x h) <> None.
Proof using. clear. intros [k Hk]. destruct (app_inj_2 [StDb; StXdp; StMtu; StOffloads] k [StExit] [x] eq_refl Hk) as [_ [= <-]]. done. Qed.
Lemma sound_step s s' : sound s -> step accepts toggles nics s s' -> sound s'.
Proof using.
  intros [H1 H2 H3 H4 H5] [Hr H].
  assert (Hn1 : p_sup s <> SClosing []) by (intros E; by apply H3; [left|]).
  assert (Hn2 : p_sig s <> GClosing []) by (intros E; by apply H3; [right|]).
  assert (Hs : stages `suffix_of` stages) by by exists [].
  destruct H as [H|H]; destruct H as [E|E|E E2|E E2|E E2|E|E|E|E|x rest E|x rest E] || destruct H as [E|E1 E2 E3|E|E|E|E|E]; split; cbn in *;
    try (intros left El; first [by eauto | injection El as <-; first [done|by eapply suffix_cons_l; eauto]]).
  all: intros Hor; repeat match goal with H : _ \/ _ |- _ => destruct H end; try congruence; try (by eauto).
  all: first [exfalso; assert (p_sup s = SIdle) by eauto; congruence
             |exfalso; destruct H2 as [?|?]; [by eauto|congruence..]
             |simplify_eq; apply last_stage; eauto].
Qed.

(** Asked to stop: by a failing TUN reader or a signal. *)
Definition stopping (s : process) : Prop := p_cancelled s = true \/ p_sig s <> GWait.
Lemma stopping_own s s' : own accepts toggles nics s s' -> stopping s -> stopping s'.
Proof using.
  intros [_ H] Hs. destruct H; unfold stopping in *; cbn; try done; by right.
Qed.
Lemma own_progress s : sound s -> running s -> stopping s -> exists s', own accepts toggles nics s s'.
Proof using.
  intros [H1 H2 H3 _ _] Hr Hs. assert (Hgo : (exists s', ownStep accepts toggles nics s s') -> exists s', own accepts toggles nics s s').
  { intros [s' H]. by exists s'. }
  apply Hgo. destruct (p_sup s) as [| |[|x rest]] eqn:Eu.
  - destruct (p_main s) eqn:Em.
    1-3, 5-7: eexists; first [by apply o_attach|by apply o_publish|by apply o_announce|by apply o_withdraw|by apply o_defers|by apply o_return].
    destruct Hs as [Hc|Hg]; [eexists; by apply o_done|]. destruct (p_sig s) as [| |[|x rest]] eqn:Eg; [done|eexists; by apply o_predown| |].
    + destruct H3; [by right|done].
    + eexists. by apply (o_sig _ _ _ _ x rest).
  - eexists. by apply o_postup.
  - destruct H3; [by left|done].
  - eexists. by apply (o_sup _ _ _ _ x rest).
Qed.
End End_.

(** C18.  The process ends.  From every state it can reach, it takes a bounded number
    of steps of its own (scripts that end counted as one); once a TUN reader
    has failed or a signal has come it never waits for ever - the supervisor,
    main() and the signal goroutine do not block each other - and has exited
    when no step is left. *)
Theorem stop_terminates accepts toggles nics h s :
  reach (step accepts toggles nics) (booting h) s \/ reach (step accepts toggles nics) (up h nics) s ->
  (forall n s', nsteps (own accepts toggles nics) n s s' -> (n <= life_rank s)%nat) /\
  (stopping s ->
   (forall s', rtc (own accepts toggles nics) s s' -> (forall s'', ~ own accepts toggles nics s' s'') -> h_exit (p_host s') <> None) /\
   exists s', rtc (own accepts toggles nics) s s' /\ h_exit (p_host s') <> None).
Proof.
  intros Hs. assert (Hw : sound s).
  { destruct Hs as [Hs|Hs]; revert s Hs; (apply reach_invariant; [|intros x y; by apply sound_step]); (split; cbn; [done|naive_solver|naive_solver|done|done]). }
  clear Hs. assert (Hstep : forall x y, own accepts toggles nics x y -> sound x -> sound y).
  { intros x y [Hr H] Hx. eapply sound_step; [exact Hx|]. split; [exact Hr|by left]. }
  split; [|intros Hst; split].
  - intros n. revert s Hw. induction n as [|n IH]; intros s Hw s' H; [lia|]. inversion H as [|? ? y ? H1 H2]; subst.
    pose proof (own_rank _ _ _ _ _ H1). specialize (IH y (Hstep _ _ H1 Hw) _ H2). lia.
  - intros s' H Hstop Hex. assert (Hx : sound s' /\ stopping s').
    { induction H as [|x y z H1 _ IH]; [done|]. apply IH; [by eapply Hstep|by eapply stopping_own|done..]. }
    destruct (own_progress accepts toggles nics s' (proj1 Hx) Hex (proj2 Hx)) as [s'' H2]. by destruct (Hstop s'').
  - induction s as [s IH] using (well_founded_induction (well_founded_ltof _ life_rank)).
    destruct (h_exit (p_host s)) as [c|] eqn:E; [exists s; split; [done|congruence]|].
    destruct (own_progress accepts toggles nics s Hw E Hst) as [y H].
    destruct (IH y (own_rank _ _ _ _ _ H) (Hstep _ _ H Hw) (stopping_own _ _ _ _ _ H Hst)) as (s' & H1 & H2).
    exists s'. split; [by eapply rtc_l|exact H2].
Qed.

(** ** Concrete lives *)

Definition yes (attached : bool) (i f : string) (b : bool) : bool := true.
Ltac own_go c := eapply reach_front; [split; [reflexivity|left; by c]|].
Ltac env_go c := eapply reach_front; [split; [reflexivity|right; by c]|].

(** main() may return before the shutdown it asked for has run: after a failing
    TUN reader the process can exit with status 0 and the NIC's MTU and flags
    still as the bootstrap script left them. *)
Theorem return_overtakes_shutdown : exists s,
  reach (step virtio yes ["eth0"]) (up scaled ["eth0"]) s /\ h_exit (p_host s) = Some 0 /\ p_sup s = SClosing stages /\
  h_links (p_host s) = h_links scaled /\ h_offloads (p_host s) = h_offloads scaled /\ h_files (p_host s) = h_files scaled.
Proof.
  eexists. split.
  - own_go ltac:(apply o_announce). env_go ltac:(apply v_tun). own_go ltac:(apply o_done). own_go ltac:(apply o_postup).
    own_go ltac:(apply o_withdraw). own_go ltac:(apply o_defers). own_go ltac:(apply o_return). apply reach_refl.
  - by repeat split.
Qed.

(** A signal between the attachment of the programs and the publication of the
    loaders: the shutdown detaches nothing, a NIC refuses its old MTU, and the
    saved file is removed all the same. *)
Theorem signal_loses_saved_mtu : exists s,
  reach (step virtio yes ["eth0"]) (booting (with_xdp scaled ∅ [])) s /\ h_exit (p_host s) = Some 0 /\ p_sig s = GClosing [] /\
  h_links (p_host s) !! "eth0" = Some 3506 /\ h_files (p_host s) !! "eth0.wan_mtu.orig" = None.
Proof.
  eexists. split.
  - own_go ltac:(apply o_attach). env_go ltac:(apply v_signal). own_go ltac:(apply o_predown).
    do 5 own_go ltac:(eapply o_sig). apply reach_refl.
  - split; [reflexivity|]. split; [reflexivity|]. split; by vm_compute.
Qed.

(** A TUN reader fails and a signal comes; both shutdowns run, interleaved. *)
Definition twice : process -> Prop := reach (step virtio yes ["eth0"]) (up scaled ["eth0"]).
Lemma shutdown_completes_witness : exists s, twice s /\ p_sig s = GClosing [] /\ h_links (p_host s) !! "eth0" = Some 9000.
Proof.
  assert (H : exists s, twice s /\ p_sig s = GClosing []).
  { eexists. split; [|shelve]. unfold twice.
    own_go ltac:(apply o_announce). env_go ltac:(apply v_tun). env_go ltac:(apply v_signal). own_go ltac:(apply o_done). own_go ltac:(apply o_postup).
    own_go ltac:(apply o_withdraw). own_go ltac:(apply o_predown). own_go ltac:(eapply o_sig). own_go ltac:(eapply o_sup).
    own_go ltac:(eapply o_sig). own_go ltac:(eapply o_sup). own_go ltac:(eapply o_sig). own_go ltac:(eapply o_sup).
    own_go ltac:(eapply o_sig). own_go ltac:(eapply o_sig). apply reach_refl. Unshelve. reflexivity. }
  destruct H as (s & Hs & Hg). exists s. split; [exact Hs|]. split; [exact Hg|].
  destruct (shutdown_completes virtio yes ["eth0"] ["eth0"] scaled s ltac:(by_decide) Hs) as (_ & _ & _ & H).
  destruct (H ltac:(by right)) as (_ & _ & _ & Hm & _). rewrite (proj1 (Hm "eth0")). by vm_compute.
Defined.
Lemma stop_terminates_witness : exists s, reach (step virtio yes ["eth0"]) (booting (with_xdp scaled ∅ [])) s /\
  exists s', rtc (own virtio yes ["eth0"]) s s' /\ h_exit (p_host s') <> None.
Proof.
  exists (with_sig (booting (with_xdp scaled ∅ [])) GPreDown).
  assert (Hs : reach (step virtio yes ["eth0"]) (booting (with_xdp scaled ∅ [])) (with_sig (booting (with_xdp scaled ∅ [])) GPreDown)).
  { env_go ltac:(apply v_signal). apply reach_refl. }
  split; [exact Hs|].
  destruct (stop_terminates virtio yes ["eth0"] (with_xdp scaled ∅ []) _ (or_introl Hs)) as [_ H].
  destruct (H ltac:(by right)) as [_ H']. exact H'.
Defined.
