(* ===== verification/Tunnel.v ===== *)
(** * One tunnel at work: the goroutines of handleConn (main.go)

    The upload side: the reader that takes packets from the client into
    [pktChan], and the forward writer's loop around the rounds of Router, with
    its ticks and its end.  The download side: resequencing, the observers,
    [writeOut] and the answers to ICMP errors.  The way a connection ends: the
    goroutines, [errChan] and the clean-up as interleaved steps. *)
From S2P Require Import Prelude Words Nat Snat TcpParse Reseq Session Conn Egress Router.
Local Open Scope Z_scope.
Local Open Scope masqued_scope.

(** ** Upload: the reader and the writer's loop *)

Definition pktChanCap : Z := 8192.

(** [u_done]: the writer has returned. *)
Record UState (E P : Type) := {
  u_writer : RState E P; pktChan : list (nat * bytes); pktClosed : bool; pktChanDrops : Z; u_done : bool
}.
Arguments u_writer {E P}. Arguments pktChan {E P}. Arguments pktClosed {E P}. Arguments pktChanDrops {E P}.
Arguments u_done {E P}. Arguments Build_UState {E P}.

(** A packet [ip] in the pooled buffer [a], or an error, of [ReadPacket]; the
    writer woken by its channel or by its ticker. *)
Inductive uevent :=
  | UPacket (a : nat) (ip : bytes)
  | UReadErr
  | UWake (now : Z) (iter : list bytes) (heap : gmap nat bytes)
  | UTick (now : Z) (iter : list bytes) (heap : gmap nat bytes).

Section Upload.
Context {E P : Type} `{fwdEgress E} `{FrameSubmitter P}.
Context (cfg : RConfig) (ackViaSocket : bool) (errno : list (bytes * bytes) -> Z).
Context (mapPut : gmap NatRevKey NatRevVal -> NatRevKey -> NatRevVal -> option (gmap NatRevKey NatRevVal)).
Context (arp : nat -> bytes -> option bytes).

(** The flushes of a tick and of the end: the WAN batch in any case, a LAN
    batch when it is not empty. *)
Definition flush_all (s : RState E P) (heap : gmap nat bytes) : RState E P :=
  set_batches s (match r_batches s with
    | [] => []
    | b :: lan => (ForwardBatch_Flush errno heap b).2 ::
                  map (fun b => if ForwardBatch_Empty b then b else (ForwardBatch_Flush errno heap b).2) lan
    end).

(** [None] is a panic; an event that cannot happen leaves the state as it is. *)
Definition ustep (u : UState E P) (e : uevent) : option (UState E P) :=
  match e with
  | UPacket a ip =>
      if pktClosed u then Some u
      else if Z.of_nat (length (pktChan u)) <? pktChanCap
      then Some (Build_UState (u_writer u) (pktChan u ++ [(a, ip)]) false (pktChanDrops u) (u_done u))
      else Some (Build_UState (u_writer u) (pktChan u) false (pktChanDrops u + 1) (u_done u))
  | UReadErr => Some (Build_UState (u_writer u) (pktChan u) true (pktChanDrops u) (u_done u))
  | UWake now iter heap =>
      if u_done u then Some u
      else match pktChan u with
           | (a, ip) :: rest =>
               '(s, rest) ← writer_round cfg ackViaSocket errno mapPut arp (u_writer u) now a ip rest iter heap;
               Some (Build_UState s rest (pktClosed u) (pktChanDrops u) false)
           | [] => if pktClosed u then Some (Build_UState (flush_all (u_writer u) heap) [] true (pktChanDrops u) true) else Some u
           end
  | UTick now iter heap =>
      if u_done u then Some u
      else s ← flush_expired cfg ackViaSocket mapPut arp (u_writer u) now iter;
           Some (Build_UState (flush_all s heap) (pktChan u) (pktClosed u) (pktChanDrops u) false)
  end.

Fixpoint urun (u : UState E P) (es : list uevent) : option (UState E P) :=
  match es with
  | [] => Some u
  | e :: es => u ← ustep u e; urun u es
  end.
End Upload.

(** ** Download *)

(** What [WritePacket] answers: an ICMP error to send back (or nothing), an
    error, or that the connection is closed. *)
Inductive wpResult := WpSent (icmp : bytes) | WpError | WpClosed.

(** [d_calls]: the packets [WritePacket] was called with, oldest first. *)
Record DState (P : Type) := {
  d_calls : list bytes; d_pump : P; d_socket : list (bytes * bytes);
  d_reseq : ForwardReseq; d_obs : OrderObserver; d_gen : PreSendGenuineObserver; d_alive : bool
}.
Arguments d_calls {P}. Arguments d_pump {P}. Arguments d_socket {P}. Arguments d_reseq {P}.
Arguments d_obs {P}. Arguments d_gen {P}. Arguments d_alive {P}. Arguments Build_DState {P}.

Definition NewPreSendGenuineObserver : PreSendGenuineObserver :=
  {| psFlows := ∅; PreSendTotal := 0; PreSendGenuine := 0; PreSendRetr := 0 |}.

Definition new_dstate {P} (pump : P) : DState P :=
  Build_DState [] pump [] (NewForwardReseq 64 5000000) NewOrderObserver NewPreSendGenuineObserver true.

Section Download.
Context {P : Type} `{FrameSubmitter P}.
(** [WritePacket] of the connection, the neighbour table of the WAN connection,
    the kernel's answer to a raw-socket send. *)
Context (WritePacket : list bytes -> bytes -> wpResult) (srcMAC gwMAC : bytes) (neigh : neighTable).
Context (errno : list (bytes * bytes) -> Z).
Context (reseqEnabled stats : bool).

Definition with_calls (d : DState P) c := Build_DState c (d_pump d) (d_socket d) (d_reseq d) (d_obs d) (d_gen d) (d_alive d).
Definition with_sent (d : DState P) (pump : P) msgs := Build_DState (d_calls d) pump (d_socket d ++ msgs) (d_reseq d) (d_obs d) (d_gen d) (d_alive d).
Definition with_reseq (d : DState P) r := Build_DState (d_calls d) (d_pump d) (d_socket d) r (d_obs d) (d_gen d) (d_alive d).
Definition with_obs (d : DState P) o g := Build_DState (d_calls d) (d_pump d) (d_socket d) (d_reseq d) o g (d_alive d).
Definition dead (d : DState P) := Build_DState (d_calls d) (d_pump d) (d_socket d) (d_reseq d) (d_obs d) (d_gen d) false.

(** The ICMP error goes to the next hop of its own destination; [None] is the
    panic on one of fewer than 20 bytes. *)
Definition send_icmp (d : DState P) (icmp : bytes) : option (DState P) :=
  if (length icmp <? 20)%nat then None
  else let dstMAC := NextHopMACForIP neigh gwMAC (slice icmp 16 20) in
       '(_, msgs, pump) ← ForwardSendOne errno {[0%nat := icmp]} (d_pump d) srcMAC dstMAC 0 icmp;
       Some (with_sent d pump msgs).

Fixpoint writeOut (d : DState P) (pkts : list bytes) : option (DState P) :=
  match pkts with
  | [] => Some d
  | b :: pkts =>
      let answer := WritePacket (d_calls d) b in
      let d := with_calls d (d_calls d ++ [b]) in
      match answer with
      | WpClosed => Some (dead d)
      | WpError => writeOut d pkts
      | WpSent icmp => if (0 <? length icmp)%nat then d ← send_icmp d icmp; writeOut d pkts else writeOut d pkts
      end
  end.

(** A packet from [tunChan], or a tick of the 1 ms timer. *)
Inductive devent := DPacket (pkt : bytes) (now : Z) | DTimer (now : Z) (iter : list bytes).

Definition dstep (d : DState P) (e : devent) : option (DState P) :=
  if negb (d_alive d) then Some d
  else match e with
  | DPacket pkt now =>
      let d := if stats then with_obs d (PreReseq_Observe (d_obs d) pkt) (PreSend_Observe (d_gen d) pkt) else d in
      if reseqEnabled then let '(out, r) := Push (d_reseq d) pkt now [] in writeOut (with_reseq d r) out
      else writeOut d [pkt]
  | DTimer now iter =>
      if reseqEnabled then let '(out, r) := FlushExpired iter (d_reseq d) now [] in writeOut (with_reseq d r) out
      else Some d
  end.

Fixpoint drun (d : DState P) (es : list devent) : option (DState P) :=
  match es with
  | [] => Some d
  | e :: es => d ← dstep d e; drun d es
  end.
End Download.

(** ** The end of a connection *)

(** Where each goroutine stands.  [Sending]: at its send on [errChan], which
    blocks while the channel is full. *)
Inductive goroutine := Working | Sending | Stopped.
Inductive mainAt := WaitFirst | CleanUp | WaitSecond | Returned.
Global Instance goroutine_eq_dec : EqDecision goroutine.
Proof. solve_decision. Defined.
Global Instance mainAt_eq_dec : EqDecision mainAt.
Proof. solve_decision. Defined.

Definition errChanCap : nat := 2.

Record exitState := {
  x_reader : goroutine; x_writer : goroutine; x_down : goroutine; x_main : mainAt;
  x_errs : nat;                                          (* values in errChan *)
  x_pktClosed : bool; x_tunClosed : bool; x_connClosed : bool
}.
Definition exit_init : exitState :=
  {| x_reader := Working; x_writer := Working; x_down := Working; x_main := WaitFirst;
     x_errs := 0; x_pktClosed := false; x_tunClosed := false; x_connClosed := false |}.

(** Work on packets changes none of this and is left out.  [EReaderFails] may
    happen at any time (the client is gone); the other errors have the causes
    the code gives them.  [EWriterFails] is a batch that cannot be created;
    [EDownClosed] a [WritePacket] that reports the connection closed, by our
    side or by the peer. *)
Inductive exitEvent :=
  | EReaderFails | EReaderSends | EWriterFails | EWriterClosed | EWriterSends
  | EDownClosed | EDownChannel | EMainFirst | EMainCleanUp | EMainSecond.

(** The non-blocking send of the download goroutine. *)
Definition try_send (n : nat) : nat := if (n <? errChanCap)%nat then S n else n.

Definition exit_step (s : exitState) (e : exitEvent) : option exitState :=
  let '{| x_reader := r; x_writer := w; x_down := d; x_main := m; x_errs := n; x_pktClosed := pc; x_tunClosed := tc; x_connClosed := cc |} := s in
  match e, r, w, d, m with
  | EReaderFails, Working, _, _, _ => Some (Build_exitState Sending w d m n true tc cc)
  | EReaderSends, Sending, _, _, _ => if (n <? errChanCap)%nat then Some (Build_exitState Stopped w d m (S n) pc tc cc) else None
  | EWriterFails, _, Working, _, _ => Some (Build_exitState r Sending d m n pc tc cc)
  | EWriterClosed, _, Working, _, _ => if pc then Some (Build_exitState r Sending d m n pc tc cc) else None
  | EWriterSends, _, Sending, _, _ => if (n <? errChanCap)%nat then Some (Build_exitState r Stopped d m (S n) pc tc cc) else None
  | EDownClosed, _, _, Working, _ => Some (Build_exitState r w Stopped m (try_send n) pc tc cc)
  | EDownChannel, _, _, Working, _ => if tc then Some (Build_exitState r w Stopped m (try_send n) pc tc cc) else None
  | EMainFirst, _, _, _, WaitFirst => match n with S n => Some (Build_exitState r w d CleanUp n pc tc cc) | O => None end
  | EMainCleanUp, _, _, _, CleanUp => Some (Build_exitState r w d WaitSecond n pc true true)
  | EMainSecond, _, _, _, WaitSecond => match n with S n => Some (Build_exitState r w d Returned n pc tc cc) | O => None end
  | _, _, _, _, _ => None
  end.
