(* ===== verification/TunnelProps.v ===== *)
(** * Properties of a tunnel at work: upload accounting, download order, the end *)
From S2P Require Import Prelude Words Nat Snat TcpParse Reseq ReseqProps ReseqRuns Session Conn Egress EgressProps Router RouterProps Tunnel.
Local Open Scope Z_scope.
Local Open Scope masqued_scope.

(** ** Upload *)

(** The packets read before the first read error. *)
Fixpoint arrivals (es : list uevent) : Z :=
  match es with
  | [] => 0
  | UReadErr :: _ => 0
  | UPacket _ _ :: es => 1 + arrivals es
  | _ :: es => arrivals es
  end.
Definition headers_ok (es : list uevent) : Prop :=
  Forall (fun e => match e with UPacket _ ip => (20 <= length ip)%nat | _ => True end) es.

Section Upload.
Context {E : Type} `{EgressLog E} (cfg : RConfig) (ack : bool) (errno : list (bytes * bytes) -> Z).
Context (mapPut : gmap NatRevKey NatRevVal -> NatRevKey -> NatRevVal -> option (gmap NatRevKey NatRevVal)).
Context (arp : nat -> bytes -> option bytes).
Local Abbreviation U := (UState E (list bytes)).

Record upload_ok (u : U) : Prop := {
  uo_writer : writer_ok cfg (u_writer u);
  uo_flushed : Forall fb_flushed (r_batches (u_writer u));
  uo_plain : r_reseq (u_writer u) = None;
  uo_chan : Forall (fun p => (20 <= length p.2)%nat) (pktChan u);
  uo_cap : Z.of_nat (length (pktChan u)) <= pktChanCap;
  uo_done : u_done u = true -> pktChan u = [] /\ pktClosed u = true
}.

(** Everything that became of the packets of a tunnel. *)
Definition upload_total (u : U) : Z := pktChanDrops u + Z.of_nat (length (pktChan u)) + total (u_writer u).

Lemma flush_all_ok (s : RState E (list bytes)) heap : writer_ok cfg s ->
  writer_ok cfg (flush_all errno s heap) /\ total (flush_all errno s heap) = total s /\
  Forall fb_flushed (r_batches (flush_all errno s heap)).
Proof.
  intros Hw. unfold flush_all. refine (flushed_ok cfg s _ Hw _). generalize (r_batches s). intros [|b lan]; constructor.
  - intros Hb. by apply ForwardBatch_Flush_total.
  - induction lan; constructor; [apply flush_if_flushes|done].
Qed.

Local Ltac fin := split; [cbn [u_writer pktChan pktClosed pktChanDrops u_done length]; lia|done].

Lemma ustep_ok (u : U) e : upload_ok u -> headers_ok [e] ->
  exists u', ustep cfg ack errno mapPut arp u e = Some u' /\ upload_ok u' /\
    upload_total u' = upload_total u + (match e with UPacket _ _ => if pktClosed u then 0 else 1 | _ => 0 end) /\
    pktClosed u' = (match e with UReadErr => true | _ => pktClosed u end).
Proof.
  intros [H1 H2 H3 H4 H5 H6] Hh. destruct u as [s ch cl dr dn]. cbn [u_writer pktChan pktClosed pktChanDrops u_done] in *.
  unfold upload_total. destruct e as [a ip| |now iter heap|now iter heap]; cbn [ustep u_writer pktChan pktClosed pktChanDrops u_done].
  - inversion Hh as [|? ? Hip _]; subst. destruct cl; [eexists; split; [done|]; split; [by constructor|]; fin|].
    assert (dn = false) as -> by (destruct dn; [by destruct H6|done]).
    destruct (_ <? pktChanCap) eqn:El; bool_hyps; (eexists; split; [done|]); cbn [u_writer pktChan pktClosed pktChanDrops u_done].
    + rewrite length_app. cbn. split; [constructor; cbn; try done|fin].
      * apply Forall_app. split; [done|]. by repeat constructor.
      * rewrite length_app. cbn. lia.
    + split; [by constructor|]. fin.
  - eexists. split; [done|]. split; [|fin]. constructor; cbn; try done. intros ->. by destruct H6.
  - destruct dn; [eexists; split; [done|]; split; [by constructor|fin]|].
    destruct ch as [|[a ip] rest].
    + destruct cl; [|eexists; split; [done|]; split; [by constructor|fin]].
      destruct (flush_all_ok s heap H1) as (F1 & F2 & F3). eexists. split; [done|]. split; [by constructor|]. fin.
    + destruct (writer_round_ok cfg ack errno mapPut arp s now a ip rest iter heap H1 H2 H3 H4) as (s' & d & rest' & -> & -> & W1 & W2 & W3 & W4).
      cbn [mbind option_bind]. eexists. split; [done|]. rewrite !length_cons, !length_app in *. inversion H4 as [|? ? _ Hr]; subst. apply Forall_app in Hr as [_ Hr].
      split; [constructor; cbn; try done; lia|]. fin.
  - destruct dn; [eexists; split; [done|]; split; [by constructor|fin]|].
    unfold flush_expired. rewrite H3. cbn [mbind option_bind].
    destruct (flush_all_ok s heap H1) as (F1 & F2 & F3). eexists. split; [done|]. split; [by constructor|]. fin.
Qed.

Lemma urun_ok es : forall u : U, upload_ok u -> headers_ok es ->
  exists u', urun cfg ack errno mapPut arp u es = Some u' /\ upload_ok u' /\
    upload_total u' = upload_total u + (if pktClosed u then 0 else arrivals es).
Proof.
  induction es as [|e es IH]; intros u Hu Hh.
  { exists u. cbn. split; [done|]. split; [done|]. destruct (pktClosed u); lia. }
  inversion Hh as [|? ? He Hes]; subst. destruct (ustep_ok u e Hu) as (u1 & Es & Hu1 & Et & Ec); [by constructor|].
  destruct (IH u1 Hu1 Hes) as (u2 & Er & Hu2 & Et2). exists u2. cbn [urun]. rewrite Es. cbn [mbind option_bind].
  split; [done|]. split; [done|]. rewrite Et2, Et, Ec. destruct e, (pktClosed u); cbn [arrivals]; lia.
Qed.
End Upload.

(** C13. The upload side of a tunnel without the resequencer
    (FORWARD_UPLOAD_RESEQ=false; with it a round can outgrow the batches and
    panic, see [writer_round_overflow]), for packets that have the 20 bytes of an
    IPv4 header: it never panics and loses no packet unseen.  Whatever the order
    of arrivals, wake-ups and ticks, every packet read before the reader's error
    is counted as a drop of the full channel, still waits in it, or has been
    written, sent, handed to a batch or dropped under its own counter by the
    forward router, each exactly once; the channel keeps within its capacity; and
    when the writer returns the channel is empty and every batch flushed. *)
Theorem upload_accounts {E} `{EgressLog E} cfg ack errno mapPut arp (s : RState E (list bytes)) es :
  writer_ok cfg s -> Forall fb_flushed (r_batches s) -> r_reseq s = None -> headers_ok es ->
  exists u, urun cfg ack errno mapPut arp (Build_UState s [] false 0 false) es = Some u /\
    arrivals es = pktChanDrops u + Z.of_nat (length (pktChan u)) + (total (u_writer u) - total s) /\
    Z.of_nat (length (pktChan u)) <= pktChanCap /\
    Forall fb_flushed (r_batches (u_writer u)) /\
    (u_done u = true -> pktChan u = []).
Proof.
  intros Hw He Hr Hh. destruct (urun_ok cfg ack errno mapPut arp es (Build_UState s [] false 0 false)) as (u & Eu & [H1 H2 H3 H4 H5 H6] & Ht);
    [by constructor|done|]. exists u. split; [done|]. unfold upload_total in Ht. cbn in Ht. split; [lia|]. split; [done|]. split; [done|].
  intros Hd. by destruct (H6 Hd).
Qed.

Lemma upload_accounts_witness :
  let es := [UPacket 1 (tiny_segment 100); UPacket 2 peer_packet; UWake 7 [] ∅; UTick 8 [] ∅; UReadErr; UWake 9 [] ∅] in
  exists u, @urun PacketBatch (list bytes) (PacketBatch_egress (fun _ => 0)) _ cfg_router true (fun _ => 0) plain_put (fun _ _ => None)
      (Build_UState (writer_example None) [] false 0 false) es = Some u /\
    2 = pktChanDrops u + Z.of_nat (length (pktChan u)) +
        (@total PacketBatch _ (PacketBatch_log (fun _ => 0)) (u_writer u) - @total PacketBatch _ (PacketBatch_log (fun _ => 0)) (writer_example None)).
Proof.
  intros es.
  destruct (@upload_accounts PacketBatch (PacketBatch_egress (fun _ => 0)) (PacketBatch_log (fun _ => 0)) cfg_router true (fun _ => 0) plain_put (fun _ _ => None)
    (writer_example None) es) as (u & Hu & Ht & _).
  - exact (writer_example_ok None).
  - exact (writer_example_flushed None).
  - reflexivity.
  - repeat (apply List.Forall_cons; [cbn; lia|]). apply List.Forall_nil.
  - exists u. split; [exact Hu|exact Ht].
Defined.

(** ** Download *)

Lemma SendOnSocket_some errno heap a pkt stats : exists x, SendOnSocket errno heap a pkt stats = Some x.
Proof.
  unfold SendOnSocket, SocketBatch_Add. cbn [NewSocketBatch sb_count]. replace (MaxSocketBatchSize <=? 0)%nat with false by reflexivity. cbv zeta.
  destruct (IPVersion pkt =? 4); [destruct (length pkt <? 20)%nat|destruct (IPVersion pkt =? 6); [destruct (length pkt <? 40)%nat|]];
    cbn [mbind option_bind]; eauto; match goal with |- context [SocketBatch_Flush errno heap ?b ?d] => destruct (SocketBatch_Flush errno heap b d) end; eauto.
Qed.

Section Download.
Context {P : Type} `{FrameSubmitter P} (WritePacket : list bytes -> bytes -> wpResult) (srcMAC gwMAC : bytes) (neigh : neighTable).
Context (errno : list (bytes * bytes) -> Z) (reseqEnabled stats : bool).
Local Abbreviation run := (drun WritePacket srcMAC gwMAC neigh errno reseqEnabled stats).
Local Abbreviation write := (writeOut WritePacket srcMAC gwMAC neigh errno).

(** connect-ip answers with no packet or a whole ICMP packet. *)
Definition icmp_whole : Prop := forall k b icmp, WritePacket k b = WpSent icmp -> icmp = [] \/ (20 <= length icmp)%nat.

Lemma send_icmp_some (d : DState P) icmp : (20 <= length icmp)%nat ->
  exists d', send_icmp srcMAC gwMAC neigh errno d icmp = Some d' /\ d_calls d' = d_calls d /\ d_reseq d' = d_reseq d /\ d_alive d' = d_alive d.
Proof.
  intros Hl. unfold send_icmp. replace (length icmp <? 20)%nat with false by (symmetry; apply Nat.ltb_ge; lia). cbv zeta.
  unfold ForwardSendOne. destruct (isXDPEligible icmp).
  - destruct (SendOne _ _ _ _ _) as [r pump]. eexists. split; [reflexivity|done].
  - destruct (SendOnSocket_some errno {[0%nat := icmp]} 0 icmp false) as [[r m] ->]. cbn. eexists. split; [reflexivity|done].
Qed.

(** [writeOut] offers its packets in order and stops at the first answer that
    the connection is closed. *)
Lemma writeOut_spec (Hicmp : icmp_whole) pkts : forall d : DState P, d_alive d = true -> exists d', write d pkts = Some d' /\ d_reseq d' = d_reseq d /\
  if d_alive d' then d_calls d' = d_calls d ++ pkts /\ (forall k b r, pkts = k ++ b :: r -> WritePacket (d_calls d ++ k) b <> WpClosed)
  else exists k b r, pkts = k ++ b :: r /\ d_calls d' = d_calls d ++ k ++ [b] /\ WritePacket (d_calls d ++ k) b = WpClosed.
Proof.
  induction pkts as [|b pkts IH]; intros d Ha.
  { exists d. cbn. split; [done|]. split; [done|]. rewrite Ha, app_nil_r. split; [done|]. by intros [|? ?] b r Hk. }
  cbn [writeOut]. set (d1 := with_calls d (d_calls d ++ [b])).
  assert (Hgo : forall d2 : DState P, d_calls d2 = d_calls d ++ [b] -> d_reseq d2 = d_reseq d -> d_alive d2 = true -> WritePacket (d_calls d) b <> WpClosed ->
    exists d', write d2 pkts = Some d' /\ d_reseq d' = d_reseq d /\
    if d_alive d' then d_calls d' = d_calls d ++ b :: pkts /\ (forall k c r, b :: pkts = k ++ c :: r -> WritePacket (d_calls d ++ k) c <> WpClosed)
    else exists k c r, b :: pkts = k ++ c :: r /\ d_calls d' = d_calls d ++ k ++ [c] /\ WritePacket (d_calls d ++ k) c = WpClosed).
  { intros d2 Hc Hr Ha2 Hb. destruct (IH d2 Ha2) as (d' & Hw & Hr' & Hd). exists d'. split; [done|]. split; [congruence|].
    rewrite Hc in Hd. destruct (d_alive d').
    - destruct Hd as [Hd Hd2]. rewrite <- app_assoc in Hd. split; [done|]. intros [|x k] c r Hk; injection Hk as -> Hk; [by rewrite app_nil_r|].
      specialize (Hd2 _ _ _ Hk). by rewrite <- app_assoc in Hd2.
    - destruct Hd as (k & c & r & -> & Hd & Hcl). exists (b :: k), c, r. rewrite <- app_assoc in Hd, Hcl. done. }
  destruct (WritePacket (d_calls d) b) as [icmp| |] eqn:Ew.
  - destruct (0 <? length icmp)%nat eqn:El; [|by apply Hgo]. apply Nat.ltb_lt in El.
    destruct (Hicmp _ _ _ Ew) as [->|Hl]; [cbn in El; lia|].
    destruct (send_icmp_some d1 icmp Hl) as (d2 & -> & H1 & H2 & H3). cbn [mbind option_bind]. apply Hgo; [by rewrite H1|by rewrite H2|by rewrite H3|done].
  - by apply Hgo.
  - exists (dead d1). split; [done|]. split; [done|]. cbn. exists [], b, pkts. rewrite app_nil_r. done.
Qed.
End Download.

(** The packets among a list of events, with the times they are handled at. *)
Definition dpackets (es : list devent) : list (bytes * Z) :=
  omap (fun e => match e with DPacket pkt now => Some (pkt, now) | DTimer _ _ => None end) es.

(** What the resequencer is given. *)
Definition rop_of (e : devent) : rop := match e with DPacket pkt now => RPush pkt now | DTimer now iter => RExpire now iter end.
Lemma arrived_dpackets key es : (arrived key (map rop_of es)).*1 = filter (on_flow key) (dpackets es).*1.
Proof.
  induction es as [|[pkt now|now iter] es IH]; [done| |exact IH]. unfold arrived, dpackets. cbn [map omap list_omap rop_of fmap list_fmap].
  fold (arrived key (map rop_of es)) (dpackets es). destruct (decide (on_flow key pkt)) as [Hp|Hp]; cbn [fmap list_fmap fst].
  - rewrite filter_cons_True by done. f_equal. exact IH.
  - rewrite filter_cons_False by done. exact IH.
Qed.

Section DownloadRuns.
Context {P : Type} `{FrameSubmitter P} (WritePacket : list bytes -> bytes -> wpResult) (srcMAC gwMAC : bytes) (neigh : neighTable).
Context (errno : list (bytes * bytes) -> Z) (stats : bool) (Hicmp : icmp_whole WritePacket).

Lemma drun_dead reseq es (d : DState P) : d_alive d = false -> drun WritePacket srcMAC gwMAC neigh errno reseq stats d es = Some d.
Proof using. intros Hd. induction es as [|e es IH]; [done|]. cbn [drun]. unfold dstep. rewrite Hd. exact IH. Qed.

Lemma drun_plain es : forall d : DState P, d_alive d = true ->
  exists d', drun WritePacket srcMAC gwMAC neigh errno false stats d es = Some d' /\
  if d_alive d' then d_calls d' = d_calls d ++ (dpackets es).*1
  else exists k b r, (dpackets es).*1 = k ++ b :: r /\ d_calls d' = d_calls d ++ k ++ [b] /\ WritePacket (d_calls d ++ k) b = WpClosed.
Proof using Hicmp.
  induction es as [|e es IH]; intros d Ha.
  { exists d. split; [done|]. rewrite Ha. cbn. by rewrite app_nil_r. }
  cbn [drun]. unfold dstep at 1. rewrite Ha. cbn [negb]. destruct e as [pkt now|now iter]; [|exact (IH d Ha)].
  set (d1 := if stats then _ else d). assert (H1 : d_alive d1 = true /\ d_calls d1 = d_calls d) by (subst d1; by destruct stats).
  destruct H1 as [Ha1 Hc1]. destruct (writeOut_spec WritePacket srcMAC gwMAC neigh errno Hicmp [pkt] d1 Ha1) as (d2 & Hw & _ & Hs).
  change (if stats then _ else d) with d1. rewrite Hw. cbn [mbind option_bind]. destruct (d_alive d2) eqn:Ha2.
  - destruct Hs as [Hs _]. destruct (IH d2 Ha2) as (d' & -> & Hd). exists d'. split; [done|]. rewrite Hs, Hc1 in Hd. cbn [dpackets omap list_omap fmap list_fmap] in *.
    destruct (d_alive d'); [by rewrite <- app_assoc in Hd|].
    destruct Hd as (k & b & r & Hk & Hd & Hcl). exists (pkt :: k), b, r. rewrite <- app_assoc in Hd, Hcl. split; [|done]. cbn. by f_equal.
  - destruct Hs as (k & b & r & Hk & Hd & Hcl). rewrite drun_dead by done. exists d2. split; [done|]. rewrite Ha2.
    destruct k as [|x k]; [|by destruct k]. injection Hk as <- <-. exists [], pkt, (dpackets es).*1. rewrite Hc1 in Hd, Hcl. done.
Qed.

Lemma writeOut_prefix pkts (d : DState P) : d_alive d = true -> exists d', writeOut WritePacket srcMAC gwMAC neigh errno d pkts = Some d' /\
  d_reseq d' = d_reseq d /\ if d_alive d' then d_calls d' = d_calls d ++ pkts
  else exists w, d_calls d' = d_calls d ++ w /\ w `prefix_of` pkts.
Proof using Hicmp.
  intros Ha. destruct (writeOut_spec WritePacket srcMAC gwMAC neigh errno Hicmp pkts d Ha) as (d' & Hw & Hr & Hs).
  exists d'. split; [done|]. split; [done|]. destruct (d_alive d'); [by destruct Hs|]. destruct Hs as (k & b & rest & -> & Hc & _).
  exists (k ++ [b]). split; [done|]. exists rest. by rewrite <- app_assoc.
Qed.

Lemma drun_reseq es : forall d : DState P, d_alive d = true ->
  exists d', drun WritePacket srcMAC gwMAC neigh errno true stats d es = Some d' /\
    if d_alive d' then d_calls d' = d_calls d ++ (rop_run (d_reseq d) (map rop_of es)).1
    else exists w, d_calls d' = d_calls d ++ w /\ w `prefix_of` (rop_run (d_reseq d) (map rop_of es)).1.
Proof using Hicmp.
  induction es as [|e es IH]; intros d Ha.
  { exists d. cbn. rewrite Ha. by rewrite app_nil_r. }
  cbn [drun map]. rewrite rop_run_cons. cbn [fst].
  set (d1 := match e with DPacket pkt _ => if stats then with_obs d (PreReseq_Observe (d_obs d) pkt) (PreSend_Observe (d_gen d) pkt) else d | _ => d end).
  assert (H1 : d_alive d1 = true /\ d_calls d1 = d_calls d /\ d_reseq d1 = d_reseq d) by (subst d1; destruct e; [by destruct stats|done]).
  destruct H1 as (Ha1 & Hc1 & Hr1). destruct (rop_step (d_reseq d) (rop_of e)) as [o r1] eqn:Eo. cbn [fst snd].
  destruct (writeOut_prefix o (with_reseq d1 r1) Ha1) as (d2 & Hw & Hr2 & Hs). cbn [with_reseq d_reseq d_calls] in *.
  assert (Estep : dstep WritePacket srcMAC gwMAC neigh errno true stats d e = Some d2).
  { unfold dstep. rewrite Ha. cbn [negb]. destruct e; cbn [rop_of rop_step] in Eo; cbv zeta; [|by rewrite Eo].
    change (if stats then _ else d) with d1. by rewrite Hr1, Eo. }
  rewrite Estep. cbn [mbind option_bind]. destruct (d_alive d2) eqn:Ha2.
  - destruct (IH d2 Ha2) as (d' & -> & Hd). exists d'. split; [done|]. rewrite Hr2, Hs, Hc1 in Hd.
    destruct (d_alive d'); [by rewrite Hd, <- app_assoc|]. destruct Hd as (w & Hd & Hp). exists (o ++ w). rewrite Hd, <- app_assoc. split; [done|].
    by apply prefix_app.
  - rewrite drun_dead by done. exists d2. split; [done|]. rewrite Ha2. destruct Hs as (w & Hd & Hp). exists w. rewrite Hd, Hc1. split; [done|].
    etrans; [exact Hp|]. by apply prefix_app_r.
Qed.
End DownloadRuns.

(** Download without the resequencer: every packet taken from the tunnel's
    channel is offered to the connection once, unchanged and in the order of the
    channel, whatever the statistics and the ICMP answers do, until the
    connection reports that it is closed; that packet is the last. *)
Theorem download_fifo {P} `{FrameSubmitter P} WritePacket srcMAC gwMAC neigh errno stats (pump : P) es (Hicmp : icmp_whole WritePacket) :
  exists d, drun WritePacket srcMAC gwMAC neigh errno false stats (new_dstate pump) es = Some d /\
  if d_alive d then d_calls d = (dpackets es).*1
  else exists k b r, (dpackets es).*1 = k ++ b :: r /\ d_calls d = k ++ [b] /\ WritePacket k b = WpClosed.
Proof. apply (drun_plain _ _ _ _ _ _ Hicmp es (new_dstate pump) eq_refl). Qed.

Lemma download_fifo_witness :
  let wp k b := if (length (A := bytes) k =? 2)%nat then WpClosed else WpSent (if (length (A := Z) b =? 3)%nat then peer_packet else []) in
  exists d, drun wp [] [2;0;0;0;0;1] None (fun _ => 0) false true (new_dstate ([] : list bytes))
      [DPacket [1] 1; DTimer 2 []; DPacket [1;2;3] 3; DPacket [4] 4; DPacket [5] 5] = Some d /\ d_calls d = [[1]; [1;2;3]; [4]].
Proof.
  intros wp. destruct (@download_fifo (list bytes) _ wp [] [2;0;0;0;0;1] None (fun _ => 0) true ([] : list bytes)
    [DPacket [1] 1; DTimer 2 []; DPacket [1;2;3] 3; DPacket [4] 4; DPacket [5] 5]) as (d & Hd & _).
  - intros k b icmp. unfold wp. destruct (_ =? 2)%nat; [discriminate|]. destruct (_ =? 3)%nat; intros [= <-]; [right; cbn; lia|by left].
  - exists d. split; [exact Hd|]. vm_compute in Hd. injection Hd as <-. reflexivity.
Defined.



(** ** The end of a connection *)

Global Instance exitState_eq_dec : EqDecision exitState.
Proof. solve_decision. Defined.

Definition xstep (s s' : exitState) : Prop := exists e, exit_step s e = Some s'.
Definition all_events : list exitEvent :=
  [EReaderFails; EReaderSends; EWriterFails; EWriterClosed; EWriterSends; EDownClosed; EDownChannel; EMainFirst; EMainCleanUp; EMainSecond].

(** Events that nothing in the server forces: errors of the peer's making.  Once
    the connection is closed, [ReadPacket] does return its error. *)
Definition spontaneous (s : exitState) (e : exitEvent) : bool :=
  match e with EReaderFails | EDownClosed => negb (x_connClosed s) | EWriterFails => true | _ => false end.

Definition g_weight (g : goroutine) : nat := match g with Working => 2 | Sending => 1 | Stopped => 0 end.
Definition m_weight (m : mainAt) : nat := match m with WaitFirst => 3 | CleanUp => 2 | WaitSecond => 1 | Returned => 0 end.
Definition exit_measure (s : exitState) : nat := g_weight (x_reader s) + g_weight (x_writer s) + g_weight (x_down s) + m_weight (x_main s).

Definition over (s : exitState) : bool :=
  bool_decide (x_reader s = Stopped /\ x_writer s = Stopped /\ x_down s = Stopped /\ x_main s = Returned /\
               x_pktClosed s = true /\ x_tunClosed s = true /\ x_connClosed s = true).
Definition forced (s : exitState) : bool :=
  existsb (fun e => bool_decide (is_Some (exit_step s e)) && negb (spontaneous s e)) all_events.

(** The reachable states: [fuel] rounds from a list. *)
Fixpoint explore (fuel : nat) (l : list exitState) : list exitState :=
  match fuel with
  | O => l
  | S fuel => explore fuel (remove_dups (l ++ mjoin (map (fun s => omap (exit_step s) all_events) l)))
  end.
Definition reachable : list exitState := Eval vm_compute in explore 10 [exit_init].

Lemma reachable_closed : forallb (fun s => forallb (fun e => match exit_step s e with Some s' => bool_decide (s' ∈ reachable) | None => true end) all_events) reachable = true.
Proof. vm_compute. reflexivity. Qed.
Lemma reachable_forced : forallb (fun s => bool_decide (s = exit_init) || over s || forced s) reachable = true.
Proof. vm_compute. reflexivity. Qed.

Lemma all_events_spec e : e ∈ all_events.
Proof. apply list_elem_of_In. destruct e; cbn; tauto. Qed.
Lemma forallb_elem {A} (f : A -> bool) l x : forallb f l = true -> x ∈ l -> f x = true.
Proof. intros Hf Hx. rewrite forallb_forall in Hf. apply Hf. by apply list_elem_of_In. Qed.
Lemma reach_reachable s : reach xstep exit_init s -> s ∈ reachable.
Proof.
  apply (reach_invariant xstep (fun s => s ∈ reachable)); [apply (bool_decide_unpack _); vm_compute; exact I|]. intros s1 s2 Hs [e He].
  pose proof (forallb_elem _ _ e (forallb_elem _ _ s1 reachable_closed Hs) (all_events_spec e)) as Hc. cbv beta in Hc. rewrite He in Hc.
  by apply bool_decide_eq_true in Hc.
Qed.
Lemma exit_step_measure s e s' : exit_step s e = Some s' -> (exit_measure s' < exit_measure s)%nat.
Proof.
  destruct s as [r w d m n pc tc cc]. unfold exit_measure. destruct e, r, w, d, m; cbn; intros Hs; try discriminate;
    repeat match type of Hs with (if ?b then _ else _) = _ => destruct b | match ?k with O => _ | _ => _ end = _ => destruct k end;
    try discriminate; injection Hs as <-; cbn; lia.
Qed.

(** C12. A connection always comes to its end.  Once any of the three goroutines
    has failed, and whatever the interleaving, the handler and all of them finish
    within nine steps: as long as one has not, some step that does not wait for
    the peer is possible, and every step brings the end nearer; no goroutine
    stays blocked on [errChan], and both channels and the connection are closed. *)
Theorem exit_completes s : reach xstep exit_init s -> s <> exit_init ->
  (exit_measure s < 9)%nat /\ (forall s', xstep s s' -> (exit_measure s' < exit_measure s)%nat) /\
  ((exists e s', exit_step s e = Some s' /\ spontaneous s e = false) \/
   (x_reader s = Stopped /\ x_writer s = Stopped /\ x_down s = Stopped /\ x_main s = Returned /\
    x_pktClosed s = true /\ x_tunClosed s = true /\ x_connClosed s = true)).
Proof.
  intros Hr Hne.
  assert (Hm : forall s1, reach xstep exit_init s1 -> s1 = exit_init \/ (exit_measure s1 < 9)%nat).
  { apply (reach_invariant xstep (fun s1 => s1 = exit_init \/ (exit_measure s1 < 9)%nat)); [by left|]. intros s1 s2 [->|H1] [e He]; apply exit_step_measure in He; right; [exact He|lia]. }
  split; [by destruct (Hm s Hr)|]. split; [intros s' [e He]; by eapply exit_step_measure|].
  pose proof (forallb_elem _ _ s reachable_forced (reach_reachable s Hr)) as Hf. cbv beta in Hf.
  rewrite bool_decide_eq_false_2 in Hf by done. cbn [orb] in Hf. apply orb_true_iff in Hf as [Ho|Hf].
  - right. by apply bool_decide_eq_true in Ho.
  - left. apply existsb_exists in Hf as (e & _ & He). apply andb_true_iff in He as [Hs Hsp]. apply bool_decide_eq_true in Hs as [s' Hs].
    exists e, s'. split; [done|]. by apply negb_true_iff.
Qed.

Lemma exit_completes_witness :
  let s := {| x_reader := Sending; x_writer := Working; x_down := Working; x_main := WaitFirst;
              x_errs := 0; x_pktClosed := true; x_tunClosed := false; x_connClosed := false |} in
  (exit_measure s < 9)%nat /\ exists e s', exit_step s e = Some s' /\ spontaneous s e = false.
Proof.
  intros s. destruct (exit_completes s) as (Hm & _ & [He|Ho]).
  - apply (reach_step _ _ exit_init); [apply reach_refl|]. exists EReaderFails. reflexivity.
  - discriminate.
  - split; [exact Hm|exact He].
  - destruct Ho as [Ho _]. discriminate Ho.
Defined.
