(* ===== verification/StreamProps.v ===== *)
(** * Properties of a TCP upload through a tunnel

    The upload side composed: the reader and the forward writer's loop
    (Tunnel), the resequencer (Reseq), the source translation (Snat, Nat) and the
    WAN's batch (Egress), while other goroutines use the shared NAT table.  The
    segments of a client's TCP stream that arrive in any order the window allows
    leave the gateway once each, in sequence, from one port. *)
From S2P Require Import Prelude Words TcpParse Gso GsoProps GsoEgress Reseq ReseqProps ReseqRuns Session Conn Egress EgressProps Router RouterProps Tunnel TunnelProps Nat NatProps Snat Xdp SnatProps Path PathProps.
Local Open Scope Z_scope.
Local Open Scope masqued_scope.

(** ** The segments of one flow *)

(** The NAT's key of the flow that [parseTCP] names by the 13 bytes [key]. *)
Definition key_flow (key : bytes) : flowKey := makeFlowKey (be32 key 0) (be16 key 8) IPPROTO_TCP (be32 key 4) (be16 key 10).

Lemma slice_bytes b i j k : (j - i = k)%nat -> (j <= length b)%nat -> (i <= j)%nat ->
  slice b i j = map (fun n => b.[i + n]) (seq 0 k).
Proof.
  intros Hk Hj Hi. unfold slice. apply list_eq. intros n. rewrite list_lookup_fmap. destruct (decide (n < k)%nat) as [L|L].
  - rewrite lookup_seq_lt by done. cbn. rewrite lookup_take_lt by lia. rewrite lookup_drop.
    destruct (lookup_lt_is_Some_2 b (i + n) ltac:(lia)) as [x Hx]. rewrite Hx. unfold byte_at. f_equal. symmetry. by apply nth_lookup_Some.
  - rewrite lookup_seq_ge by lia. cbn. apply lookup_take_ge. lia.
Qed.

Record segment_of (key ip : bytes) : Prop := {
  sg_version : Z.shiftr ip.[0] 4 = 4;
  sg_proto : ip.[9] = IPPROTO_TCP;
  sg_ihl : (20 <= ihl_of ip)%nat;
  sg_len : (ihl_of ip + 20 <= length ip)%nat;
  sg_src : be32 ip 12 = be32 key 0;
  sg_dst : be32 ip 16 = be32 key 4;
  sg_sport : be16 ip (ihl_of ip) = be16 key 8;
  sg_dport : be16 ip (ihl_of ip + 2) = be16 key 10
}.
Lemma parse_segment ip s : parseTCP ip = Some s -> segment_of (seg_key s) ip.
Proof.
  unfold parseTCP. intros Hp. destruct (length ip <? 20)%nat eqn:E1; [done|]. cbn [orb] in Hp.
  destruct (negb (Z.shiftr ip.[0] 4 =? 4)) eqn:E2; [done|]. cbv zeta in Hp.
  destruct (ihl_of ip <? 20)%nat eqn:E3; [done|]. destruct (length ip <? ihl_of ip + 20)%nat eqn:E4; [done|].
  destruct (negb (ip.[9] =? 6)) eqn:E5; [done|]. cbn [orb] in Hp. destruct (_ || _); [done|]. destruct (_ =? 0); [done|].
  injection Hp as <-. bool_hyps. cbn [seg_key].
  rewrite (slice_bytes ip 12 16 4), (slice_bytes ip 16 20 4), (slice_bytes _ 0 2 2), (slice_bytes _ 2 4 2) by (rewrite ?length_drop; lia).
  cbn [seq map app]. rewrite !byte_at_drop. cbn [Nat.add].
  constructor; try done; unfold be32, be16, byte_at; cbn [nth Nat.add]; rewrite ?Nat.add_0_r; repeat f_equal; lia.
Qed.

(** Such a packet is translated, also with another source, as TCP. *)
Lemma segment_eligible key ip wan : segment_of key ip -> be32 key 0 <> wan -> snat_eligible ip wan = true.
Proof.
  intros [H1 H2 H3 H4 H5 H6 H7 H8] Hw. unfold snat_eligible. rewrite H1, H2, H5. cbn [Z.eqb Pos.eqb negb andb IPPROTO_TCP].
  destruct (length ip <? 20)%nat eqn:E1; bool_hyps; [lia|]. destruct (length ip <? ihl_of ip + 4)%nat eqn:E2; bool_hyps; [lia|].
  destruct (length ip <? ihl_of ip + 20)%nat eqn:E3; bool_hyps; [lia|]. apply negb_true_iff. by apply Z.eqb_neq.
Qed.
Lemma segment_rewritten key ip wan p : segment_of key ip -> isXDPEligible (snat_rewrite ip wan p) = true.
Proof.
  intros [H1 H2 H3 H4 H5 H6 H7 H8]. pose proof (snat_rewrite_length ip wan p) as Hl. set (q := snat_rewrite ip wan p) in *.
  assert (E0 : q.[0] = ip.[0]) by (apply snat_rewrite_byte; lia). assert (E9 : q.[9] = ip.[9]) by (apply snat_rewrite_byte; lia).
  clearbody q. unfold isXDPEligible. assert (Ev : IPVersion q = 4) by (destruct q; [cbn in Hl; lia|rewrite <- H1, <- E0; done]).
  rewrite Ev, E9, H2. cbn [Z.eqb Pos.eqb]. destruct (length q <? 10)%nat eqn:E; bool_hyps; [lia|done].
Qed.

(** ** The upload side beside the others *)

(** Another handler, or the collector, works on the shared NAT table without
    taking this flow's mapping away. *)
Definition others (wan : Z) (fk : flowKey) (t t' : NatTable) : Prop :=
  nat_step wan t t' /\ forall p, fwd t !! fk = Some p -> fwd t' !! fk = Some p.

(** The packets read before the first read error. *)
Fixpoint upackets (es : list uevent) : list bytes :=
  match es with
  | [] => []
  | UReadErr :: _ => []
  | UPacket _ ip :: es => ip :: upackets es
  | _ :: es => upackets es
  end.
Definition closes (es : list uevent) : bool := existsb (fun e => match e with UReadErr => true | _ => false end) es.
Lemma upackets_snoc es e : upackets (es ++ [e]) = upackets es ++ match e with UPacket _ ip => if closes es then [] else [ip] | _ => [] end.
Proof. induction es as [|[] es IH]; cbn; [by destruct e|by rewrite IH|by destruct e|done..]. Qed.
Lemma closes_snoc es e : closes (es ++ [e]) = closes es || match e with UReadErr => true | _ => false end.
Proof. unfold closes. rewrite existsb_app. cbn. by rewrite orb_false_r. Qed.

(** ** What the writer does with a segment *)

Section Stream.
Context {E : Type} `{EgressLog E} (cfg : RConfig) (ack : bool) (errno : list (bytes * bytes) -> Z).
Context (mapPut : gmap NatRevKey NatRevVal -> NatRevKey -> NatRevVal -> option (gmap NatRevKey NatRevVal)).
Context (arp : nat -> bytes -> option bytes).
Hypothesis Hput : forall mm k v mm', mapPut mm k v = Some mm' -> mm' = <[k:=v]> mm.
Context (key : bytes).
Hypothesis Hwan : to_wan cfg (be32 key 4) = true.
Hypothesis Hsrc : be32 key 0 <> wanAddr cfg.
Local Abbreviation St := (RState E (list bytes)).
Local Abbreviation FB := (ForwardBatch E (list bytes)).
Local Abbreviation U := (UState E (list bytes)).

(** A segment of the flow that does not take the raw socket. *)
Record seg_ok (ip : bytes) : Prop := { so_flow : on_flow key ip; so_bytes : bytes_ok ip; so_route : ack = true -> (128 <= length ip)%nat }.
Lemma so_seg ip : seg_ok ip -> segment_of key ip.
Proof using.
  intros [Hf _ _]. unfold on_flow in Hf. destruct (parseTCP ip) as [sg|] eqn:Ep; [|done]. injection Hf as Hf. rewrite <- Hf. by apply parse_segment.
Qed.

Definition tr (p : Z) (ip : bytes) : bytes := snat_rewrite ip (wanAddr cfg) p.
Definition port_of (s : St) : option Z := fwd (r_nat s) !! key_flow key.
Definition lost (s : St) : Z := r_count s SnatFailDrops + r_count s FwdAddDrops.

(** The WAN's batch [fb], which has an egress when [hb], has accepted [acc]. *)
Variable hb : bool.
Record batch_ok (fb : FB) (acc : list bytes) : Prop := { bo_inv : fwd_inv ack fb acc; bo_alt : has fb = hb }.
Record wan_ok (s : St) (acc : list bytes) : Prop := {
  wk_nat : NatInv (wanAddr cfg) (r_nat s);
  wk_batch : exists fb, r_batches s !! 0%nat = Some fb /\ batch_ok fb acc
}.

(** [s'] is [s] after the segments [pkts] have been forwarded. *)
Record forwarded (s s' : St) (acc : list bytes) (pkts : list bytes) : Prop := {
  fw_lost : lost s <= lost s';
  fw_port q : port_of s = Some q -> port_of s' = Some q;
  fw_wan : exists acc', wan_ok s' acc' /\
    (lost s' = lost s -> exists p, acc' = acc ++ map (tr p) pkts /\ (pkts <> [] -> port_of s' = Some p /\ port_in_range p))
}.

Lemma forwarded_refl s acc : wan_ok s acc -> forwarded s s acc [].
Proof using. intros Hs. constructor; [lia|done|]. exists acc. split; [done|]. intros _. exists 0. by rewrite app_nil_r. Qed.
Lemma forwarded_trans s1 s2 s3 acc1 l1 l2 : forwarded s1 s2 acc1 l1 ->
  (forall acc2, wan_ok s2 acc2 -> forwarded s2 s3 acc2 l2) -> forwarded s1 s3 acc1 (l1 ++ l2).
Proof using.
  intros [A1 A3 (acc2 & A4 & A5)] HB. destruct (HB acc2 A4) as [B1 B3 (acc3 & B4 & B5)].
  constructor; [lia|auto|]. exists acc3. split; [done|]. intros Hl. destruct A5 as (p1 & -> & Hp1); [lia|].
  destruct B5 as (p2 & -> & Hp2); [lia|]. destruct l1 as [|x l1].
  - exists p2. rewrite app_nil_r. by split.
  - destruct (Hp1 ltac:(done)) as [E1 R1]. apply B3 in E1. exists p1. split; [|done]. rewrite map_app, <- app_assoc. do 2 f_equal.
    destruct l2 as [|y l2]; [done|]. destruct (Hp2 ltac:(done)) as [E2 _]. assert (p2 = p1) as -> by congruence. done.
Qed.

(** The allocation for a segment of the flow. *)
Lemma alloc_segment now t ip : NatInv (wanAddr cfg) t -> segment_of key ip -> bytes_ok ip ->
  exists r t', ApplySNAT mapPut now ip (wanAddr cfg) t = (match r with Ok p => Ok (tr p ip) | Err e => Err e end, t') /\
    NatInv (wanAddr cfg) t' /\ (forall q, fwd t !! key_flow key = Some q -> fwd t' !! key_flow key = Some q) /\
    match r with Ok p => fwd t' !! key_flow key = Some p /\ port_in_range p | Err _ => True end.
Proof using Hput Hsrc.
  intros HI Hs Hok. unfold ApplySNAT. rewrite (segment_eligible key) by done. pose proof Hs as [H1 H2 H3 H4 H5 H6 H7 H8].
  rewrite H2, H5, H6, H7, H8. assert (Hp7 : port_ok (be16 key 8)) by (rewrite <- H7; by apply be16_port_ok).
  assert (Hp8 : port_ok (be16 key 10)) by (rewrite <- H8; by apply be16_port_ok). cbv zeta.
  destruct (AllocPort mapPut now t (wanAddr cfg) IPPROTO_TCP _ _ _ _) as [r t'] eqn:EA. exists r, t'.
  split; [by destruct r|]. split; [exact (NatInv_alloc _ _ _ _ _ _ _ _ _ _ _ Hput Hp8 Hp7 HI EA)|]. split.
  - intros q Hq. rewrite (AllocPort_known_flow mapPut now t _ _ _ _ _ _ q Hq) in EA. by injection EA as <- <-.
  - destruct r as [p|]; [|done]. split; [by eapply AllocPort_fwd|].
    by destruct (AllocPort_entry _ _ _ _ _ _ _ _ _ _ _ Hput Hp8 Hp7 HI EA) as (_ & Hp & _).
Qed.

(** A translated segment goes to the batch's egress, which never panics. *)
Lemma add_segment (fb : FB) acc a ip mac p : batch_ok fb acc -> seg_ok ip ->
  exists r fb', ForwardBatch_Add ack fb a (tr p ip) mac = Some (r, fb') /\
    batch_ok fb' (acc ++ match r with Ok _ => [tr p ip] | Err _ => [] end).
Proof using.
  intros [Hf Hh] Hip. pose proof (so_seg _ Hip) as Hs. destruct Hip as [_ Hb Hr]. pose proof (segment_rewritten key ip (wanAddr cfg) p Hs) as Hx.
  assert (Hn : ack && (length (tr p ip) <? 128)%nat = false).
  { destruct ack; [|done]. unfold tr. rewrite snat_rewrite_length. apply Nat.ltb_ge. by apply Hr. }
  unfold ForwardBatch_Add. unfold tr in *. rewrite Hx, Hn. cbv zeta.
  destruct (fb_alt fb) as [e|] eqn:Ea.
  - pose proof (fwd_add_alt ack fb acc e (snat_rewrite ip (wanAddr cfg) p) mac Hf Ea) as L.
    destruct (eg_Add e _ mac) as [r e']. eexists _, _. split; [done|]. split; [|rewrite <- Hh; unfold has; by rewrite Ea].
    apply L. unfold route_of. by rewrite Hx, Hn.
  - pose proof (fwd_add_xdp ack fb acc (snat_rewrite ip (wanAddr cfg) p) mac Hf Ea) as L. rewrite Ea in L.
    destruct (XDPBatch_Add _ _ mac) as [r x]. eexists _, _. split; [done|]. split; [|rewrite <- Hh; unfold has; by rewrite Ea].
    apply L. unfold route_of. by rewrite Hx, Hn.
Qed.

Lemma forward_segment (s : St) acc now a ip : wan_ok s acc -> seg_ok ip ->
  exists s', forwardOne cfg ack mapPut arp s now a ip = Some s' /\ r_reseq s' = r_reseq s /\ forwarded s s' acc [ip].
Proof using Hput Hwan Hsrc.
  intros [HI (fb & Hfb & Hf)] Hip. pose proof (so_seg _ Hip) as Hseg. pose proof Hseg as [H1 H2 H3 H4 H5 H6 H7 H8].
  pose proof Hwan as Hw. unfold to_wan in Hw. apply andb_true_iff in Hw as [Hw Hlr]. apply andb_true_iff in Hw as [W1 W2].
  apply negb_true_iff in W1, W2. unfold forwardOne. replace (length ip <? 20)%nat with false by (symmetry; apply Nat.ltb_ge; lia).
  cbv zeta. rewrite H6, W1, W2. destruct (List.find _ _); [done|]. unfold forward_wan. cbn [r_nat set_obs]. cbv zeta.
  destruct (alloc_segment now (r_nat s) ip HI Hseg (so_bytes _ Hip)) as (r & t & -> & HI' & Hport & Hr).
  destruct r as [p|e].
  - unfold batch_add. cbn [r_batches set_nat set_obs]. rewrite Hfb. cbn [mbind option_bind].
    set (mac := Some _). destruct (add_segment fb acc a ip mac p Hf Hip) as (r & fb' & -> & Hf'). cbn [mbind option_bind].
    eexists. split; [done|]. split; [by destruct r|]. assert (Hl : (0 < length (r_batches s))%nat) by (by eapply lookup_lt_Some).
    assert (Hb0 : <[0%nat := fb']> (r_batches s) !! 0%nat = Some fb') by (by apply list_lookup_insert_eq).
    destruct r as [[]|er]; (constructor;
      [unfold lost; cbn; repeat case_decide; try congruence; lia|exact Hport|]);
      (eexists; split; [constructor; [exact HI'|exists fb'; split; [exact Hb0|exact Hf']]|]).
    + intros _. exists p. split; [done|]. by intros _.
    + unfold lost. cbn. repeat case_decide; try congruence; lia.
  - eexists. split; [done|]. split; [done|]. constructor; [unfold lost; cbn; repeat case_decide; try congruence; lia|exact Hport|].
    exists acc. split; [constructor; [exact HI'|by exists fb]|]. unfold lost. cbn. repeat case_decide; try congruence; lia.
Qed.

Lemma forward_segments pkts now a : forall (s : St) acc, wan_ok s acc -> Forall seg_ok pkts ->
  exists s', forward_all cfg ack mapPut arp s now a pkts = Some s' /\ r_reseq s' = r_reseq s /\ forwarded s s' acc pkts.
Proof using Hput Hwan Hsrc.
  induction pkts as [|ip pkts IH]; intros s acc Hs Hp; [exists s; split; [done|]; split; [done|by apply forwarded_refl]|].
  inversion Hp as [|? ? Hi Hrest]; subst. destruct (forward_segment s acc now a ip Hs Hi) as (s1 & E1 & R1 & F1).
  cbn [forward_all]. rewrite E1. cbn [mbind option_bind].
  pose proof (fw_wan _ _ _ _ F1) as (acc2 & A4 & _). destruct (IH s1 acc2 A4 Hrest) as (s2 & E2 & R2 & _). exists s2.
  split; [done|]. split; [congruence|]. change (ip :: pkts) with ([ip] ++ pkts). eapply forwarded_trans; [exact F1|].
  intros acc3 Hacc. destruct (IH s1 acc3 Hacc Hrest) as (s3 & E3 & _ & F3). assert (s3 = s2) as -> by congruence. done.
Qed.

(** ** The resequencer and a round *)

Definition reseq_ok (r : ForwardReseq) : Prop := Forall seg_ok (held r).

Lemma push_ok r ip now : reseq_ok r -> seg_ok ip -> Forall seg_ok (Push r ip now []).1 /\ reseq_ok (Push r ip now []).2.
Proof using.
  intros Hh Hi. destruct (Push_conserves r ip now []) as (l & d & El & Hp & _).
  assert (Hall : Forall seg_ok (l ++ held (Push r ip now []).2 ++ d)) by (rewrite <- Hp; by constructor).
  apply Forall_app in Hall as [Hl Hr]. apply Forall_app in Hr as [Hr _]. by rewrite El.
Qed.
Lemma sweep_keeps now iter : forall r out, reseq_ok r -> Forall seg_ok out ->
  Forall seg_ok (FlushExpired iter r now out).1 /\ reseq_ok (FlushExpired iter r now out).2.
Proof using.
  unfold FlushExpired. induction iter as [|k iter IH]; intros r out Hr Ho; [done|]. cbn [foldl].
  destruct (flush_one_conserves now (out, r) k) as (l & d & El & Hp). cbn [fst snd] in El, Hp.
  assert (Hall : Forall seg_ok (l ++ held (flush_one now (out, r) k).2 ++ d)) by (by rewrite <- Hp).
  apply Forall_app in Hall as [Hl Hh]. apply Forall_app in Hh as [Hh _]. destruct (flush_one now (out, r) k) as [o1 r1]. cbn [fst snd] in *. subst o1.
  apply IH; [done|]. by apply Forall_app.
Qed.

(** From [s], with resequencer [r], [ops] have been handled. *)
Record went (s s' : St) (acc : list bytes) (r : ForwardReseq) (ops : list rop) : Prop := {
  wn_fwd : forwarded s s' acc (rop_run r ops).1;
  wn_reseq : r_reseq s' = Some (rop_run r ops).2;
  wn_ok : reseq_ok (rop_run r ops).2;
  wn_out : Forall seg_ok (rop_run r ops).1
}.
Lemma went_refl s acc r : wan_ok s acc -> r_reseq s = Some r -> reseq_ok r -> went s s acc r [].
Proof using. intros H1 H2 H3. by constructor; [apply forwarded_refl| | |constructor]. Qed.
Lemma went_trans s1 s2 s3 acc1 r l1 l2 : went s1 s2 acc1 r l1 ->
  (forall acc2, wan_ok s2 acc2 -> went s2 s3 acc2 (rop_run r l1).2 l2) -> went s1 s3 acc1 r (l1 ++ l2).
Proof using.
  intros [A1 A2 A3 A4] HB. pose proof (fw_wan _ _ _ _ A1) as (acc2 & W & _). pose proof (HB acc2 W) as [B1 B2 B3 B4].
  constructor; rewrite rop_run_app; cbn [fst snd]; [|done|done|by apply Forall_app].
  eapply forwarded_trans; [exact A1|]. intros acc3 Hacc. apply (HB acc3 Hacc).
Qed.

(** A step of the resequencer, and the forwarding of what it emits. *)
Lemma went_step (s : St) acc r o now a out r' : wan_ok s acc -> rop_step r o = (out, r') -> Forall seg_ok out -> reseq_ok r' ->
  exists s', forward_all cfg ack mapPut arp (set_reseq s (Some r')) now a out = Some s' /\ went s s' acc r [o].
Proof using Hput Hwan Hsrc.
  intros Hw Eo Ho Hr. destruct (forward_segments out now a (set_reseq s (Some r')) acc) as (s' & Es & Rs & Fs);
    [by destruct Hw as [W1 W2]; constructor|done|]. exists s'. split; [done|].
  assert (Er : rop_run r [o] = (out, r')) by (cbn [rop_run]; by rewrite Eo, app_nil_r).
  constructor; rewrite Er; cbn [fst snd]; try done. by destruct Fs as [F1 F2 F3]; constructor.
Qed.

Lemma handle_segment (s : St) acc r now a ip : wan_ok s acc -> r_reseq s = Some r -> reseq_ok r -> seg_ok ip ->
  exists s', handlePkt cfg ack mapPut arp s now a ip = Some s' /\ went s s' acc r [RPush ip now].
Proof using Hput Hwan Hsrc.
  intros Hw Hr Ho Hi. unfold handlePkt. rewrite Hr. destruct (push_ok r ip now Ho Hi) as (P1 & P2).
  destruct (Push r ip now []) as [out r'] eqn:Eq. by apply (went_step s acc r (RPush ip now)).
Qed.
Lemma handle_sweep (s : St) acc r now iter : wan_ok s acc -> r_reseq s = Some r -> reseq_ok r ->
  exists s', flush_expired cfg ack mapPut arp s now iter = Some s' /\ went s s' acc r [RExpire now iter].
Proof using Hput Hwan Hsrc.
  intros Hw Hr Ho. unfold flush_expired. rewrite Hr. destruct (sweep_keeps now iter r [] Ho (List.Forall_nil _)) as (P1 & P2).
  destruct (FlushExpired iter r now []) as [out r'] eqn:Eq. by apply (went_step s acc r (RExpire now iter)).
Qed.

Definition at_time (now : Z) (pkts : list (nat * bytes)) : list rop := map (fun p => RPush p.2 now) pkts.

Lemma drain_segments now pkts : forall (s : St) acc r, wan_ok s acc -> r_reseq s = Some r -> reseq_ok r ->
  Forall (fun p => seg_ok p.2) pkts ->
  exists s' taken rest, drain_round cfg ack mapPut arp s now pkts = Some (s', rest) /\ pkts = taken ++ rest /\
    went s s' acc r (at_time now taken).
Proof using Hput Hwan Hsrc.
  induction pkts as [|[a ip] pkts IH]; intros s acc r Hw Hr Ho Hp.
  { exists s, [], []. split; [done|]. split; [done|]. by apply went_refl. }
  inversion Hp as [|? ? Hi Hrest]; subst. cbn [drain_round]. destruct (_ || _).
  { exists s, [], ((a, ip) :: pkts). split; [done|]. split; [done|]. by apply went_refl. }
  destruct (handle_segment s acc r now a ip Hw Hr Ho Hi) as (s1 & -> & W1). cbn [mbind option_bind].
  pose proof (fw_wan _ _ _ _ (wn_fwd _ _ _ _ _ W1)) as (acc2 & W & _).
  destruct (IH s1 acc2 _ W (wn_reseq _ _ _ _ _ W1) (wn_ok _ _ _ _ _ W1) Hrest) as (s2 & taken & rest & E2 & -> & _).
  exists s2, ((a, ip) :: taken), rest. split; [done|]. split; [done|]. change (at_time now ((a, ip) :: taken)) with ([RPush ip now] ++ at_time now taken).
  eapply went_trans; [exact W1|]. intros acc3 Hacc.
  destruct (IH s1 acc3 _ Hacc (wn_reseq _ _ _ _ _ W1) (wn_ok _ _ _ _ _ W1) Hrest) as (s3 & taken3 & rest3 & E3 & Et & W3).
  rewrite E2 in E3. injection E3 as <- <-. apply app_inv_tail in Et as ->. done.
Qed.

(** Flushing changes nothing of what the WAN's batch has accepted. *)
Lemma went_flush (s : St) acc r bs : wan_ok s acc -> r_reseq s = Some r -> reseq_ok r ->
  (forall fb, r_batches s !! 0%nat = Some fb -> batch_ok fb acc -> exists fb', bs !! 0%nat = Some fb' /\ batch_ok fb' acc) ->
  went s (set_batches s bs) acc r [].
Proof using.
  intros [W1 (fb & W2 & W3)] Hr Ho Hb. destruct (Hb fb W2 W3) as (fb' & B1 & B2). constructor; try done.
  constructor; [done|done|]. exists acc. split; [constructor; [done|by exists fb']|]. intros _. exists 0. by rewrite app_nil_r.
Qed.
Lemma batch_flush (fb : FB) acc heap : batch_ok fb acc -> batch_ok (ForwardBatch_Flush errno heap fb).2 acc.
Proof using. intros [Hf Hh]. destruct (fwd_flush_inv ack errno fb acc heap Hf) as (F1 & F2 & _). split; [done|congruence]. Qed.
Lemma went_flush_batches (s : St) acc r heap : wan_ok s acc -> r_reseq s = Some r -> reseq_ok r -> went s (flush_batches errno s heap) acc r [].
Proof using.
  intros Hw Hr Ho. apply went_flush; try done. intros fb Hfb Hi. rewrite list_lookup_fmap, Hfb. cbn [fmap option_fmap option_map].
  eexists. split; [done|]. destruct (ForwardBatch_Empty fb); [done|]. by apply batch_flush.
Qed.
Lemma went_flush_all (s : St) acc r heap : wan_ok s acc -> r_reseq s = Some r -> reseq_ok r -> went s (flush_all errno s heap) acc r [].
Proof using.
  intros Hw Hr Ho. apply went_flush; try done. intros fb Hfb Hi. destruct (r_batches s) as [|b lan]; [done|]. injection Hfb as ->.
  eexists. split; [done|]. by apply batch_flush.
Qed.

Lemma round_segments (s : St) acc r now a ip rest iter heap : wan_ok s acc -> r_reseq s = Some r -> reseq_ok r ->
  Forall (fun p => seg_ok p.2) ((a, ip) :: rest) ->
  exists s' taken rest', writer_round cfg ack errno mapPut arp s now a ip rest iter heap = Some (s', rest') /\ rest = taken ++ rest' /\
    went s s' acc r (at_time now ((a, ip) :: taken) ++ [RExpire now iter]).
Proof using Hput Hwan Hsrc.
  intros Hw Hr Ho Hp. inversion Hp as [|? ? Hi Hrest]; subst.
  destruct (handle_segment s acc r now a ip Hw Hr Ho Hi) as (s1 & E1 & W1).
  pose proof (fw_wan _ _ _ _ (wn_fwd _ _ _ _ _ W1)) as (acc2 & K1 & _).
  destruct (drain_segments now rest s1 acc2 _ K1 (wn_reseq _ _ _ _ _ W1) (wn_ok _ _ _ _ _ W1) Hrest) as (s2 & taken & rest' & E2 & -> & _).
  assert (W2 : went s s2 acc r (at_time now ((a, ip) :: taken))).
  { change (at_time now ((a, ip) :: taken)) with ([RPush ip now] ++ at_time now taken). eapply went_trans; [exact W1|]. intros acc3 Hacc.
    destruct (drain_segments now (taken ++ rest') s1 acc3 _ Hacc (wn_reseq _ _ _ _ _ W1) (wn_ok _ _ _ _ _ W1) Hrest) as (s3 & tk & rs & E3 & Et & W3).
    rewrite E2 in E3. injection E3 as <- <-. apply app_inv_tail in Et as ->. done. }
  pose proof (fw_wan _ _ _ _ (wn_fwd _ _ _ _ _ W2)) as (acc3 & K2 & _).
  destruct (handle_sweep s2 acc3 _ now iter K2 (wn_reseq _ _ _ _ _ W2) (wn_ok _ _ _ _ _ W2)) as (s3 & E3 & _).
  exists (flush_batches errno s3 heap), taken, rest'. split.
  - unfold writer_round. rewrite E1. cbn [mbind option_bind]. rewrite E2. cbn [mbind option_bind]. by rewrite E3.
  - split; [done|]. rewrite <- (app_nil_r (_ ++ _)). eapply went_trans.
    + eapply went_trans; [exact W2|]. intros acc4 Hacc. destruct (handle_sweep s2 acc4 _ now iter Hacc (wn_reseq _ _ _ _ _ W2) (wn_ok _ _ _ _ _ W2)) as (s4 & E4 & W4).
      rewrite E3 in E4. injection E4 as <-. exact W4.
    + intros acc5 Hacc. rewrite rop_run_app. cbn [snd]. destruct (handle_sweep s2 acc3 _ now iter K2 (wn_reseq _ _ _ _ _ W2) (wn_ok _ _ _ _ _ W2)) as (s4 & E4 & W4).
      rewrite E3 in E4. injection E4 as <-. apply went_flush_batches; [done|apply W4|apply W4].
Qed.

(** ** Runs of the upload side *)

Definition with_nat (u : U) (t : NatTable) : U := Build_UState (set_nat (u_writer u) t) (pktChan u) (pktClosed u) (pktChanDrops u) (u_done u).

(** What an event that takes [u] to [u'] gives the resequencer: a wake-up the
    packets it took from the channel and a sweep, a tick a sweep. *)
Definition handled (u : U) (e : uevent) (u' : U) : list rop :=
  match e with
  | UWake now iter _ =>
      if u_done u then [] else
      match pktChan u with
      | [] => []
      | ch => at_time now (take (length ch - length (pktChan u')) ch) ++ [RExpire now iter]
      end
  | UTick now iter _ => if u_done u then [] else [RExpire now iter]
  | _ => []
  end.

(** The tunnel's own events [es], anything of the others in between; [ops] is
    what the resequencer was given. *)
Inductive ushared (u0 : U) : list uevent -> list rop -> U -> Prop :=
  | us_start : ushared u0 [] [] u0
  | us_own es ops u e u' : ushared u0 es ops u -> ustep cfg ack errno mapPut arp u e = Some u' -> ushared u0 (es ++ [e]) (ops ++ handled u e u') u'
  | us_others es ops u t : ushared u0 es ops u -> others (wanAddr cfg) (key_flow key) (r_nat (u_writer u)) t -> ushared u0 es ops (with_nat u t).

Variables (s0 : St) (r0 : ForwardReseq).
Hypothesis Hwan0 : wan_ok s0 [].
Hypothesis Hreseq0 : r_reseq s0 = Some r0.
Hypothesis Hok0 : reseq_ok r0.

Record upload_inv (es : list uevent) (ops : list rop) (u : U) : Prop := {
  ui_closed : pktClosed u = closes es;
  ui_drops : 0 <= pktChanDrops u;
  ui_chan : Forall (fun p => seg_ok p.2) (pktChan u);
  ui_run : went s0 (u_writer u) [] r0 ops;
  ui_taken : pktChanDrops u = 0 -> (arrived key ops).*1 ++ (pktChan u).*2 = upackets es
}.

Lemma upload_start : upload_inv [] [] (Build_UState s0 [] false 0 false).
Proof using Hwan0 Hreseq0 Hok0. constructor; try done. by apply went_refl. Qed.

Lemma upload_others es ops u t : upload_inv es ops u -> others (wanAddr cfg) (key_flow key) (r_nat (u_writer u)) t -> upload_inv es ops (with_nat u t).
Proof using.
  intros [H1 H2 H3 [[F1 F2 (acc & [W1 W2] & F3)] H5 H6 H7] H8] [Hn Hp]. constructor; try done.
  constructor; try done. constructor; [done|by intros q Hq; apply Hp, F2|]. exists acc. split; [constructor; [by eapply NatInv_step|done]|].
  intros Hl. destruct (F3 Hl) as (p & E1 & E2). exists p. split; [done|]. intros Hne. destruct (E2 Hne) as [E3 E4]. split; [by apply Hp|done].
Qed.

(** A step of the writer from an [upload_inv] state. *)
Lemma upload_went es ops u s' ops2 es' ch' cl' dr' dn' new : upload_inv es ops u -> closes es' = cl' ->
  (forall acc r, wan_ok (u_writer u) acc -> r_reseq (u_writer u) = Some r -> reseq_ok r -> went (u_writer u) s' acc r ops2) ->
  pktChanDrops u <= dr' -> Forall (fun p => seg_ok p.2) ch' -> upackets es' = upackets es ++ new ->
  (dr' = 0 -> (pktChan u).*2 ++ new = (arrived key ops2).*1 ++ ch'.*2) -> upload_inv es' (ops ++ ops2) (Build_UState s' ch' cl' dr' dn').
Proof using.
  intros [H1 H2 H3 Hw H8] <- Hs Hd Hc Hu Hl. constructor; cbn [pktClosed pktChanDrops pktChan u_writer]; [done|lia|done| |].
  - eapply went_trans; [exact Hw|]. intros acc2 Hacc. apply Hs; [done|apply Hw..].
  - intros E0. unfold arrived. rewrite omap_app. fold (arrived key ops) (arrived key ops2).
    rewrite fmap_app, <- app_assoc, <- (Hl E0), app_assoc, H8 by lia. done.
Qed.

(** All that the writer takes belongs to the flow. *)
Lemma arrived_at_time now pkts o : Forall (fun p => seg_ok p.2) pkts -> match o with RPush _ _ => False | _ => True end ->
  (arrived key (at_time now pkts ++ [o])).*1 = pkts.*2.
Proof using.
  intros Hp Ho. induction Hp as [|p pkts Hp _ IH]; [by destruct o|]. unfold arrived in *. cbn [at_time map app omap list_omap].
  rewrite decide_True by apply Hp. cbn [fmap list_fmap fst]. by f_equal.
Qed.

Lemma upload_step es ops u e : upload_inv es ops u -> Forall seg_ok (upackets (es ++ [e])) ->
  exists u', ustep cfg ack errno mapPut arp u e = Some u' /\ upload_inv (es ++ [e]) (ops ++ handled u e u') u'.
Proof using Hput Hwan Hsrc.
  intros HI Hseg. pose proof HI as [H1 H2 H3 Hw H8]. destruct u as [s ch cl dr dn].
  cbn [u_writer pktChan pktClosed pktChanDrops u_done] in *. rewrite upackets_snoc in Hseg. apply Forall_app in Hseg as [_ Hseg].
  assert (Hrefl : forall acc r, wan_ok s acc -> r_reseq s = Some r -> reseq_ok r -> went s s acc r []) by (intros; by apply went_refl).
  assert (Hcl : closes (es ++ [e]) = cl || match e with UReadErr => true | _ => false end) by (by rewrite closes_snoc, H1).
  pose proof (upackets_snoc es e) as Hup. rewrite <- H1 in Hup.
  assert (Hsame : match e with UPacket _ _ => cl = true | _ => True end -> forall cl' dn', closes (es ++ [e]) = cl' -> upload_inv (es ++ [e]) (ops ++ []) (Build_UState s ch cl' dr dn')).
  { intros He cl' dn' Hc. apply (upload_went es ops _ s [] _ ch cl' dr dn' [] HI Hc); try done; [|intros _; by rewrite app_nil_r].
    rewrite Hup. destruct e; try by rewrite app_nil_r. by rewrite He, app_nil_r. }
  destruct e as [a ip| |now iter heap|now iter heap]; cbn [ustep u_writer pktChan pktClosed pktChanDrops u_done]; rewrite ?orb_false_r in Hcl.
  - destruct cl; [eexists; split; [done|]; by apply Hsame|]. assert (Hip : seg_ok ip) by (rewrite <- H1 in Hseg; by inversion Hseg).
    destruct (_ <? pktChanCap); (eexists; split; [done|]).
    + apply (upload_went es ops _ s [] _ _ _ dr dn [ip] HI Hcl); try done; [|intros _; by rewrite fmap_app].
      apply Forall_app. split; [done|]. constructor; [exact Hip|constructor].
    + apply (upload_went es ops _ s [] _ ch _ (dr + 1) dn [ip] HI Hcl); try done; cbn [pktChanDrops]; lia.
  - eexists. split; [done|]. rewrite orb_true_r in Hcl. by apply Hsame.
  - destruct dn; [eexists; split; [done|]; by apply Hsame|].
    destruct ch as [|[a ip] rest].
    + destruct cl; [|eexists; split; [done|]; by apply Hsame].
      eexists. split; [done|]. apply (upload_went es ops _ _ [] _ [] _ dr true [] HI Hcl); try done.
      intros acc r W1 W2 W3. by apply went_flush_all.
    + pose proof (fw_wan _ _ _ _ (wn_fwd _ _ _ _ _ Hw)) as (acc & K1 & _).
      destruct (round_segments s acc _ now a ip rest iter heap K1 (wn_reseq _ _ _ _ _ Hw) (wn_ok _ _ _ _ _ Hw) H3)
        as (s' & taken & rest' & E1 & -> & _). rewrite E1. cbn [mbind option_bind]. eexists. split; [done|].
      unfold handled. cbn [u_done pktChan]. assert (Etake : take (length ((a, ip) :: taken ++ rest') - length rest') ((a, ip) :: taken ++ rest') = (a, ip) :: taken).
      { change ((a, ip) :: taken ++ rest') with (((a, ip) :: taken) ++ rest'). rewrite length_app. apply take_app_length'. lia. }
      rewrite Etake. change ((a, ip) :: taken ++ rest') with (((a, ip) :: taken) ++ rest') in H3. apply Forall_app in H3 as [Ht Hr].
      apply (upload_went es ops _ s' _ _ rest' _ dr false [] HI Hcl); try done.
      * intros acc2 r W1 W2 W3. destruct (round_segments s acc2 r now a ip (taken ++ rest') iter heap W1 W2 W3) as (s2 & tk & rs & E2 & Et & W5).
        { change ((a, ip) :: taken ++ rest') with (((a, ip) :: taken) ++ rest'). by apply Forall_app. }
        rewrite E1 in E2. injection E2 as <- <-. by apply app_inv_tail in Et as ->.
      * intros _. rewrite (arrived_at_time now ((a, ip) :: taken) (RExpire now iter) Ht I), app_nil_r. cbn [pktChan fmap list_fmap snd]. by rewrite fmap_app.
  - destruct dn; [eexists; split; [done|]; by apply Hsame|].
    pose proof (fw_wan _ _ _ _ (wn_fwd _ _ _ _ _ Hw)) as (acc & K1 & _).
    destruct (handle_sweep s acc _ now iter K1 (wn_reseq _ _ _ _ _ Hw) (wn_ok _ _ _ _ _ Hw)) as (s' & E1 & W1). rewrite E1.
    cbn [mbind option_bind]. eexists. split; [done|]. unfold handled. cbn [u_done].
    apply (upload_went es ops _ _ [RExpire now iter] _ ch _ dr false [] HI Hcl); try done; [|intros _; by rewrite app_nil_r].
    intros acc2 r V1 V2 V3. destruct (handle_sweep s acc2 r now iter V1 V2 V3) as (s2 & E2 & W2). rewrite E1 in E2. injection E2 as <-.
    change [RExpire now iter] with ([RExpire now iter] ++ []). eapply went_trans; [exact W2|]. intros acc3 V4. apply went_flush_all; [done|apply W2..].
Qed.

Lemma upload_reach es ops u : ushared (Build_UState s0 [] false 0 false) es ops u -> Forall seg_ok (upackets es) -> upload_inv es ops u.
Proof using Hput Hwan Hsrc Hwan0 Hreseq0 Hok0.
  induction 1 as [|es ops u e u' Hu IH He|es ops u t Hu IH Ho]; intros Hs; [apply upload_start| |by apply upload_others; [apply IH|]].
  assert (Hs1 : Forall seg_ok (upackets es)) by (rewrite upackets_snoc in Hs; by apply Forall_app in Hs as [Hs _]).
  destruct (upload_step es ops u e (IH Hs1) Hs) as (u1 & E1 & H1). congruence.
Qed.

(** The operations of a run of the tunnel alone. *)
Fixpoint ulog (u : U) (es : list uevent) : list rop :=
  match es with
  | [] => []
  | e :: es => match ustep cfg ack errno mapPut arp u e with Some u' => handled u e u' ++ ulog u' es | None => [] end
  end.
Lemma urun_ushared u0 es u' : urun cfg ack errno mapPut arp u0 es = Some u' -> ushared u0 es (ulog u0 es) u'.
Proof using.
  enough (H1 : forall es2 es ops u, ushared u0 es ops u -> urun cfg ack errno mapPut arp u es2 = Some u' -> ushared u0 (es ++ es2) (ops ++ ulog u es2) u')
    by (apply (H1 es [] [] u0); constructor).
  induction es2 as [|e es2 IH]; intros es1 ops u Hu Hr; [injection Hr as <-; by rewrite !app_nil_r|]. cbn [urun ulog] in *.
  destruct (ustep _ _ _ _ _ u e) as [u1|] eqn:E1; [|done]. change (e :: es2) with ([e] ++ es2). rewrite !app_assoc. eapply IH; [|exact Hr].
  by eapply us_own.
Qed.
End Stream.

(** ** The stream on the WAN *)

(** What the WAN's batch has accepted on the path of eligible packets: the log
    of its egress, or the frames of the TX pump and those held. *)
Definition wan_stream {E} `{EgressLog E} (fb : ForwardBatch E (list bytes)) : list bytes :=
  match fb_alt fb with Some e => eg_log e | None => map (drop 14) (fb_pump fb) ++ xdp_held (fb_xdp fb) end.

Lemma wan_stream_all {E} `{EgressLog E} ack (fb : ForwardBatch E (list bytes)) acc : fwd_inv ack fb acc ->
  Forall (fun p => isXDPEligible p = true /\ (ack = true -> (128 <= length p)%nat)) acc -> wan_stream fb = acc.
Proof.
  intros Hf Ha. assert (Hr : Forall (fun p => route_of ack (has fb) p = if has fb then RAlt else RXdp) acc).
  { eapply Forall_impl; [exact Ha|]. intros p [H1 H2]. unfold route_of. rewrite H1. cbn [negb orb].
    destruct ack; [|done]. specialize (H2 eq_refl). by replace (length p <? 128)%nat with false by (symmetry; apply Nat.ltb_ge; lia). }
  assert (Hon : on ack fb (if has fb then RAlt else RXdp) acc = acc).
  { clear Hf Ha. unfold on. induction Hr as [|p l Hp Hl IH]; [done|]. rewrite filter_cons_True by done. by f_equal. }
  unfold wan_stream. unfold has in Hon. pose proof (fi_alt_out _ _ _ Hf) as HA. pose proof (fi_xdp_out _ _ _ Hf) as HX.
  destruct (fb_alt fb) as [e|]; [by rewrite HA|by rewrite HX].
Qed.

(** [n] packets of one TCP stream to a destination behind the WAN, that do not
    take the raw socket. *)
Record tcp_stream (cfg : RConfig) (ack : bool) (key : bytes) (n : nat) (pk : nat -> bytes) (off : nat -> Z) (seq0 : Z) : Prop := {
  ts_wan : to_wan cfg (be32 key 4) = true;
  ts_src : be32 key 0 <> wanAddr cfg;
  ts_off i : off i < off (S i);
  ts_parse i : (i < n)%nat -> parseTCP (pk i) = Some {| seg_seq := u32 (seq0 + off i); seg_nextAfter := u32 (seq0 + off (S i)); seg_key := key |};
  ts_bytes i : (i < n)%nat -> bytes_ok (pk i);
  ts_route i : (i < n)%nat -> ack = true -> (128 <= length (pk i))%nat
}.

(** The writer of a connection that has just begun, with the resequencer on and
    [alt] as the WAN's egress. *)
Record fresh_writer {E} `{EgressLog E} (cfg : RConfig) (alt : option E) (s : RState E (list bytes)) (r : ForwardReseq) : Prop := {
  fr_nat : reach (nat_step (wanAddr cfg)) (OpenNatTable ∅) (r_nat s);
  fr_batch : exists srcMAC dstMAC, r_batches s !! 0%nat = Some (NewForwardBatch [] srcMAC dstMAC alt);
  fr_alt e : alt = Some e -> eg_ok e /\ eg_log e = [];
  fr_reseq : r_reseq s = Some r;
  fr_flows : flows r = ∅
}.

Section Upload.
Context {E : Type} `{EgressLog E} (cfg : RConfig) (ack : bool) (errno : list (bytes * bytes) -> Z).
Context (mapPut : gmap NatRevKey NatRevVal -> NatRevKey -> NatRevVal -> option (gmap NatRevKey NatRevVal)).
Context (arp : nat -> bytes -> option bytes) (key : bytes) (n : nat) (pk : nat -> bytes) (off : nat -> Z) (seq0 : Z).
Context (l : list nat) (alt : option E) (s : RState E (list bytes)) (r : ForwardReseq) (es : list uevent) (ops : list rop) (u : UState E (list bytes)).
Hypothesis Hput : forall mm k v mm', mapPut mm k v = Some mm' -> mm' = <[k:=v]> mm.
Hypothesis Hts : tcp_stream cfg ack key n pk off seq0.
Hypothesis Har : arrival_ok n off (window r) l.
Hypothesis Hfr : fresh_writer cfg alt s r.
Hypothesis Hu : ushared cfg ack errno mapPut arp key (Build_UState s [] false 0 false) es ops u.
Hypothesis Hpre : upackets es `prefix_of` map pk l.
Local Abbreviation hb := (match alt with Some _ => true | None => false end).

Lemma stream_segments ps : ps `prefix_of` map pk l -> Forall (seg_ok ack key) ps.
Proof using Hts Har.
  intros [ps' E1]. assert (Hseg : Forall (seg_ok ack key) (map pk l)); [|rewrite E1 in Hseg; by apply Forall_app in Hseg as [Hk _]].
  destruct Hts as [_ _ _ Hpk Hby Hro]. apply List.Forall_map, List.Forall_forall. intros i Hi. destruct Har as (HP & _ & _).
  assert (Hin : (i < n)%nat) by (apply list_elem_of_In in Hi; rewrite HP in Hi; apply elem_of_seq in Hi; lia).
  constructor; [unfold on_flow; by rewrite (Hpk i Hin)|by apply Hby|by apply Hro].
Qed.

Lemma upload_runs : upload_inv cfg ack key hb s r es ops u.
Proof using Hput Hts Har Hfr Hu Hpre.
  destruct Hfr as [Hnat (sm & dm & Hb) Halt Hr Hfl]. destruct Hts as [Hwan Hsrc _ _ _ _]. eapply upload_reach; try done.
  - constructor; [by apply NatInv_reach|]. eexists. split; [exact Hb|]. constructor; [by apply fwd_init|done].
  - unfold reseq_ok, held. rewrite Hfl, map_to_list_empty. constructor.
  - by apply stream_segments.
Qed.

Lemma upload_safe e : upackets (es ++ [e]) `prefix_of` map pk l -> is_Some (ustep cfg ack errno mapPut arp u e).
Proof using Hput Hts Har Hfr Hu Hpre.
  intros Hp. destruct (upload_step cfg ack errno mapPut arp Hput key (ts_wan _ _ _ _ _ _ _ Hts) (ts_src _ _ _ _ _ _ _ Hts) hb s r es ops u e
    upload_runs (stream_segments _ Hp)) as (u1 & E1 & _). by exists u1.
Qed.

Hypothesis Htime : timely key l (maxAge r) ops.
Hypothesis Hdrops : pktChanDrops u = 0.
Hypothesis Hlost : lost (u_writer u) = lost s.
Local Abbreviation stream p := (map (fun i => snat_rewrite (pk i) (wanAddr cfg) p) (seq 0 n)).

Lemma upload_end : exists p fb, r_batches (u_writer u) !! 0%nat = Some fb /\ has fb = hb /\ (forall e, fb_alt fb = Some e -> eg_ok e) /\
  wan_stream fb `prefix_of` stream p /\
  (upackets es = map pk l -> pktChan u = [] -> wan_stream fb = stream p /\
    ((0 < n)%nat -> fwd (r_nat (u_writer u)) !! key_flow key = Some p /\ port_in_range p)).
Proof using All.
  destruct upload_runs as [_ _ _ [[_ _ (acc & [_ (fb & Hfb & [Hf Hh])] & Hacc)] _ _ Hout] Htk].
  specialize (Htk Hdrops). destruct (Hacc Hlost) as (p & -> & Hp). cbn [app] in *.
  destruct Hts as [_ _ Hoff Hpk _ _].
  assert (Hsub : (arrived key ops).*1 `prefix_of` map pk l) by (etrans; [by apply prefix_app_r|by rewrite Htk]).
  destruct (stream_emitted n pk off seq0 key Hoff Hpk l r Har ops) as [S1 S2];
    [intros k f Hk; by rewrite (fr_flows _ _ _ _ Hfr) in Hk|by rewrite (fr_flows _ _ _ _ Hfr)|done|done|].
  rewrite (all_on_flow key) in S1, S2 by (eapply Forall_impl; [exact Hout|]; intros q Hq; apply Hq).
  assert (Ew : wan_stream fb = map (tr cfg p) (rop_run r ops).1).
  { apply (wan_stream_all ack fb _ Hf). apply List.Forall_map. eapply Forall_impl; [exact Hout|]. intros q Hq. pose proof (so_seg _ _ _ Hq) as Hs.
    split; [by apply (segment_rewritten key)|]. intros Ha. unfold tr. rewrite snat_rewrite_length. by apply Hq. }
  assert (Em : stream p = map (tr cfg p) (map pk (seq 0 n))) by (by rewrite map_map).
  exists p, fb. split; [done|]. split; [done|]. split; [apply (fi_alt _ _ _ Hf)|]. split.
  - destruct S1 as [rest E1]. rewrite Ew, Em, E1, map_app. by apply prefix_app_r.
  - intros Hall Hch. rewrite Hch, app_nil_r in Htk. rewrite Htk in S2. specialize (S2 Hall). split; [by rewrite Ew, Em, S2|].
    intros Hn. apply Hp. rewrite S2. destruct n; [lia|done].
Qed.
End Upload.


Definition up_pk (i : nat) : bytes := seg_pkt (u32 (4294967290 + 4 * Z.of_nat i)).
Definition up_events : list uevent :=
  [UPacket 1 (up_pk 0); UPacket 2 (up_pk 2); UWake 10 [] ∅; UPacket 3 (up_pk 1); UTick 15 [seg_key0] ∅; UWake 20 [seg_key0] ∅;
   UTick 10000000000 [seg_key0] ∅; UPacket 4 (up_pk 3); UWake 10000000001 [seg_key0] ∅].
Definition up_start : UState PacketBatch (list bytes) := Build_UState (writer_example (Some (NewForwardReseq 64 5000000))) [] false 0 false.
Definition up_end : UState PacketBatch (list bytes) :=
  default up_start (@urun PacketBatch (list bytes) (PacketBatch_egress (fun _ => 0)) _ cfg_router false (fun _ => 0) plain_put (fun _ _ => None) up_start up_events).

Lemma up_stream : tcp_stream cfg_router false seg_key0 4 up_pk (fun i => 4 * Z.of_nat i) 4294967290.
Proof.
  constructor; try done; [lia|exact (seg_pkt_parse_4 4294967290 eq_refl)|].
  intros [|[|[|[|i]]]] Hi; [apply bytes_okb_ok; vm_compute; reflexivity..|lia].
Qed.


(** ** The stream through the default egress *)

Section Gso.
Context (tunMaxSegs : nat) (tunNoCoalesce : bool) (flushIdle : Z) (range : gmap bytes gsoSlot -> list (bytes * gsoSlot)) (clock : nat -> Z).
Local Abbreviation GEg := (GsoEgress_egress tunMaxSegs tunNoCoalesce flushIdle range clock).
Local Abbreviation GLog := (GsoEgress_log tunMaxSegs tunNoCoalesce flushIdle range clock).

End Gso.

Local Abbreviation clk := (fun n : nat => Z.of_nat n).
Local Abbreviation gEg := (GsoEgress_egress 64 false 120000 map_to_list clk).
Local Abbreviation gLog := (GsoEgress_log 64 false 120000 map_to_list clk).
Definition wire_egress : GsoEgress := {| ge_batch := gso_start; ge_ops := [] |}.
Definition wire_writer : RState GsoEgress (list bytes) :=
  Build_RState ∅ ∅ [] (OpenNatTable ∅) [NewForwardBatch [] [2;0;0;0;0;9] [2;0;0;0;0;1] (Some wire_egress)] [] NewOrderObserver
    (Some (NewForwardReseq 64 5000000)) (fun _ => 0).
Definition wire_start : UState GsoEgress (list bytes) := Build_UState wire_writer [] false 0 false.
Definition wire_end : UState GsoEgress (list bytes) :=
  default wire_start (@urun GsoEgress (list bytes) gEg _ cfg_router false (fun _ => 0) plain_put (fun _ _ => None) wire_start up_events).

