(* ===== verification/Stats.v ===== *)
(** * The statistics line (main.go RunPostUp, utility/reseq.go, stats.go, xdp_batch.go, socket.go)

    The package-wide counters, the goroutines that add to them one atomic
    operation at a time, and the goroutine that loads them one after the other
    every two seconds and prints a line.  The counters never wrap in a process's
    life and are unbounded here; the percentages, floats in the code, are
    rationals.  The counters of quic-go's packer and [DiagSnapshot] (RxLoop) are
    not part of the line here. *)
From S2P Require Import Prelude Words TcpParse Reseq.
From Stdlib Require Import QArith.
Local Open Scope Z_scope.
Local Open Scope masqued_scope.

Inductive statCounter :=
  | KQuicChDrops | KFwdDrops | KTxDrops | KTunChanDrops | KPktChanDrops | KTunAdapterDrops | KTunAdapterSends | KTunLoopSends
  | KXDPFlushes | KXDPPackets | KSocketFlushes | KSocketPackets
  | KPreReseqTotal | KPreReseqOOO | KPreSendTotal | KPreSendGenuine | KPreSendRetr.
#[export] Instance statCounter_eq_dec : EqDecision statCounter.
Proof. solve_decision. Defined.

Definition counts := statCounter -> Z.
Definition add_count (c : counts) (k : statCounter) (n : Z) : counts := fun k' => if decide (k' = k) then c k' + n else c k'.

(** ** What a goroutine adds *)

(** The additions of [PreReseqObserver.Observe], in order. *)
Definition pre_adds (o : OrderObserver) (ip : bytes) : list (statCounter * Z) :=
  match parseTCP ip with
  | None => []
  | Some s =>
      (KPreReseqTotal, 1) ::
      match maxSeq o !! seg_key s with
      | None => []
      | Some mx => if i32 (u32 (seg_seq s - mx)) <? 0 then [(KPreReseqOOO, 1)] else []
      end
  end.

(** Those of [PreSendGenuineObserver.Observe]. *)
Definition gen_adds (o : PreSendGenuineObserver) (ip : bytes) : list (statCounter * Z) :=
  match parseTCP ip with
  | None => []
  | Some s =>
      (KPreSendTotal, 1) ::
      match (preSend_flow (default new_preSendFlow (psFlows o !! seg_key s)) (seg_seq s)).2 with
      | PsRetransmit => [(KPreSendRetr, 1)]
      | PsGenuine => [(KPreSendGenuine, 1)]
      | PsInOrder => []
      end
  end.

(** A goroutine with its two observers (those of a connection's download side)
    and the additions it has still to make. *)
Record statGor := { g_pre : OrderObserver; g_gen : PreSendGenuineObserver; g_todo : list (statCounter * Z) }.
Definition NewStatGor : statGor :=
  {| g_pre := NewOrderObserver; g_gen := {| psFlows := ∅; PreSendTotal := 0; PreSendGenuine := 0; PreSendRetr := 0 |}; g_todo := [] |}.

(** The counters added to one at a time. *)
Definition plain (k : statCounter) : bool :=
  match k with
  | KQuicChDrops | KFwdDrops | KTxDrops | KTunChanDrops | KPktChanDrops | KTunAdapterDrops | KTunAdapterSends | KTunLoopSends => true
  | _ => false
  end.

Inductive statCall :=
  | CObserve (ip : bytes)  (* the download goroutine, before SendDatagram *)
  | CFlushXDP (n : nat)    (* XDPBatch.Flush of n packets *)
  | CFlushSocket (n : nat) (* SocketBatch.Flush of n packets *)
  | CCount (k : statCounter).

(** The goroutine inside the call; [on] is [stats.ShouldLog()].  The batches are
    flushed with their statistics on. *)
Definition stat_call (on : bool) (g : statGor) (c : statCall) : option statGor :=
  match c with
  | CObserve ip =>
      Some (if on then {| g_pre := PreReseq_Observe (g_pre g) ip; g_gen := PreSend_Observe (g_gen g) ip;
                          g_todo := pre_adds (g_pre g) ip ++ gen_adds (g_gen g) ip |} else g)
  | CFlushXDP n => Some {| g_pre := g_pre g; g_gen := g_gen g;
      g_todo := if (n =? 0)%nat then [] else [(KXDPFlushes, 1); (KXDPPackets, Z.of_nat n)] |}
  | CFlushSocket n => Some {| g_pre := g_pre g; g_gen := g_gen g;
      g_todo := if (n =? 0)%nat then [] else [(KSocketFlushes, 1); (KSocketPackets, Z.of_nat n)] |}
  | CCount k => if plain k then Some {| g_pre := g_pre g; g_gen := g_gen g; g_todo := [(k, 1)] |} else None
  end.

(** ** The line *)

(** The counters in the order the goroutine of RunPostUp loads them. *)
Definition loads : list statCounter :=
  [KQuicChDrops; KFwdDrops; KTxDrops; KTunChanDrops; KPktChanDrops; KTunAdapterDrops; KTunAdapterSends; KTunLoopSends;
   KXDPFlushes; KXDPPackets; KSocketFlushes; KSocketPackets; KPreReseqTotal; KPreReseqOOO; KPreSendTotal; KPreSendGenuine; KPreSendRetr].

(** The values loaded so far. *)
Definition loaded (l : list Z) (k : statCounter) : Z :=
  default 0 (snd <$> List.find (fun p => bool_decide (p.1 = k)) (zip loads l)).

Definition percent (n d : Z) : Q := if 0 <? d then (inject_Z (100 * n) / inject_Z d)%Q else 0%Q.
Definition mean (packets flushes : Z) : Q := if flushes =? 0 then 0%Q else (inject_Z packets / inject_Z flushes)%Q.

Record statLine := { sl_loaded : list Z; xdpAvg : Q; sockAvg : Q; prePct : Q; psGenPct : Q; psRetrPct : Q }.
Definition format_line (l : list Z) : statLine :=
  {| sl_loaded := l;
     xdpAvg := mean (loaded l KXDPPackets) (loaded l KXDPFlushes);
     sockAvg := mean (loaded l KSocketPackets) (loaded l KSocketFlushes);
     prePct := percent (loaded l KPreReseqOOO) (loaded l KPreReseqTotal);
     psGenPct := percent (loaded l KPreSendGenuine) (loaded l KPreSendTotal);
     psRetrPct := percent (loaded l KPreSendRetr) (loaded l KPreSendTotal) |}.

(** ** The process *)

(** [st_line]: between a tick and the end of its turn, what has been loaded. *)
Record statState := {
  st_on : bool; st_started : bool; st_counts : counts; st_gors : list statGor; st_line : option (list Z); st_out : list statLine
}.

(** RunPostUp with [enableStats]. *)
Definition start_stats (enableStats : bool) : statState :=
  {| st_on := enableStats; st_started := enableStats; st_counts := fun _ => 0; st_gors := []; st_line := None; st_out := [] |}.

Definition set_gor (s : statState) (i : nat) (g : statGor) (c : counts) : statState :=
  {| st_on := st_on s; st_started := st_started s; st_counts := c; st_gors := <[i := g]> (st_gors s);
     st_line := st_line s; st_out := st_out s |}.

Inductive statEvent :=
  | SEnable (on : bool)           (* stats.Enable, by the watcher *)
  | SGo                           (* a goroutine starts *)
  | SCall (i : nat) (c : statCall)
  | SAdd (i : nat)                (* its next Add *)
  | STick                         (* the ticker *)
  | SLoad                         (* the next Load *)
  | SPrint.                       (* the end of the turn *)

Definition stat_step (s : statState) (e : statEvent) : option statState :=
  match e with
  | SEnable on => Some {| st_on := on; st_started := st_started s; st_counts := st_counts s; st_gors := st_gors s;
                          st_line := st_line s; st_out := st_out s |}
  | SGo => Some {| st_on := st_on s; st_started := st_started s; st_counts := st_counts s; st_gors := st_gors s ++ [NewStatGor];
                   st_line := st_line s; st_out := st_out s |}
  | SCall i c =>
      g ← st_gors s !! i;
      match g_todo g with
      | [] => g' ← stat_call (st_on s) g c; Some (set_gor s i g' (st_counts s))
      | _ => None
      end
  | SAdd i =>
      g ← st_gors s !! i;
      match g_todo g with
      | [] => None
      | (k, n) :: rest => Some (set_gor s i {| g_pre := g_pre g; g_gen := g_gen g; g_todo := rest |} (add_count (st_counts s) k n))
      end
  | STick =>
      match st_line s with
      | None => if st_started s then Some {| st_on := st_on s; st_started := st_started s; st_counts := st_counts s;
                  st_gors := st_gors s; st_line := Some []; st_out := st_out s |} else None
      | Some _ => None
      end
  | SLoad =>
      l ← st_line s; k ← loads !! length l;
      Some {| st_on := st_on s; st_started := st_started s; st_counts := st_counts s; st_gors := st_gors s;
              st_line := Some (l ++ [st_counts s k]); st_out := st_out s |}
  | SPrint =>
      l ← st_line s;
      if (length l =? length loads)%nat then
        Some {| st_on := st_on s; st_started := st_started s; st_counts := st_counts s; st_gors := st_gors s; st_line := None;
                st_out := if st_on s then st_out s ++ [format_line l] else st_out s |}
      else None
  end.
Fixpoint stat_run (s : statState) (es : list statEvent) : option statState :=
  match es with [] => Some s | e :: es => s' ← stat_step s e; stat_run s' es end.
