(* ===== verification/StatsProps.v ===== *)
(** * Properties of the statistics line

    What the counters guarantee at every instant, what a line shows of them when
    the additions go on while it is loaded, and the switch. *)
From S2P Require Import Prelude Words TcpParse Reseq ReseqProps Stats.
From Stdlib Require Import QArith.
Local Open Scope Z_scope.
Local Open Scope masqued_scope.

(** ** The additions are the observers' *)

(** What [l] adds to the counter [k]. *)
Definition added (k : statCounter) (l : list (statCounter * Z)) : Z :=
  foldr (fun a n => (if decide (a.1 = k) then a.2 else 0) + n) 0 l.

Ltac solve_added := cbn; repeat (case_decide; try congruence); repeat split; lia.

Lemma pre_adds_spec o ip : let o' := PreReseq_Observe o ip in
  Total o' = Total o + added KPreReseqTotal (pre_adds o ip) /\ OOO o' = OOO o + added KPreReseqOOO (pre_adds o ip).
Proof.
  unfold PreReseq_Observe, UploadOrder_Observe, pre_adds. destruct (parseTCP ip) as [s|]; [|solve_added].
  destruct (maxSeq o !! seg_key s) as [mx|]; [destruct (_ <? 0)|]; solve_added.
Qed.
Lemma gen_adds_spec o ip : let o' := PreSend_Observe o ip in
  PreSendTotal o' = PreSendTotal o + added KPreSendTotal (gen_adds o ip) /\
  PreSendGenuine o' = PreSendGenuine o + added KPreSendGenuine (gen_adds o ip) /\
  PreSendRetr o' = PreSendRetr o + added KPreSendRetr (gen_adds o ip).
Proof.
  unfold PreSend_Observe, gen_adds. destruct (parseTCP ip) as [s|]; [|solve_added].
  destruct (psFlows o !! seg_key s) as [f|]; cbn [default from_option]; destruct (preSend_flow _ _) as [f' []]; solve_added.
Qed.

(** ** At every instant *)

(** A total and the counters of its parts; every part is added to after the
    total, in one goroutine. *)
Section Parts.
Context (T : statCounter) (S : list statCounter).

Definition parts (c : counts) : Z := foldr (fun k n => c k + n) 0 S.
Definition weight (a : statCounter * Z) : Z :=
  foldr (fun k n => (if decide (k = a.1) then a.2 else 0) + n) 0 S - (if decide (T = a.1) then a.2 else 0).
(** The most that what is left of a goroutine's additions has the parts ahead. *)
Fixpoint owed (l : list (statCounter * Z)) : Z := match l with [] => 0 | a :: l => Z.max 0 (owed l + weight a) end.
Fixpoint owed_all (gs : list statGor) : Z := match gs with [] => 0 | g :: gs => owed (g_todo g) + owed_all gs end.
Definition settled (s : statState) : Prop := parts (st_counts s) + owed_all (st_gors s) <= st_counts s T.

Lemma owed_pos l : 0 <= owed l.
Proof using. destruct l; cbn; lia. Qed.
Lemma owed_all_pos gs : 0 <= owed_all gs.
Proof using. induction gs as [|g gs IH]; cbn; [lia|]. pose proof (owed_pos (g_todo g)). lia. Qed.
Lemma owed_all_set gs i g g' : gs !! i = Some g -> owed_all (<[i := g']> gs) = owed_all gs - owed (g_todo g) + owed (g_todo g').
Proof using.
  revert i. induction gs as [|x gs IH]; intros [|i] Hi; try done; cbn in *.
  - injection Hi as ->. lia.
  - rewrite IH by done. lia.
Qed.
Lemma owed_all_app gs gs' : owed_all (gs ++ gs') = owed_all gs + owed_all gs'.
Proof using. induction gs as [|g gs IH]; [done|]. cbn. rewrite IH. lia. Qed.
Lemma add_weight c k n : parts (add_count c k n) - add_count c k n T = parts c - c T + weight (k, n).
Proof using.
  unfold parts, weight, add_count. cbn [fst snd]. assert (H : foldr (fun x m => (if decide (x = k) then c x + n else c x) + m) 0 S =
    foldr (fun x m => c x + m) 0 S + foldr (fun x m => (if decide (x = k) then n else 0) + m) 0 S).
  { induction S as [|x l IH]; cbn; [done|]. rewrite IH. case_decide; lia. }
  rewrite H. case_decide; lia.
Qed.

Hypothesis Hcall : forall on g c g', stat_call on g c = Some g' -> g_todo g = [] -> owed (g_todo g') = 0.

Lemma settled_step s e s' : settled s -> stat_step s e = Some s' -> settled s'.
Proof using Hcall.
  unfold settled. intros Hs He. destruct e as [on| |i c|i| | |]; cbn in He.
  - by injection He as <-.
  - injection He as <-. cbn. rewrite owed_all_app. cbn. lia.
  - destruct (st_gors s !! i) as [g|] eqn:Hi; [|done]. cbn in He. destruct (g_todo g) as [|a l] eqn:Et; [|done].
    destruct (stat_call _ _ _) as [g'|] eqn:Ec; [|done]. injection He as <-. cbn.
    rewrite (owed_all_set _ _ g) by done. rewrite (Hcall _ _ _ _ Ec Et), Et. cbn. lia.
  - destruct (st_gors s !! i) as [g|] eqn:Hi; [|done]. cbn in He. destruct (g_todo g) as [|[k n] l] eqn:Et; [done|].
    injection He as <-. cbn [st_counts st_gors set_gor]. rewrite (owed_all_set _ _ g) by done. cbn [g_todo]. rewrite Et. cbn [owed].
    pose proof (add_weight (st_counts s) k n). lia.
  - destruct (st_line s); [done|]. destruct (st_started s); [|done]. by injection He as <-.
  - destruct (st_line s) as [l|]; [|done]. cbn in He. destruct (loads !! length l); [|done]. by injection He as <-.
  - destruct (st_line s) as [l|]; [|done]. cbn in He. destruct (_ =? _)%nat; [|done]. by injection He as <-.
Qed.
Lemma settled_run es s s' : settled s -> stat_run s es = Some s' -> settled s'.
Proof using Hcall.
  revert s. induction es as [|e es IH]; intros s Hs Hr; cbn in Hr; [by injection Hr as <-|].
  destruct (stat_step s e) as [s1|] eqn:He; [|done]. eapply IH; [|exact Hr]. by eapply settled_step.
Qed.
Lemma settled_parts s : settled s -> parts (st_counts s) <= st_counts s T.
Proof using. unfold settled. pose proof (owed_all_pos (st_gors s)). lia. Qed.
End Parts.

Ltac call_cases := intros on g c g' Hc Ht; unfold stat_call in Hc;
  destruct c as [ip|n|n|k]; [destruct on| | |destruct (plain k) eqn:Hk; [|done]]; injection Hc as <-; cbn [g_todo];
  [unfold pre_adds, gen_adds; destruct (parseTCP ip) as [sg|]; [|done];
   destruct (preSend_flow _ _) as [? []]; destruct (maxSeq _ !! _) as [mx|]; [destruct (_ <? 0)| |destruct (_ <? 0)| |destruct (_ <? 0)|]; done
  |by rewrite Ht|by destruct n|by destruct n|by destruct k].

Lemma pre_call on g c g' : stat_call on g c = Some g' -> g_todo g = [] -> owed KPreReseqTotal [KPreReseqOOO] (g_todo g') = 0.
Proof. revert on g c g'. call_cases. Qed.
Lemma gen_call on g c g' : stat_call on g c = Some g' -> g_todo g = [] -> owed KPreSendTotal [KPreSendGenuine; KPreSendRetr] (g_todo g') = 0.
Proof. revert on g c g'. call_cases. Qed.

(** At every instant of every run, whatever goroutines are half way through an
    observation, no more segments are counted as out of order than are counted,
    and the genuine reorders and retransmissions are together no more than the
    segments sent. *)
Theorem counts_consistent on es s : stat_run (start_stats on) es = Some s ->
  st_counts s KPreReseqOOO <= st_counts s KPreReseqTotal /\
  st_counts s KPreSendGenuine + st_counts s KPreSendRetr <= st_counts s KPreSendTotal.
Proof.
  intros Hr. pose proof (settled_parts _ _ _ (settled_run _ _ pre_call es (start_stats on) s ltac:(unfold settled; cbn; lia) Hr)) as H1.
  pose proof (settled_parts _ _ _ (settled_run _ _ gen_call es (start_stats on) s ltac:(unfold settled; cbn; lia) Hr)) as H2. cbn in H1, H2. lia.
Qed.

(** ** What a line shows *)

Lemma percent_range n d : 0 <= n <= d -> (0 <= percent n d <= 100)%Q.
Proof.
  intros H. unfold percent. destruct (0 <? d) eqn:E; [|by split]. apply Z.ltb_lt in E.
  assert (Hd : (0 < inject_Z d)%Q) by (change 0%Q with (inject_Z 0); rewrite <- Zlt_Qlt; lia). split.
  - apply Qle_shift_div_l; [done|]. rewrite Qmult_0_l. change 0%Q with (inject_Z 0). rewrite <- Zle_Qle. lia.
  - apply Qle_shift_div_r; [done|]. change 100%Q with (inject_Z 100). rewrite <- inject_Z_mult, <- Zle_Qle. lia.
Qed.

Lemma stat_run_app es es' s : stat_run s (es ++ es') = s' ← stat_run s es; stat_run s' es'.
Proof. revert s. induction es as [|e es IH]; intros s; [done|]. cbn. destruct (stat_step s e); [apply IH|done]. Qed.

(** Every counter is loaded. *)
Lemma loaded_all (c : counts) k : loaded (map c loads) k = c k.
Proof. by destruct k. Qed.

(** A turn undisturbed. *)
Definition set_line (s : statState) (l : list Z) : statState :=
  {| st_on := st_on s; st_started := st_started s; st_counts := st_counts s; st_gors := st_gors s; st_line := Some l; st_out := st_out s |}.
Lemma run_loads ks : forall s l, st_line s = Some l -> drop (length l) loads = ks ->
  stat_run s (replicate (length ks) SLoad) = Some (set_line s (l ++ map (st_counts s) ks)).
Proof.
  induction ks as [|k ks IH]; intros s l Hl Hk.
  - cbn. rewrite app_nil_r. f_equal. destruct s; cbn in Hl. by subst.
  - assert (Hn : loads !! length l = Some k) by (rewrite <- (Nat.add_0_r (length l)), <- lookup_drop, Hk; done).
    cbn [length replicate stat_run stat_step]. rewrite Hl. cbn [mbind option_bind]. rewrite Hn. cbn [mbind option_bind].
    rewrite (IH _ (l ++ [st_counts s k])); [by cbn; rewrite <- app_assoc|done|].
    rewrite length_app. cbn [length]. by rewrite <- drop_drop, Hk.
Qed.

(** ** Counters only grow *)

Local Abbreviation le := (Forall2 Z.le).
Definition cvals (s : statState) : list Z := map (st_counts s) loads.

Record lines_inv (s : statState) : Prop := {
  li_adds : Forall (fun g => Forall (fun a => 0 <= a.2) (g_todo g)) (st_gors s);
  li_pos k : 0 <= st_counts s k;
  li_out x : x ∈ st_out s -> le (sl_loaded x) (cvals s);
  li_line l : st_line s = Some l -> le l (take (length l) (cvals s)) /\ forall x, x ∈ st_out s -> le (take (length l) (sl_loaded x)) l;
  li_order i j x y : (i < j)%nat -> st_out s !! i = Some x -> st_out s !! j = Some y -> le (sl_loaded x) (sl_loaded y)
}.

Lemma call_adds on g c g' : stat_call on g c = Some g' -> g_todo g = [] -> Forall (fun a => 0 <= a.2) (g_todo g').
Proof.
  intros Hc Ht. assert (Hn : forall l, forallb (fun a : statCounter * Z => 0 <=? a.2) l = true -> Forall (fun a => 0 <= a.2) l).
  { intros l Hl. rewrite forallb_forall in Hl. apply List.Forall_forall. intros a Ha. apply Z.leb_le. by apply Hl. }
  apply Hn. revert on g c g' Hc Ht. call_cases.
Qed.
Lemma add_count_le s k n : 0 <= n -> forall k', st_counts s k' <= add_count (st_counts s) k n k'.
Proof. intros Hn k'. unfold add_count. case_decide; lia. Qed.
Lemma cvals_le (c c' : counts) : (forall k, c k <= c' k) -> le (map c loads) (map c' loads).
Proof. intros H. apply Forall2_fmap_2, Forall_Forall2_diag, Forall_forall. intros k _. apply H. Qed.
Lemma le_trans l1 l2 l3 : le l1 l2 -> le l2 l3 -> le l1 l3.
Proof. intros H. revert l3. induction H as [|x y l l' Hxy H IH]; intros l3 H3; inversion H3; subst; constructor; [lia|by apply IH]. Qed.

Lemma lines_inv_start on : lines_inv (start_stats on).
Proof. constructor; try done. intros x Hx. by apply elem_of_nil in Hx. Qed.
Lemma lines_inv_step s e s' : lines_inv s -> stat_step s e = Some s' -> lines_inv s'.
Proof.
  intros [H1 H2 H3 H4 H5] He. destruct e as [on| |i c|i| | |]; cbn in He.
  - injection He as <-. by constructor.
  - injection He as <-. constructor; try done. apply Forall_app. split; [done|]. constructor; [constructor|constructor].
  - destruct (st_gors s !! i) as [g|] eqn:Hi; [|done]. cbn in He. destruct (g_todo g) as [|a l] eqn:Et; [|done].
    destruct (stat_call _ _ _) as [g'|] eqn:Ec; [|done]. injection He as <-. constructor; try done.
    apply Forall_insert; [done|]. by eapply call_adds.
  - destruct (st_gors s !! i) as [g|] eqn:Hi; [|done]. cbn in He. destruct (g_todo g) as [|[k n] l] eqn:Et; [done|].
    pose proof (Forall_lookup_1 _ _ _ _ H1 Hi) as Hg. cbn in Hg. rewrite Et in Hg. inversion Hg as [|? ? Hn Hrest]; subst. cbn in Hn.
    injection He as <-. pose proof (add_count_le s k n Hn) as Hc. pose proof (cvals_le _ _ Hc) as Hv. constructor; cbn [set_gor st_gors st_counts st_line st_out] in *.
    + by apply Forall_insert.
    + intros k'. specialize (H2 k'). specialize (Hc k'). lia.
    + intros x Hx. eapply le_trans; [by apply H3|done].
    + intros l0 Hl0. destruct (H4 l0 Hl0) as [L1 L2]. split; [|done]. eapply le_trans; [exact L1|]. by apply Forall2_take.
    + done.
  - destruct (st_line s); [done|]. destruct (st_started s); [|done]. injection He as <-. constructor; try done.
    intros l [= <-]. split; [constructor|]. intros x _. constructor.
  - destruct (st_line s) as [l|] eqn:El; [|done]. cbn in He. destruct (loads !! length l) as [k|] eqn:Ek; [|done]. injection He as <-.
    constructor; try done. cbn [st_line st_out]. intros l' [= <-]. destruct (H4 l eq_refl) as [L1 L2]. rewrite length_app, Nat.add_comm. cbn [length Nat.add].
    assert (Hc : cvals s !! length l = Some (st_counts s k)) by (unfold cvals; by rewrite list_lookup_fmap, Ek). split.
    + change (cvals _) with (cvals s). rewrite (take_S_r _ _ _ Hc). apply Forall2_app; [done|]. by repeat constructor.
    + intros x Hx. destruct (Forall2_lookup_r _ _ _ _ _ (H3 x Hx) Hc) as (v & Hv & Hle). rewrite (take_S_r _ _ _ Hv).
      apply Forall2_app; [by apply L2|]. by repeat constructor.
  - destruct (st_line s) as [l|] eqn:El; [|done]. cbn in He. destruct (_ =? _)%nat eqn:En; [|done]. injection He as <-.
    apply Nat.eqb_eq in En. destruct (H4 l eq_refl) as [L1 L2]. assert (Hlc : length (cvals s) = length l) by (unfold cvals; by rewrite length_map).
    rewrite take_ge in L1 by lia. destruct (st_on s); [|by constructor].
    assert (Lx : forall x, x ∈ st_out s -> le (sl_loaded x) l).
    { intros x Hx. specialize (L2 x Hx). rewrite take_ge in L2; [done|]. pose proof (Forall2_length _ _ _ (H3 x Hx)). lia. }
    constructor; try done; cbn [st_out].
    + intros x [Hx| ->%list_elem_of_singleton]%elem_of_app; [by apply H3|done].
    + intros i j x y Hij Hi Hj. apply lookup_app_Some in Hj as [Hj|[Hj1 Hj2]].
      * pose proof (lookup_lt_Some _ _ _ Hj). rewrite lookup_app_l in Hi by lia. by apply (H5 i j).
      * destruct (j - length (st_out s))%nat eqn:Ej; [|done]. injection Hj2 as <-. rewrite lookup_app_l in Hi by lia.
        apply Lx. by eapply list_elem_of_lookup_2.
Qed.
Lemma lines_inv_run es s s' : lines_inv s -> stat_run s es = Some s' -> lines_inv s'.
Proof.
  revert s. induction es as [|e es IH]; intros s Hs Hr; cbn in Hr; [by injection Hr as <-|].
  destruct (stat_step s e) as [s1|] eqn:He; [|done]. eapply IH; [|exact Hr]. by eapply lines_inv_step.
Qed.

(** A line never shows less of any counter than an earlier one, whatever was
    going on while they were loaded. *)
Theorem lines_grow on es s i j x y : stat_run (start_stats on) es = Some s -> (i < j)%nat ->
  st_out s !! i = Some x -> st_out s !! j = Some y -> Forall2 Z.le (sl_loaded x) (sl_loaded y).
Proof. intros Hr. eapply li_order. eapply lines_inv_run; [apply lines_inv_start|exact Hr]. Qed.

(** A turn of the printing goroutine during which nothing is added prints a line
    with the counters' values, and its percentages are percentages. *)
Theorem quiet_line on es s : stat_run (start_stats on) es = Some s -> st_line s = Some [] -> st_on s = true ->
  exists s' ln, stat_run s (replicate (length loads) SLoad ++ [SPrint]) = Some s' /\ st_out s' = st_out s ++ [ln] /\
    sl_loaded ln = map (st_counts s) loads /\
    (0 <= prePct ln <= 100)%Q /\ (0 <= psGenPct ln <= 100)%Q /\ (0 <= psRetrPct ln <= 100)%Q.
Proof.
  intros Hr Hl Hon. destruct (counts_consistent on es s Hr) as [H1 H2].
  pose proof (li_pos _ (lines_inv_run _ _ _ (lines_inv_start on) Hr)) as Hp.
  rewrite stat_run_app, (run_loads loads s []) by done. cbn [app mbind option_bind stat_run stat_step set_line st_line st_on st_out].
  rewrite length_map, Nat.eqb_refl, Hon. eexists _, _. split; [done|]. split; [done|]. split; [done|].
  pose proof (Hp KPreReseqOOO). pose proof (Hp KPreSendGenuine). pose proof (Hp KPreSendRetr).
  split; [|split]; apply percent_range; rewrite !loaded_all; lia.
Qed.

(** A line loaded while segments are observed can show more segments out of order
    than segments: the total is loaded first.  A goroutine that observes two
    segments before the total is loaded, the second out of order, and two more
    that are out of order before the next load makes the line say 3 out of 2. *)
Definition observe_one (s : Z) (adds : nat) : list statEvent := SCall 0 (CObserve (seg_pkt s)) :: replicate adds (SAdd 0).
Definition race_run : list statEvent :=
  SGo :: observe_one 100 2 ++ observe_one 90 4 ++ STick :: replicate 13 SLoad ++
  observe_one 80 4 ++ observe_one 70 4 ++ replicate 4 SLoad ++ [SPrint].
Theorem percent_over_100 : exists s ln, stat_run (start_stats true) race_run = Some s /\ st_out s = [ln] /\
  loaded (sl_loaded ln) KPreReseqTotal = 2 /\ loaded (sl_loaded ln) KPreReseqOOO = 3 /\ (100 < prePct ln)%Q.
Proof.
  assert (E : (fun s => map (fun ln => (loaded (sl_loaded ln) KPreReseqTotal, loaded (sl_loaded ln) KPreReseqOOO, Qcompare 100 (prePct ln))) (st_out s))
    <$> stat_run (start_stats true) race_run = Some [(2, 3, Lt)]) by (vm_compute; reflexivity).
  destruct (stat_run (start_stats true) race_run) as [s|]; [|done]. injection E as E.
  destruct (st_out s) as [|ln [|? ?]] eqn:Eo; [done| |done]. injection E as E1 E2 E3. exists s, ln.
  split; [done|]. split; [done|]. split; [done|]. split; [done|]. by apply Qlt_alt.
Qed.

(** ** The switch *)

(** With the statistics off in the configuration the server started with, no line
    is ever printed, also after the watcher has switched them on: the printing
    goroutine was never started. *)
Theorem enabled_late_silent es s : stat_run (start_stats false) es = Some s -> st_out s = [].
Proof.
  assert (H : forall es s0 s, st_started s0 = false -> st_line s0 = None -> st_out s0 = [] -> stat_run s0 es = Some s -> st_out s = []).
  { clear. induction es as [|e es IH]; intros s0 s H1 H2 H3 Hr; cbn in Hr; [by injection Hr as <-|].
    destruct (stat_step s0 e) as [s1|] eqn:He; [|done]. cbn in Hr. destruct e as [on| |i c|i| | |]; cbn in He; rewrite ?H2, ?H1 in He; try done.
    - injection He as <-. by eapply IH; [..|exact Hr].
    - injection He as <-. by eapply IH; [..|exact Hr].
    - destruct (st_gors s0 !! i) as [g|]; [|done]. cbn in He. destruct (g_todo g); [|done]. destruct (stat_call _ _ _); [|done].
      injection He as <-. by eapply IH; [..|exact Hr].
    - destruct (st_gors s0 !! i) as [g|]; [|done]. cbn in He. destruct (g_todo g) as [|[k n] l]; [done|].
      injection He as <-. by eapply IH; [..|exact Hr]. }
  by apply H.
Qed.
